(** * aic / cc-latest: changelog normalisation, verified against the Go sources

    The development embeds the parsing, normalisation and aggregation code
    of [src/main.go] (the first multi-source program) and of the later
    program with sections, timestamps and the [latest] / [status] views.

    Go strings are byte strings: they are modelled as [string], whose
    characters are the 256 byte values.  Go runtime panics (slice or index
    out of range) are modelled by [option]. *)

From Stdlib Require Import ZArith List Bool Ascii String Lia.
From Stdlib Require Import Permutation Sorted.
From Stdlib Require Import DecimalString.
From Stdlib Require DecimalFacts DecimalPos QArith.
Import ListNotations.

Local Open Scope string_scope.
Local Open Scope Z_scope.

Set Implicit Arguments.

(* ------------------------------------------------------------------ *)
(** * The parts of the Go runtime library the program calls *)

Module strings.

(** The byte with code [n]. *)
Definition byte (n : nat) : ascii := ascii_of_nat n.

Definition nl : string := String (byte 10) EmptyString.

(** [len(s)] *)
Definition len (s : string) : Z := Z.of_nat (String.length s).

(** [s[n:]] for [n <= len(s)]; the empty string past the end. *)
Fixpoint skip (n : nat) (s : string) : string :=
  match n, s with
  | O, _ => s
  | S n', String _ s' => skip n' s'
  | S _, EmptyString => EmptyString
  end.

(** [strings.HasPrefix(s, prefix)] *)
Fixpoint HasPrefix (s prefix : string) {struct prefix} : bool :=
  match prefix, s with
  | EmptyString, _ => true
  | String p prefix', String c s' => Ascii.eqb c p && HasPrefix s' prefix'
  | String _ _, EmptyString => false
  end.

(** [strings.TrimPrefix(s, prefix)]: [s] without the leading [prefix], or
    [s] itself when it does not start with [prefix]. *)
Definition TrimPrefix (s prefix : string) : string :=
  if HasPrefix s prefix then skip (String.length prefix) s else s.

(** [strings.Split(s, sep)] for a separator of one byte, which is the only
    use the program makes of it ([sep = "\n"]).  The result always has at
    least one element. *)
Fixpoint Split (s : string) (sep : ascii) : list string :=
  match s with
  | EmptyString => [EmptyString]
  | String c s' =>
      if Ascii.eqb c sep then EmptyString :: Split s' sep
      else match Split s' sep with
           | [] => [String c EmptyString]
           | l :: ls => String c l :: ls
           end
  end.

(** ** [strings.TrimSpace]

    [unicode.IsSpace] holds of the six ASCII bytes below and of the code
    points U+0085, U+00A0, U+1680, U+2000..U+200A, U+2028, U+2029, U+202F,
    U+205F and U+3000.  On a byte string the trimmed runes are therefore
    the leading and trailing occurrences of their UTF-8 encodings: every
    one of them is a valid, self-delimiting sequence, so both
    [utf8.DecodeRuneInString] at the front and
    [utf8.DecodeLastRuneInString] at the back recognise exactly these. *)

Definition asciiSpace (c : ascii) : bool :=
  let n := nat_of_ascii c in
  (Nat.eqb n 9 || Nat.eqb n 10 || Nat.eqb n 11 || Nat.eqb n 12
   || Nat.eqb n 13 || Nat.eqb n 32)%bool.

(** U+0085 is C2 85 and U+00A0 is C2 A0. *)
Definition space2 (a b : ascii) : bool :=
  let x := nat_of_ascii a in
  let y := nat_of_ascii b in
  (Nat.eqb x 194 && (Nat.eqb y 133 || Nat.eqb y 160))%bool.

(** U+1680 is E1 9A 80; U+2000..U+200A are E2 80 80..8A; U+2028, U+2029
    and U+202F are E2 80 A8, A9 and AF; U+205F is E2 81 9F; U+3000 is
    E3 80 80. *)
Definition space3 (a b c : ascii) : bool :=
  let x := nat_of_ascii a in
  let y := nat_of_ascii b in
  let z := nat_of_ascii c in
  ((Nat.eqb x 225 && Nat.eqb y 154 && Nat.eqb z 128)
   || (Nat.eqb x 226 && Nat.eqb y 128
       && ((Nat.leb 128 z && Nat.leb z 138)
           || Nat.eqb z 168 || Nat.eqb z 169 || Nat.eqb z 175))
   || (Nat.eqb x 226 && Nat.eqb y 129 && Nat.eqb z 159)
   || (Nat.eqb x 227 && Nat.eqb y 128 && Nat.eqb z 128))%bool.

(** Drops the white-space runes at the front of [s].  With [back = true]
    the string is read backwards (it is a reversed string), so that the
    bytes of an encoding come last-first. *)
Fixpoint dropSpace (back : bool) (s : string) : string :=
  match s with
  | String a s1 =>
      if asciiSpace a then dropSpace back s1
      else
        match s1 with
        | String b s2 =>
            if (if back then space2 b a else space2 a b)
            then dropSpace back s2
            else
              match s2 with
              | String c s3 =>
                  if (if back then space3 c b a else space3 a b c)
                  then dropSpace back s3
                  else s
              | EmptyString => s
              end
        | EmptyString => s
        end
  | EmptyString => s
  end.

Definition reverse (s : string) : string :=
  string_of_list_ascii (List.rev (list_ascii_of_string s)).

Definition TrimSpace (s : string) : string :=
  reverse (dropSpace true (reverse (dropSpace false s))).

(** [s[lo:hi]]: Go panics unless [0 <= lo <= hi <= len(s)]. *)
Definition slice (s : string) (lo hi : Z) : option string :=
  if (0 <=? lo) && (lo <=? hi) && (hi <=? len s)
  then Some (String.substring (Z.to_nat lo) (Z.to_nat (hi - lo)) s)
  else None.

(** [strings.Repeat(s, count)] for a [count] that is not negative. *)
Fixpoint Repeat (s : string) (count : nat) : string :=
  match count with
  | O => EmptyString
  | S count' => s ++ Repeat s count'
  end.

End strings.

(** [fmt.Sprintf("%d", n)] *)
Definition itoa (n : Z) : string := NilZero.string_of_int (Z.to_int n).

(* ------------------------------------------------------------------ *)
(** * Package [regexp]

    A pattern is embedded as its syntax tree.  Matching follows the
    leftmost-first rule of package [regexp]: among the matches that start
    earliest, the one a backtracking search finds first, every repetition
    being greedy.  The matcher works on bytes, which is what Go does on the
    patterns of this program: their atoms are ASCII literals and ASCII
    classes, and the only [.] is the [.+] that runs to the end of the text. *)

Module regexp.

Inductive regex : Type :=
| Empty                                   (* matches the empty string *)
| Lit (c : ascii)                         (* one given byte *)
| Class (p : ascii -> bool)               (* one byte of a class *)
| BeginText                               (* [^] without the [m] flag *)
| EndText                                 (* [$] without the [m] flag *)
| BeginLine                               (* [^] under [(?m)] *)
| EndLine                                 (* [$] under [(?m)] *)
| Cat (r1 r2 : regex)
| Alt (r1 r2 : regex)                     (* [r1|r2], [r1] preferred *)
| Quest (r : regex)                       (* [r?], greedy *)
| Star (r : regex)                        (* [r*], greedy *)
| Group (i : nat) (r : regex).            (* the [i]-th capturing group *)

Definition Plus (r : regex) : regex := Cat r (Star r).

(** [r{n}] *)
Fixpoint Repeat (n : nat) (r : regex) : regex :=
  match n with
  | O => Empty
  | S O => r
  | S n' => Cat r (Repeat n' r)
  end.

(** [r{0,n}], greedy: [(r(r(r)?)?)?] *)
Fixpoint AtMost (n : nat) (r : regex) : regex :=
  match n with
  | O => Empty
  | S n' => Quest (Cat r (AtMost n' r))
  end.

(** [r{n,m}] for [n <= m] *)
Definition Range (n m : nat) (r : regex) : regex :=
  Cat (Repeat n r) (AtMost (m - n) r).

(** A literal string. *)
Fixpoint Str (s : string) : regex :=
  match s with
  | EmptyString => Empty
  | String c EmptyString => Lit c
  | String c s' => Cat (Lit c) (Str s')
  end.

(** The Perl classes of RE2: [\d] is [0-9], [\s] is [\t\n\f\r ]. *)
Definition digit (c : ascii) : bool :=
  let n := nat_of_ascii c in (Nat.leb 48 n && Nat.leb n 57)%bool.

Definition space (c : ascii) : bool :=
  let n := nat_of_ascii c in
  (Nat.eqb n 9 || Nat.eqb n 10 || Nat.eqb n 12 || Nat.eqb n 13
   || Nat.eqb n 32)%bool.

Definition isNewline (c : ascii) : bool := Nat.eqb (nat_of_ascii c) 10.

(** [.] without the [s] flag: anything but a newline. *)
Definition anyButNewline (c : ascii) : bool := negb (isNewline c).

(** The highest group number of a pattern ([Regexp.NumSubexp]). *)
Fixpoint NumSubexp (r : regex) : nat :=
  match r with
  | Cat a b | Alt a b => Nat.max (NumSubexp a) (NumSubexp b)
  | Quest a | Star a => NumSubexp a
  | Group i a => Nat.max i (NumSubexp a)
  | _ => O
  end.

(** A position of the matcher in the text: the offset, the byte before it
    (for [^]), the text from there on, and the groups closed so far, the
    most recent first. *)
Record mstate : Type := MState {
  m_pos : nat;
  m_prev : option ascii;
  m_rest : string;
  m_caps : list (nat * (nat * nat))
}.

Definition step (s : mstate) (c : ascii) (rest : string) : mstate :=
  MState (S (m_pos s)) (Some c) rest (m_caps s).

Definition close (i : nat) (from : nat) (s : mstate) : mstate :=
  MState (m_pos s) (m_prev s) (m_rest s) ((i, (from, m_pos s)) :: m_caps s).

Definition atLineStart (s : mstate) : bool :=
  match m_prev s with
  | None => true
  | Some c => isNewline c
  end.

Definition atLineEnd (s : mstate) : bool :=
  match m_rest s with
  | EmptyString => true
  | String c _ => isNewline c
  end.

Definition atTextEnd (s : mstate) : bool :=
  match m_rest s with
  | EmptyString => true
  | String _ _ => false
  end.

Definition orElse {A : Type} (x y : option A) : option A :=
  match x with
  | Some _ => x
  | None => y
  end.

(** The backtracking matcher, in continuation-passing style: [exec r k s]
    matches [r] at [s] and hands every way of doing so, in order of
    preference, to [k] until [k] accepts one.  An iteration of a star that
    consumes nothing is not repeated. *)
Fixpoint exec (r : regex) (k : mstate -> option mstate) (s : mstate)
  {struct r} : option mstate :=
  match r with
  | Empty => k s
  | Lit c =>
      match m_rest s with
      | String c' rest => if Ascii.eqb c' c then k (step s c' rest) else None
      | EmptyString => None
      end
  | Class p =>
      match m_rest s with
      | String c' rest => if p c' then k (step s c' rest) else None
      | EmptyString => None
      end
  | BeginText => if Nat.eqb (m_pos s) 0 then k s else None
  | EndText => if atTextEnd s then k s else None
  | BeginLine => if atLineStart s then k s else None
  | EndLine => if atLineEnd s then k s else None
  | Cat a b => exec a (exec b k) s
  | Alt a b => orElse (exec a k s) (exec b k s)
  | Quest a => orElse (exec a k s) (k s)
  | Star a =>
      (fix loop (fuel : nat) (s0 : mstate) {struct fuel} : option mstate :=
         match fuel with
         | O => k s0
         | S fuel' =>
             orElse
               (exec a (fun s1 => if Nat.ltb (m_pos s0) (m_pos s1)
                                  then loop fuel' s1 else None) s0)
               (k s0)
         end) (String.length (m_rest s)) s
  | Group i a => exec a (fun s1 => k (close i (m_pos s) s1)) s
  end.

(** The matcher state at offset [pos] of [text]. *)
Fixpoint stateAt (prev : option ascii) (text : string) (pos : nat) (at_ : nat)
  : mstate :=
  match pos, text with
  | S pos', String c text' => stateAt (Some c) text' pos' (S at_)
  | _, _ => MState at_ prev text []
  end.

Definition lookupGroup (caps : list (nat * (nat * nat))) (i : nat)
  : option (nat * nat) :=
  match List.find (fun c => Nat.eqb (fst c) i) caps with
  | Some c => Some (snd c)
  | None => None
  end.

(** The index pairs of groups [i], [i+1], ..., [i+n-1]; [-1, -1] for a
    group that took no part in the match. *)
Fixpoint groupIndexes (caps : list (nat * (nat * nat))) (i n : nat) : list Z :=
  match n with
  | O => []
  | S n' =>
      match lookupGroup caps i with
      | Some (a, b) => Z.of_nat a :: Z.of_nat b :: groupIndexes caps (S i) n'
      | None => (-1) :: (-1) :: groupIndexes caps (S i) n'
      end
  end.

(** The leftmost match that starts at or after the matcher position [s]:
    [[start; end; g1start; g1end; ...]]. *)
Fixpoint search (r : regex) (fuel : nat) (s : mstate) : option (list Z) :=
  match exec r Some s with
  | Some fin =>
      Some (Z.of_nat (m_pos s) :: Z.of_nat (m_pos fin)
              :: groupIndexes (m_caps fin) 1 (NumSubexp r))
  | None =>
      match fuel, m_rest s with
      | S fuel', String c rest => search r fuel' (step s c rest)
      | _, _ => None
      end
  end.

(** [re.doExecute] from offset [pos] of [text]. *)
Definition doExecute (r : regex) (text : string) (pos : nat)
  : option (list Z) :=
  search r (String.length text) (stateAt None text pos O).

(** The width of the rune that [utf8.DecodeRuneInString] reads at the
    front of [s]; 0 at the end of the text, 1 on an invalid encoding. *)
Definition runeWidth (s : string) : nat :=
  let cont (c : ascii) (lo hi : nat) : bool :=
    (Nat.leb lo (nat_of_ascii c) && Nat.leb (nat_of_ascii c) hi)%bool in
  match s with
  | EmptyString => 0%nat
  | String b0 s1 =>
      let x := nat_of_ascii b0 in
      if Nat.ltb x 194 then 1%nat
      else
        match s1 with
        | EmptyString => 1%nat
        | String b1 s2 =>
            if Nat.leb x 223 then (if cont b1 128%nat 191%nat then 2 else 1)%nat
            else
              let lo := if Nat.eqb x 224 then 160%nat
                        else if Nat.eqb x 240 then 144%nat else 128%nat in
              let hi := if Nat.eqb x 237 then 159%nat
                        else if Nat.eqb x 244 then 143%nat else 191%nat in
              if Nat.ltb 244 x then 1%nat
              else if negb (cont b1 lo hi) then 1%nat
              else
                match s2 with
                | EmptyString => 1%nat
                | String b2 s3 =>
                    if negb (cont b2 128%nat 191%nat) then 1%nat
                    else if Nat.leb x 239 then 3%nat
                    else
                      match s3 with
                      | EmptyString => 1%nat
                      | String b3 _ =>
                          if cont b3 128%nat 191%nat then 4%nat else 1%nat
                      end
                end
        end
  end.

(** The loop of [Regexp.allMatches] with [n = -1]: successive
    non-overlapping matches; an empty match right after the previous match
    is not delivered. *)
Fixpoint allMatches (r : regex) (text : string) (fuel : nat) (pos : nat)
  (prevMatchEnd : Z) : list (list Z) :=
  match fuel with
  | O => []
  | S fuel' =>
      if Nat.ltb (String.length text) pos then []
      else
        match doExecute r text pos with
        | None => []
        | Some m =>
            let m0 := List.nth 0 m 0 in
            let m1 := List.nth 1 m 0 in
            let empty := (m1 =? Z.of_nat pos) in
            let accept := negb (empty && (m0 =? prevMatchEnd)) in
            let pos' :=
              if empty then
                match runeWidth (strings.skip pos text) with
                | O => S (String.length text)
                | w => (pos + w)%nat
                end
              else Z.to_nat m1 in
            let rest := allMatches r text fuel' pos' m1 in
            if accept then m :: rest else rest
        end
  end.

(** [re.FindAllStringSubmatchIndex(text, -1)] *)
Definition FindAllStringSubmatchIndex (r : regex) (text : string)
  : list (list Z) :=
  allMatches r text (S (S (String.length text))) 0 (-1).

(** The text of each group of one match, [""] for a group that took no
    part; element 0 is the whole match. *)
Fixpoint submatchStrings (text : string) (m : list Z) : list string :=
  match m with
  | a :: b :: m' =>
      match strings.slice text a b with
      | Some g => g :: submatchStrings text m'
      | None => EmptyString :: submatchStrings text m'
      end
  | _ => []
  end.

(** [re.FindAllStringSubmatch(text, -1)] *)
Definition FindAllStringSubmatch (r : regex) (text : string)
  : list (list string) :=
  List.map (submatchStrings text) (FindAllStringSubmatchIndex r text).

(** [re.FindStringSubmatch(text)]: [nil] when there is no match. *)
Definition FindStringSubmatch (r : regex) (text : string)
  : option (list string) :=
  match doExecute r text 0 with
  | Some m => Some (submatchStrings text m)
  | None => None
  end.

(** ** What can be read off a pattern *)

(** The least number of bytes a match of the pattern consumes. *)
Fixpoint minLen (r : regex) : nat :=
  match r with
  | Lit _ | Class _ => 1
  | Cat a b => minLen a + minLen b
  | Alt a b => Nat.min (minLen a) (minLen b)
  | Group _ a => minLen a
  | _ => 0
  end.

(** Group [i] occurs in the pattern. *)
Fixpoint hasGroup (i : nat) (r : regex) : bool :=
  match r with
  | Cat a b | Alt a b => hasGroup i a || hasGroup i b
  | Quest a | Star a => hasGroup i a
  | Group j a => Nat.eqb i j || hasGroup i a
  | _ => false
  end.

(** A sufficient condition for group [i] to take part in every match of
    the pattern, on at least one byte: the group lies on every path
    through the pattern, outside any repetition, and nothing after it
    closes it again. *)
Fixpoint alwaysCaptures (i : nat) (r : regex) : bool :=
  match r with
  | Cat a b =>
      (alwaysCaptures i a && negb (hasGroup i b)) || alwaysCaptures i b
  | Alt a b => alwaysCaptures i a && alwaysCaptures i b
  | Group j a =>
      if Nat.eqb i j then Nat.leb 1 (minLen a) else alwaysCaptures i a
  | _ => false
  end.

End regexp.

(* ------------------------------------------------------------------ *)
(** * Packages [unicode/utf8] and [fmt] *)

Module utf8.

(** The runes of [s], read one after the other from the front. *)
Fixpoint runesFrom (fuel : nat) (s : string) : nat :=
  match fuel, s with
  | S fuel', String _ _ =>
      S (runesFrom fuel' (strings.skip (regexp.runeWidth s) s))
  | _, _ => O
  end.

(** [utf8.RuneCountInString(s)]: a byte that starts no valid encoding
    counts as one rune. *)
Definition RuneCountInString (s : string) : Z :=
  Z.of_nat (runesFrom (String.length s) s).

End utf8.

Module fmt.

(** The verb [%-*s] of [Printf] with the width [wid]: the string, and
    after it the spaces that it lacks to [wid] runes ([fmt.padString] under
    the minus flag). *)
Definition padRight (wid : Z) (s : string) : string :=
  s ++ strings.Repeat " " (Z.to_nat (wid - utf8.RuneCountInString s)).

End fmt.

(* ------------------------------------------------------------------ *)
(** * [float64]

    The program converts durations to hours and minutes through
    [float64].  A finite [float64] is modelled as the rational it stands
    for, in lowest terms; every operation returns the exact result rounded
    to 53 significant bits, to the nearest such number and to the one with
    an even last bit on a tie (IEEE 754 binary64, round to nearest even).
    Overflow, subnormal numbers and the sign of zero are left out: the
    numbers of the program are 0 or of a magnitude between 2^-42 and
    2^22. *)

Module float64.
Import QArith_base Qreduction.
Local Open Scope Z_scope.

Definition t : Type := Q.

(** The fraction [a/d] scaled by [2^-e]. *)
Definition scaled (a d e : Z) : Z * Z :=
  (a * 2 ^ Z.max 0 (- e), d * 2 ^ Z.max 0 e).

(** The exponent of the last bit of [a/d], for positive [a] and [d]: the
    [e] with [2^52 <= a/d * 2^-e < 2^53]. *)
Definition exponent (a d : Z) : Z :=
  let e0 := Z.log2 a - Z.log2 d - 53 in
  let (n, m) := scaled a d e0 in
  if n / m <? 2 ^ 53 then e0 else e0 + 1.

(** The integer nearest to [n/m], the even one on a tie. *)
Definition nearestEven (n m : Z) : Z :=
  let q := n / m in
  let r := n mod m in
  if 2 * r <? m then q
  else if m <? 2 * r then q + 1
  else if Z.even q then q else q + 1.

Definition round (x : Q) : t :=
  let a := Z.abs (Qnum x) in
  let d := Z.pos (Qden x) in
  if a =? 0 then Qmake 0 1
  else
    let e := exponent a d in
    let (n, m) := scaled a d e in
    Qred (Qmake (Z.sgn (Qnum x) * nearestEven n m * 2 ^ Z.max 0 e)
            (Z.to_pos (2 ^ Z.max 0 (- e)))).

(** [float64(z)] *)
Definition ofInt (z : Z) : t := round (inject_Z z).

(** [x + y] and [x / y] *)
Definition add (x y : t) : t := round (Qplus x y).
Definition div (x y : t) : t := round (Qdiv x y).

(** [int(x)]: the fraction is dropped. *)
Definition toInt (x : t) : Z := Z.quot (Qnum x) (Z.pos (Qden x)).

End float64.

(* ------------------------------------------------------------------ *)
(** * Package [time]

    A [time.Time] is an instant; it is modelled as the number of
    nanoseconds since the zero time (January 1 of year 1, 00:00 UTC), so
    that [Time{}] is 0.  A [time.Duration] is an [int64] count of
    nanoseconds. *)

Module time.

Definition Time : Type := Z.
Definition Duration : Type := Z.

Definition zero : Time := 0.

Definition Nanosecond : Duration := 1.
Definition Second : Duration := 1000000000.
Definition Minute : Duration := 60 * Second.
Definition Hour : Duration := 60 * Minute.

Definition minDuration : Duration := - 2 ^ 63.
Definition maxDuration : Duration := 2 ^ 63 - 1.

(** [t.IsZero()] *)
Definition IsZero (t : Time) : bool := t =? 0.

(** [t.After(u)] *)
Definition After (t u : Time) : bool := u <? t.

(** [t.Add(d)] *)
Definition Add (t : Time) (d : Duration) : Time := t + d.

(** [t.Sub(u)]: the difference, clamped to the range of a [Duration]. *)
Definition Sub (t u : Time) : Duration :=
  let d := t - u in
  if d <? minDuration then minDuration
  else if maxDuration <? d then maxDuration
  else d.

(** [int64] arithmetic on durations: the sum wraps around, the quotient
    truncates towards zero. *)
Definition wrap (x : Z) : Duration := (x + 2 ^ 63) mod 2 ^ 64 - 2 ^ 63.
Definition add (d e : Duration) : Duration := wrap (d + e).
Definition div (d n : Duration) : Duration := Z.quot d n.

(** [d.Hours()] and [d.Minutes()], as package [time] defines them:
    [hour := d / Hour; nsec := d % Hour;
     return float64(hour) + float64(nsec)/(60*60*1e9)],
    and the same with [Minute] and [60*1e9]. *)
Definition Hours (d : Duration) : float64.t :=
  let hour := Z.quot d Hour in
  let nsec := Z.rem d Hour in
  float64.add (float64.ofInt hour)
    (float64.div (float64.ofInt nsec)
       (float64.ofInt (60 * 60 * 1000000000))).

Definition Minutes (d : Duration) : float64.t :=
  let min := Z.quot d Minute in
  let nsec := Z.rem d Minute in
  float64.add (float64.ofInt min)
    (float64.div (float64.ofInt nsec) (float64.ofInt (60 * 1000000000))).

(** [int(d.Minutes())] and [int(d.Hours())] *)
Definition intMinutes (d : Duration) : Z := float64.toInt (Minutes d).
Definition intHours (d : Duration) : Z := float64.toInt (Hours d).

End time.

(* ------------------------------------------------------------------ *)
(** * Package [sort]

    [sort.Slice] runs an insertion sort on at most 12 elements, which
    is all the program sorts: one row per source of a registry of five.
    Each element in turn is swapped leftwards while it is [less] than its
    left neighbour. *)

Module sort.

Section Slice.
Variable A : Type.
Variable less : A -> A -> bool.

(** [sunk] is the sorted part, rightmost element first; [x] moves left
    past every element it is less than. *)
Fixpoint sink (x : A) (sunk : list A) : list A :=
  match sunk with
  | [] => [x]
  | y :: sunk' => if less x y then y :: sink x sunk' else x :: sunk
  end.

Definition Slice (l : list A) : list A :=
  List.rev (List.fold_left (fun sunk x => sink x sunk) l []).

End Slice.

End sort.

(* ------------------------------------------------------------------ *)
(** * The outside world

    The program reads the network and the clock.  A world answers every
    URL and every reading of the clock; a run records the URLs it has
    requested and counts its clock readings. *)

Inductive response : Type :=
| TransportError (msg : string)
    (* the request fails: [err != nil] from [http.Get] or [Client.Do] *)
| Response (StatusCode : Z) (Status : string) (body : string + string).
    (* a response; its body, or on the left the error of reading it *)

Record World : Type := MkWorld {
  http : string -> response;
  clock : nat -> time.Time
}.

Record trace : Type := MkTrace {
  requests : list string;
  ticks : nat
}.

(** A computation reads the world and extends the trace; [None] is a
    run-time panic, which ends the program. *)
Definition IO (A : Type) : Type := World -> trace -> option A * trace.

Definition ret {A : Type} (a : A) : IO A := fun _ tr => (Some a, tr).

Definition bind {A B : Type} (m : IO A) (k : A -> IO B) : IO B :=
  fun w tr =>
    match m w tr with
    | (Some a, tr') => k a w tr'
    | (None, tr') => (None, tr')
    end.

Notation "x <- m ;; k" := (bind m (fun x => k))
  (at level 61, m at next level, right associativity).

(** A partial result: its [None] is a panic. *)
Definition orPanic {A : Type} (x : option A) : IO A := fun _ tr => (x, tr).

(** One HTTP GET. *)
Definition request (url : string) : IO response :=
  fun w tr => (Some (http w url), MkTrace ((requests tr ++ [url])%list) (ticks tr)).

(** [time.Now()] *)
Definition Now : IO time.Time :=
  fun w tr => (Some (clock w (ticks tr)), MkTrace (requests tr) (S (ticks tr))).

(** A run from the empty trace. *)
Definition run {A : Type} (m : IO A) (w : World) : option A * trace :=
  m w (MkTrace [] 0).

(** A Go [error] is represented by its message. *)
Definition error : Type := string.

(** One element of the releases listing. *)
Record Release : Type := MkRelease {
  TagName : string;
  RelName : string;
  Body : string;
  PublishedAt : string
}.

(** The decoders the program takes from the standard library:
    [time.Parse(layout, value)], and [json.Decoder.Decode] into the
    releases listing and into the commit listing (of which the program
    declares the committer dates only).  The decoders read the response
    body, so a body that cannot be read is theirs to report. *)
Class Decoders : Type := {
  time_Parse : string -> string -> option time.Time;
  json_releases : string + string -> error + list Release;
  json_commits : string + string -> error + list string
}.

(** [t, _ := time.Parse(layout, value)]: the zero time on an error. *)
Definition parseOrZero `{Decoders} (layout value : string) : time.Time :=
  match time_Parse layout value with
  | Some t => t
  | None => time.zero
  end.

Definition RFC3339 : string := "2006-01-02T15:04:05Z07:00".

(** [t.Format(layout)], also taken from the standard library: what it
    writes depends on the location that the time carries. *)
Class Formatter : Type := {
  time_Format : time.Time -> string -> string
}.

(** [httpGet(url)] *)
Definition httpGet (url : string) : IO (error + string) :=
  resp <- request url ;;
  ret match resp with
      | TransportError msg => inl ("HTTP request failed: " ++ msg)
      | Response code status body =>
          if negb (code =? 200)
          then inl ("HTTP " ++ itoa code ++ ": " ++ status)
          else match body with
               | inl msg => inl ("failed to read response: " ++ msg)
               | inr b => inr b
               end
      end.

(* ------------------------------------------------------------------ *)
(** * The patterns of the program *)

Module patterns.
Import regexp.

Definition d : regex := Class digit.
Definition s : regex := Class space.

(** [\d+\.\d+\.\d+] *)
Definition semver : regex :=
  Cat (Plus d) (Cat (Lit ".") (Cat (Plus d) (Cat (Lit ".") (Plus d)))).

(** [\d{4}-\d{2}-\d{2}] *)
Definition isoDate : regex :=
  Cat (Repeat 4 d) (Cat (Lit "-") (Cat (Repeat 2 d) (Cat (Lit "-") (Repeat 2 d)))).

(** [[\d.]+] *)
Definition dotted : regex :=
  Plus (Class (fun c => digit c || Ascii.eqb c "."))%bool.

(** [(?m)^## (\d+\.\d+\.\d+)\s*$] *)
Definition claudeV1 : regex :=
  Cat BeginLine (Cat (Str "## ") (Cat (Group 1 semver) (Cat (Star s) EndLine))).

(** [(?m)^## ([\d.]+) - \d{4}-\d{2}-\d{2}\s*$] *)
Definition copilotV1 : regex :=
  Cat BeginLine (Cat (Str "## ") (Cat (Group 1 dotted)
    (Cat (Str " - ") (Cat isoDate (Cat (Star s) EndLine))))).

(** [(?m)^## (\d+\.\d+\.\d+)(?:\s+\((\d{4}-\d{2}-\d{2})\))?\s*$] *)
Definition claude : regex :=
  Cat BeginLine (Cat (Str "## ") (Cat (Group 1 semver)
    (Cat (Quest (Cat (Plus s) (Cat (Lit "(") (Cat (Group 2 isoDate) (Lit ")")))))
      (Cat (Star s) EndLine)))).

(** [(?m)^## ([\d.]+) - (\d{4}-\d{2}-\d{2})\s*$] *)
Definition copilot : regex :=
  Cat BeginLine (Cat (Str "## ") (Cat (Group 1 dotted)
    (Cat (Str " - ") (Cat (Group 2 isoDate) (Cat (Star s) EndLine))))).

(** [^#{1,3}\s+(.+)$] *)
Definition header : regex :=
  Cat BeginText (Cat (Range 1 3 (Lit "#")) (Cat (Plus s)
    (Cat (Group 1 (Plus (Class anyButNewline))) EndText))).

End patterns.

Notation "'let?' x ':=' m 'in' k" :=
  (match m with Some x => k | None => None end)
  (at level 10, x name, m at level 100, k at level 200).

Definition newline : ascii := strings.byte 10.

(** [c.Do(req)] on the releases listing of a repository, up to the decoded
    payload: shared by both programs' [fetchGitHubReleases], whose first
    half is the same.  [http.NewRequest] cannot fail on these URLs. *)
Definition getReleases `{Decoders} (owner repo : string)
  : IO (error + list Release) :=
  let url := "https://api.github.com/repos/" ++ owner ++ "/" ++ repo
             ++ "/releases" in
  resp <- request url ;;
  ret match resp with
      | TransportError msg => inl ("HTTP request failed: " ++ msg)
      | Response code status body =>
          if negb (code =? 200)
          then inl ("HTTP " ++ itoa code ++ ": " ++ status)
          else match json_releases body with
               | inl msg => inl ("failed to parse releases: " ++ msg)
               | inr releases => inr releases
               end
      end.

(** The prefix stripping of [fetchGitHubReleases], the same three
    statements in both programs:
    [ver := rel.TagName; ver = strings.TrimPrefix(ver, "v");
     ver = strings.TrimPrefix(ver, "rust-v")]. *)
Definition normalizeTag (tag : string) : string :=
  let ver := tag in
  let ver := strings.TrimPrefix ver "v" in
  let ver := strings.TrimPrefix ver "rust-v" in
  ver.

(** [parseChanges], the same function in both programs. *)
Definition parseChanges (content : string) : list string :=
  let lines := strings.Split content newline in
  List.fold_left
    (fun changes line =>
       let trimmed := strings.TrimSpace line in
       if strings.HasPrefix trimmed "- "
       then (changes ++ [strings.TrimPrefix trimmed "- "])%list
       else changes)
    lines [].

(** The end of the span of match [i]: the start of match [i+1], or the
    end of the document. *)
Definition contentEndOf (content : string) (matches : list (list Z)) (i : nat)
  : option Z :=
  if (Z.of_nat i + 1 <? Z.of_nat (List.length matches))
  then let? next := List.nth_error matches (i + 1) in List.nth_error next 0
  else Some (strings.len content).

(* ------------------------------------------------------------------ *)
(** * The first multi-source program ([src/main.go]) *)

Module Legacy.

Module ChangelogEntry.
Record t : Type := Make {
  Version : string;
  Changes : list string
}.
End ChangelogEntry.
Import ChangelogEntry.

(** The loop of [parseMarkdownChangelog] from iteration [i] on. *)
Fixpoint collect (content : string) (matches : list (list Z)) (i : nat)
  (todo : list (list Z)) (entries : list t) : option (list t) :=
  match todo with
  | [] => Some entries
  | match_ :: todo' =>
      let? versionEnd := List.nth_error match_ 1 in
      let? m2 := List.nth_error match_ 2 in
      let? m3 := List.nth_error match_ 3 in
      let? ver := strings.slice content m2 m3 in
      let? contentEnd := contentEndOf content matches i in
      let? sectionContent := strings.slice content versionEnd contentEnd in
      let changes := parseChanges sectionContent in
      collect content matches (S i) todo'
        (entries ++ [Make ver changes])%list
  end.

Definition parseMarkdownChangelog (content : string)
  (versionPattern : regexp.regex) : option (list t) :=
  let matches := regexp.FindAllStringSubmatchIndex versionPattern content in
  collect content matches 0 matches [].

Definition parseReleaseBody (body : string) : list string :=
  let lines := strings.Split body newline in
  List.fold_left
    (fun changes line =>
       let trimmed := strings.TrimSpace line in
       if strings.HasPrefix trimmed "- " || strings.HasPrefix trimmed "* "
       then
         let change := strings.TrimPrefix trimmed "- " in
         let change := strings.TrimPrefix change "* " in
         if negb (String.eqb change EmptyString)
            && negb (strings.HasPrefix change "@")
         then (changes ++ [change])%list
         else changes
       else changes)
    lines [].

Definition fetchGitHubReleases `{Decoders} (owner repo : string)
  : IO (error + list t) :=
  got <- getReleases owner repo ;;
  ret match got with
      | inl err => inl err
      | inr releases =>
          inr (List.fold_left
                 (fun entries rel =>
                    let ver := normalizeTag (TagName rel) in
                    let changes := parseReleaseBody (Body rel) in
                    (entries ++ [Make ver changes])%list)
                 releases [])
      end.

(** The two markdown adapters. *)
Definition fetchMarkdown (url : string) (versionPattern : regexp.regex)
  : IO (error + list t) :=
  got <- httpGet url ;;
  match got with
  | inl err => ret (inl err)
  | inr content =>
      entries <- orPanic (parseMarkdownChangelog content versionPattern) ;;
      ret (inr entries)
  end.

Definition fetchClaudeChangelog : IO (error + list t) :=
  fetchMarkdown
    "https://raw.githubusercontent.com/anthropics/claude-code/main/CHANGELOG.md"
    patterns.claudeV1.

Definition fetchCopilotChangelog : IO (error + list t) :=
  fetchMarkdown
    "https://raw.githubusercontent.com/github/copilot-cli/main/changelog.md"
    patterns.copilotV1.

Definition fetchCodexChangelog `{Decoders} := fetchGitHubReleases "openai" "codex".
Definition fetchOpenCodeChangelog `{Decoders} := fetchGitHubReleases "sst" "opencode".
Definition fetchGeminiChangelog `{Decoders} :=
  fetchGitHubReleases "google-gemini" "gemini-cli".

(** What [outputMarkdown] and [outputPlainText] write on standard
    output. *)
Definition outputMarkdown (entry : t) : string :=
  List.fold_left
    (fun out change => out ++ "- " ++ change ++ strings.nl)
    (Changes entry)
    ("## " ++ Version entry ++ strings.nl ++ strings.nl).

Definition outputPlainText (displayName : string) (entry : t) : string :=
  List.fold_left
    (fun out change => out ++ "  * " ++ change ++ strings.nl)
    (Changes entry)
    (displayName ++ " " ++ Version entry ++ strings.nl
     ++ strings.Repeat "-" 40 ++ strings.nl).

Module Source.
Record t : Type := Make {
  Name : string;
  DisplayName : string;
  FetchFunc : IO (error + list ChangelogEntry.t)
}.
End Source.

(** The registry, in one of the orders in which [range] may visit it. *)
Definition sources `{Decoders} : list (string * Source.t) :=
  [ ("claude", Source.Make "claude" "Claude Code" fetchClaudeChangelog);
    ("codex", Source.Make "codex" "OpenAI Codex" fetchCodexChangelog);
    ("opencode", Source.Make "opencode" "OpenCode" fetchOpenCodeChangelog);
    ("gemini", Source.Make "gemini" "Gemini CLI" fetchGeminiChangelog);
    ("copilot", Source.Make "copilot" "GitHub Copilot CLI" fetchCopilotChangelog) ].

(** [sources[key]] *)
Fixpoint lookupSource (registry : list (string * Source.t)) (key : string)
  : option Source.t :=
  match registry with
  | [] => None
  | (k, src) :: registry' =>
      if String.eqb k key then Some src else lookupSource registry' key
  end.

(** What the program writes: text on standard output and on standard
    error, the usage text, and the JSON encoding of an entry. *)
Inductive output : Type :=
| Stdout (text : string)
| Stderr (text : string)
| Usage
| JSON (entry : t).

(** The first entry with the given version. *)
Definition findVersion (entries : list t) (target : string) : option t :=
  List.find (fun e => String.eqb (Version e) target) entries.

End Legacy.

(* ------------------------------------------------------------------ *)
(** * The single-source program ([cc-latest]) *)

Module CcLatest.
Import Legacy.ChangelogEntry.

Definition changelogURL : string :=
  "https://raw.githubusercontent.com/anthropics/claude-code/main/CHANGELOG.md".

(** [fetchChangelog]: the statements of [httpGet], on [changelogURL]. *)
Definition fetchChangelog : IO (error + string) := httpGet changelogURL.

(** [parseChangelog]: the loop of [parseMarkdownChangelog] on the one
    pattern of this program; its entries have the same two fields. *)
Definition parseChangelog (content : string) : option (list t) :=
  let matches := regexp.FindAllStringSubmatchIndex patterns.claudeV1 content in
  Legacy.collect content matches 0 matches [].

(** [outputMarkdown] is that of the first multi-source program. *)
Definition outputMarkdown (entry : t) : string := Legacy.outputMarkdown entry.

Definition outputPlainText (entry : t) : string :=
  List.fold_left
    (fun out change => out ++ "  * " ++ change ++ strings.nl)
    (Changes entry)
    ("Claude Code " ++ Version entry ++ strings.nl
     ++ strings.Repeat "-" 40 ++ strings.nl).

Definition version : string := "dev".

(** The values of the flags after [flag.Parse()]. *)
Record flags : Type := Flags {
  jsonOutput : bool;
  markdownOutput : bool;
  targetVersion : string;
  listVersions : bool;
  showVersion : bool;
  showHelp : bool
}.

(** [main] from [flag.Parse()] on: what is written and the exit status. *)
Definition main (f : flags) : IO (list Legacy.output * Z) :=
  if showHelp f then ret ([Legacy.Usage], 0)
  else if showVersion f
  then ret ([Legacy.Stdout ("cc-latest version " ++ version ++ strings.nl)], 0)
  else
    got <- fetchChangelog ;;
    match got with
    | inl err =>
        ret ([Legacy.Stderr ("Error fetching changelog: " ++ err ++ strings.nl)],
             1)
    | inr changelog =>
        entries <- orPanic (parseChangelog changelog) ;;
        match entries with
        | [] =>
            ret ([Legacy.Stderr ("Error: No changelog entries found"
                                 ++ strings.nl)], 1)
        | newest :: _ =>
            if listVersions f
            then ret (List.map
                        (fun e => Legacy.Stdout (Version e ++ strings.nl))
                        entries, 0)
            else
              let chosen :=
                if negb (String.eqb (targetVersion f) EmptyString)
                then Legacy.findVersion entries (targetVersion f)
                else Some newest in
              match chosen with
              | None =>
                  ret ([Legacy.Stderr ("Error: Version " ++ targetVersion f
                                       ++ " not found" ++ strings.nl)], 1)
              | Some entry =>
                  if jsonOutput f then ret ([Legacy.JSON entry], 0)
                  else if markdownOutput f
                  then ret ([Legacy.Stdout (outputMarkdown entry)], 0)
                  else ret ([Legacy.Stdout (outputPlainText entry)], 0)
              end
        end
    end.

End CcLatest.

(* ------------------------------------------------------------------ *)
(** * The program with sections, timestamps, [latest] and [status] *)

Module Section_.
Record t : Type := Make {
  Name : string;
  Changes : list string
}.
End Section_.

Module ChangelogEntry.
Record t : Type := Make {
  Version : string;
  ReleasedAt : time.Time;
  Source : string;
  Sections : list Section_.t;
  Changes : list string
}.
End ChangelogEntry.

Module Source.
Record t : Type := Make {
  Name : string;
  DisplayName : string;
  FetchFunc : IO (error + list ChangelogEntry.t)
}.
End Source.

Definition WhatsChanged : string := "What's Changed".

(** ** [parseReleaseBody] *)

(** The three variables of the loop. *)
Record bodyState : Type := BodyState {
  sections : list Section_.t;
  ungroupedChanges : list string;
  currentSection : option Section_.t
}.

(** [if currentSection != nil && len(currentSection.Changes) > 0
     { sections = append(sections, *currentSection) }] *)
Definition saveSection (st : bodyState) : list Section_.t :=
  match currentSection st with
  | Some cur =>
      if (0 <? Z.of_nat (List.length (Section_.Changes cur)))
      then (sections st ++ [cur])%list
      else sections st
  | None => sections st
  end.

(** The body of the loop on one line. *)
Definition bodyLine (st : bodyState) (line : string) : bodyState :=
  let trimmed := strings.TrimSpace line in
  match regexp.FindStringSubmatch patterns.header trimmed with
  | Some match_ =>
      let headerName := strings.TrimSpace (List.nth 1 match_ EmptyString) in
      if String.eqb headerName WhatsChanged then st
      else
        BodyState (saveSection st) (ungroupedChanges st)
          (Some (Section_.Make headerName []))
  | None =>
      if strings.HasPrefix trimmed "- " || strings.HasPrefix trimmed "* "
      then
        let change := strings.TrimPrefix trimmed "- " in
        let change := strings.TrimPrefix change "* " in
        if negb (String.eqb change EmptyString)
           && negb (strings.HasPrefix change "@")
        then
          match currentSection st with
          | Some cur =>
              BodyState (sections st) (ungroupedChanges st)
                (Some (Section_.Make (Section_.Name cur)
                         (Section_.Changes cur ++ [change])%list))
          | None =>
              BodyState (sections st) (ungroupedChanges st ++ [change])%list
                None
          end
        else st
      else st
  end.

Definition parseReleaseBody (body : string)
  : list Section_.t * list string :=
  let lines := strings.Split body newline in
  let st := List.fold_left bodyLine lines (BodyState [] [] None) in
  (saveSection st, ungroupedChanges st).

(** ** The markdown parsers *)

Import ChangelogEntry.

Definition dateLayout : string := "2006-01-02".

(** The loop of [parseMarkdownChangelogWithDate] from iteration [i] on. *)
Fixpoint collectDated `{Decoders} (content : string)
  (matchIndexes : list (list Z)) (i : nat) (todo : list (list string))
  (entries : list t) : option (list t) :=
  match todo with
  | [] => Some entries
  | match_ :: todo' =>
      let? ver := List.nth_error match_ 1 in
      let? dateStr := List.nth_error match_ 2 in
      let releasedAt := parseOrZero dateLayout dateStr in
      let? contentEnd := contentEndOf content matchIndexes i in
      let? mi := List.nth_error matchIndexes i in
      let? start := List.nth_error mi 1 in
      let? sectionContent := strings.slice content start contentEnd in
      let changes := parseChanges sectionContent in
      collectDated content matchIndexes (S i) todo'
        (entries ++ [Make ver releasedAt EmptyString [] changes])%list
  end.

Definition parseMarkdownChangelogWithDate `{Decoders} (content : string)
  (versionPattern : regexp.regex) : option (list t) :=
  let matches := regexp.FindAllStringSubmatch versionPattern content in
  let matchIndexes := regexp.FindAllStringSubmatchIndex versionPattern content in
  collectDated content matchIndexes 0 matches [].

(** The loop of [parseMarkdownChangelogWithOptionalDate] from iteration
    [i] on. *)
Fixpoint collectOptionalDate `{Decoders} (content : string)
  (matchIndexes : list (list Z)) (i : nat) (todo : list (list string))
  (entries : list t) : option (list t) :=
  match todo with
  | [] => Some entries
  | match_ :: todo' =>
      let? ver := List.nth_error match_ 1 in
      let releasedAt :=
        if (2 <? Z.of_nat (List.length match_))
           && negb (String.eqb (List.nth 2 match_ EmptyString) EmptyString)
        then parseOrZero dateLayout (List.nth 2 match_ EmptyString)
        else time.zero in
      let? contentEnd := contentEndOf content matchIndexes i in
      let? mi := List.nth_error matchIndexes i in
      let? start := List.nth_error mi 1 in
      let? sectionContent := strings.slice content start contentEnd in
      let changes := parseChanges sectionContent in
      collectOptionalDate content matchIndexes (S i) todo'
        (entries ++ [Make ver releasedAt EmptyString [] changes])%list
  end.

Definition parseMarkdownChangelogWithOptionalDate `{Decoders}
  (content : string) (versionPattern : regexp.regex) : option (list t) :=
  let matches := regexp.FindAllStringSubmatch versionPattern content in
  let matchIndexes := regexp.FindAllStringSubmatchIndex versionPattern content in
  collectOptionalDate content matchIndexes 0 matches [].

(** [parseMarkdownChangelog] of this program: the loop of the first
    program on the new entry type. *)
Fixpoint collectPlain (content : string) (matches : list (list Z)) (i : nat)
  (todo : list (list Z)) (entries : list t) : option (list t) :=
  match todo with
  | [] => Some entries
  | match_ :: todo' =>
      let? versionEnd := List.nth_error match_ 1 in
      let? m2 := List.nth_error match_ 2 in
      let? m3 := List.nth_error match_ 3 in
      let? ver := strings.slice content m2 m3 in
      let? contentEnd := contentEndOf content matches i in
      let? sectionContent := strings.slice content versionEnd contentEnd in
      let changes := parseChanges sectionContent in
      collectPlain content matches (S i) todo'
        (entries ++ [Make ver time.zero EmptyString [] changes])%list
  end.

Definition parseMarkdownChangelog (content : string)
  (versionPattern : regexp.regex) : option (list t) :=
  let matches := regexp.FindAllStringSubmatchIndex versionPattern content in
  collectPlain content matches 0 matches [].

(** ** The source adapters *)

Definition fetchGitHubFileLastCommitDate `{Decoders}
  (owner repo path : string) : IO time.Time :=
  let url := "https://api.github.com/repos/" ++ owner ++ "/" ++ repo
             ++ "/commits?path=" ++ path ++ "&per_page=1" in
  resp <- request url ;;
  ret match resp with
      | TransportError _ => time.zero
      | Response code _ body =>
          if negb (code =? 200) then time.zero
          else match json_commits body with
               | inl _ => time.zero
               | inr [] => time.zero
               | inr (date :: _) => parseOrZero RFC3339 date
               end
      end.

(** [entries[0].ReleasedAt = commitDate] *)
Definition setNewestReleasedAt (entries : list t) (commitDate : time.Time)
  : list t :=
  match entries with
  | [] => []
  | e :: older =>
      Make (Version e) commitDate (Source e) (Sections e) (Changes e) :: older
  end.

Definition claudeURL : string :=
  "https://raw.githubusercontent.com/anthropics/claude-code/main/CHANGELOG.md".

Definition fetchClaudeChangelog `{Decoders} : IO (error + list t) :=
  got <- httpGet claudeURL ;;
  match got with
  | inl err => ret (inl err)
  | inr content =>
      entries <- orPanic
        (parseMarkdownChangelogWithOptionalDate content patterns.claude) ;;
      match entries with
      | e0 :: _ =>
          if time.IsZero (ReleasedAt e0)
          then
            commitDate <- fetchGitHubFileLastCommitDate
                            "anthropics" "claude-code" "CHANGELOG.md" ;;
            if negb (time.IsZero commitDate)
            then ret (inr (setNewestReleasedAt entries commitDate))
            else ret (inr entries)
          else ret (inr entries)
      | [] => ret (inr entries)
      end
  end.

Definition copilotURL : string :=
  "https://raw.githubusercontent.com/github/copilot-cli/main/changelog.md".

Definition fetchCopilotChangelog `{Decoders} : IO (error + list t) :=
  got <- httpGet copilotURL ;;
  match got with
  | inl err => ret (inl err)
  | inr content =>
      entries <- orPanic
        (parseMarkdownChangelogWithDate content patterns.copilot) ;;
      ret (inr entries)
  end.

(** The entry that the loop of [fetchGitHubReleases] makes of a release. *)
Definition releaseEntry `{Decoders} (rel : Release) : t :=
  let ver := normalizeTag (TagName rel) in
  let (sections, ungroupedChanges) := parseReleaseBody (Body rel) in
  let releasedAt := parseOrZero RFC3339 (PublishedAt rel) in
  Make ver releasedAt EmptyString sections ungroupedChanges.

Definition fetchGitHubReleases `{Decoders} (owner repo : string)
  : IO (error + list t) :=
  got <- getReleases owner repo ;;
  ret match got with
      | inl err => inl err
      | inr releases =>
          inr (List.fold_left
                 (fun entries rel => (entries ++ [releaseEntry rel])%list)
                 releases [])
      end.

Definition fetchCodexChangelog `{Decoders} := fetchGitHubReleases "openai" "codex".
Definition fetchOpenCodeChangelog `{Decoders} := fetchGitHubReleases "sst" "opencode".
Definition fetchGeminiChangelog `{Decoders} :=
  fetchGitHubReleases "google-gemini" "gemini-cli".

(** The registry.  It is a Go map: the order of its elements here is one
    of the orders in which [range] may visit them. *)
Definition sources `{Decoders} : list (string * Source.t) :=
  [ ("claude", Source.Make "claude" "Claude Code" fetchClaudeChangelog);
    ("codex", Source.Make "codex" "OpenAI Codex" fetchCodexChangelog);
    ("opencode", Source.Make "opencode" "OpenCode" fetchOpenCodeChangelog);
    ("gemini", Source.Make "gemini" "Gemini CLI" fetchGeminiChangelog);
    ("copilot", Source.Make "copilot" "GitHub Copilot CLI" fetchCopilotChangelog) ].

(** [sources[key]] *)
Fixpoint lookupSource (registry : list (string * Source.t)) (key : string)
  : option Source.t :=
  match registry with
  | [] => None
  | (k, src) :: registry' =>
      if String.eqb k key then Some src else lookupSource registry' key
  end.

(** ** Relative times *)

Definition formatRelativeTime (t : time.Time) : IO string :=
  if time.IsZero t then ret "-"
  else
    now <- Now ;;
    let duration := time.Sub now t in
    let minutes := time.intMinutes duration in
    let hours := time.intHours duration in
    let days := Z.quot hours 24 in
    let weeks := Z.quot days 7 in
    let months := Z.quot days 30 in
    if minutes <? 60 then ret (itoa minutes ++ "m ago")
    else if hours <? 24 then ret (itoa hours ++ "h ago")
    else if days <? 7 then ret (itoa days ++ "d ago")
    else if weeks <? 4 then ret (itoa weeks ++ "w ago")
    else ret (itoa months ++ "mo ago").

(** The first loop of [calculateAvgReleaseFreq]: the dated entries, up to
    ten of them. *)
Fixpoint validEntriesFrom (entries : list t) (validEntries : list t)
  : list t :=
  match entries with
  | [] => validEntries
  | e :: entries' =>
      let validEntries :=
        if negb (time.IsZero (ReleasedAt e))
        then (validEntries ++ [e])%list else validEntries in
      if (10 <=? Z.of_nat (List.length validEntries)) then validEntries
      else validEntriesFrom entries' validEntries
  end.

(** The second loop: the sum of the intervals between neighbours. *)
Fixpoint totalDurationOf (validEntries : list t) (totalDuration : time.Duration)
  : time.Duration :=
  match validEntries with
  | a :: (b :: _) as rest =>
      let interval := time.Sub (ReleasedAt a) (ReleasedAt b) in
      totalDurationOf rest (time.add totalDuration interval)
  | _ => totalDuration
  end.

Definition calculateAvgReleaseFreq (entries : list t) : string :=
  let validEntries := validEntriesFrom entries [] in
  if (Z.of_nat (List.length validEntries) <? 2) then "-"
  else
    let totalDuration := totalDurationOf validEntries 0 in
    let avgDuration :=
      time.div totalDuration (Z.of_nat (List.length validEntries) - 1) in
    let hours := time.intHours avgDuration in
    let days := Z.quot hours 24 in
    let weeks := Z.quot days 7 in
    let months := Z.quot days 30 in
    if days <? 1 then "~" ++ itoa hours ++ "h"
    else if days <? 7 then "~" ++ itoa days ++ "d"
    else if weeks <? 4 then "~" ++ itoa weeks ++ "w"
    else "~" ++ itoa months ++ "mo".

(** ** What the program writes

    The renderers ([outputPlainText], [outputMarkdown], the JSON encoder
    and the status table) are kept as events that carry what they are
    given. *)

Record statusEntry : Type := StatusEntry {
  st_Name : string;
  st_Version : string;
  st_PreviousVersion : string;
  st_UpdatedAgo : string;
  st_UpdatedRecently : bool;
  st_AvgReleaseFreq : string;
  st_releasedAt : time.Time
}.

Inductive output : Type :=
| Println (line : string)                       (* a line on standard output *)
| Eprintln (line : string)                      (* a line on standard error *)
| Usage                                         (* [printUsage()] *)
| PlainText (displayName : string) (entry : t)  (* [outputPlainText] *)
| Markdown (entry : t)                          (* [outputMarkdown] *)
| JSON (entry : t)                              (* [outputJSON] *)
| JSONEntries (entries : list t)
| JSONStatus (rows : list statusEntry)
| StatusTable (rows : list statusEntry).

(** ** Fan-out

    One goroutine per source sends at most one value on the results
    channel.  [arrival] lists the sources in the order in which their
    goroutines get to the channel; the fetches only read the world, so
    they are run in that order. *)
Fixpoint gather {R : Type} (worker : string -> Source.t -> IO (option R))
  (arrival : list (string * Source.t)) : IO (list R) :=
  match arrival with
  | [] => ret []
  | (name, src) :: arrival' =>
      sent <- worker name src ;;
      results <- gather worker arrival' ;;
      ret match sent with
          | Some r => r :: results
          | None => results
          end
  end.

(** ** [runLatestCommand] *)

Record result : Type := Result {
  r_source : string;
  r_display : string;
  r_entry : option t;
  r_err : option error
}.

(** [entry := entries[0]; entry.Source = src.DisplayName] *)
Definition stamp (src : Source.t) (entry : t) : t :=
  Make (Version entry) (ReleasedAt entry) (Source.DisplayName src)
       (Sections entry) (Changes entry).

Definition latestWorker (name : string) (src : Source.t)
  : IO (option result) :=
  fetched <- Source.FetchFunc src ;;
  ret match fetched with
      | inl err => Some (Result name (Source.DisplayName src) None (Some err))
      | inr entries =>
          match entries with
          | entry :: _ =>
              Some (Result name (Source.DisplayName src)
                      (Some (stamp src entry)) None)
          | [] => None
          end
      end.

(** The loop over the results channel: the warnings written and the
    entries kept so far. *)
Definition latestStep (cutoff : time.Time) (acc : list output * list t)
  (r : result) : list output * list t :=
  let (written, recentEntries) := acc in
  match r_err r with
  | Some err =>
      ((written ++ [Eprintln ("Warning: Failed to fetch " ++ r_display r
                               ++ ": " ++ err)])%list,
       recentEntries)
  | None =>
      match r_entry r with
      | Some entry =>
          if negb (time.IsZero (ReleasedAt entry))
             && time.After (ReleasedAt entry) cutoff
          then (written, (recentEntries ++ [entry])%list)
          else acc
      | None => acc
      end
  end.

Definition newerFirst (a b : t) : bool :=
  time.After (ReleasedAt a) (ReleasedAt b).

(** The plain-text loop: a blank line before every entry but the first. *)
Fixpoint plainBlocks (i : nat) (entries : list t) : list output :=
  match entries with
  | [] => []
  | entry :: entries' =>
      ((if Nat.ltb 0 i then [Println EmptyString] else [])
         ++ PlainText (Source entry) entry :: plainBlocks (S i) entries')%list
  end.

Definition noRecent : string := "No releases in the last 24 hours.".

Definition runLatestCommand (arrival : list (string * Source.t))
  (jsonOutput : bool) : IO (list output) :=
  now <- Now ;;
  let cutoff := time.Add now (-24 * time.Hour) in
  results <- gather latestWorker arrival ;;
  let (written, recentEntries) :=
    List.fold_left (latestStep cutoff) results ([], []) in
  let recentEntries := sort.Slice newerFirst recentEntries in
  if Nat.eqb (List.length recentEntries) 0
  then ret (written ++ [Println noRecent])%list
  else if jsonOutput
  then ret (written ++ [JSONEntries recentEntries])%list
  else ret (written ++ plainBlocks 0 recentEntries)%list.

(** ** [runStatusCommand] *)

Record statusResult : Type := StatusResult {
  sr_source : string;
  sr_displayName : string;
  sr_entries : list t;
  sr_err : option error
}.

Definition statusWorker (name : string) (src : Source.t)
  : IO (option statusResult) :=
  fetched <- Source.FetchFunc src ;;
  ret match fetched with
      | inl err => Some (StatusResult name (Source.DisplayName src) [] (Some err))
      | inr entries =>
          Some (StatusResult name (Source.DisplayName src) entries None)
      end.

(** The row of one result with entries [e0 :: older]. *)
Definition statusRow (cutoff : time.Time) (displayName : string) (e0 : t)
  (older : list t) : IO statusEntry :=
  let PreviousVersion :=
    match older with
    | e1 :: _ => Version e1
    | [] => "-"
    end in
  ago <- (if negb (time.IsZero (ReleasedAt e0))
          then formatRelativeTime (ReleasedAt e0) else ret "-") ;;
  let UpdatedRecently :=
    if negb (time.IsZero (ReleasedAt e0))
    then time.After (ReleasedAt e0) cutoff else false in
  ret (StatusEntry displayName (Version e0) PreviousVersion ago
         UpdatedRecently (calculateAvgReleaseFreq (e0 :: older))
         (ReleasedAt e0)).

Fixpoint statusLoop (cutoff : time.Time) (results : list statusResult)
  (written : list output) (statusEntries : list statusEntry)
  : IO (list output * list statusEntry) :=
  match results with
  | [] => ret (written, statusEntries)
  | r :: results' =>
      match sr_err r with
      | Some err =>
          statusLoop cutoff results'
            (written ++ [Eprintln ("Warning: Failed to fetch "
                                    ++ sr_displayName r ++ ": " ++ err)])%list
            statusEntries
      | None =>
          match sr_entries r with
          | [] => statusLoop cutoff results' written statusEntries
          | e0 :: older =>
              entry <- statusRow cutoff (sr_displayName r) e0 older ;;
              statusLoop cutoff results' written
                (statusEntries ++ [entry])%list
          end
      end
  end.

(** Go's [<] on strings: the order of the bytes. *)
Definition stringLess (a b : string) : bool :=
  match String.compare a b with
  | Lt => true
  | _ => false
  end.

Definition statusLess (a b : statusEntry) : bool :=
  if time.IsZero (st_releasedAt a) && time.IsZero (st_releasedAt b)
  then stringLess (st_Name a) (st_Name b)
  else if time.IsZero (st_releasedAt a) then false
  else if time.IsZero (st_releasedAt b) then true
  else time.After (st_releasedAt a) (st_releasedAt b).

Definition runStatusCommand (arrival : list (string * Source.t))
  (jsonOutput : bool) : IO (list output) :=
  results <- gather statusWorker arrival ;;
  now <- Now ;;
  let cutoff := time.Add now (-24 * time.Hour) in
  looped <- statusLoop cutoff results [] [] ;;
  let (written, statusEntries) := looped in
  let statusEntries := sort.Slice statusLess statusEntries in
  if jsonOutput then ret (written ++ [JSONStatus statusEntries])%list
  else ret (written ++ [StatusTable statusEntries])%list.

(** ** [main] *)

Definition version : string := "dev".

Record flags : Type := Flags {
  jsonOutput : bool;
  mdOutput : bool;
  listVersions : bool;
  targetVersion : string
}.

Definition isFlag (arg short long : string) : bool :=
  String.eqb arg short || String.eqb arg long.

(** The flag loop of the single-source mode. *)
Fixpoint parseFlags (args : list string) (f : flags) : flags :=
  match args with
  | [] => f
  | arg :: args' =>
      if isFlag arg "-json" "--json"
      then parseFlags args'
             (Flags true (mdOutput f) (listVersions f) (targetVersion f))
      else if isFlag arg "-md" "--md"
      then parseFlags args'
             (Flags (jsonOutput f) true (listVersions f) (targetVersion f))
      else if isFlag arg "-list" "--list"
      then parseFlags args'
             (Flags (jsonOutput f) (mdOutput f) true (targetVersion f))
      else if isFlag arg "-version" "--version"
      then match args' with
           | ver :: args'' =>
               parseFlags args''
                 (Flags (jsonOutput f) (mdOutput f) (listVersions f) ver)
           | [] => f
           end
      else parseFlags args' f
  end.

(** The flag loop of [latest] and [status]. *)
Definition wantsJSON (args : list string) : bool :=
  List.existsb (fun arg => isFlag arg "-json" "--json") args.

(** The first entry with the given version. *)
Definition findVersion (entries : list t) (target : string) : option t :=
  List.find (fun e => String.eqb (Version e) target) entries.

Definition tab : string := String (strings.byte 9) EmptyString.

(** The single-source mode, after the flags: what is written and the
    exit status. *)
Definition runSource (source : Source.t) (f : flags) : IO (list output * Z) :=
  fetched <- Source.FetchFunc source ;;
  match fetched with
  | inl err => ret ([Eprintln ("Error fetching changelog: " ++ err)], 1)
  | inr entries =>
      match entries with
      | [] => ret ([Eprintln "Error: No changelog entries found"], 1)
      | newest :: _ =>
          if listVersions f
          then ret (List.map (fun e => Println (Version e)) entries, 0)
          else
            let chosen :=
              if negb (String.eqb (targetVersion f) EmptyString)
              then findVersion entries (targetVersion f)
              else Some newest in
            match chosen with
            | None =>
                ret ([Eprintln ("Error: Version " ++ targetVersion f
                                 ++ " not found")], 1)
            | Some entry =>
                if jsonOutput f then ret ([JSON entry], 0)
                else if mdOutput f then ret ([Markdown entry], 0)
                else ret ([PlainText (Source.DisplayName source) entry], 0)
            end
      end
  end.

(** [main] on [os.Args[1:]].  [arrival] is the order in which this run
    comes by the sources of the registry, a map: the order in which
    [range sources] visits them, in [list-sources] and under the message
    for an unknown source, and the order in which the goroutines of
    [latest] and [status] deliver. *)
Definition main `{Decoders} (arrival : list (string * Source.t))
  (args : list string) : IO (list output * Z) :=
  match args with
  | [] => ret ([Usage], 0)
  | arg0 :: args' =>
      if String.eqb arg0 "-h" || String.eqb arg0 "--help"
         || String.eqb arg0 "help"
      then ret ([Usage], 0)
      else if String.eqb arg0 "-v" || String.eqb arg0 "--version"
      then ret ([Println ("aic version " ++ version)], 0)
      else if String.eqb arg0 "list-sources"
      then ret (List.map
                  (fun named =>
                     Println ("  " ++ fst named ++ tab
                              ++ Source.DisplayName (snd named)))
                  arrival, 0)
      else if String.eqb arg0 "latest"
      then written <- runLatestCommand arrival (wantsJSON args') ;;
           ret (written, 0)
      else if String.eqb arg0 "status"
      then written <- runStatusCommand arrival (wantsJSON args') ;;
           ret (written, 0)
      else
        match lookupSource sources arg0 with
        | None =>
            ret ((Eprintln ("Error: Unknown source '" ++ arg0 ++ "'")
                  :: Eprintln EmptyString
                  :: Eprintln "Available sources:"
                  :: List.map (fun named => Eprintln ("  " ++ fst named))
                       arrival)%list, 1)
        | Some source =>
            runSource source (parseFlags args' (Flags false false false EmptyString))
        end
  end.

(** ** The renderers

    What the events [Markdown], [PlainText] and [StatusTable] stand for:
    the text that [outputMarkdown], [outputPlainText] and the table loop of
    [runStatusCommand] write on standard output. *)

Definition outputMarkdown `{Formatter} (entry : t) : string :=
  let out :=
    if negb (time.IsZero (ReleasedAt entry))
    then "## " ++ Version entry ++ " ("
         ++ time_Format (ReleasedAt entry) dateLayout ++ ")"
         ++ strings.nl ++ strings.nl
    else "## " ++ Version entry ++ strings.nl ++ strings.nl in
  let out :=
    List.fold_left
      (fun out section =>
         let out := out ++ "### " ++ Section_.Name section
                    ++ strings.nl ++ strings.nl in
         let out :=
           List.fold_left
             (fun out change => out ++ "- " ++ change ++ strings.nl)
             (Section_.Changes section) out in
         out ++ strings.nl)
      (Sections entry) out in
  List.fold_left
    (fun out change => out ++ "- " ++ change ++ strings.nl)
    (Changes entry) out.

Definition outputPlainText `{Formatter} (displayName : string) (entry : t)
  : string :=
  let out :=
    if negb (time.IsZero (ReleasedAt entry))
    then displayName ++ " " ++ Version entry ++ " ("
         ++ time_Format (ReleasedAt entry) dateLayout ++ ")" ++ strings.nl
    else displayName ++ " " ++ Version entry ++ strings.nl in
  let out := out ++ strings.Repeat "-" 40 ++ strings.nl in
  let out :=
    List.fold_left
      (fun out section =>
         let out := out ++ strings.nl ++ "[" ++ Section_.Name section ++ "]"
                    ++ strings.nl in
         List.fold_left
           (fun out change => out ++ "  * " ++ change ++ strings.nl)
           (Section_.Changes section) out)
      (Sections entry) out in
  let out :=
    if (0 <? Z.of_nat (List.length (Sections entry)))
       && (0 <? Z.of_nat (List.length (Changes entry)))
    then out ++ strings.nl else out in
  List.fold_left
    (fun out change => out ++ "  * " ++ change ++ strings.nl)
    (Changes entry) out.

(** [truncateString]: a slice expression out of range is a panic. *)
Definition truncateString (s : string) (maxLen : Z) : option string :=
  if strings.len s <=? maxLen then Some s
  else if maxLen <=? 3 then strings.slice s 0 maxLen
  else
    let? head := strings.slice s 0 (maxLen - 3) in
    Some (head ++ "...").

Definition colTool : Z := 20.
Definition col24h : Z := 3.
Definition colVersion : Z := 12.
Definition colPrevious : Z := 12.
Definition colUpdated : Z := 10.
Definition colFreq : Z := 19.

(** A border line of the table between the given corner pieces. *)
Definition borderLine (left mid right : string) : string :=
  left ++ strings.Repeat "─" (Z.to_nat (colTool + 2))
  ++ mid ++ strings.Repeat "─" (Z.to_nat (col24h + 2))
  ++ mid ++ strings.Repeat "─" (Z.to_nat (colVersion + 2))
  ++ mid ++ strings.Repeat "─" (Z.to_nat (colPrevious + 2))
  ++ mid ++ strings.Repeat "─" (Z.to_nat (colUpdated + 2))
  ++ mid ++ strings.Repeat "─" (Z.to_nat (colFreq + 2))
  ++ right ++ strings.nl.

Definition headerRow : string :=
  "│ " ++ fmt.padRight colTool "Tool"
  ++ " │ " ++ fmt.padRight col24h "24h"
  ++ " │ " ++ fmt.padRight colVersion "Version"
  ++ " │ " ++ fmt.padRight colPrevious "Previous"
  ++ " │ " ++ fmt.padRight colUpdated "Updated"
  ++ " │ " ++ fmt.padRight colFreq "Vers. Release Freq."
  ++ " │" ++ strings.nl.

(** The line of one row of the table. *)
Definition dataRow (e : statusEntry) : option string :=
  let recentMarker := if st_UpdatedRecently e then "[✓]" else "   " in
  let? name := truncateString (st_Name e) colTool in
  let? ver := truncateString (st_Version e) colVersion in
  let? prev := truncateString (st_PreviousVersion e) colPrevious in
  Some ("│ " ++ fmt.padRight colTool name
        ++ " │ " ++ recentMarker
        ++ " │ " ++ fmt.padRight colVersion ver
        ++ " │ " ++ fmt.padRight colPrevious prev
        ++ " │ " ++ fmt.padRight colUpdated (st_UpdatedAgo e)
        ++ " │ " ++ fmt.padRight colFreq (st_AvgReleaseFreq e)
        ++ " │" ++ strings.nl).

(** The loop over the rows: the lines written so far. *)
Fixpoint dataRows (statusEntries : list statusEntry) (written : list string)
  : option (list string) :=
  match statusEntries with
  | [] => Some written
  | e :: statusEntries' =>
      let? line := dataRow e in
      dataRows statusEntries' (written ++ [line])%list
  end.

(** The lines of the table, one per call of [Printf]. *)
Definition printStatusTable (statusEntries : list statusEntry)
  : option (list string) :=
  let written :=
    [borderLine "┌" "┬" "┐"; headerRow; borderLine "├" "┼" "┤"] in
  let? written := dataRows statusEntries written in
  Some (written ++ [borderLine "└" "┴" "┘"])%list.

(* ------------------------------------------------------------------ *)
(** * [main] of the first multi-source program ([src/main.go])

    Its flag loop and its registry keys are those of the later program. *)

Module LegacyMain.
Import Legacy.ChangelogEntry.

Definition version : string := "dev".

Definition runSource (source : Legacy.Source.t) (f : flags)
  : IO (list Legacy.output * Z) :=
  fetched <- Legacy.Source.FetchFunc source ;;
  match fetched with
  | inl err =>
      ret ([Legacy.Stderr ("Error fetching changelog: " ++ err ++ strings.nl)],
           1)
  | inr entries =>
      match entries with
      | [] =>
          ret ([Legacy.Stderr ("Error: No changelog entries found"
                               ++ strings.nl)], 1)
      | newest :: _ =>
          if listVersions f
          then ret (List.map
                      (fun e => Legacy.Stdout (Version e ++ strings.nl))
                      entries, 0)
          else
            let chosen :=
              if negb (String.eqb (targetVersion f) EmptyString)
              then Legacy.findVersion entries (targetVersion f)
              else Some newest in
            match chosen with
            | None =>
                ret ([Legacy.Stderr ("Error: Version " ++ targetVersion f
                                     ++ " not found" ++ strings.nl)], 1)
            | Some entry =>
                if jsonOutput f then ret ([Legacy.JSON entry], 0)
                else if mdOutput f
                then ret ([Legacy.Stdout (Legacy.outputMarkdown entry)], 0)
                else ret ([Legacy.Stdout
                             (Legacy.outputPlainText
                                (Legacy.Source.DisplayName source) entry)], 0)
            end
      end
  end.

(** [main] on [os.Args[1:]].  [ranged] is the order in which
    [range sources] visits the registry, a map, in this run. *)
Definition main `{Decoders} (ranged : list (string * Legacy.Source.t))
  (args : list string) : IO (list Legacy.output * Z) :=
  match args with
  | [] => ret ([Legacy.Usage], 0)
  | arg0 :: args' =>
      if String.eqb arg0 "-h" || String.eqb arg0 "--help"
         || String.eqb arg0 "help"
      then ret ([Legacy.Usage], 0)
      else if String.eqb arg0 "-v" || String.eqb arg0 "--version"
      then ret ([Legacy.Stdout ("aic version " ++ version ++ strings.nl)], 0)
      else if String.eqb arg0 "list-sources"
      then ret (List.map
                  (fun named =>
                     Legacy.Stdout
                       ("  " ++ fst named ++ tab
                        ++ Legacy.Source.DisplayName (snd named) ++ strings.nl))
                  ranged, 0)
      else
        match Legacy.lookupSource Legacy.sources arg0 with
        | None =>
            ret ((Legacy.Stderr ("Error: Unknown source '" ++ arg0 ++ "'"
                                 ++ strings.nl ++ strings.nl)
                  :: Legacy.Stderr ("Available sources:" ++ strings.nl)
                  :: List.map
                       (fun named =>
                          Legacy.Stderr ("  " ++ fst named ++ strings.nl))
                       ranged)%list, 1)
        | Some source =>
            runSource source
              (parseFlags args' (Flags false false false EmptyString))
        end
  end.

End LegacyMain.

(* ================================================================== *)
(** * The vocabulary of the properties *)

(** ** The release-body parser *)
Module ReleaseBody.

(** Scenario B of the specification. *)
Definition scenarioB : string :=
  "## TUI" ++ strings.nl ++ "- Added X" ++ strings.nl
  ++ "## What's Changed" ++ strings.nl ++ "- Ignore me" ++ strings.nl.

(** What a retained section looks like. *)
Definition retained (sec : Section_.t) : Prop :=
  Section_.Changes sec <> [] /\ Section_.Name sec <> WhatsChanged.

(** The invariant of the loop: the sections saved so far are retained
    ones, and the open section is not the wrapper. *)
Definition inv (st : bodyState) : Prop :=
  Forall retained (sections st)
  /\ forall cur, currentSection st = Some cur -> Section_.Name cur <> WhatsChanged.

End ReleaseBody.

(** ** Version normalisation *)

(** The claim's reading of the normalisation: the result is the tag
    without one of the two prefixes, or the tag itself when it starts with
    neither. *)
Definition strippedOnce (tag out : string) : Prop :=
  (strings.HasPrefix tag "v" = true /\ out = strings.skip 1 tag)
  \/ (strings.HasPrefix tag "rust-v" = true /\ out = strings.skip 6 tag)
  \/ (strings.HasPrefix tag "v" = false
      /\ strings.HasPrefix tag "rust-v" = false /\ out = tag).

(** ** Relative times and cadence *)
Module RelativeTime.
Import time.

(** The buckets in the words of the specification. *)
Inductive bucket : Type := Minutes | Hours | Days | Weeks | Months.

Definition Day : Duration := 24 * Hour.
Definition Week : Duration := 7 * Day.
Definition Month : Duration := 30 * Day.

(** [d < 1 hour]: minutes; [d < 24 hours]: hours; [d < 7 days]: days;
    [d < 4 weeks]: weeks; else months. *)
Definition claimedBucket (d : Duration) : bucket :=
  if d <? Hour then Minutes
  else if d <? 24 * Hour then Hours
  else if d <? 7 * Day then Days
  else if d <? 4 * Week then Weeks
  else Months.

(** The buckets of the cadence: there are no minutes. *)
Definition cadenceBucket (d : Duration) : bucket :=
  if d <? 24 * Hour then Hours
  else if d <? 7 * Day then Days
  else if d <? 4 * Week then Weeks
  else Months.

Definition unit (b : bucket) : Duration :=
  match b with
  | Minutes => Minute
  | Hours => Hour
  | Days => Day
  | Weeks => Week
  | Months => Month
  end.

Definition suffix (b : bucket) : string :=
  match b with
  | Minutes => "m"
  | Hours => "h"
  | Days => "d"
  | Weeks => "w"
  | Months => "mo"
  end.

(** The whole number of units of the bucket in [d]. *)
Definition magnitude (b : bucket) (d : Duration) : Z := Z.quot d (unit b).

Definition agoText (b : bucket) (d : Duration) : string :=
  itoa (magnitude b d) ++ suffix b ++ " ago".

Definition approxText (b : bucket) (d : Duration) : string :=
  "~" ++ itoa (magnitude b d) ++ suffix b.

(** The number that the program writes in a bucket.  It takes the minutes
    and the hours of [d] through [float64]; the days are whole quotients
    of the hours, the weeks and the months of the days. *)
Definition written (b : bucket) (d : Duration) : Z :=
  match b with
  | Minutes => intMinutes d
  | Hours => intHours d
  | Days => Z.quot (intHours d) 24
  | Weeks => Z.quot (Z.quot (intHours d) 24) 7
  | Months => Z.quot (Z.quot (intHours d) 24) 30
  end.

(** What is written for [d] in bucket [b]. *)
Definition agoWritten (b : bucket) (d : Duration) : string :=
  itoa (written b d) ++ suffix b ++ " ago".

Definition approxWritten (b : bucket) (d : Duration) : string :=
  "~" ++ itoa (written b d) ++ suffix b.

(** The average interval that [calculateAvgReleaseFreq] formats, if it
    formats one. *)
Definition avgInterval (entries : list ChangelogEntry.t) : option Duration :=
  let validEntries := validEntriesFrom entries [] in
  if (Z.of_nat (List.length validEntries) <? 2) then None
  else Some (div (totalDurationOf validEntries 0)
               (Z.of_nat (List.length validEntries) - 1)).

(** An entry with nothing but a timestamp. *)
Definition dated (t : Time) : ChangelogEntry.t :=
  ChangelogEntry.Make "v" t EmptyString [] [].

End RelativeTime.

(** ** Numbers of [float64] *)
Module Floats.
Import QArith_base.

(** [K / 2^p] *)
Definition dyadic (K p : Z) : Q := Qmake K (Z.to_pos (2 ^ p)).

(** [float64(h) + float64(n)/C], the sum that [Hours] and [Minutes]
    return. *)
Definition wholeOf (C h n : Z) : float64.t :=
  float64.add (float64.ofInt h)
    (float64.div (float64.ofInt n) (float64.ofInt C)).

End Floats.

(** ** Matches inside a text *)
Module Matches.
Import regexp.

Local Open Scope nat_scope.

(** A matcher state of a text of length [n], in a match that started at
    offset [lo]: the groups closed so far lie between [lo] and the
    position. *)
Definition capOK (lo hi : nat) (c : nat * (nat * nat)) : Prop :=
  lo <= fst (snd c) /\ fst (snd c) <= snd (snd c) /\ snd (snd c) <= hi.

Definition within (n lo : nat) (s : mstate) : Prop :=
  m_pos s + String.length (m_rest s) = n
  /\ lo <= m_pos s
  /\ Forall (capOK lo (m_pos s)) (m_caps s).

(** What a state reached by matching [r] from [s] satisfies: it is a
    state of the same text, at least [minLen r] bytes further, and the
    groups that do not occur in [r] are as they were. *)
Definition reached (n lo : nat) (r : regex) (s s' : mstate) : Prop :=
  within n lo s'
  /\ m_pos s + minLen r <= m_pos s'
  /\ forall i, hasGroup i r = false ->
               lookupGroup (m_caps s') i = lookupGroup (m_caps s) i.

Local Open Scope Z_scope.

(** The index pairs of the groups of a match from [a] to [b]: each pair is
    [-1, -1], or lies in order between [a] and [b]. *)
Fixpoint groupsOK (a b : Z) (gs : list Z) : Prop :=
  match gs with
  | [] => True
  | x :: y :: gs' =>
      ((x = -1 /\ y = -1) \/ (a <= x /\ x <= y /\ y <= b)) /\ groupsOK a b gs'
  | _ => False
  end.

(** A list of matches of a pattern with [k] groups in a text of length
    [n], none of which starts before [lo]: every match lies inside the
    text, and starts no earlier than the match before it ends. *)
Fixpoint chain (n : Z) (k : nat) (lo : Z) (ms : list (list Z)) : Prop :=
  match ms with
  | [] => True
  | m :: ms' =>
      exists a b gs,
        m = a :: b :: gs /\ lo <= a /\ a <= b /\ b <= n
        /\ groupsOK a b gs /\ List.length gs = (2 * k)%nat
        /\ chain n k b ms'
  end.

(** A match whose group 1 took part, on at least one byte. *)
Definition versioned (m : list Z) : Prop :=
  exists a b x y gs, m = a :: b :: x :: y :: gs /\ 0 <= x /\ x < y.

End Matches.

(** ** The markdown changelog parsers *)
Module Markdown.
Import Matches.

(** The change lines of a span in the words of the specification: of the
    lines of the span, trimmed of surrounding white space, those that start
    with "- ", without that marker. *)
Definition changeLines (span : string) : list string :=
  List.map (fun trimmed => strings.TrimPrefix trimmed "- ")
    (List.filter (fun trimmed => strings.HasPrefix trimmed "- ")
       (List.map strings.TrimSpace (strings.Split span newline))).

(** The bytes of [content] from offset [lo] up to offset [hi]. *)
Definition substr (content : string) (lo hi : Z) : string :=
  String.substring (Z.to_nat lo) (Z.to_nat (hi - lo)) content.

(** Where the span of a match ends: at the start of the next match, or
    at the end of the document. *)
Definition spanEnd (content : string) (later : list (list Z)) : Z :=
  match later with
  | [] => strings.len content
  | next :: _ => List.nth 0 next 0
  end.

(** The text of group 1 of a match, and the span after the match. *)
Definition versionOf (content : string) (m : list Z) : string :=
  substr content (List.nth 2 m 0) (List.nth 3 m 0).

Definition spanOf (content : string) (m : list Z) (later : list (list Z))
  : string :=
  substr content (List.nth 1 m 0) (spanEnd content later).

(** What the specification expects of a list of matches: per match, in
    order, the version and the change lines of its span. *)
Fixpoint expected (content : string) (ms : list (list Z))
  : list (string * list string) :=
  match ms with
  | [] => []
  | m :: later =>
      (versionOf content m, changeLines (spanOf content m later))
        :: expected content later
  end.

(** Group 1 took part in the match. *)
Definition hasVersion (m : list Z) : Prop := 0 <= List.nth 2 m (-1).

(** The entries built from a list of matches, each from the match and the
    matches after it. *)
Fixpoint built {E : Type} (entryOf : list Z -> list (list Z) -> E)
  (ms : list (list Z)) : list E :=
  match ms with
  | [] => []
  | m :: later => entryOf m later :: built entryOf later
  end.

(** *** The first program *)

Definition legacyEntry (content : string) (m : list Z)
  (later : list (list Z)) : Legacy.ChangelogEntry.t :=
  Legacy.ChangelogEntry.Make (versionOf content m)
    (changeLines (spanOf content m later)).

Section WithDecoders.
Context {D : Decoders}.

Definition optionalDateOf (match_ : list string) : time.Time :=
  if (2 <? Z.of_nat (List.length match_))
     && negb (String.eqb (List.nth 2 match_ EmptyString) EmptyString)
  then parseOrZero dateLayout (List.nth 2 match_ EmptyString)
  else time.zero.

Definition optionalDateEntry (content : string) (m : list Z)
  (later : list (list Z)) : ChangelogEntry.t :=
  let match_ := regexp.submatchStrings content m in
  ChangelogEntry.Make (List.nth 1 match_ EmptyString) (optionalDateOf match_)
    EmptyString [] (changeLines (spanOf content m later)).

Definition datedEntry (content : string) (m : list Z)
  (later : list (list Z)) : ChangelogEntry.t :=
  let match_ := regexp.submatchStrings content m in
  ChangelogEntry.Make (List.nth 1 match_ EmptyString)
    (parseOrZero dateLayout (List.nth 2 match_ EmptyString))
    EmptyString [] (changeLines (spanOf content m later)).

End WithDecoders.

(** Scenario A of the specification. *)
Definition scenarioA : string :=
  "## 1.2.0" ++ strings.nl ++ "- Fixed bug" ++ strings.nl
  ++ "## 1.1.0" ++ strings.nl ++ "- Initial" ++ strings.nl.

End Markdown.

(** ** A small world *)
Module Sample.

(** Noon of 2 November 2026, and the instants of the releases below. *)
Definition noon : time.Time := 63929217600 * time.Second.
Definition nine : time.Time := 63929206800 * time.Second.
Definition eleven : time.Time := 63929214000 * time.Second.

(** The values that the decoders below know. *)
Definition instants : list (string * time.Time) :=
  [ ("2026-11-02T09:00:00Z", nine);
    ("2026-11-02T11:00:00Z", eleven);
    ("2026-10-31T11:00:00Z", 63929041200 * time.Second);
    ("2026-10-01", 63926409600 * time.Second);
    ("2026-10-20", 63928051200 * time.Second) ].

Fixpoint lookup {A : Type} (table : list (string * A)) (key : string)
  : option A :=
  match table with
  | [] => None
  | (k, a) :: table' => if String.eqb k key then Some a else lookup table' key
  end.

Definition codexReleases : list Release :=
  [ MkRelease "rust-v0.50.0" "0.50.0"
      ("## TUI" ++ strings.nl ++ "- Added X" ++ strings.nl)
      "2026-11-02T11:00:00Z";
    MkRelease "rust-v0.49.0" "0.49.0"
      ("- Fixed Y" ++ strings.nl ++ "- @bot" ++ strings.nl)
      "2026-10-31T11:00:00Z" ].

(** Decoders that know the payloads of this world by name. *)
Definition decoders : Decoders := {|
  time_Parse := fun _ value => lookup instants value;
  json_releases := fun body =>
    match body with
    | inr text =>
        if String.eqb text "codex releases" then inr codexReleases
        else if String.eqb text "no releases" then inr []
        else inl "invalid character"
    | inl msg => inl msg
    end;
  json_commits := fun body =>
    match body with
    | inr text =>
        if String.eqb text "changelog commits"
        then inr ["2026-11-02T09:00:00Z"]
        else inl "invalid character"
    | inl msg => inl msg
    end
|}.

Definition claudeChangelog : string :=
  "# Changelog" ++ strings.nl
  ++ "## 2.1.0" ++ strings.nl ++ "- Added X" ++ strings.nl
  ++ "## 2.0.0 (2026-10-01)" ++ strings.nl ++ "- Initial" ++ strings.nl.

Definition copilotChangelog : string :=
  "## 0.0.350 - 2026-10-20" ++ strings.nl ++ "- Fix" ++ strings.nl.

Definition ok (body : string) : response := Response 200 "200 OK" (inr body).

Definition routes : list (string * response) :=
  [ (claudeURL, ok claudeChangelog);
    ("https://api.github.com/repos/anthropics/claude-code/commits?path=CHANGELOG.md&per_page=1",
     ok "changelog commits");
    ("https://api.github.com/repos/openai/codex/releases", ok "codex releases");
    ("https://api.github.com/repos/sst/opencode/releases", ok "no releases");
    (copilotURL, ok copilotChangelog) ].

(** Claude's changelog has an undated newest entry, Codex has a release
    of one hour ago, OpenCode has no release at all, Gemini fails, and
    Copilot's newest entry is two weeks old.  It is always noon. *)
Definition world : World := {|
  http := fun url =>
    match lookup routes url with
    | Some resp => resp
    | None => Response 503 "503 Service Unavailable" (inr EmptyString)
    end;
  clock := fun _ => noon
|}.

End Sample.

(** ** What the adapters return *)
Module Adapters.
Import Markdown.

(** Computation [m] in world [w] returns [out] after requesting the URLs
    [new], whatever the trace before it; it does not read the clock. *)
Definition runs {A : Type} (m : IO A) (w : World) (out : A)
  (new : list string) : Prop :=
  forall tr, m w tr = (Some out, MkTrace (requests tr ++ new) (ticks tr)).

(** What [httpGet] returns in a world. *)
Definition textOf (w : World) (url : string) : error + string :=
  match http w url with
  | TransportError msg => inl ("HTTP request failed: " ++ msg)
  | Response code status body =>
      if negb (code =? 200)
      then inl ("HTTP " ++ itoa code ++ ": " ++ status)
      else match body with
           | inl msg => inl ("failed to read response: " ++ msg)
           | inr b => inr b
           end
  end.

Section WithDecoders.
Context {D : Decoders}.

Definition releasesURL (owner repo : string) : string :=
  "https://api.github.com/repos/" ++ owner ++ "/" ++ repo ++ "/releases".

(** What [fetchGitHubReleases] returns in a world. *)
Definition releasesOf (w : World) (owner repo : string)
  : error + list ChangelogEntry.t :=
  match http w (releasesURL owner repo) with
  | TransportError msg => inl ("HTTP request failed: " ++ msg)
  | Response code status body =>
      if negb (code =? 200)
      then inl ("HTTP " ++ itoa code ++ ": " ++ status)
      else match json_releases body with
           | inl msg => inl ("failed to parse releases: " ++ msg)
           | inr releases => inr (List.map releaseEntry releases)
           end
  end.

Definition commitsURL : string :=
  "https://api.github.com/repos/anthropics/claude-code/commits?path=CHANGELOG.md&per_page=1".

(** The date that the commit history of Claude's changelog gives. *)
Definition commitDateOf (w : World) : time.Time :=
  match http w commitsURL with
  | TransportError _ => time.zero
  | Response code _ body =>
      if negb (code =? 200) then time.zero
      else match json_commits body with
           | inl _ => time.zero
           | inr [] => time.zero
           | inr (date :: _) => parseOrZero RFC3339 date
           end
  end.

(** Claude's changelog as parsed, before any fallback. *)
Definition claudeParsed (content : string) : list ChangelogEntry.t :=
  built (optionalDateEntry content)
    (regexp.FindAllStringSubmatchIndex patterns.claude content).

(** The newest entry has no timestamp. *)
Definition newestUndated (parsed : list ChangelogEntry.t) : bool :=
  match parsed with
  | e0 :: _ => time.IsZero (ReleasedAt e0)
  | [] => false
  end.

(** What [fetchClaudeChangelog] returns in a world, and what it requests. *)
Definition claudeOf (w : World) : (error + list ChangelogEntry.t) * list string :=
  match textOf w claudeURL with
  | inl err => (inl err, [claudeURL])
  | inr content =>
      let parsed := claudeParsed content in
      if newestUndated parsed
      then (inr (if negb (time.IsZero (commitDateOf w))
                 then setNewestReleasedAt parsed (commitDateOf w)
                 else parsed),
            [claudeURL; commitsURL])
      else (inr parsed, [claudeURL])
  end.

(** Copilot's changelog as parsed. *)
Definition copilotParsed (content : string) : list ChangelogEntry.t :=
  built (datedEntry content)
    (regexp.FindAllStringSubmatchIndex patterns.copilot content).

Definition copilotOf (w : World) : error + list ChangelogEntry.t :=
  match textOf w copilotURL with
  | inl err => inl err
  | inr content => inr (copilotParsed content)
  end.

(** A source whose fetch returns in every world. *)
Definition reads (src : Source.t) : Prop :=
  forall w, exists out new, runs (Source.FetchFunc src) w out new.

End WithDecoders.

End Adapters.

(** ** The aggregate views *)
Module Aggregate.
Import Adapters.

(** What the fetch of a source returns in a world. *)
Definition fetchOutcome (w : World) (src : Source.t)
  : error + list ChangelogEntry.t :=
  match fst (Source.FetchFunc src w (MkTrace [] 0)) with
  | Some out => out
  | None => inr []
  end.

Section InWorld.
Variable w : World.

(** *** Latest *)

(** What the goroutine of a source sends. *)
Definition latestSent (named : string * Source.t) : list result :=
  let (name, src) := named in
  match fetchOutcome w src with
  | inl err => [Result name (Source.DisplayName src) None (Some err)]
  | inr (entry :: _) =>
      [Result name (Source.DisplayName src) (Some (stamp src entry)) None]
  | inr [] => []
  end.

(** The warning that a source causes. *)
Definition warningOf (named : string * Source.t) : list output :=
  match fetchOutcome w (snd named) with
  | inl err =>
      [Eprintln ("Warning: Failed to fetch "
                 ++ Source.DisplayName (snd named) ++ ": " ++ err)]
  | inr _ => []
  end.

(** The entry that a source contributes to the latest view: of a fetch
    that succeeded, the newest entry, if it is dated and later than the
    cutoff, under the display name of the source. *)
Definition recentOf (cutoff : time.Time) (named : string * Source.t)
  : list ChangelogEntry.t :=
  match fetchOutcome w (snd named) with
  | inr (newest :: _) =>
      if negb (time.IsZero (ReleasedAt newest))
         && time.After (ReleasedAt newest) cutoff
      then [stamp (snd named) newest]
      else []
  | _ => []
  end.

(** What is written after the warnings. *)
Definition latestView (json : bool) (recentEntries : list ChangelogEntry.t)
  : list output :=
  match recentEntries with
  | [] => [Println noRecent]
  | _ :: _ =>
      if json then [JSONEntries recentEntries]
      else plainBlocks 0 recentEntries
  end.

End InWorld.

End Aggregate.

(** ** The status view *)
Module Status.
Import Adapters Aggregate.

(** The name and the timestamp of a row. *)
Definition key (row : statusEntry) : string * time.Time :=
  (st_Name row, st_releasedAt row).

Definition dated (row : statusEntry) : Prop := st_releasedAt row <> time.zero.

(** The order of the rows that [statusLess] sorts to: for a row [a] before
    a row [b], an undated [a] has only undated rows after it, by name;
    dated rows are newest first. *)
Definition inOrder (a b : statusEntry) : Prop :=
  (st_releasedAt a = time.zero ->
   st_releasedAt b = time.zero /\ stringLess (st_Name b) (st_Name a) = false)
  /\ (dated a -> dated b -> st_releasedAt b <= st_releasedAt a).

Section InWorld.
Variable w : World.

(** What the goroutine of a source sends. *)
Definition statusSent (named : string * Source.t) : list statusResult :=
  let (name, src) := named in
  match fetchOutcome w src with
  | inl err => [StatusResult name (Source.DisplayName src) [] (Some err)]
  | inr entries => [StatusResult name (Source.DisplayName src) entries None]
  end.

(** The row that a source has in the status view: of a fetch that
    succeeded with entries, the display name and the timestamp of the
    newest entry. *)
Definition statusKeys (named : string * Source.t)
  : list (string * time.Time) :=
  match fetchOutcome w (snd named) with
  | inr (e0 :: _) => [(Source.DisplayName (snd named), ReleasedAt e0)]
  | _ => []
  end.

Definition statusView (json : bool) (rows : list statusEntry) : output :=
  if json then JSONStatus rows else StatusTable rows.

End InWorld.

End Status.

(** ** A world in which upstream repeats itself *)
Module Repeats.

Definition releases : list Release :=
  [ MkRelease "v1.2.0" "1.2.0" EmptyString "2026-11-02T11:00:00Z";
    MkRelease "1.2.0" "1.2.0" EmptyString "2026-11-02T09:00:00Z";
    MkRelease "v" "untitled" EmptyString EmptyString ].

Definition decoders : Decoders := {|
  time_Parse := fun _ value => Sample.lookup Sample.instants value;
  json_releases := fun _ => inr releases;
  json_commits := fun _ => inr []
|}.

Definition changelog : string :=
  "## 1.0.0" ++ strings.nl ++ "- Fixed" ++ strings.nl
  ++ "## 1.0.0" ++ strings.nl ++ "- Initial" ++ strings.nl.

Definition world : World := {|
  http := fun _ => Sample.ok changelog;
  clock := fun _ => Sample.noon
|}.

End Repeats.

(** The claim's reading: versions are not empty and do not repeat. *)
Definition versionsDistinct (versions : list string) : Prop :=
  Forall (fun v => v <> EmptyString) versions /\ NoDup versions.

(* ------------------------------------------------------------------ *)
(** * The vocabulary of the further properties *)

(** ** Runes *)
Module Runes.

(** The number of runes of a string. *)
Definition runes (s : string) : nat := utf8.runesFrom (String.length s) s.

Definition isASCII (c : ascii) : Prop := (nat_of_ascii c < 128)%nat.

End Runes.

(** ** The status table *)
Module Table.

(** The two cells that the table does not truncate fit their columns. *)
Definition fits (e : statusEntry) : Prop :=
  utf8.RuneCountInString (st_UpdatedAgo e) <= colUpdated
  /\ utf8.RuneCountInString (st_AvgReleaseFreq e) <= colFreq.

(** The runes of the line of a row, the newline included. *)
Definition rowWidth (e : statusEntry) : Z :=
  67 + Z.max colUpdated (utf8.RuneCountInString (st_UpdatedAgo e))
  + Z.max colFreq (utf8.RuneCountInString (st_AvgReleaseFreq e)).

(** The lines around the rows. *)
Definition framed (rowLines : list string) : list string :=
  ([borderLine "┌" "┬" "┐"; headerRow; borderLine "├" "┼" "┤"]
   ++ rowLines ++ [borderLine "└" "┴" "┘"])%list.

End Table.

(** ** Sources whose newest release is not ahead of the clock *)
Module Clock.

(** No reading of the clock is earlier than the newest entry of a source
    of [arrival]. *)
Definition notAhead (w : World) (arrival : list (string * Source.t)) : Prop :=
  forall named e0 older n,
    In named arrival ->
    Aggregate.fetchOutcome w (snd named) = inr (e0 :: older) ->
    ReleasedAt e0 <= clock w n.

End Clock.

(** ** Lines *)
Module Lines.

(** A string that holds no byte [sep]. *)
Definition free (sep : ascii) (s : string) : Prop :=
  Forall (fun c => c <> sep) (list_ascii_of_string s).

(** A string that holds no newline. *)
Definition oneLine (s : string) : Prop := free newline s.

(** One line per change, each behind a marker. *)
Definition bullets (marker : string) (changes : list string) : string :=
  List.fold_right
    (fun change rest => marker ++ change ++ strings.nl ++ rest)
    EmptyString changes.

(** What [outputMarkdown] writes for the sections of an entry. *)
Definition grouped (secs : list Section_.t) : string :=
  List.fold_right
    (fun section rest =>
       "### " ++ Section_.Name section ++ strings.nl ++ strings.nl
       ++ bullets "- " (Section_.Changes section) ++ strings.nl ++ rest)
    EmptyString secs.

(** The string starts with a white-space rune: what [dropSpace] removes
    first. *)
Definition leadSpace (back : bool) (s : string) : bool :=
  match s with
  | String a s1 =>
      strings.asciiSpace a
      || match s1 with
         | String b s2 =>
             (if back then strings.space2 b a else strings.space2 a b)
             || match s2 with
                | String c _ =>
                    if back then strings.space3 c b a else strings.space3 a b c
                | EmptyString => false
                end
         | EmptyString => false
         end
  | EmptyString => false
  end.

End Lines.

(** ** The flat reading of a release body *)
Module Flat.

(** The changes of a list of sections, in order. *)
Definition changesOf (secs : list Section_.t) : list string :=
  List.flat_map Section_.Changes secs.

(** Every change that the loop of [parseReleaseBody] holds: the
    ungrouped ones, those of the saved sections and those of the open
    section. *)
Definition held (st : bodyState) : list string :=
  (ungroupedChanges st ++ changesOf (sections st)
   ++ match currentSection st with
      | Some cur => Section_.Changes cur
      | None => []
      end)%list.

(** The body of the loop of the first program's [parseReleaseBody]. *)
Definition legacyLine (changes : list string) (line : string) : list string :=
  let trimmed := strings.TrimSpace line in
  if strings.HasPrefix trimmed "- " || strings.HasPrefix trimmed "* "
  then
    let change := strings.TrimPrefix trimmed "- " in
    let change := strings.TrimPrefix change "* " in
    if negb (String.eqb change EmptyString)
       && negb (strings.HasPrefix change "@")
    then (changes ++ [change])%list
    else changes
  else changes.

(** No section has been opened yet. *)
Definition unopened (st : bodyState) : Prop :=
  currentSection st = None -> sections st = [].

(** A line that is a section header, and one that opens a section. *)
Definition isHeader (line : string) : bool :=
  match regexp.FindStringSubmatch patterns.header (strings.TrimSpace line) with
  | Some _ => true
  | None => false
  end.

Definition opensSection (line : string) : Prop :=
  exists match_,
    regexp.FindStringSubmatch patterns.header (strings.TrimSpace line)
    = Some match_
    /\ strings.TrimSpace (List.nth 1 match_ EmptyString) <> WhatsChanged.

End Flat.

(** ** The entries that the cadence counts *)
Module Cadence.

Definition dated (e : ChangelogEntry.t) : bool :=
  negb (time.IsZero (ReleasedAt e)).

(** The first ten dated entries. *)
Definition counted (entries : list ChangelogEntry.t) : list ChangelogEntry.t :=
  List.firstn 10 (List.filter dated entries).

(** The timestamps lie in a window that a [Duration] can span. *)
Definition spannable (ts : list time.Time) : Prop :=
  exists lo, Forall (fun t => lo <= t <= lo + time.maxDuration) ts.

End Cadence.

(** ** Where the output goes *)
Module Streams.

(** Written on standard output ([printUsage] and the errors write on
    standard error). *)
Definition onStdout (o : output) : Prop :=
  match o with
  | Eprintln _ | Usage => False
  | _ => True
  end.

(** The words that [main] answers without a source. *)
Definition answered : list string :=
  ["-h"; "--help"; "help"; "-v"; "--version"; "list-sources"].

(** The names that make [main] fetch: the two commands and the keys of
    the registry. *)
Definition fetching : list string :=
  ["latest"; "status"; "claude"; "codex"; "opencode"; "gemini"; "copilot"].

(** The keys of the registry of the first multi-source program. *)
Definition legacyKeys : list string :=
  ["claude"; "codex"; "opencode"; "gemini"; "copilot"].


(** When [cc-latest] fails, once it is past [-h] and [-v]: the fetch
    fails, or the changelog has no entry, or a version is asked for,
    without [-list], that no entry has. *)
Definition ccFails (w : World) (f : CcLatest.flags) : Prop :=
  match Adapters.textOf w CcLatest.changelogURL with
  | inl _ => True
  | inr changelog =>
      match CcLatest.parseChangelog changelog with
      | Some (newest :: older) =>
          CcLatest.listVersions f = false
          /\ CcLatest.targetVersion f <> EmptyString
          /\ ~ In (CcLatest.targetVersion f)
                (List.map Legacy.ChangelogEntry.Version (newest :: older))
      | _ => True
      end
  end.

(** Written on standard output by the single-source programs. *)
Definition legacyStdout (o : Legacy.output) : Prop :=
  match o with
  | Legacy.Stdout _ | Legacy.JSON _ => True
  | _ => False
  end.

End Streams.

(** ** Dates *)
Module Days.

(** A formatter for the small world: the day of each of its instants. *)
Definition formatter : Formatter := {|
  time_Format := fun t _ =>
    if (Sample.nine <=? t) && (t <=? Sample.noon) then "2026-11-02"
    else "2026-10-31"
|}.

End Days.

(* ================================================================== *)
(** * Properties *)

(** ** Strings *)

Lemma HasPrefix_app (s p q : string) :
  strings.HasPrefix s (p ++ q)
  = strings.HasPrefix s p && strings.HasPrefix (strings.skip (String.length p) s) q.
Proof.
  revert s; induction p as [|c p IH]; intros s; simpl.
  - reflexivity.
  - destruct s as [|c' s]; simpl.
    + reflexivity.
    + rewrite IH, andb_assoc. reflexivity.
Qed.

Lemma skip_skip (n m : nat) (s : string) :
  strings.skip n (strings.skip m s) = strings.skip (m + n) s.
Proof.
  revert s; induction m as [|m IH]; intros s; simpl.
  - reflexivity.
  - destruct s as [|c s]; simpl.
    + destruct n; reflexivity.
    + apply IH.
Qed.

Lemma TrimPrefix_true (s p : string) :
  strings.HasPrefix s p = true ->
  strings.TrimPrefix s p = strings.skip (String.length p) s.
Proof. intros H. unfold strings.TrimPrefix. rewrite H. reflexivity. Qed.

Lemma TrimPrefix_false (s p : string) :
  strings.HasPrefix s p = false -> strings.TrimPrefix s p = s.
Proof. intros H. unfold strings.TrimPrefix. rewrite H. reflexivity. Qed.

(** ** The release-body parser *)
Module ReleaseBodyFacts.
Import ReleaseBody.

Lemma saveSection_retained (st : bodyState) :
  inv st -> Forall retained (saveSection st).
Proof.
  intros [Hs Hc]. unfold saveSection.
  destruct (currentSection st) as [cur|] eqn:E; [|exact Hs].
  destruct (Section_.Changes cur) as [|c cs] eqn:Ec; simpl; [exact Hs|].
  apply Forall_app; split; [exact Hs|].
  constructor; [|constructor].
  split; [rewrite Ec; discriminate | apply Hc; reflexivity].
Qed.

Lemma bodyLine_inv (st : bodyState) (line : string) :
  inv st -> inv (bodyLine st line).
Proof.
  intros Hinv. unfold bodyLine.
  destruct (regexp.FindStringSubmatch _ _) as [match_|].
  - destruct (String.eqb _ WhatsChanged) eqn:E; [exact Hinv|].
    split; simpl.
    + apply saveSection_retained, Hinv.
    + intros cur [= <-]; simpl. apply String.eqb_neq, E.
  - destruct (_ || _); [|exact Hinv].
    destruct (_ && _); [|exact Hinv].
    destruct Hinv as [Hs Hc].
    destruct (currentSection st) as [cur|] eqn:E; split; simpl; try exact Hs.
    + intros cur' [= <-]; simpl. apply Hc; reflexivity.
    + discriminate.
Qed.

Lemma fold_bodyLine_inv (lines : list string) (st : bodyState) :
  inv st -> inv (List.fold_left bodyLine lines st).
Proof.
  revert st; induction lines as [|l lines IH]; intros st H; simpl.
  - exact H.
  - apply IH, bodyLine_inv, H.
Qed.

End ReleaseBodyFacts.

(** ** Rounding to 53 bits *)
Module FloatFacts.
Import QArith_base Qreduction float64 Floats.
Local Open Scope Z_scope.

Lemma nearestEven_bounds (n m : Z) :
  0 < m -> n / m <= nearestEven n m <= n / m + 1.
Proof.
  intros Hm. unfold nearestEven. cbv zeta.
  destruct (2 * (n mod m) <? m); [lia|].
  destruct (m <? 2 * (n mod m)); [lia|].
  destruct (Z.even (n / m)); lia.
Qed.

Lemma nearestEven_le (n m K : Z) :
  0 < m -> n <= K * m -> nearestEven n m <= K.
Proof.
  intros Hm H. unfold nearestEven. cbv zeta.
  pose proof (Z.div_mod n m ltac:(lia)) as E.
  pose proof (Z.mod_pos_bound n m Hm) as B.
  assert (Hq : n / m <= K) by nia.
  destruct (Z.ltb_spec (2 * (n mod m)) m); [exact Hq|].
  assert (n / m < K) by nia.
  destruct (m <? 2 * (n mod m)); [lia|].
  destruct (Z.even (n / m)); lia.
Qed.

Lemma nearestEven_ge (n m K : Z) :
  0 < m -> K * m <= n -> K <= nearestEven n m.
Proof.
  intros Hm H.
  pose proof (nearestEven_bounds n Hm).
  pose proof (Z.div_mod n m ltac:(lia)) as E.
  pose proof (Z.mod_pos_bound n m Hm) as B.
  assert (K <= n / m) by nia. lia.
Qed.

Lemma pow2_pos (k : Z) : 0 < 2 ^ k \/ (k < 0 /\ 2 ^ k = 0).
Proof.
  destruct (Z_lt_le_dec k 0) as [H|H].
  - right. split; [exact H|]. apply Z.pow_neg_r, H.
  - left. apply Z.pow_pos_nonneg; lia.
Qed.

(** The scaled quotient has 53 bits at least. *)
Lemma exponent_spec (a d : Z) :
  0 < a -> 0 < d ->
  2 ^ 52 * snd (scaled a d (exponent a d))
  <= fst (scaled a d (exponent a d)).
Proof.
  intros Ha Hd.
  destruct (Z.log2_spec a Ha) as [La Ua].
  destruct (Z.log2_spec d Hd) as [Ld Ud].
  pose proof (Z.log2_nonneg a) as Na. pose proof (Z.log2_nonneg d) as Nd.
  rewrite Z.pow_succ_r in Ua, Ud by assumption.
  set (la := Z.log2 a) in *. set (ld := Z.log2 d) in *.
  assert (P2 : forall k, 0 <= k -> 0 < 2 ^ k)
    by (intros; apply Z.pow_pos_nonneg; lia).
  assert (P0 : 2 ^ 52
               * snd (scaled a d (la - ld - 53))
               <= fst (scaled a d (la - ld - 53))).
  { unfold scaled. cbn [fst snd].
    destruct (Z_lt_le_dec (la - ld - 53) 0) as [He|He].
    - rewrite (Z.max_l 0 (la - ld - 53)) by lia.
      rewrite (Z.max_r 0 (- (la - ld - 53))) by lia.
      rewrite Z.pow_0_r, Z.mul_1_r.
      assert (E : 2 ^ la * 2 ^ (- (la - ld - 53)) = 2 ^ 52 * (2 * 2 ^ ld)).
      { rewrite <- Z.pow_add_r by lia.
        replace (la + - (la - ld - 53)) with (52 + (1 + ld)) by lia.
        rewrite Z.pow_add_r by lia. rewrite (Z.pow_add_r 2 1 ld) by lia.
        reflexivity. }
      pose proof (P2 (- (la - ld - 53)) ltac:(lia)).
      nia.
    - rewrite (Z.max_r 0 (la - ld - 53)) by lia.
      rewrite (Z.max_l 0 (- (la - ld - 53))) by lia.
      rewrite Z.pow_0_r, Z.mul_1_r.
      assert (E : 2 ^ la = 2 ^ 52 * (2 * 2 ^ ld) * 2 ^ (la - ld - 53)).
      { replace (2 * 2 ^ ld) with (2 ^ (1 + ld))
          by (rewrite Z.pow_add_r by lia; reflexivity).
        rewrite <- !Z.pow_add_r by lia. f_equal. lia. }
      pose proof (P2 (la - ld - 53) He). pose proof (P2 ld Nd).
      nia. }
  unfold exponent. cbv zeta. fold la ld.
  destruct (scaled a d (la - ld - 53)) as [n m] eqn:Es.
  cbn [fst snd] in P0.
  destruct (Z.ltb_spec (n / m) (2 ^ 53)) as [Hlt|Hge].
  - rewrite Es. exact P0.
  - unfold scaled in Es |- *. injection Es as En Em. cbn [fst snd].
    assert (Hm : 0 < m).
    { subst m. apply Z.mul_pos_pos; [exact Hd|]. apply P2. lia. }
    assert (Hn : 2 ^ 53 * m <= n).
    { pose proof (Z.div_mod n m ltac:(lia)).
      pose proof (Z.mod_pos_bound n m Hm). nia. }
    subst n m.
    destruct (Z_lt_le_dec (la - ld - 53) (-1)) as [He|He].
    + rewrite (Z.max_l 0 (la - ld - 53 + 1)) by lia.
      rewrite (Z.max_r 0 (- (la - ld - 53 + 1))) by lia.
      rewrite (Z.max_l 0 (la - ld - 53)) in Hn by lia.
      rewrite (Z.max_r 0 (- (la - ld - 53))) in Hn by lia.
      rewrite Z.pow_0_r, Z.mul_1_r in *.
      replace (- (la - ld - 53)) with (1 + - (la - ld - 53 + 1)) in Hn by lia.
      rewrite Z.pow_add_r in Hn by lia.
      change (2 ^ 53) with (2 * 2 ^ 52) in Hn. lia.
    + destruct (Z.eq_dec (la - ld - 53) (-1)) as [E1|E1].
      * replace (la - ld - 53 + 1) with 0 by lia.
        replace (la - ld - 53) with (-1) in Hn by lia.
        change (Z.max 0 0) with 0. change (Z.max 0 (- 0)) with 0.
        change (Z.max 0 (-1)) with 0 in Hn.
        change (Z.max 0 (- -1)) with 1 in Hn.
        rewrite Z.pow_0_r, Z.mul_1_r in *. rewrite Z.pow_1_r in Hn.
        change (2 ^ 53) with (2 * 2 ^ 52) in Hn. lia.
      * rewrite (Z.max_r 0 (la - ld - 53 + 1)) by lia.
        rewrite (Z.max_l 0 (- (la - ld - 53 + 1))) by lia.
        rewrite (Z.max_r 0 (la - ld - 53)) in Hn by lia.
        rewrite (Z.max_l 0 (- (la - ld - 53))) in Hn by lia.
        rewrite Z.pow_0_r, Z.mul_1_r in *.
        rewrite Z.pow_add_r by lia.
        change (2 ^ 53) with (2 ^ 52 * 2 ^ 1) in Hn. lia.
Qed.

(** And no more than 53 bits. *)
Lemma exponent_upper (a d : Z) :
  0 < a -> 0 < d ->
  fst (scaled a d (exponent a d))
  < 2 ^ 53 * snd (scaled a d (exponent a d)).
Proof.
  intros Ha Hd.
  destruct (Z.log2_spec a Ha) as [La Ua].
  destruct (Z.log2_spec d Hd) as [Ld Ud].
  pose proof (Z.log2_nonneg a) as Na. pose proof (Z.log2_nonneg d) as Nd.
  rewrite Z.pow_succ_r in Ua, Ud by assumption.
  set (la := Z.log2 a) in *. set (ld := Z.log2 d) in *.
  assert (P2 : forall k, 0 <= k -> 0 < 2 ^ k)
    by (intros; apply Z.pow_pos_nonneg; lia).
  assert (P0 : fst (scaled a d (la - ld - 53))
               < 2 * 2 ^ 53 * snd (scaled a d (la - ld - 53))).
  { unfold scaled. cbn [fst snd].
    destruct (Z_lt_le_dec (la - ld - 53) 0) as [He|He].
    - rewrite (Z.max_l 0 (la - ld - 53)) by lia.
      rewrite (Z.max_r 0 (- (la - ld - 53))) by lia.
      rewrite Z.pow_0_r, Z.mul_1_r.
      assert (E : 2 ^ la * 2 ^ (- (la - ld - 53)) = 2 ^ 53 * 2 ^ ld).
      { rewrite <- !Z.pow_add_r by lia. f_equal. lia. }
      pose proof (P2 (- (la - ld - 53)) ltac:(lia)).
      assert (a * 2 ^ (- (la - ld - 53))
              < 2 * 2 ^ la * 2 ^ (- (la - ld - 53)))
        by (apply Z.mul_lt_mono_pos_r; lia).
      nia.
    - rewrite (Z.max_r 0 (la - ld - 53)) by lia.
      rewrite (Z.max_l 0 (- (la - ld - 53))) by lia.
      rewrite Z.pow_0_r, Z.mul_1_r.
      assert (E : 2 ^ la = 2 ^ 53 * 2 ^ ld * 2 ^ (la - ld - 53)).
      { rewrite <- !Z.pow_add_r by lia. f_equal. lia. }
      pose proof (P2 (la - ld - 53) He). pose proof (P2 ld Nd).
      assert (2 ^ 53 * 2 ^ ld * 2 ^ (la - ld - 53)
              <= 2 ^ 53 * d * 2 ^ (la - ld - 53))
        by (apply Z.mul_le_mono_nonneg_r; nia).
      nia. }
  unfold exponent. cbv zeta. fold la ld.
  destruct (scaled a d (la - ld - 53)) as [n m] eqn:Es.
  cbn [fst snd] in P0.
  unfold scaled in Es. injection Es as En Em.
  assert (Hm : 0 < m).
  { subst m. apply Z.mul_pos_pos; [exact Hd|]. apply P2. lia. }
  destruct (Z.ltb_spec (n / m) (2 ^ 53)) as [Hlt|Hge].
  - unfold scaled. cbn [fst snd]. rewrite En, Em.
    pose proof (Z.div_mod n m ltac:(lia)).
    pose proof (Z.mod_pos_bound n m Hm). nia.
  - unfold scaled. cbn [fst snd]. subst n m.
    destruct (Z_lt_le_dec (la - ld - 53) (-1)) as [He|He].
    + rewrite (Z.max_l 0 (la - ld - 53 + 1)) by lia.
      rewrite (Z.max_r 0 (- (la - ld - 53 + 1))) by lia.
      rewrite (Z.max_l 0 (la - ld - 53)) in P0 by lia.
      rewrite (Z.max_r 0 (- (la - ld - 53))) in P0 by lia.
      rewrite Z.pow_0_r, Z.mul_1_r in *.
      replace (- (la - ld - 53)) with (1 + - (la - ld - 53 + 1)) in P0 by lia.
      rewrite Z.pow_add_r in P0 by lia.
      change (2 ^ 1) with 2 in P0. lia.
    + destruct (Z.eq_dec (la - ld - 53) (-1)) as [E1|E1].
      * replace (la - ld - 53 + 1) with 0 by lia.
        replace (la - ld - 53) with (-1) in P0 by lia.
        change (Z.max 0 0) with 0. change (Z.max 0 (- 0)) with 0.
        change (Z.max 0 (-1)) with 0 in P0.
        change (Z.max 0 (- -1)) with 1 in P0.
        rewrite Z.pow_0_r, Z.mul_1_r in *. rewrite Z.pow_1_r in P0. lia.
      * rewrite (Z.max_r 0 (la - ld - 53 + 1)) by lia.
        rewrite (Z.max_l 0 (- (la - ld - 53 + 1))) by lia.
        rewrite (Z.max_r 0 (la - ld - 53)) in P0 by lia.
        rewrite (Z.max_l 0 (- (la - ld - 53))) in P0 by lia.
        rewrite Z.pow_0_r, Z.mul_1_r in *.
        rewrite Z.pow_add_r by lia. change (2 ^ 1) with 2. lia.
Qed.

Lemma round_pos_le (a d K p : Z) :
  0 < a -> 0 < d -> 0 <= p -> K < 2 ^ 53 -> a * 2 ^ p <= K * d ->
  let e := exponent a d in
  nearestEven (fst (scaled a d e)) (snd (scaled a d e))
  * 2 ^ Z.max 0 e * 2 ^ p
  <= K * 2 ^ Z.max 0 (- e).
Proof.
  intros Ha Hd Hp HK H e.
  pose proof (exponent_spec Ha Hd) as Hs. fold e in Hs.
  unfold scaled in *. cbn [fst snd] in *.
  set (u := Z.max 0 (- e)) in *. set (v := Z.max 0 e) in *.
  assert (Hu : 0 <= u) by lia. assert (Hv : 0 <= v) by lia.
  assert (PU : 0 < 2 ^ u) by (apply Z.pow_pos_nonneg; lia).
  assert (PV : 0 < 2 ^ v) by (apply Z.pow_pos_nonneg; lia).
  assert (PP : 0 < 2 ^ p) by (apply Z.pow_pos_nonneg; lia).
  assert (Hlt : 2 ^ (v + p) < 2 ^ (u + 1)).
  { rewrite !Z.pow_add_r by lia. change (2 ^ 1) with 2.
    change (2 ^ 53) with (2 * 2 ^ 52) in HK.
    assert (2 ^ 52 * d * (2 ^ v * 2 ^ p) <= K * d * 2 ^ u) by nia.
    assert (K * d * 2 ^ u < 2 * 2 ^ 52 * d * 2 ^ u) by nia.
    nia. }
  apply Z.pow_lt_mono_r_iff in Hlt; [|lia|lia].
  assert (EU : 2 ^ u = 2 ^ v * 2 ^ p * 2 ^ (u - v - p)).
  { rewrite <- !Z.pow_add_r by lia. f_equal. lia. }
  assert (PJ : 0 < 2 ^ (u - v - p)) by (apply Z.pow_pos_nonneg; lia).
  assert (Hq : nearestEven (a * 2 ^ u) (d * 2 ^ v) <= K * 2 ^ (u - v - p)).
  { apply nearestEven_le; [nia|]. rewrite EU.
    assert (a * 2 ^ p * (2 ^ v * 2 ^ (u - v - p))
            <= K * d * (2 ^ v * 2 ^ (u - v - p)))
      by (apply Z.mul_le_mono_nonneg_r; nia).
    nia. }
  set (q' := nearestEven (a * 2 ^ u) (d * 2 ^ v)) in *.
  rewrite EU.
  apply Z.le_trans with (K * 2 ^ (u - v - p) * (2 ^ v * 2 ^ p));
    [|apply Z.eq_le_incl; ring].
  rewrite <- Z.mul_assoc. apply Z.mul_le_mono_nonneg_r; [nia | exact Hq].
Qed.

Lemma round_pos_ge (a d K p : Z) :
  0 < a -> 0 < d -> 0 <= p -> 0 <= K < 2 ^ 53 -> K * d <= a * 2 ^ p ->
  let e := exponent a d in
  K * 2 ^ Z.max 0 (- e)
  <= nearestEven (fst (scaled a d e)) (snd (scaled a d e))
     * 2 ^ Z.max 0 e * 2 ^ p.
Proof.
  intros Ha Hd Hp HK H e.
  pose proof (exponent_spec Ha Hd) as Hs. fold e in Hs.
  unfold scaled in *. cbn [fst snd] in *.
  set (u := Z.max 0 (- e)) in *. set (v := Z.max 0 e) in *.
  assert (Hu : 0 <= u) by lia. assert (Hv : 0 <= v) by lia.
  assert (PU : 0 < 2 ^ u) by (apply Z.pow_pos_nonneg; lia).
  assert (PV : 0 < 2 ^ v) by (apply Z.pow_pos_nonneg; lia).
  assert (PP : 0 < 2 ^ p) by (apply Z.pow_pos_nonneg; lia).
  assert (Hm : 0 < d * 2 ^ v) by nia.
  assert (Hq : 2 ^ 52 <= nearestEven (a * 2 ^ u) (d * 2 ^ v))
    by (apply nearestEven_ge; [exact Hm | exact Hs]).
  destruct (Z_lt_le_dec u (v + p)) as [Hc|Hc].
  - assert (E : 2 ^ (v + p) = 2 * 2 ^ u * 2 ^ (v + p - u - 1)).
    { replace (2 * 2 ^ u) with (2 ^ (1 + u))
        by (rewrite Z.pow_add_r by lia; reflexivity).
      rewrite <- Z.pow_add_r by lia. f_equal. lia. }
    assert (PJ : 0 < 2 ^ (v + p - u - 1)) by (apply Z.pow_pos_nonneg; lia).
    set (q' := nearestEven (a * 2 ^ u) (d * 2 ^ v)) in *.
    rewrite <- Z.mul_assoc, <- Z.pow_add_r, E by lia.
    change (2 ^ 53) with (2 * 2 ^ 52) in HK.
    apply Z.le_trans with (2 ^ 52 * (2 * 2 ^ u * 2 ^ (v + p - u - 1)));
      [|apply Z.mul_le_mono_nonneg_r; [nia | exact Hq]].
    assert (K * 2 ^ u <= 2 * 2 ^ 52 * 2 ^ u) by nia.
    assert (2 * 2 ^ 52 * 2 ^ u * 1
            <= 2 * 2 ^ 52 * 2 ^ u * 2 ^ (v + p - u - 1))
      by (apply Z.mul_le_mono_nonneg_l; nia).
    nia.
  - assert (EU : 2 ^ u = 2 ^ v * 2 ^ p * 2 ^ (u - v - p)).
    { rewrite <- !Z.pow_add_r by lia. f_equal. lia. }
    assert (PJ : 0 < 2 ^ (u - v - p)) by (apply Z.pow_pos_nonneg; lia).
    assert (Hk : K * 2 ^ (u - v - p) <= nearestEven (a * 2 ^ u) (d * 2 ^ v)).
    { apply nearestEven_ge; [exact Hm|]. rewrite EU.
      assert (K * d * (2 ^ v * 2 ^ (u - v - p))
              <= a * 2 ^ p * (2 ^ v * 2 ^ (u - v - p)))
        by (apply Z.mul_le_mono_nonneg_r; nia).
      nia. }
    set (q' := nearestEven (a * 2 ^ u) (d * 2 ^ v)) in *.
    rewrite EU.
    apply Z.le_trans with (K * 2 ^ (u - v - p) * (2 ^ v * 2 ^ p));
      [apply Z.eq_le_incl; ring|].
    rewrite <- (Z.mul_assoc q'). apply Z.mul_le_mono_nonneg_r; [nia | exact Hk].
Qed.

Lemma den_dyadic (p : Z) : 0 <= p -> Z.pos (Z.to_pos (2 ^ p)) = 2 ^ p.
Proof. intros H. apply Z2Pos.id, Z.pow_pos_nonneg; lia. Qed.

Lemma nearestEven_nonneg (n m : Z) : 0 <= n -> 0 < m -> 0 <= nearestEven n m.
Proof. intros Hn Hm. apply nearestEven_ge; [exact Hm | lia]. Qed.

(** The value that [round] reduces to lowest terms. *)
Lemma round_raw (x : Q) :
  Z.abs (Qnum x) <> 0 ->
  let a := Z.abs (Qnum x) in
  let d := Z.pos (Qden x) in
  let e := exponent a d in
  Qeq (round x)
    (Qmake (Z.sgn (Qnum x)
            * nearestEven (fst (scaled a d e)) (snd (scaled a d e))
            * 2 ^ Z.max 0 e)
       (Z.to_pos (2 ^ Z.max 0 (- e)))).
Proof.
  intros Hz a d e. unfold round. cbv zeta. fold a d e.
  destruct (Z.eqb_spec a 0) as [E|_]; [contradiction|].
  rewrite (surjective_pairing (scaled a d e)).
  apply Qred_correct.
Qed.

(** Rounding does not cross a number of 53 bits. *)
Lemma round_le (x : Q) (K p : Z) :
  0 <= p -> Z.abs K < 2 ^ 53 ->
  Qle x (dyadic K p) -> Qle (round x) (dyadic K p).
Proof.
  intros Hp HK H.
  destruct (Z.eq_dec (Z.abs (Qnum x)) 0) as [Hz|Hz].
  - unfold round. cbv zeta. rewrite Hz. cbn [Z.eqb].
    unfold Qle, dyadic in *. cbn [Qnum Qden] in *.
    assert (Qnum x = 0) by lia. nia.
  - rewrite (round_raw x Hz).
    unfold Qle, dyadic in *. cbn [Qnum Qden] in *.
    rewrite (@den_dyadic p Hp) in *.
    pose proof (Pos2Z.is_pos (Qden x)) as Hd.
    set (d := Z.pos (Qden x)) in *.
    set (e := exponent (Z.abs (Qnum x)) d) in *.
    rewrite (@den_dyadic (Z.max 0 (- e)) ltac:(lia)).
    destruct (Qnum x) as [|a|a] eqn:En; [contradiction Hz; reflexivity| |].
    + cbn [Z.sgn Z.abs] in *. rewrite Z.mul_1_l.
      apply (@round_pos_le (Z.pos a) d K p); try lia.
    + cbn [Z.sgn Z.abs] in *.
      pose proof (exponent_spec (Pos2Z.is_pos a) Hd) as Hs. fold e in Hs.
      assert (Hm : 0 < snd (scaled (Z.pos a) d e)).
      { unfold scaled. cbn [snd].
        apply Z.mul_pos_pos; [exact Hd|]. apply Z.pow_pos_nonneg; lia. }
      assert (Hq : 0 <= nearestEven (fst (scaled (Z.pos a) d e))
                          (snd (scaled (Z.pos a) d e)))
        by (apply nearestEven_nonneg; [lia | exact Hm]).
      assert (PV : 0 < 2 ^ Z.max 0 e) by (apply Z.pow_pos_nonneg; lia).
      assert (PU : 0 < 2 ^ Z.max 0 (- e)) by (apply Z.pow_pos_nonneg; lia).
      assert (PP : 0 < 2 ^ p) by (apply Z.pow_pos_nonneg; lia).
      destruct (Z_lt_le_dec K 0) as [Hk|Hk].
      * pose proof (@round_pos_ge (Z.pos a) d (- K) p
                      (Pos2Z.is_pos a) Hd Hp ltac:(lia) ltac:(lia)) as Hr.
        cbv zeta in Hr. fold e in Hr. lia.
      * assert (0 <= nearestEven (fst (scaled (Z.pos a) d e))
                       (snd (scaled (Z.pos a) d e))
                     * 2 ^ Z.max 0 e * 2 ^ p) by nia.
        nia.
Qed.

Lemma round_ge (x : Q) (K p : Z) :
  0 <= p -> Z.abs K < 2 ^ 53 ->
  Qle (dyadic K p) x -> Qle (dyadic K p) (round x).
Proof.
  intros Hp HK H.
  destruct (Z.eq_dec (Z.abs (Qnum x)) 0) as [Hz|Hz].
  - unfold round. cbv zeta. rewrite Hz. cbn [Z.eqb].
    unfold Qle, dyadic in *. cbn [Qnum Qden] in *.
    assert (Qnum x = 0) by lia. nia.
  - rewrite (round_raw x Hz).
    unfold Qle, dyadic in *. cbn [Qnum Qden] in *.
    rewrite (@den_dyadic p Hp) in *.
    pose proof (Pos2Z.is_pos (Qden x)) as Hd.
    set (d := Z.pos (Qden x)) in *.
    set (e := exponent (Z.abs (Qnum x)) d) in *.
    rewrite (@den_dyadic (Z.max 0 (- e)) ltac:(lia)).
    destruct (Qnum x) as [|a|a] eqn:En; [contradiction Hz; reflexivity| |].
    + cbn [Z.sgn Z.abs] in *. rewrite Z.mul_1_l.
      pose proof (exponent_spec (Pos2Z.is_pos a) Hd) as Hs. fold e in Hs.
      assert (Hm : 0 < snd (scaled (Z.pos a) d e)).
      { unfold scaled. cbn [snd].
        apply Z.mul_pos_pos; [exact Hd|]. apply Z.pow_pos_nonneg; lia. }
      assert (Hq : 0 <= nearestEven (fst (scaled (Z.pos a) d e))
                          (snd (scaled (Z.pos a) d e)))
        by (apply nearestEven_nonneg; [lia | exact Hm]).
      assert (PV : 0 < 2 ^ Z.max 0 e) by (apply Z.pow_pos_nonneg; lia).
      assert (PU : 0 < 2 ^ Z.max 0 (- e)) by (apply Z.pow_pos_nonneg; lia).
      assert (PP : 0 < 2 ^ p) by (apply Z.pow_pos_nonneg; lia).
      destruct (Z_lt_le_dec K 0) as [Hk|Hk].
      * assert (0 <= nearestEven (fst (scaled (Z.pos a) d e))
                       (snd (scaled (Z.pos a) d e))
                     * 2 ^ Z.max 0 e * 2 ^ p) by nia.
        nia.
      * apply (@round_pos_ge (Z.pos a) d K p); try lia.
    + cbn [Z.sgn Z.abs] in *.
      pose proof (@round_pos_le (Z.pos a) d (- K) p
                    (Pos2Z.is_pos a) Hd Hp ltac:(lia) ltac:(lia)) as Hr.
      cbv zeta in Hr. fold e in Hr. lia.
Qed.

Lemma round_canonical (x : Q) : Qred (round x) = round x.
Proof.
  unfold round. cbv zeta.
  destruct (Z.abs (Qnum x) =? 0); [reflexivity|].
  destruct (scaled _ _ _) as [n m].
  apply Qred_complete, Qred_correct.
Qed.

Lemma Qred_inject (z : Z) : Qred (inject_Z z) = inject_Z z.
Proof.
  unfold Qred, inject_Z.
  pose proof (Z.ggcd_gcd z 1) as Hg.
  pose proof (Z.ggcd_correct_divisors z 1) as Hd.
  destruct (Z.ggcd z 1) as [g [aa bb]]. cbn [fst snd] in *.
  rewrite Z.gcd_1_r in Hg. subst g. destruct Hd as [Ha Hb].
  assert (Eb : bb = 1) by lia. assert (Ea : aa = z) by lia.
  rewrite Eb, Ea. reflexivity.
Qed.

(** An integer of 53 bits is a [float64]. *)
Lemma ofInt_exact (z : Z) : Z.abs z < 2 ^ 53 -> ofInt z = inject_Z z.
Proof.
  intros H. unfold ofInt.
  assert (E : Qeq (round (inject_Z z)) (inject_Z z)).
  { apply Qle_antisym.
    - apply (@round_le (inject_Z z) z 0); [lia | exact H | apply Qle_refl].
    - apply (@round_ge (inject_Z z) z 0); [lia | exact H | apply Qle_refl]. }
  rewrite <- round_canonical. rewrite (Qred_complete _ _ E).
  apply Qred_inject.
Qed.

Lemma toInt_le (x : Q) (k : Z) : Qle x (inject_Z k) -> toInt x <= k.
Proof.
  unfold Qle, toInt. cbn [inject_Z Qnum Qden]. intros H.
  pose proof (Pos2Z.is_pos (Qden x)) as Hd.
  pose proof (Z.quot_rem' (Qnum x) (Z.pos (Qden x))) as E.
  pose proof (Z.rem_bound_abs (Qnum x) (Z.pos (Qden x)) ltac:(lia)) as B.
  destruct (Z_lt_le_dec (Qnum x) 0) as [Hn|Hn].
  - pose proof (Z.rem_nonpos (Qnum x) (Z.pos (Qden x)) ltac:(lia) ltac:(lia)).
    nia.
  - pose proof (Z.rem_bound_pos (Qnum x) (Z.pos (Qden x)) Hn Hd). nia.
Qed.

Lemma toInt_ge (x : Q) (k : Z) : Qle (inject_Z k) x -> k <= toInt x.
Proof.
  unfold Qle, toInt. cbn [inject_Z Qnum Qden]. intros H.
  pose proof (Pos2Z.is_pos (Qden x)) as Hd.
  pose proof (Z.quot_rem' (Qnum x) (Z.pos (Qden x))) as E.
  pose proof (Z.rem_bound_abs (Qnum x) (Z.pos (Qden x)) ltac:(lia)) as B.
  destruct (Z_lt_le_dec (Qnum x) 0) as [Hn|Hn].
  - pose proof (Z.rem_nonpos (Qnum x) (Z.pos (Qden x)) ltac:(lia) ltac:(lia)).
    nia.
  - pose proof (Z.rem_bound_pos (Qnum x) (Z.pos (Qden x)) Hn Hd). nia.
Qed.

Lemma toInt_lt (x : Q) (K p k : Z) :
  0 <= p -> Qle x (dyadic K p) -> K < k * 2 ^ p -> 0 < k -> toInt x < k.
Proof.
  unfold Qle, toInt, dyadic. cbn [Qnum Qden]. intros Hp H HK Hk.
  rewrite (@den_dyadic p Hp) in H.
  assert (PP : 0 < 2 ^ p) by (apply Z.pow_pos_nonneg; lia).
  pose proof (Pos2Z.is_pos (Qden x)) as Hd.
  pose proof (Z.quot_rem' (Qnum x) (Z.pos (Qden x))) as E.
  destruct (Z_lt_le_dec (Qnum x) 0) as [Hn|Hn].
  - pose proof (Z.quot_opp_l (Qnum x) (Z.pos (Qden x)) ltac:(lia)).
    pose proof (Z.quot_pos (- Qnum x) (Z.pos (Qden x)) ltac:(lia) Hd). lia.
  - pose proof (Z.rem_bound_pos (Qnum x) (Z.pos (Qden x)) Hn Hd).
    assert (Z.quot (Qnum x) (Z.pos (Qden x)) * Z.pos (Qden x) * 2 ^ p
            < k * Z.pos (Qden x) * 2 ^ p) by nia.
    nia.
Qed.

Lemma toInt_gt (x : Q) (K p k : Z) :
  0 <= p -> Qle (dyadic K p) x -> k * 2 ^ p < K -> k < 0 -> k < toInt x.
Proof.
  unfold Qle, toInt, dyadic. cbn [Qnum Qden]. intros Hp H HK Hk.
  rewrite (@den_dyadic p Hp) in H.
  assert (PP : 0 < 2 ^ p) by (apply Z.pow_pos_nonneg; lia).
  pose proof (Pos2Z.is_pos (Qden x)) as Hd.
  pose proof (Z.quot_rem' (Qnum x) (Z.pos (Qden x))) as E.
  destruct (Z_lt_le_dec (Qnum x) 0) as [Hn|Hn].
  - pose proof (Z.rem_nonpos (Qnum x) (Z.pos (Qden x)) ltac:(lia) ltac:(lia)).
    pose proof (Z.rem_bound_abs (Qnum x) (Z.pos (Qden x)) ltac:(lia)).
    assert (k * Z.pos (Qden x) * 2 ^ p
            < Z.quot (Qnum x) (Z.pos (Qden x)) * Z.pos (Qden x) * 2 ^ p) by nia.
    nia.
  - pose proof (Z.quot_pos (Qnum x) (Z.pos (Qden x)) Hn Hd). lia.
Qed.

(** *** A whole part and a fraction

    [float64(h) + float64(n)/C], as [Hours] and [Minutes] compute it, for
    the remainder [n] of a division by [C <= 2^s]. *)
Section Whole.
Variable c : positive.
Variable s : Z.
Hypothesis Hs : 0 <= s <= 52.
Hypothesis HC : Z.pos c <= 2 ^ s.

Lemma pow_s : 0 < 2 ^ s <= 2 ^ 52.
Proof.
  split; [apply Z.pow_pos_nonneg; lia|].
  apply Z.pow_le_mono_r; lia.
Qed.

Lemma fraction (n : Z) :
  Z.abs n < Z.pos c ->
  let f := div (ofInt n) (ofInt (Z.pos c)) in
  (0 <= n -> Qle (inject_Z 0) f /\ Qle f (dyadic (2 ^ s - 1) s))
  /\ (n <= 0 -> Qle (dyadic (- (2 ^ s - 1)) s) f /\ Qle f (inject_Z 0)).
Proof.
  intros Hn f. pose proof pow_s as P.
  change (2 ^ 53) with (2 * 2 ^ 52) in *.
  assert (E : f = round (Qmake (n * 1) (1 * c))).
  { unfold f, div. rewrite !ofInt_exact by (change (2 ^ 53) with (2 * 2 ^ 52); lia).
    reflexivity. }
  rewrite E. split; intros H0; split.
  - apply (@round_ge _ 0 0); [lia | reflexivity|].
    unfold Qle, dyadic. cbn [Qnum Qden]. lia.
  - apply round_le; [lia | change (2 ^ 53) with (2 * 2 ^ 52); lia|].
    unfold Qle, dyadic. cbn [Qnum Qden Pos.mul].
    rewrite den_dyadic by lia. nia.
  - apply round_ge; [lia | change (2 ^ 53) with (2 * 2 ^ 52); lia|].
    unfold Qle, dyadic. cbn [Qnum Qden Pos.mul].
    rewrite den_dyadic by lia. nia.
  - apply (@round_le _ 0 0); [lia | reflexivity|].
    unfold Qle, dyadic. cbn [Qnum Qden]. lia.
Qed.

(** The whole part comes out, or the next integer away from zero. *)
Lemma whole_near (h n : Z) :
  Z.abs h + 1 < 2 ^ 53 -> Z.abs n < Z.pos c ->
  (0 <= h -> 0 <= n -> h <= toInt (wholeOf (Z.pos c) h n) <= h + 1)
  /\ (h <= 0 -> n <= 0 -> h - 1 <= toInt (wholeOf (Z.pos c) h n) <= h).
Proof.
  intros Hh Hn. pose proof pow_s as P.
  destruct (@fraction n Hn) as [Fp Fn].
  unfold wholeOf, add. rewrite (ofInt_exact h) by lia.
  set (f := div (ofInt n) (ofInt (Z.pos c))) in *.
  split; intros H0 N0.
  - destruct (Fp N0) as [F0 F1]. split.
    + apply toInt_ge. apply (@round_ge _ h 0); [lia | lia|].
      unfold Qle, dyadic in *. cbn [Qplus inject_Z Qnum Qden Pos.mul] in *.
      lia.
    + apply toInt_le. apply (@round_le _ (h + 1) 0); [lia | lia|].
      unfold Qle, dyadic in *. cbn [Qplus inject_Z Qnum Qden Pos.mul] in *.
      rewrite den_dyadic in F1 by lia.
      change (Z.pos (Z.to_pos (2 ^ 0))) with 1.
      pose proof (Pos2Z.is_pos (Qden f)). nia.
  - destruct (Fn N0) as [F1 F0]. split.
    + apply toInt_ge. apply (@round_ge _ (h - 1) 0); [lia | lia|].
      unfold Qle, dyadic in *. cbn [Qplus inject_Z Qnum Qden Pos.mul] in *.
      rewrite den_dyadic in F1 by lia.
      change (Z.pos (Z.to_pos (2 ^ 0))) with 1.
      pose proof (Pos2Z.is_pos (Qden f)). nia.
    + apply toInt_le. apply (@round_le _ h 0); [lia | lia|].
      unfold Qle, dyadic in *. cbn [Qplus inject_Z Qnum Qden Pos.mul] in *.
      lia.
Qed.

(** Below [2^(53-s)] the whole part comes out. *)
Lemma whole_exact (h n : Z) :
  (Z.abs h + 1) * 2 ^ s <= 2 ^ 53 -> Z.abs n < Z.pos c ->
  (0 <= h -> 0 <= n -> toInt (wholeOf (Z.pos c) h n) = h)
  /\ (h <= 0 -> n <= 0 -> toInt (wholeOf (Z.pos c) h n) = h).
Proof.
  intros Hh Hn. pose proof pow_s as P.
  assert (Hh' : Z.abs h + 1 < 2 ^ 53 \/ (s = 0 /\ Z.abs h + 1 = 2 ^ 53)).
  { destruct (Z.eq_dec s 0) as [->|Hs0].
    - rewrite Z.pow_0_r in Hh. lia.
    - left. assert (2 <= 2 ^ s).
      { change 2 with (2 ^ 1) at 1. apply Z.pow_le_mono_r; lia. }
      nia. }
  destruct (@fraction n Hn) as [Fp Fn].
  unfold wholeOf, add.
  assert (Eh : ofInt h = inject_Z h) by (apply ofInt_exact; lia).
  rewrite Eh.
  set (f := div (ofInt n) (ofInt (Z.pos c))) in *.
  split; intros H0 N0.
  - destruct (Fp N0) as [F0 F1].
    assert (Hlo : h <= toInt (round (Qplus (inject_Z h) f))).
    { apply toInt_ge. apply (@round_ge _ h 0); [lia | lia|].
      unfold Qle, dyadic in *. cbn [Qplus inject_Z Qnum Qden Pos.mul] in *.
      lia. }
    assert (Hhi : toInt (round (Qplus (inject_Z h) f)) < h + 1).
    { apply (@toInt_lt _ ((h + 1) * 2 ^ s - 1) s); [lia| |lia|lia].
      apply round_le; [lia | lia|].
      unfold Qle, dyadic in *. cbn [Qplus inject_Z Qnum Qden Pos.mul] in *.
      rewrite den_dyadic in * by lia.
      pose proof (Pos2Z.is_pos (Qden f)). nia. }
    lia.
  - destruct (Fn N0) as [F1 F0].
    assert (Hhi : toInt (round (Qplus (inject_Z h) f)) <= h).
    { apply toInt_le. apply (@round_le _ h 0); [lia | lia|].
      unfold Qle, dyadic in *. cbn [Qplus inject_Z Qnum Qden Pos.mul] in *.
      lia. }
    assert (Hlo : h - 1 < toInt (round (Qplus (inject_Z h) f))).
    { apply (@toInt_gt _ ((h - 1) * 2 ^ s + 1) s); [lia| |lia|lia].
      apply round_ge; [lia | lia|].
      unfold Qle, dyadic in *. cbn [Qplus inject_Z Qnum Qden Pos.mul] in *.
      rewrite den_dyadic in * by lia.
      pose proof (Pos2Z.is_pos (Qden f)). nia. }
    lia.
Qed.

End Whole.

End FloatFacts.

(** ** Relative times and cadence *)
Module RelativeTimeFacts.
Import time RelativeTime.

Lemma quot_ltb (d m k : Z) :
  0 < m -> 0 < k -> (Z.quot d m <? k) = (d <? k * m).
Proof.
  intros Hm Hk.
  pose proof (Z.quot_rem' d m) as E.
  pose proof (Z.rem_bound_abs d m ltac:(lia)) as B.
  destruct (Z.ltb_spec (Z.quot d m) k), (Z.ltb_spec d (k * m));
    try reflexivity; exfalso.
  - pose proof (Z.rem_bound_pos d m ltac:(nia) Hm). nia.
  - destruct (Z_lt_le_dec d 0).
    + nia.
    + pose proof (Z.rem_bound_pos d m ltac:(lia) Hm). nia.
Qed.

Lemma wrap_small (x : Z) :
  minDuration <= x <= maxDuration -> wrap x = x.
Proof.
  unfold wrap, minDuration, maxDuration. intros H.
  rewrite Z.mod_small; lia.
Qed.

Lemma Sub_range (t u : Time) : minDuration <= Sub t u <= maxDuration.
Proof.
  unfold Sub.
  destruct (Z.ltb_spec (t - u) minDuration);
    [|destruct (Z.ltb_spec maxDuration (t - u))];
    unfold minDuration, maxDuration in *; lia.
Qed.

Lemma wrap_range (x : Z) : minDuration <= wrap x <= maxDuration.
Proof.
  unfold wrap, minDuration, maxDuration.
  pose proof (Z.mod_pos_bound (x + 2 ^ 63) (2 ^ 64) ltac:(lia)). lia.
Qed.

Lemma totalDurationOf_range (validEntries : list ChangelogEntry.t)
  (totalDuration : Duration) :
  minDuration <= totalDuration <= maxDuration ->
  minDuration <= totalDurationOf validEntries totalDuration <= maxDuration.
Proof.
  revert totalDuration.
  induction validEntries as [|a rest IH]; intros acc H; [exact H|].
  destruct rest as [|b rest]; [exact H|].
  cbn [totalDurationOf]. apply IH. apply wrap_range.
Qed.

Lemma avgInterval_range (entries : list ChangelogEntry.t) (avg : Duration) :
  avgInterval entries = Some avg -> minDuration <= avg <= maxDuration.
Proof.
  unfold avgInterval. cbv zeta.
  destruct (Z.ltb_spec (Z.of_nat (List.length (validEntriesFrom entries []))) 2)
    as [H|H]; [discriminate|].
  intros E. injection E as <-.
  pose proof (@totalDurationOf_range (validEntriesFrom entries []) 0
                ltac:(unfold minDuration, maxDuration; lia)) as Hr.
  unfold div.
  set (total := totalDurationOf _ _) in *.
  set (k := Z.of_nat _ - 1). assert (Hk : 1 <= k) by (unfold k; lia).
  clearbody total k.
  assert (Hq : forall a, 0 <= a -> 0 <= Z.quot a k <= a).
  { intros a Ha. split; [apply Z.quot_pos; lia|].
    rewrite <- (Z.quot_1_r a) at 2. apply Z.quot_le_compat_l; lia. }
  unfold minDuration, maxDuration in *.
  destruct (Z_lt_le_dec total 0).
  - specialize (Hq (- total) ltac:(lia)).
    rewrite Z.quot_opp_l in Hq by lia. lia.
  - specialize (Hq total ltac:(lia)). lia.
Qed.

(** *** Hours and minutes through [float64] *)

Lemma Hours_whole (d : Duration) :
  time.Hours d
  = Floats.wholeOf (Z.pos 3600000000000) (Z.quot d Hour) (Z.rem d Hour).
Proof. reflexivity. Qed.

Lemma Minutes_whole (d : Duration) :
  time.Minutes d
  = Floats.wholeOf (Z.pos 60000000000) (Z.quot d Minute) (Z.rem d Minute).
Proof. reflexivity. Qed.

Lemma quot_rem_signs (d m : Z) :
  0 < m ->
  Z.abs (Z.rem d m) < m
  /\ Z.abs (Z.quot d m) * m <= Z.abs d
  /\ (0 <= d -> 0 <= Z.quot d m /\ 0 <= Z.rem d m)
  /\ (d <= 0 -> Z.quot d m <= 0 /\ Z.rem d m <= 0).
Proof.
  intros Hm.
  pose proof (Z.quot_rem' d m) as E.
  pose proof (Z.rem_bound_abs d m ltac:(lia)) as B.
  destruct (Z_lt_le_dec d 0) as [Hd|Hd].
  - pose proof (Z.rem_nonpos d m ltac:(lia) ltac:(lia)) as R.
    pose proof (Z.quot_opp_l d m ltac:(lia)) as Q.
    pose proof (Z.quot_pos (- d) m ltac:(lia) Hm) as P.
    repeat split; try lia; nia.
  - pose proof (Z.rem_bound_pos d m Hd Hm) as R.
    pose proof (Z.quot_pos d m Hd Hm) as P.
    repeat split; try lia; nia.
Qed.

(** [int(d.Hours())] is the whole number of hours in [d], or the next
    integer away from zero. *)
Lemma intHours_near (d : Duration) :
  minDuration <= d <= maxDuration ->
  (0 <= d -> Z.quot d Hour <= intHours d <= Z.quot d Hour + 1)
  /\ (d <= 0 -> Z.quot d Hour - 1 <= intHours d <= Z.quot d Hour).
Proof.
  intros Hr. unfold intHours. rewrite Hours_whole.
  assert (Hh : 0 < Hour) by (unfold Hour, Minute, Second; lia).
  destruct (quot_rem_signs d Hh) as (Hn & Hq & Hp & Hm).
  destruct (@FloatFacts.whole_near 3600000000000 42 ltac:(lia)
              ltac:(intros C; discriminate C) (Z.quot d Hour) (Z.rem d Hour))
    as [Wp Wn].
  - unfold minDuration, maxDuration, Hour, Minute, Second in *. lia.
  - exact Hn.
  - split; intros H0.
    + destruct (Hp H0). apply Wp; assumption.
    + destruct (Hm H0). apply Wn; assumption.
Qed.

(** Under 2048 hours it is the whole number of hours. *)
Lemma intHours_exact (d : Duration) :
  - (2048 * Hour) < d < 2048 * Hour -> intHours d = Z.quot d Hour.
Proof.
  intros Hr. unfold intHours. rewrite Hours_whole.
  assert (Hh : 0 < Hour) by (unfold Hour, Minute, Second; lia).
  destruct (quot_rem_signs d Hh) as (Hn & Hq & Hp & Hm).
  destruct (@FloatFacts.whole_exact 3600000000000 42 ltac:(lia)
              ltac:(intros C; discriminate C) (Z.quot d Hour) (Z.rem d Hour))
    as [Wp Wn].
  - unfold Hour, Minute, Second in *. lia.
  - exact Hn.
  - destruct (Z_lt_le_dec d 0) as [H0|H0].
    + destruct (Hm ltac:(lia)). apply Wn; assumption.
    + destruct (Hp H0). apply Wp; assumption.
Qed.

Lemma intMinutes_near (d : Duration) :
  minDuration <= d <= maxDuration ->
  (0 <= d -> Z.quot d Minute <= intMinutes d <= Z.quot d Minute + 1)
  /\ (d <= 0 -> Z.quot d Minute - 1 <= intMinutes d <= Z.quot d Minute).
Proof.
  intros Hr. unfold intMinutes. rewrite Minutes_whole.
  assert (Hh : 0 < Minute) by (unfold Minute, Second; lia).
  destruct (quot_rem_signs d Hh) as (Hn & Hq & Hp & Hm).
  destruct (@FloatFacts.whole_near 60000000000 36 ltac:(lia)
              ltac:(intros C; discriminate C)
              (Z.quot d Minute) (Z.rem d Minute))
    as [Wp Wn].
  - unfold minDuration, maxDuration, Minute, Second in *. lia.
  - exact Hn.
  - split; intros H0.
    + destruct (Hp H0). apply Wp; assumption.
    + destruct (Hm H0). apply Wn; assumption.
Qed.

(** Under 131072 minutes it is the whole number of minutes. *)
Lemma intMinutes_exact (d : Duration) :
  - (131072 * Minute) < d < 131072 * Minute ->
  intMinutes d = Z.quot d Minute.
Proof.
  intros Hr. unfold intMinutes. rewrite Minutes_whole.
  assert (Hh : 0 < Minute) by (unfold Minute, Second; lia).
  destruct (quot_rem_signs d Hh) as (Hn & Hq & Hp & Hm).
  destruct (@FloatFacts.whole_exact 60000000000 36 ltac:(lia)
              ltac:(intros C; discriminate C)
              (Z.quot d Minute) (Z.rem d Minute))
    as [Wp Wn].
  - unfold Minute, Second in *. lia.
  - exact Hn.
  - destruct (Z_lt_le_dec d 0) as [H0|H0].
    + destruct (Hm ltac:(lia)). apply Wn; assumption.
    + destruct (Hp H0). apply Wp; assumption.
Qed.

(** The tests of the program on the hours and the minutes are tests on
    the duration. *)
Lemma intHours_ltb (d : Duration) (k : Z) :
  minDuration <= d <= maxDuration -> 0 < k <= 2048 ->
  (intHours d <? k) = (d <? k * Hour).
Proof.
  intros Hr Hk.
  assert (Hh : 0 < Hour) by (unfold Hour, Minute, Second; lia).
  destruct (intHours_near Hr) as [Np Nn].
  destruct (Z.ltb_spec d (k * Hour)) as [H|H].
  - apply Z.ltb_lt. destruct (Z_lt_le_dec d 0) as [H0|H0].
    + destruct (quot_rem_signs d Hh) as (_ & _ & _ & Hm).
      destruct (Hm ltac:(lia)). specialize (Nn ltac:(lia)). lia.
    + rewrite intHours_exact by nia.
      apply Z.quot_lt_upper_bound; lia.
  - apply Z.ltb_ge. specialize (Np ltac:(nia)).
    assert (k <= Z.quot d Hour) by (apply Z.quot_le_lower_bound; lia).
    lia.
Qed.

Lemma intMinutes_ltb (d : Duration) (k : Z) :
  minDuration <= d <= maxDuration -> 0 < k <= 131072 ->
  (intMinutes d <? k) = (d <? k * Minute).
Proof.
  intros Hr Hk.
  assert (Hh : 0 < Minute) by (unfold Minute, Second; lia).
  destruct (intMinutes_near Hr) as [Np Nn].
  destruct (Z.ltb_spec d (k * Minute)) as [H|H].
  - apply Z.ltb_lt. destruct (Z_lt_le_dec d 0) as [H0|H0].
    + destruct (quot_rem_signs d Hh) as (_ & _ & _ & Hm).
      destruct (Hm ltac:(lia)). specialize (Nn ltac:(lia)). lia.
    + rewrite intMinutes_exact by nia.
      apply Z.quot_lt_upper_bound; lia.
  - apply Z.ltb_ge. specialize (Np ltac:(nia)).
    assert (k <= Z.quot d Minute) by (apply Z.quot_le_lower_bound; lia).
    lia.
Qed.

(** *** The number written and the whole number of units *)

Lemma quot_near (a b k : Z) :
  0 < k ->
  (a <= b <= a + 1 -> Z.quot a k <= Z.quot b k <= Z.quot a k + 1)
  /\ (a - 1 <= b <= a -> Z.quot a k - 1 <= Z.quot b k <= Z.quot a k).
Proof.
  intros Hk.
  assert (M : forall x y, x <= y -> Z.quot x k <= Z.quot y k)
    by (intros; apply Z.quot_le_mono; lia).
  assert (S1 : forall x, Z.quot (x + 1) k <= Z.quot x k + 1).
  { intros x.
    pose proof (Z.quot_rem' x k) as E1.
    pose proof (Z.quot_rem' (x + 1) k) as E2.
    pose proof (Z.rem_bound_abs x k ltac:(lia)) as B1.
    pose proof (Z.rem_bound_abs (x + 1) k ltac:(lia)) as B2.
    destruct (Z_lt_le_dec x 0) as [Hx|Hx].
    - pose proof (Z.rem_nonpos x k ltac:(lia) ltac:(lia)).
      pose proof (Z.rem_nonpos (x + 1) k ltac:(lia) ltac:(lia)). nia.
    - pose proof (Z.rem_bound_pos x k Hx Hk).
      pose proof (Z.rem_bound_pos (x + 1) k ltac:(lia) Hk). nia. }
  split; intros H.
  - split; [apply M; lia|].
    apply Z.le_trans with (Z.quot (a + 1) k); [apply M; lia | apply S1].
  - split; [|apply M; lia].
    pose proof (S1 (a - 1)) as S. replace (a - 1 + 1) with a in S by lia.
    pose proof (M (a - 1) b ltac:(lia)). lia.
Qed.

Lemma magnitude_hours (b : bucket) (d : Duration) :
  magnitude b d
  = match b with
    | Minutes => Z.quot d Minute
    | Hours => Z.quot d Hour
    | Days => Z.quot (Z.quot d Hour) 24
    | Weeks => Z.quot (Z.quot (Z.quot d Hour) 24) 7
    | Months => Z.quot (Z.quot (Z.quot d Hour) 24) 30
    end.
Proof.
  assert (Hour <> 0) by (unfold Hour, Minute, Second; lia).
  unfold magnitude, unit, Month, Week, Day.
  destruct b; rewrite ?Z.quot_quot by lia; try reflexivity; f_equal; lia.
Qed.

(** The number written is the whole number of units of the bucket in
    [d], or the next integer away from zero. *)
Lemma written_near (b : bucket) (d : Duration) :
  minDuration <= d <= maxDuration ->
  (0 <= d -> magnitude b d <= written b d <= magnitude b d + 1)
  /\ (d <= 0 -> magnitude b d - 1 <= written b d <= magnitude b d).
Proof.
  intros Hr. rewrite magnitude_hours.
  destruct (intHours_near Hr) as [Hp Hn].
  destruct (intMinutes_near Hr) as [Mp Mn].
  assert (Q : forall a b k, 0 < k -> a <= b <= a + 1 ->
                            Z.quot a k <= Z.quot b k <= Z.quot a k + 1)
    by (intros a0 b0 k Hk; apply (quot_near a0 b0 Hk)).
  assert (Q' : forall a b k, 0 < k -> a - 1 <= b <= a ->
                             Z.quot a k - 1 <= Z.quot b k <= Z.quot a k)
    by (intros a0 b0 k Hk; apply (quot_near a0 b0 Hk)).
  split; intros H0.
  - specialize (Hp H0). specialize (Mp H0).
    destruct b; cbn [written]; auto.
    + apply Q; lia.
    + apply Q; [lia|]. apply Q; lia.
    + apply Q; [lia|]. apply Q; lia.
  - specialize (Hn H0). specialize (Mn H0).
    destruct b; cbn [written]; auto.
    + apply Q'; lia.
    + apply Q'; [lia|]. apply Q'; lia.
    + apply Q'; [lia|]. apply Q'; lia.
Qed.

(** Under 2048 hours the two are the same. *)
Lemma written_exact (b : bucket) (d : Duration) :
  - (2048 * Hour) < d < 2048 * Hour -> written b d = magnitude b d.
Proof.
  intros Hr. rewrite magnitude_hours.
  assert (Em : intMinutes d = Z.quot d Minute).
  { apply intMinutes_exact. unfold Hour in Hr.
    unfold Minute, Second in *. lia. }
  destruct b; cbn [written]; rewrite ?intHours_exact by exact Hr;
    try reflexivity; exact Em.
Qed.

(** *** The buckets *)

Lemma formatRelativeTime_buckets (t : Time) (w : World) (tr : trace) :
  formatRelativeTime t w tr
  = if IsZero t then (Some "-", tr)
    else let d := Sub (clock w (ticks tr)) t in
         (Some (agoWritten (claimedBucket d) d),
          MkTrace (requests tr) (S (ticks tr))).
Proof.
  unfold formatRelativeTime.
  destruct (IsZero t); [reflexivity|].
  unfold bind, Now; cbv zeta.
  set (d := Sub (clock w (ticks tr)) t).
  pose proof (Sub_range (clock w (ticks tr)) t) as Hr. fold d in Hr.
  rewrite (@quot_ltb (Z.quot (intHours d) 24) 7 4) by lia.
  rewrite !(@quot_ltb (intHours d) 24) by lia.
  rewrite (@intMinutes_ltb d 60 Hr), !(@intHours_ltb d) by (assumption || lia).
  unfold claimedBucket, agoWritten.
  change (60 * Minute) with Hour.
  change (7 * 24 * Hour) with (7 * Day).
  change (4 * 7 * 24 * Hour) with (4 * Week).
  destruct (d <? Hour); [reflexivity|].
  destruct (d <? 24 * Hour); [reflexivity|].
  destruct (d <? 7 * Day); [reflexivity|].
  destruct (d <? 4 * Week); reflexivity.
Qed.

Lemma calculateAvgReleaseFreq_buckets (entries : list ChangelogEntry.t) :
  calculateAvgReleaseFreq entries
  = match avgInterval entries with
    | None => "-"
    | Some avg => approxWritten (cadenceBucket avg) avg
    end.
Proof.
  pose proof (avgInterval_range entries) as Hr.
  unfold calculateAvgReleaseFreq, avgInterval in *; cbv zeta in *.
  destruct (_ <? 2); [reflexivity|].
  set (avg := div _ _) in *. specialize (Hr avg eq_refl).
  rewrite (@quot_ltb (Z.quot (intHours avg) 24) 7 4) by lia.
  rewrite !(@quot_ltb (intHours avg) 24) by lia.
  rewrite !(@intHours_ltb avg) by (assumption || lia).
  unfold cadenceBucket, approxWritten.
  change (1 * 24 * Hour) with (24 * Hour).
  change (7 * 24 * Hour) with (7 * Day).
  change (4 * 7 * 24 * Hour) with (4 * Week).
  destruct (avg <? 24 * Hour); [reflexivity|].
  destruct (avg <? 7 * Day); [reflexivity|].
  destruct (avg <? 4 * Week); reflexivity.
Qed.

Lemma avgInterval_two (a b : ChangelogEntry.t) :
  avgInterval [a; b]
  = if IsZero (ReleasedAt a) || IsZero (ReleasedAt b) then None
    else Some (Sub (ReleasedAt a) (ReleasedAt b)).
Proof.
  unfold avgInterval; simpl.
  destruct (IsZero (ReleasedAt a)), (IsZero (ReleasedAt b)); simpl;
    try reflexivity.
  unfold div, add. rewrite Z.add_0_l, wrap_small by apply Sub_range.
  rewrite Z.quot_1_r. reflexivity.
Qed.

End RelativeTimeFacts.

(** ** Sorting *)
Module Sorting.

Lemma StronglySorted_app {A : Type} (R : A -> A -> Prop) (l1 l2 : list A) :
  StronglySorted R l1 -> StronglySorted R l2 ->
  (forall a b, In a l1 -> In b l2 -> R a b) ->
  StronglySorted R (l1 ++ l2).
Proof.
  induction l1 as [|x l1 IH]; intros H1 H2 H12; simpl.
  - exact H2.
  - apply StronglySorted_inv in H1 as [H1 Hx].
    constructor.
    + apply IH; [exact H1 | exact H2 |].
      intros a b Ha Hb. apply H12; [right; exact Ha | exact Hb].
    + apply Forall_app; split; [exact Hx|].
      apply Forall_forall. intros b Hb. apply H12; [left; reflexivity | exact Hb].
Qed.

Lemma StronglySorted_rev {A : Type} (R : A -> A -> Prop) (l : list A) :
  StronglySorted R l -> StronglySorted (fun a b => R b a) (List.rev l).
Proof.
  induction 1 as [|x l Hl IH Hx]; simpl.
  - constructor.
  - apply StronglySorted_app.
    + exact IH.
    + repeat constructor.
    + intros a b Ha [<-|[]]. apply in_rev in Ha.
      rewrite Forall_forall in Hx. apply Hx, Ha.
Qed.

Lemma StronglySorted_impl {A : Type} (R R' : A -> A -> Prop) (l : list A) :
  (forall a b, R a b -> R' a b) -> StronglySorted R l -> StronglySorted R' l.
Proof.
  intros HR. induction 1 as [|x l Hl IH Hx]; constructor.
  - exact IH.
  - eapply Forall_impl; [|exact Hx]. intros b. apply HR.
Qed.

(** In a strongly sorted list, an element is related to every later one. *)
Lemma StronglySorted_between {A : Type} (R : A -> A -> Prop)
  (pre mid post : list A) (a b : A) :
  StronglySorted R (pre ++ a :: mid ++ b :: post) -> R a b.
Proof.
  induction pre as [|x pre IH]; simpl; intros H.
  - apply StronglySorted_inv in H as [_ H].
    rewrite Forall_forall in H. apply H.
    apply in_or_app. right. left. reflexivity.
  - apply StronglySorted_inv in H as [H _]. apply IH, H.
Qed.

(** The six orders of three elements. *)
Lemma Permutation_three {A : Type} (l : list A) (a b c : A) :
  Permutation l [a; b; c] ->
  l = [a; b; c] \/ l = [a; c; b] \/ l = [b; a; c]
  \/ l = [b; c; a] \/ l = [c; a; b] \/ l = [c; b; a].
Proof.
  intros H.
  pose proof (Permutation_length H) as Hlen.
  destruct l as [|x [|y [|z [|? ?]]]]; try discriminate.
  assert (Hx : In x [a; b; c])
    by (apply (Permutation_in _ H); left; reflexivity).
  destruct Hx as [<-|[<-|[<-|[]]]].
  - apply Permutation_cons_inv in H.
    apply Permutation_sym, Permutation_length_2_inv in H as [->| ->]; tauto.
  - apply (@Permutation_cons_app_inv _ _ [a] [c]) in H.
    apply Permutation_sym, Permutation_length_2_inv in H as [->| ->]; tauto.
  - apply (@Permutation_cons_app_inv _ _ [a; b] []) in H.
    apply Permutation_sym, Permutation_length_2_inv in H as [->| ->]; tauto.
Qed.

Section InsertionSort.
Variable A : Type.
Variable less : A -> A -> bool.

Lemma sink_perm (x : A) (sunk : list A) :
  Permutation (x :: sunk) (sort.sink less x sunk).
Proof.
  induction sunk as [|y sunk IH]; simpl.
  - apply Permutation_refl.
  - destruct (less x y).
    + eapply perm_trans; [apply perm_swap|]. apply perm_skip, IH.
    + apply Permutation_refl.
Qed.

Lemma fold_sink_perm (l sunk : list A) :
  Permutation (List.rev sunk ++ l)
    (List.rev (List.fold_left (fun sunk x => sort.sink less x sunk) l sunk)).
Proof.
  revert sunk; induction l as [|x l IH]; intros sunk; simpl.
  - rewrite app_nil_r. apply Permutation_refl.
  - eapply perm_trans; [|apply IH].
    change (x :: l) with ([x] ++ l)%list. rewrite app_assoc.
    apply Permutation_app_tail.
    change (List.rev sunk ++ [x])%list with (List.rev (x :: sunk)).
    rewrite <- !Permutation_rev. apply sink_perm.
Qed.

(** The sorted list has the elements of the given one. *)
Lemma Slice_perm (l : list A) : Permutation l (sort.Slice less l).
Proof. apply (fold_sink_perm l []). Qed.

(** [less] is a strict weak order. *)
Hypothesis less_asym : forall x y, less x y = true -> less y x = false.
Hypothesis less_negtrans :
  forall x y z, less x y = false -> less y z = false -> less x z = false.

Lemma sink_sorted (x : A) (sunk : list A) :
  StronglySorted (fun y z => less y z = false) sunk ->
  StronglySorted (fun y z => less y z = false) (sort.sink less x sunk).
Proof.
  induction 1 as [|y sunk Hs IH Hy]; simpl.
  - repeat constructor.
  - destruct (less x y) eqn:E.
    + constructor; [exact IH|].
      apply Forall_forall. intros z Hz.
      apply (Permutation_in _ (Permutation_sym (sink_perm x sunk))) in Hz.
      destruct Hz as [<-|Hz].
      * apply less_asym, E.
      * rewrite Forall_forall in Hy. apply Hy, Hz.
    + constructor; [constructor; assumption|].
      constructor; [exact E|].
      apply Forall_forall. intros z Hz.
      rewrite Forall_forall in Hy.
      apply less_negtrans with (y := y); [exact E | apply Hy, Hz].
Qed.

Lemma fold_sink_sorted (l sunk : list A) :
  StronglySorted (fun y z => less y z = false) sunk ->
  StronglySorted (fun y z => less y z = false)
    (List.fold_left (fun sunk x => sort.sink less x sunk) l sunk).
Proof.
  revert sunk; induction l as [|x l IH]; intros sunk H; simpl.
  - exact H.
  - apply IH, sink_sorted, H.
Qed.

(** In the sorted list no element is less than an earlier one. *)
Lemma Slice_sorted (l : list A) :
  StronglySorted (fun a b => less b a = false) (sort.Slice less l).
Proof.
  unfold sort.Slice.
  apply StronglySorted_rev with (R := fun y z => less y z = false).
  apply fold_sink_sorted. constructor.
Qed.

End InsertionSort.

End Sorting.

(** ** The matcher stays inside the text *)
Module RegexpFacts.
Import regexp Matches.

Local Open Scope nat_scope.

Lemma capOK_weaken (lo hi hi' : nat) (c : nat * (nat * nat)) :
  hi <= hi' -> capOK lo hi c -> capOK lo hi' c.
Proof. unfold capOK. lia. Qed.

Lemma within_step (n lo : nat) (s : mstate) (c : ascii) (rest : string) :
  within n lo s -> m_rest s = String c rest -> within n lo (step s c rest).
Proof.
  intros (Hn & Hlo & Hc) E. unfold within, step; simpl.
  rewrite E in Hn; simpl in Hn.
  repeat split; try lia.
  eapply Forall_impl; [|exact Hc].
  intros cap. apply capOK_weaken. lia.
Qed.

Lemma within_close (n lo i : nat) (s s1 : mstate) :
  within n lo s -> within n lo s1 -> m_pos s <= m_pos s1 ->
  within n lo (close i (m_pos s) s1).
Proof.
  intros (_ & Hlo & _) (Hn1 & Hlo1 & Hc1) Hle. unfold within, close; simpl.
  repeat split; try assumption.
  constructor; [|exact Hc1].
  unfold capOK; simpl. lia.
Qed.

Lemma lookupGroup_close (i j from : nat) (s : mstate) :
  Nat.eqb i j = false ->
  lookupGroup (m_caps (close j from s)) i = lookupGroup (m_caps s) i.
Proof.
  intros H. unfold lookupGroup, close; simpl.
  rewrite Nat.eqb_sym, H. reflexivity.
Qed.

(** The state does not move. *)
Ltac stay_at s :=
  exists s;
  split; [split; [assumption | split; [lia | reflexivity]] | assumption].

(** Whatever [exec] returns was accepted by the continuation, at a state
    reached from the one it started from. *)
Lemma exec_within (n lo : nat) (r : regex) :
  forall (k : mstate -> option mstate) (s fin : mstate),
    within n lo s -> exec r k s = Some fin ->
    exists s', reached n lo r s s' /\ k s' = Some fin.
Proof.
  unfold reached.
  induction r as [| c | p | | | | | a IHa b IHb | a IHa b IHb | a IHa
                  | a IHa | i a IHa];
    intros k s fin Hs H; simpl in H; simpl minLen; simpl hasGroup.
  - stay_at s.
  - destruct (m_rest s) as [|c' rest] eqn:E; [discriminate|].
    destruct (Ascii.eqb c' c); [|discriminate].
    exists (step s c' rest).
    split; [|exact H]. split; [apply within_step; assumption|].
    split; [simpl; lia | reflexivity].
  - destruct (m_rest s) as [|c' rest] eqn:E; [discriminate|].
    destruct (p c'); [|discriminate].
    exists (step s c' rest).
    split; [|exact H]. split; [apply within_step; assumption|].
    split; [simpl; lia | reflexivity].
  - destruct (Nat.eqb (m_pos s) 0); [|discriminate].
    stay_at s.
  - destruct (atTextEnd s); [|discriminate].
    stay_at s.
  - destruct (atLineStart s); [|discriminate].
    stay_at s.
  - destruct (atLineEnd s); [|discriminate].
    stay_at s.
  - apply IHa in H as (s1 & (H1 & L1 & C1) & H); [|exact Hs].
    apply IHb in H as (s2 & (H2 & L2 & C2) & H); [|exact H1].
    exists s2. split; [|exact H]. split; [exact H2|]. split; [lia|].
    intros i Hi. apply orb_false_elim in Hi as [Hia Hib].
    rewrite (C2 i Hib). apply C1, Hia.
  - unfold orElse in H. destruct (exec a k s) eqn:E.
    + injection H as <-.
      apply IHa in E as (s1 & (H1 & L1 & C1) & E); [|exact Hs].
      exists s1. split; [|exact E]. split; [exact H1|]. split; [lia|].
      intros i Hi. apply orb_false_elim in Hi as [Hia _]. apply C1, Hia.
    + apply IHb in H as (s1 & (H1 & L1 & C1) & H); [|exact Hs].
      exists s1. split; [|exact H]. split; [exact H1|]. split; [lia|].
      intros i Hi. apply orb_false_elim in Hi as [_ Hib]. apply C1, Hib.
  - unfold orElse in H. destruct (exec a k s) eqn:E.
    + injection H as <-.
      apply IHa in E as (s1 & (H1 & L1 & C1) & E); [|exact Hs].
      exists s1. split; [|exact E]. split; [exact H1|]. split; [lia|].
      exact C1.
    + stay_at s.
  - revert H. generalize (String.length (m_rest s)) as fuel.
    intros fuel.
    assert (Hloop : forall s0, within n lo s0 ->
              (fix loop (fuel : nat) (s0 : mstate) {struct fuel}
                 : option mstate :=
                 match fuel with
                 | O => k s0
                 | S fuel' =>
                     orElse
                       (exec a (fun s1 => if Nat.ltb (m_pos s0) (m_pos s1)
                                          then loop fuel' s1 else None) s0)
                       (k s0)
                 end) fuel s0 = Some fin ->
              exists s',
                (within n lo s' /\ m_pos s0 <= m_pos s'
                 /\ forall i, hasGroup i a = false ->
                      lookupGroup (m_caps s') i = lookupGroup (m_caps s0) i)
                /\ k s' = Some fin).
    { induction fuel as [|fuel IHf]; intros s0 Hs0 H.
      - stay_at s0.
      - unfold orElse in H.
        match type of H with
        | match ?e with _ => _ end = _ => destruct e eqn:E
        end.
        + injection H as <-.
          apply IHa in E as (s1 & (H1 & L1 & C1) & E); [|exact Hs0].
          destruct (Nat.ltb (m_pos s0) (m_pos s1)); [|discriminate].
          apply IHf in E as (s2 & (H2 & L2 & C2) & E); [|exact H1].
          exists s2. split; [|exact E]. split; [exact H2|]. split; [lia|].
          intros i Hi. rewrite (C2 i Hi). apply C1, Hi.
        + stay_at s0. }
    intros H. apply Hloop in H as (s' & (H1 & L1 & C1) & H); [|exact Hs].
    exists s'. split; [|exact H]. split; [exact H1|]. split; [lia | exact C1].
  - apply IHa in H as (s1 & (H1 & L1 & C1) & H); [|exact Hs].
    exists (close i (m_pos s) s1).
    split; [|exact H].
    split; [apply within_close; try assumption; lia|].
    split; [simpl; lia|].
    intros j Hj. apply orb_false_elim in Hj as [Hji Hja].
    rewrite lookupGroup_close by exact Hji. apply C1, Hja.
Qed.

(** With [alwaysCaptures i r], the reached state has group [i], and the
    group is not empty. *)
Lemma exec_captures (n lo i : nat) (r : regex) :
  alwaysCaptures i r = true ->
  forall (k : mstate -> option mstate) (s fin : mstate),
    within n lo s -> exec r k s = Some fin ->
    exists s',
      within n lo s' /\ m_pos s <= m_pos s'
      /\ (exists a b, lookupGroup (m_caps s') i = Some (a, b) /\ a < b)
      /\ k s' = Some fin.
Proof.
  induction r as [| c | p | | | | | a IHa b IHb | a IHa b IHb | a IHa
                  | a IHa | j a IHa];
    intros Hc k s fin Hs H; cbn [alwaysCaptures] in Hc; try discriminate.
  - simpl in H. apply orb_true_iff in Hc as [Hc|Hc].
    + apply andb_true_iff in Hc as [Hca Hcb].
      apply negb_true_iff in Hcb.
      apply (IHa Hca) in H as (s1 & H1 & L1 & (x & y & G & Hxy) & H);
        [|exact Hs].
      apply exec_within with (n := n) (lo := lo) in H
        as (s2 & (H2 & L2 & C2) & H); [|exact H1].
      exists s2. split; [exact H2|]. split; [lia|]. split; [|exact H].
      exists x, y. rewrite (C2 i Hcb). auto.
    + apply exec_within with (n := n) (lo := lo) in H
        as (s1 & (H1 & L1 & _) & H); [|exact Hs].
      apply (IHb Hc) in H as (s2 & H2 & L2 & G & H); [|exact H1].
      exists s2. split; [exact H2|]. split; [lia|]. split; assumption.
  - simpl in H. apply andb_true_iff in Hc as [Hca Hcb].
    unfold orElse in H. destruct (exec a k s) eqn:E.
    + injection H as <-. apply (IHa Hca) with (1 := Hs) (2 := E).
    + apply (IHb Hcb) with (1 := Hs) (2 := H).
  - simpl in H. destruct (Nat.eqb_spec i j) as [->|Hij].
    + apply Nat.leb_le in Hc.
      apply exec_within with (n := n) (lo := lo) in H
        as (s1 & (H1 & L1 & _) & H); [|exact Hs].
      exists (close j (m_pos s) s1).
      split; [apply within_close; try assumption; lia|].
      split; [simpl; lia|].
      split; [|exact H].
      exists (m_pos s), (m_pos s1).
      unfold lookupGroup, close; simpl. rewrite Nat.eqb_refl. simpl.
      split; [reflexivity | lia].
    + apply (IHa Hc) in H as (s1 & H1 & L1 & (x & y & G & Hxy) & H);
        [|exact Hs].
      exists (close j (m_pos s) s1).
      split; [apply within_close; assumption|].
      split; [simpl; lia|].
      split; [|exact H].
      exists x, y. rewrite lookupGroup_close by (apply Nat.eqb_neq; exact Hij).
      auto.
Qed.

(** A pattern that always captures group [i] has that group. *)
Lemma alwaysCaptures_NumSubexp (i : nat) (r : regex) :
  alwaysCaptures i r = true -> i <= NumSubexp r.
Proof.
  induction r as [| c | p | | | | | a IHa b IHb | a IHa b IHb | a IHa
                  | a IHa | j a IHa];
    intros Hc; cbn [alwaysCaptures] in Hc; try discriminate; simpl.
  - apply orb_true_iff in Hc as [Hc|Hc].
    + apply andb_true_iff in Hc as [Hca _]. specialize (IHa Hca). lia.
    + specialize (IHb Hc). lia.
  - apply andb_true_iff in Hc as [Hca _]. specialize (IHa Hca). lia.
  - destruct (Nat.eqb_spec i j) as [->|Hij]; [lia|].
    specialize (IHa Hc). lia.
Qed.

Local Open Scope Z_scope.

Lemma chain_weaken (n : Z) (k : nat) (lo lo' : Z) (ms : list (list Z)) :
  lo' <= lo -> chain n k lo ms -> chain n k lo' ms.
Proof.
  destruct ms as [|m ms]; simpl; [auto|].
  intros Hle (a & b & gs & E & H1 & H).
  exists a, b, gs. split; [exact E|]. split; [lia | exact H].
Qed.

Lemma lookupGroup_In (caps : list (nat * (nat * nat))) (i a b : nat) :
  lookupGroup caps i = Some (a, b) -> In (i, (a, b)) caps.
Proof.
  unfold lookupGroup. destruct (List.find _ caps) as [[j ab]|] eqn:E;
    [|discriminate].
  intros [= ->]. apply List.find_some in E as [Hin Hj]; simpl in Hj.
  apply Nat.eqb_eq in Hj. subst j. exact Hin.
Qed.

Lemma groupIndexes_ok (lo hi : nat) (caps : list (nat * (nat * nat))) :
  Forall (capOK lo hi) caps ->
  forall n i,
    groupsOK (Z.of_nat lo) (Z.of_nat hi) (groupIndexes caps i n)
    /\ List.length (groupIndexes caps i n) = (2 * n)%nat.
Proof.
  intros Hc n; induction n as [|n IH]; intros i; simpl.
  - auto.
  - destruct (IH (S i)) as [IH1 IH2].
    destruct (lookupGroup caps i) as [[a b]|] eqn:E; simpl.
    + apply lookupGroup_In in E.
      rewrite Forall_forall in Hc. apply Hc in E.
      unfold capOK in E; simpl in E.
      split; [split; [right; lia | exact IH1] | lia].
    + split; [split; [left; auto | exact IH1] | lia].
Qed.

Lemma search_ok (r : regex) (n : nat) :
  forall (fuel : nat) (s : mstate) (m : list Z),
    (m_pos s + String.length (m_rest s) = n)%nat -> m_caps s = [] ->
    search r fuel s = Some m ->
    chain (Z.of_nat n) (NumSubexp r) (Z.of_nat (m_pos s)) [m].
Proof.
  assert (Hfound : forall s fin,
             (m_pos s + String.length (m_rest s) = n)%nat -> m_caps s = [] ->
             exec r Some s = Some fin ->
             chain (Z.of_nat n) (NumSubexp r) (Z.of_nat (m_pos s))
               [Z.of_nat (m_pos s) :: Z.of_nat (m_pos fin)
                  :: groupIndexes (m_caps fin) 1 (NumSubexp r)]).
  { intros s fin Hn Hc E.
    apply exec_within with (n := n) (lo := m_pos s) in E
      as (s' & ((Hn' & Hlo' & Hc') & Hle & _) & [= ->]).
    - destruct (groupIndexes_ok Hc' (NumSubexp r) 1) as [G1 G2].
      simpl. do 3 eexists. split; [reflexivity|].
      repeat split; try lia; assumption.
    - unfold within. rewrite Hc. repeat split; [exact Hn | lia | constructor]. }
  induction fuel as [|fuel IH]; intros s m Hn Hc H; simpl in H;
    destruct (exec r Some s) as [fin|] eqn:E.
  - injection H as <-. apply Hfound; assumption.
  - discriminate.
  - injection H as <-. apply Hfound; assumption.
  - destruct (m_rest s) as [|c rest] eqn:Er; [discriminate|].
    apply IH in H.
    + eapply chain_weaken; [|exact H]. simpl. lia.
    + simpl in *. lia.
    + exact Hc.
Qed.

Lemma stateAt_spec (text : string) :
  forall (pos : nat) (prev : option ascii) (at_ : nat),
    let s := stateAt prev text pos at_ in
    m_caps s = []
    /\ (m_pos s + String.length (m_rest s) = at_ + String.length text)%nat
    /\ (at_ <= m_pos s)%nat
    /\ ((pos <= String.length text)%nat -> m_pos s = (at_ + pos)%nat).
Proof.
  induction text as [|c text IH]; intros pos prev at_; simpl.
  - destruct pos; simpl; repeat split; lia.
  - destruct pos as [|pos]; simpl.
    + repeat split; lia.
    + destruct (IH pos (Some c) (S at_)) as (H1 & H2 & H3 & H4).
      repeat split; try assumption; lia.
Qed.

Lemma doExecute_ok (r : regex) (text : string) (pos : nat) (m : list Z) :
  (pos <= String.length text)%nat ->
  doExecute r text pos = Some m ->
  chain (strings.len text) (NumSubexp r) (Z.of_nat pos) [m].
Proof.
  intros Hpos H. unfold doExecute in H.
  destruct (stateAt_spec text pos None 0) as (H1 & H2 & _ & H4).
  apply search_ok with (n := String.length text) in H;
    [|exact H2 | exact H1].
  rewrite (H4 Hpos) in H. exact H.
Qed.

Lemma allMatches_chain (r : regex) (text : string) :
  forall (fuel pos : nat) (prevMatchEnd : Z),
    chain (strings.len text) (NumSubexp r) (Z.of_nat pos)
      (allMatches r text fuel pos prevMatchEnd).
Proof.
  induction fuel as [|fuel IH]; intros pos prevMatchEnd; simpl; [exact I|].
  destruct (Nat.ltb_spec (String.length text) pos) as [Hlt|Hle]; [exact I|].
  destruct (doExecute r text pos) as [m|] eqn:E; [|exact I].
  apply doExecute_ok in E; [|exact Hle].
  destruct E as (a & b & gs & -> & Ha & Hab & Hb & Hg & Hlen & _).
  cbv zeta. simpl List.nth.
  match goal with
  | |- chain _ _ _ (if _ then _ :: allMatches _ _ _ ?p _ else _) =>
      assert (Hp : b <= Z.of_nat p); [|specialize (IH p b)]
  end.
  { destruct (Z.eqb_spec b (Z.of_nat pos)) as [->|Hne]; [|lia].
    destruct (runeWidth _); lia. }
  destruct (negb _).
  - simpl. exists a, b, gs. repeat (split; [assumption || reflexivity|]).
    eapply chain_weaken; [exact Hp | exact IH].
  - eapply chain_weaken; [|exact IH]. lia.
Qed.

(** The matches that [FindAllStringSubmatchIndex] returns lie inside the
    text, one after the other. *)
Lemma FindAll_chain (r : regex) (text : string) :
  chain (strings.len text) (NumSubexp r) 0
    (FindAllStringSubmatchIndex r text).
Proof. apply (allMatches_chain r text _ 0%nat). Qed.

Lemma search_versioned (r : regex) (n : nat) :
  alwaysCaptures 1 r = true ->
  forall (fuel : nat) (s : mstate) (m : list Z),
    (m_pos s + String.length (m_rest s) = n)%nat -> m_caps s = [] ->
    search r fuel s = Some m -> versioned m.
Proof.
  intros Hr.
  assert (Hfound : forall s fin,
             (m_pos s + String.length (m_rest s) = n)%nat -> m_caps s = [] ->
             exec r Some s = Some fin ->
             versioned (Z.of_nat (m_pos s) :: Z.of_nat (m_pos fin)
                          :: groupIndexes (m_caps fin) 1 (NumSubexp r))).
  { intros s fin Hn Hc E.
    apply exec_captures with (n := n) (lo := m_pos s) (i := 1%nat) in E
      as (s' & _ & _ & (x & y & G & Hxy) & [= ->]); [|exact Hr|].
    - pose proof (alwaysCaptures_NumSubexp _ _ Hr) as Hk.
      destruct (NumSubexp r) as [|k]; [lia|].
      simpl. rewrite G.
      do 5 eexists. split; [reflexivity | lia].
    - unfold within. rewrite Hc. repeat split; [exact Hn | lia | constructor]. }
  induction fuel as [|fuel IH]; intros s m Hn Hc H; simpl in H;
    destruct (exec r Some s) as [fin|] eqn:E.
  - injection H as <-. apply Hfound; assumption.
  - discriminate.
  - injection H as <-. apply Hfound; assumption.
  - destruct (m_rest s) as [|c rest] eqn:Er; [discriminate|].
    apply IH in H; [exact H | simpl in *; lia | exact Hc].
Qed.

Lemma allMatches_In (r : regex) (text : string) (m : list Z) :
  forall (fuel pos : nat) (prevMatchEnd : Z),
    In m (allMatches r text fuel pos prevMatchEnd) ->
    exists p, doExecute r text p = Some m.
Proof.
  induction fuel as [|fuel IH]; intros pos prevMatchEnd; simpl; [tauto|].
  destruct (Nat.ltb (String.length text) pos); [simpl; tauto|].
  destruct (doExecute r text pos) as [m'|] eqn:E; [|simpl; tauto].
  cbv zeta. destruct (negb _).
  - intros [<-|H]; [exists pos; exact E | apply IH in H; exact H].
  - apply IH.
Qed.

(** With [alwaysCaptures 1 r], every match that
    [FindAllStringSubmatchIndex] returns has a version. *)
Lemma FindAll_versioned (r : regex) (text : string) :
  alwaysCaptures 1 r = true ->
  Forall versioned (FindAllStringSubmatchIndex r text).
Proof.
  intros Hr. apply Forall_forall. intros m Hm.
  apply allMatches_In in Hm as (p & Hm).
  unfold doExecute in Hm.
  destruct (stateAt_spec text p None 0) as (H1 & H2 & _).
  exact (search_versioned _ Hr _ _ H2 H1 Hm).
Qed.

End RegexpFacts.

(** ** The markdown changelog parsers *)
Module MarkdownFacts.
Import Matches RegexpFacts Markdown.

Lemma fold_append {A B : Type} (p : B -> bool) (f : A -> B) (g : B -> B)
  (l : list A) (acc : list B) :
  List.fold_left (fun acc x => if p (f x) then (acc ++ [g (f x)])%list else acc)
    l acc
  = (acc ++ List.map g (List.filter p (List.map f l)))%list.
Proof.
  revert acc; induction l as [|x l IH]; intros acc; simpl.
  - rewrite app_nil_r. reflexivity.
  - rewrite IH. destruct (p (f x)); simpl.
    + rewrite <- app_assoc. reflexivity.
    + reflexivity.
Qed.

Lemma parseChanges_changeLines (span : string) :
  parseChanges span = changeLines span.
Proof.
  unfold parseChanges, changeLines; cbv zeta.
  apply (fold_append (fun t => strings.HasPrefix t "- ") strings.TrimSpace
           (fun t => strings.TrimPrefix t "- ")).
Qed.

Lemma slice_substr (content : string) (lo hi : Z) :
  0 <= lo -> lo <= hi -> hi <= strings.len content ->
  strings.slice content lo hi = Some (substr content lo hi).
Proof.
  intros H1 H2 H3. unfold strings.slice.
  destruct (Z.leb_spec 0 lo); [|lia].
  destruct (Z.leb_spec lo hi); [|lia].
  destruct (Z.leb_spec hi (strings.len content)); [|lia].
  reflexivity.
Qed.

Lemma contentEndOf_later (content : string) (matches done later : list (list Z))
  (m : list Z) :
  matches = (done ++ m :: later)%list ->
  contentEndOf content matches (List.length done)
  = match later with
    | [] => Some (strings.len content)
    | next :: _ => List.nth_error next 0
    end.
Proof.
  intros ->. unfold contentEndOf.
  rewrite length_app; simpl List.length.
  destruct later as [|next later]; simpl List.length.
  - destruct (Z.ltb_spec (Z.of_nat (List.length done) + 1)
                (Z.of_nat (List.length done + 1))); [lia | reflexivity].
  - destruct (Z.ltb_spec (Z.of_nat (List.length done) + 1)
                (Z.of_nat (List.length done + S (S (List.length later)))));
      [|lia].
    rewrite nth_error_app2 by lia.
    replace (List.length done + 1 - List.length done)%nat with 1%nat by lia.
    reflexivity.
Qed.

(** What the chain of matches gives at one match that has a version. *)
Lemma chain_head (n : Z) (k : nat) (lo : Z) (m : list Z)
  (later : list (list Z)) :
  0 <= lo -> chain n k lo (m :: later) -> hasVersion m ->
  exists a b x y gs,
    m = a :: b :: x :: y :: gs
    /\ 0 <= a /\ a <= b /\ b <= n /\ 0 <= x /\ x <= y /\ y <= n
    /\ chain n k b later
    /\ match later with
       | [] => True
       | next :: _ => exists a', List.nth_error next 0 = Some a'
                                 /\ List.nth 0 next 0 = a'
                                 /\ b <= a' /\ a' <= n
       end.
Proof.
  intros Hlo (a & b & gs & -> & Ha & Hab & Hb & Hg & _ & Hl) Hv.
  unfold hasVersion in Hv.
  destruct gs as [|x [|y gs]]; simpl in Hv, Hg; try lia; try tauto.
  destruct Hg as [[[-> ->]|(Hx & Hxy & Hy)] _]; [lia|].
  exists a, b, x, y, gs. repeat (split; [reflexivity || lia || assumption|]).
  destruct later as [|next later]; [exact I|].
  destruct Hl as (a' & b' & gs' & -> & Ha' & Hab' & Hb' & _).
  exists a'. simpl. repeat split; lia.
Qed.

(** What the chain of matches gives at any match. *)
Lemma chain_head0 (n : Z) (k : nat) (lo : Z) (m : list Z)
  (later : list (list Z)) :
  0 <= lo -> chain n k lo (m :: later) ->
  exists a b gs,
    m = a :: b :: gs /\ List.length gs = (2 * k)%nat
    /\ 0 <= a /\ a <= b /\ b <= n
    /\ chain n k b later
    /\ match later with
       | [] => True
       | next :: _ => exists a', List.nth_error next 0 = Some a'
                                 /\ List.nth 0 next 0 = a'
                                 /\ b <= a' /\ a' <= n
       end.
Proof.
  intros Hlo (a & b & gs & -> & Ha & Hab & Hb & Hg & Hlen & Hl).
  exists a, b, gs. repeat (split; [reflexivity || lia || assumption|]).
  destruct later as [|next later]; [exact I|].
  destruct Hl as (a' & b' & gs' & -> & Ha' & Hab' & Hb' & _).
  exists a'. simpl. repeat split; lia.
Qed.

(** The span of a match can be sliced out of the document. *)
Lemma span_slice (content : string) (matches done later : list (list Z))
  (k : nat) (lo : Z) (m : list Z) :
  matches = (done ++ m :: later)%list -> 0 <= lo ->
  chain (strings.len content) k lo (m :: later) ->
  exists a b gs,
    m = a :: b :: gs /\ List.length gs = (2 * k)%nat /\ 0 <= b
    /\ chain (strings.len content) k b later
    /\ (let? contentEnd := contentEndOf content matches (List.length done) in
        strings.slice content b contentEnd)
       = Some (spanOf content m later).
Proof.
  intros Hm Hlo Hch.
  destruct (chain_head0 Hlo Hch)
    as (a & b & gs & -> & Hlen & Ha & Hab & Hb & Hl & Hnext).
  exists a, b, gs. repeat (split; [reflexivity || lia || assumption|]).
  rewrite (@contentEndOf_later content _ done later _ Hm).
  unfold spanOf, spanEnd. simpl List.nth at 1.
  destruct later as [|next later].
  - apply slice_substr; lia.
  - destruct Hnext as (a' & -> & -> & H1 & H2).
    apply slice_substr; lia.
Qed.

Lemma done_snoc {A : Type} (done later : list A) (m : A) :
  (done ++ m :: later = (done ++ [m]) ++ later)%list
  /\ S (List.length done) = List.length (done ++ [m])%list.
Proof.
  rewrite <- app_assoc, length_app. simpl. split; [reflexivity | lia].
Qed.

Lemma built_length {E : Type} (entryOf : list Z -> list (list Z) -> E)
  (ms : list (list Z)) : List.length (built entryOf ms) = List.length ms.
Proof. induction ms; simpl; congruence. Qed.

Lemma Legacy_collect_built (content : string) (matches : list (list Z))
  (k : nat) :
  forall (todo done : list (list Z)) (lo : Z)
         (entries : list Legacy.ChangelogEntry.t),
    matches = (done ++ todo)%list -> 0 <= lo ->
    chain (strings.len content) k lo todo -> Forall hasVersion todo ->
    Legacy.collect content matches (List.length done) todo entries
    = Some (entries ++ built (legacyEntry content) todo)%list.
Proof.
  induction todo as [|m later IH]; intros done lo entries Hm Hlo Hch Hv.
  - simpl. rewrite app_nil_r. reflexivity.
  - apply Forall_cons_iff in Hv as [Hv Hvs].
    destruct (@span_slice content matches done later k lo m Hm Hlo Hch)
      as (a & b & gs & E & Hlen & Hb & Hl & Hspan).
    destruct (chain_head Hlo Hch Hv)
      as (a1 & b1 & x & y & gs1 & E1 & Ha & Hab & Hbn & Hx & Hxy & Hy & _).
    rewrite E in E1. injection E1 as <- <- ->.
    simpl Legacy.collect. rewrite E. simpl List.nth_error.
    rewrite (slice_substr content Hx Hxy Hy).
    destruct (contentEndOf content matches (List.length done)) as [ce|];
      [|discriminate].
    rewrite Hspan. rewrite parseChanges_changeLines.
    destruct (done_snoc done later m) as [Ed ->].
    rewrite Ed in Hm.
    rewrite (IH _ b _ Hm Hb Hl Hvs).
    rewrite <- app_assoc. subst m. reflexivity.
Qed.

(** *** The program with timestamps *)

Lemma nth_error_done {A : Type} (done later : list A) (m : A) :
  List.nth_error (done ++ m :: later) (List.length done) = Some m.
Proof.
  rewrite nth_error_app2 by lia. rewrite Nat.sub_diag. reflexivity.
Qed.

(** The strings of a match with at least one group. *)
Lemma submatch_version (content : string) (a b x y : Z) (gs : list Z) :
  exists whole ver,
    regexp.submatchStrings content (a :: b :: x :: y :: gs)
    = whole :: ver :: regexp.submatchStrings content gs
    /\ (0 <= x -> x <= y -> y <= strings.len content ->
        ver = substr content x y).
Proof.
  simpl.
  destruct (strings.slice content a b) as [whole|];
    destruct (strings.slice content x y) as [ver|] eqn:E;
    do 2 eexists; (split; [reflexivity|]); intros H1 H2 H3;
    rewrite (slice_substr content H1 H2 H3) in E; congruence.
Qed.

Section WithDecoders.
Context {D : Decoders}.

Lemma collectOptionalDate_built (content : string) (matches : list (list Z))
  (k : nat) :
  (1 <= k)%nat ->
  forall (todo done : list (list Z)) (lo : Z) (entries : list ChangelogEntry.t),
    matches = (done ++ todo)%list -> 0 <= lo ->
    chain (strings.len content) k lo todo ->
    collectOptionalDate content matches (List.length done)
      (List.map (regexp.submatchStrings content) todo) entries
    = Some (entries ++ built (optionalDateEntry content) todo)%list.
Proof.
  intros Hk.
  induction todo as [|m later IH]; intros done lo entries Hm Hlo Hch.
  - simpl. rewrite app_nil_r. reflexivity.
  - destruct (@span_slice content matches done later k lo m Hm Hlo Hch)
      as (a & b & gs & E & Hlen & Hb & Hl & Hspan).
    destruct gs as [|x [|y gs]]; simpl in Hlen; try lia.
    destruct (submatch_version content a b x y gs) as (whole & ver & Es & _).
    assert (Hnth : List.nth_error matches (List.length done) = Some m)
      by (rewrite Hm; apply nth_error_done).
    simpl List.map. simpl collectOptionalDate.
    rewrite Hnth, E, Es. cbv beta iota.
    destruct (contentEndOf content matches (List.length done)) as [ce|];
      [|discriminate].
    rewrite Hspan. rewrite parseChanges_changeLines.
    destruct (done_snoc done later m) as [Ed ->].
    rewrite Ed in Hm.
    rewrite (IH _ b _ Hm Hb Hl).
    rewrite <- app_assoc. subst m. cbn [built app]. do 3 f_equal.
    unfold optionalDateEntry, optionalDateOf. rewrite Es. reflexivity.
Qed.

Lemma collectDated_built (content : string) (matches : list (list Z))
  (k : nat) :
  (2 <= k)%nat ->
  forall (todo done : list (list Z)) (lo : Z) (entries : list ChangelogEntry.t),
    matches = (done ++ todo)%list -> 0 <= lo ->
    chain (strings.len content) k lo todo ->
    collectDated content matches (List.length done)
      (List.map (regexp.submatchStrings content) todo) entries
    = Some (entries ++ built (datedEntry content) todo)%list.
Proof.
  intros Hk.
  induction todo as [|m later IH]; intros done lo entries Hm Hlo Hch.
  - simpl. rewrite app_nil_r. reflexivity.
  - destruct (@span_slice content matches done later k lo m Hm Hlo Hch)
      as (a & b & gs & E & Hlen & Hb & Hl & Hspan).
    destruct gs as [|x [|y [|x2 [|y2 gs]]]]; simpl in Hlen; try lia.
    destruct (submatch_version content a b x y (x2 :: y2 :: gs))
      as (whole & ver & Es & _).
    destruct (submatch_version content x y x2 y2 gs)
      as (ver' & date & Es2 & _).
    assert (Es3 : regexp.submatchStrings content (x2 :: y2 :: gs)
                  = date :: regexp.submatchStrings content gs).
    { simpl in Es2 |- *.
      destruct (strings.slice content x y), (strings.slice content x2 y2);
        congruence. }
    assert (Hnth : List.nth_error matches (List.length done) = Some m)
      by (rewrite Hm; apply nth_error_done).
    simpl List.map. simpl collectDated.
    rewrite Hnth, E, Es, Es3. cbv beta iota.
    destruct (contentEndOf content matches (List.length done)) as [ce|];
      [|discriminate].
    rewrite Hspan. rewrite parseChanges_changeLines.
    destruct (done_snoc done later m) as [Ed ->].
    rewrite Ed in Hm.
    rewrite (IH _ b _ Hm Hb Hl).
    rewrite <- app_assoc. subst m. cbn [built app]. do 3 f_equal.
    unfold datedEntry. rewrite Es, Es3. reflexivity.
Qed.

Lemma optionalDate_expected (content : string) (k : nat) :
  forall (ms : list (list Z)) (lo : Z),
    0 <= lo -> chain (strings.len content) k lo ms -> Forall hasVersion ms ->
    List.map (fun e => (Version e, Changes e))
      (built (optionalDateEntry content) ms)
    = expected content ms.
Proof.
  induction ms as [|m later IH]; intros lo Hlo Hch Hv; simpl.
  - reflexivity.
  - apply Forall_cons_iff in Hv as [Hv Hvs].
    destruct (chain_head Hlo Hch Hv)
      as (a & b & x & y & gs & -> & Ha & Hab & Hb & Hx & Hxy & Hy & Hl & _).
    rewrite (IH b) by (assumption || lia).
    destruct (submatch_version content a b x y gs) as (whole & ver & Es & Ev).
    rewrite Es, (Ev Hx Hxy Hy). reflexivity.
Qed.

End WithDecoders.

Lemma legacy_expected (content : string) (ms : list (list Z)) :
  built (legacyEntry content) ms
  = List.map (fun vc => Legacy.ChangelogEntry.Make (fst vc) (snd vc))
      (expected content ms).
Proof.
  induction ms as [|m later IH]; simpl; [reflexivity|].
  rewrite IH. reflexivity.
Qed.

Lemma expected_length (content : string) (ms : list (list Z)) :
  List.length (expected content ms) = List.length ms.
Proof. induction ms; simpl; congruence. Qed.

(** A pattern has a group as soon as one of its matches has a version. *)
Lemma hasVersion_group (n : Z) (k : nat) (lo : Z) (m : list Z)
  (later : list (list Z)) :
  chain n k lo (m :: later) -> hasVersion m -> (1 <= k)%nat.
Proof.
  intros (a & b & gs & -> & _ & _ & _ & _ & Hlen & _) Hv.
  unfold hasVersion in Hv. destruct gs; simpl in *; lia.
Qed.

End MarkdownFacts.

(** ** Versions are not empty *)
Module Versions.
Import Matches RegexpFacts Markdown MarkdownFacts.

Lemma versioned_hasVersion (m : list Z) : versioned m -> hasVersion m.
Proof.
  intros (a & b & x & y & gs & -> & Hx & _). unfold hasVersion; simpl. exact Hx.
Qed.

Lemma substring_nonempty (s : string) :
  forall n m : nat,
    (n + m <= String.length s)%nat -> (0 < m)%nat ->
    String.substring n m s <> EmptyString.
Proof.
  induction s as [|c s IH]; intros n m Hlen Hm; simpl in Hlen.
  - lia.
  - destruct n as [|n]; simpl.
    + destruct m; [lia | discriminate].
    + apply IH; lia.
Qed.

(** In a chain of matches, a match with a version has a version text of
    at least one byte. *)
Lemma version_nonempty (content : string) (k : nat) (lo : Z) (m : list Z)
  (later : list (list Z)) :
  0 <= lo -> chain (strings.len content) k lo (m :: later) -> versioned m ->
  versionOf content m <> EmptyString.
Proof.
  intros Hlo Hch Hv.
  destruct (chain_head Hlo Hch (versioned_hasVersion Hv))
    as (a & b & x & y & gs & -> & _ & _ & _ & Hx & _ & Hy & _).
  destruct Hv as (a' & b' & x' & y' & gs' & [= <- <- <- <- <-] & _ & Hxy).
  unfold versionOf, substr; simpl List.nth.
  unfold strings.len in Hy.
  apply substring_nonempty; lia.
Qed.

Lemma expected_versions_nonempty (content : string) (k : nat) :
  forall (ms : list (list Z)) (lo : Z),
    0 <= lo -> chain (strings.len content) k lo ms -> Forall versioned ms ->
    Forall (fun vc => fst vc <> EmptyString) (expected content ms).
Proof.
  induction ms as [|m later IH]; intros lo Hlo Hch Hv; simpl.
  - constructor.
  - apply Forall_cons_iff in Hv as [Hv Hvs].
    constructor.
    + simpl. exact (version_nonempty content Hlo Hch Hv).
    + destruct (chain_head0 Hlo Hch) as (a & b & gs & _ & _ & Ha & Hab & _ & Hl & _).
      apply (IH b); [lia | exact Hl | exact Hvs].
Qed.

End Versions.

(** ** The adapters read the world and do not panic *)
Module AdaptersFacts.
Import Markdown MarkdownFacts Adapters.

Lemma runs_unique {A : Type} (m : IO A) (w : World) (out out' : A)
  (new new' : list string) :
  runs m w out new -> runs m w out' new' -> out = out'.
Proof.
  intros H H'. specialize (H (MkTrace [] 0)). rewrite H' in H.
  congruence.
Qed.

Lemma fold_snoc_map {A B : Type} (f : A -> B) (l : list A) (acc : list B) :
  List.fold_left (fun acc x => (acc ++ [f x])%list) l acc
  = (acc ++ List.map f l)%list.
Proof.
  revert acc; induction l as [|x l IH]; intros acc; simpl.
  - rewrite app_nil_r. reflexivity.
  - rewrite IH, <- app_assoc. reflexivity.
Qed.

Lemma httpGet_runs (url : string) (w : World) :
  runs (httpGet url) w (textOf w url) [url].
Proof.
  intros tr. unfold httpGet, bind, request, ret, textOf.
  destruct (http w url) as [msg|code status body]; reflexivity.
Qed.

Section WithDecoders.
Context {D : Decoders}.

Lemma fetchGitHubReleases_runs (owner repo : string) (w : World) :
  runs (fetchGitHubReleases owner repo) w (releasesOf w owner repo)
    [releasesURL owner repo].
Proof.
  intros tr.
  unfold fetchGitHubReleases, getReleases, bind, request, ret, releasesOf.
  fold (releasesURL owner repo).
  destruct (http w (releasesURL owner repo)) as [msg|code status body];
    [reflexivity|].
  destruct (negb (code =? 200)); [reflexivity|].
  destruct (json_releases body) as [msg|releases]; [reflexivity|].
  rewrite (fold_snoc_map releaseEntry releases []). reflexivity.
Qed.

Lemma commitDate_runs (w : World) :
  runs (fetchGitHubFileLastCommitDate "anthropics" "claude-code" "CHANGELOG.md")
    w (commitDateOf w) [commitsURL].
Proof.
  intros tr.
  unfold fetchGitHubFileLastCommitDate, bind, request, ret, commitDateOf.
  change ("https://api.github.com/repos/" ++ "anthropics" ++ "/"
          ++ "claude-code" ++ "/commits?path=" ++ "CHANGELOG.md"
          ++ "&per_page=1") with commitsURL.
  reflexivity.
Qed.

Lemma claude_parses (content : string) :
  parseMarkdownChangelogWithOptionalDate content patterns.claude
  = Some (claudeParsed content).
Proof.
  unfold parseMarkdownChangelogWithOptionalDate, regexp.FindAllStringSubmatch.
  apply (@collectOptionalDate_built D content _ (regexp.NumSubexp patterns.claude))
    with (done := []) (lo := 0) (entries := []).
  - vm_compute. lia.
  - reflexivity.
  - lia.
  - apply RegexpFacts.FindAll_chain.
Qed.

Lemma fetchClaudeChangelog_runs (w : World) :
  runs fetchClaudeChangelog w (fst (claudeOf w)) (snd (claudeOf w)).
Proof.
  intros tr. unfold fetchClaudeChangelog, claudeOf, bind.
  rewrite (httpGet_runs claudeURL w tr).
  destruct (textOf w claudeURL) as [err|content]; [reflexivity|].
  unfold orPanic. rewrite claude_parses. cbv zeta.
  destruct (claudeParsed content) as [|e0 older] eqn:E; [reflexivity|].
  simpl newestUndated.
  destruct (time.IsZero (ReleasedAt e0)); [|reflexivity].
  rewrite commitDate_runs. simpl requests. simpl ticks.
  rewrite <- app_assoc.
  destruct (negb (time.IsZero (commitDateOf w))); reflexivity.
Qed.

Lemma copilot_parses (content : string) :
  parseMarkdownChangelogWithDate content patterns.copilot
  = Some (copilotParsed content).
Proof.
  unfold parseMarkdownChangelogWithDate, regexp.FindAllStringSubmatch.
  apply (@collectDated_built D content _ (regexp.NumSubexp patterns.copilot))
    with (done := []) (lo := 0) (entries := []).
  - vm_compute. lia.
  - reflexivity.
  - lia.
  - apply RegexpFacts.FindAll_chain.
Qed.

Lemma fetchCopilotChangelog_runs (w : World) :
  runs fetchCopilotChangelog w (copilotOf w) [copilotURL].
Proof.
  intros tr. unfold fetchCopilotChangelog, copilotOf, bind.
  rewrite (httpGet_runs copilotURL w tr).
  destruct (textOf w copilotURL) as [err|content]; [reflexivity|].
  unfold orPanic. rewrite copilot_parses. reflexivity.
Qed.

(** Every source of the registry does. *)
Lemma sources_read : Forall (fun named => reads (snd named)) sources.
Proof.
  unfold sources. repeat constructor; intros w; simpl.
  - do 2 eexists. apply fetchClaudeChangelog_runs.
  - do 2 eexists. apply fetchGitHubReleases_runs.
  - do 2 eexists. apply fetchGitHubReleases_runs.
  - do 2 eexists. apply fetchGitHubReleases_runs.
  - do 2 eexists. apply fetchCopilotChangelog_runs.
Qed.

End WithDecoders.

End AdaptersFacts.

(** ** The aggregate views *)
Module AggregateFacts.
Import Adapters AdaptersFacts Aggregate.

Lemma runs_ret {A : Type} (a : A) (w : World) : runs (ret a) w a [].
Proof. intros [rq tk]. unfold ret; simpl. rewrite app_nil_r. reflexivity. Qed.

Lemma runs_bind {A B : Type} (m : IO A) (k : A -> IO B) (w : World)
  (a : A) (b : B) (n1 n2 : list string) :
  runs m w a n1 -> runs (k a) w b n2 -> runs (bind m k) w b (n1 ++ n2).
Proof.
  intros H1 H2 tr. unfold bind. rewrite H1, H2. simpl.
  rewrite app_assoc. reflexivity.
Qed.

Lemma reads_outcome (src : Source.t) (w : World) :
  reads src -> exists new, runs (Source.FetchFunc src) w (fetchOutcome w src) new.
Proof.
  intros H. destruct (H w) as (out & new & Hr).
  exists new. unfold fetchOutcome. rewrite Hr. exact Hr.
Qed.

Section InWorld.
Variable w : World.

Lemma gather_latest (arrival : list (string * Source.t)) :
  Forall (fun named => reads (snd named)) arrival ->
  exists new,
    runs (gather latestWorker arrival) w (List.flat_map (latestSent w) arrival) new.
Proof.
  induction 1 as [|[name src] arrival Hsrc _ IH]; simpl.
  - exists []. apply runs_ret.
  - destruct IH as (new' & IH).
    destruct (reads_outcome w Hsrc) as (new & Hr). simpl in Hr.
    eexists.
    unfold latestWorker.
    eapply runs_bind.
    + eapply runs_bind; [exact Hr | apply runs_ret].
    + eapply runs_bind; [exact IH|].
      destruct (fetchOutcome w src) as [err|[|entry entries]]; apply runs_ret.
Qed.

Lemma latestLoop (cutoff : time.Time) (arrival : list (string * Source.t)) :
  forall (written : list output) (recentEntries : list ChangelogEntry.t),
    List.fold_left (latestStep cutoff) (List.flat_map (latestSent w) arrival)
      (written, recentEntries)
    = ((written ++ List.flat_map (warningOf w) arrival)%list,
       (recentEntries ++ List.flat_map (recentOf w cutoff) arrival)%list).
Proof.
  induction arrival as [|[name src] arrival IH]; intros written recentEntries;
    simpl.
  - rewrite !app_nil_r. reflexivity.
  - rewrite fold_left_app. unfold warningOf, recentOf; simpl.
    destruct (fetchOutcome w src) as [err|[|entry entries]]; simpl.
    + rewrite IH, <- app_assoc. reflexivity.
    + apply IH.
    + destruct (negb (time.IsZero (ReleasedAt entry))
                && time.After (ReleasedAt entry) cutoff); simpl.
      * rewrite IH, <- app_assoc. reflexivity.
      * apply IH.
Qed.

(** [runLatestCommand] in full. *)
Lemma runLatestCommand_runs (arrival : list (string * Source.t))
  (json : bool) :
  Forall (fun named => reads (snd named)) arrival ->
  exists new, forall tr,
    let cutoff := time.Add (clock w (ticks tr)) (-24 * time.Hour) in
    runLatestCommand arrival json w tr
    = (Some (List.flat_map (warningOf w) arrival
             ++ latestView json
                  (sort.Slice newerFirst
                     (List.flat_map (recentOf w cutoff) arrival)))%list,
       MkTrace (requests tr ++ new) (S (ticks tr))).
Proof.
  intros Hr. destruct (gather_latest Hr) as (new & Hg).
  exists new. intros tr cutoff.
  unfold runLatestCommand, bind, Now. rewrite Hg. simpl requests. simpl ticks.
  fold cutoff. rewrite (latestLoop cutoff arrival [] []). simpl app.
  unfold latestView.
  destruct (sort.Slice newerFirst _) as [|e es]; simpl; [reflexivity|].
  destruct json; reflexivity.
Qed.

End InWorld.

End AggregateFacts.

Module Orders.

Lemma newerFirst_asym (a b : ChangelogEntry.t) :
  newerFirst a b = true -> newerFirst b a = false.
Proof. unfold newerFirst, time.After. lia. Qed.

Lemma newerFirst_negtrans (a b c : ChangelogEntry.t) :
  newerFirst a b = false -> newerFirst b c = false -> newerFirst a c = false.
Proof. unfold newerFirst, time.After. lia. Qed.

Lemma reads_arrival {D : Decoders} (arrival : list (string * Source.t)) :
  Permutation arrival sources ->
  Forall (fun named => Adapters.reads (snd named)) arrival.
Proof.
  intros H. apply (Permutation_Forall (Permutation_sym H)).
  apply AdaptersFacts.sources_read.
Qed.

End Orders.

(** ** The status view *)
Module StatusFacts.
Import Adapters AdaptersFacts Aggregate AggregateFacts Status.

Lemma compare_ge_trans (a b c : string) :
  String.compare a b <> Lt -> String.compare b c <> Lt ->
  String.compare a c <> Lt.
Proof.
  revert b c; induction a as [|x a IH]; intros [|y b] [|z c]; simpl;
    try congruence.
  unfold Ascii.compare.
  destruct (N.compare_spec (N_of_ascii x) (N_of_ascii y)),
           (N.compare_spec (N_of_ascii y) (N_of_ascii z)),
           (N.compare_spec (N_of_ascii x) (N_of_ascii z));
    try congruence; try lia; eauto.
Qed.

Lemma stringLess_asym (a b : string) :
  stringLess a b = true -> stringLess b a = false.
Proof.
  unfold stringLess. rewrite (String.compare_antisym a b).
  destruct (String.compare b a); simpl; congruence.
Qed.

Lemma stringLess_negtrans (a b c : string) :
  stringLess a b = false -> stringLess b c = false -> stringLess a c = false.
Proof.
  unfold stringLess. intros H1 H2.
  pose proof (@compare_ge_trans a b c) as H.
  destruct (String.compare a b), (String.compare b c), (String.compare a c);
    try discriminate; try reflexivity; exfalso; apply H; congruence.
Qed.

Lemma statusLess_asym (a b : statusEntry) :
  statusLess a b = true -> statusLess b a = false.
Proof.
  unfold statusLess, time.After.
  destruct (time.IsZero (st_releasedAt a)), (time.IsZero (st_releasedAt b));
    simpl; try congruence.
  - apply stringLess_asym.
  - lia.
Qed.

Lemma statusLess_negtrans (a b c : statusEntry) :
  statusLess a b = false -> statusLess b c = false -> statusLess a c = false.
Proof.
  unfold statusLess, time.After.
  destruct (time.IsZero (st_releasedAt a)), (time.IsZero (st_releasedAt b)),
    (time.IsZero (st_releasedAt c)); simpl; try congruence.
  - apply stringLess_negtrans.
  - lia.
Qed.

Lemma statusLess_dated (a b : statusEntry) :
  dated a -> dated b ->
  statusLess a b = (st_releasedAt b <? st_releasedAt a).
Proof.
  unfold dated, statusLess, time.IsZero, time.After, time.zero. intros Ha Hb.
  destruct (Z.eqb_spec (st_releasedAt a) 0); [contradiction|].
  destruct (Z.eqb_spec (st_releasedAt b) 0); [contradiction|].
  reflexivity.
Qed.

Lemma statusLess_inOrder (a b : statusEntry) :
  statusLess b a = false -> inOrder a b.
Proof.
  unfold inOrder, dated, statusLess, time.IsZero, time.After, time.zero.
  destruct (Z.eqb_spec (st_releasedAt a) 0), (Z.eqb_spec (st_releasedAt b) 0);
    simpl; intros H; split; try lia; try congruence; auto.
Qed.

Lemma Slice_inOrder (rows : list statusEntry) :
  StronglySorted inOrder (sort.Slice statusLess rows).
Proof.
  apply Sorting.StronglySorted_impl
    with (R := fun a b => statusLess b a = false).
  - exact statusLess_inOrder.
  - apply (@Sorting.Slice_sorted _ statusLess statusLess_asym
             statusLess_negtrans rows).
Qed.

(** Three dated rows with different timestamps come out newest first,
    whatever order they are given in. *)
Lemma Slice_three (rows : list statusEntry) (r1 r2 r3 : statusEntry) :
  Permutation rows [r1; r2; r3] ->
  dated r1 -> dated r2 -> dated r3 ->
  st_releasedAt r2 < st_releasedAt r1 -> st_releasedAt r3 < st_releasedAt r2 ->
  sort.Slice statusLess rows = [r1; r2; r3].
Proof.
  intros Hperm D1 D2 D3 H12 H23.
  pose proof (Slice_inOrder rows) as Hs.
  pose proof (Sorting.Slice_perm statusLess rows) as Hp.
  apply Permutation_sym in Hp.
  apply (fun H => perm_trans H Hperm) in Hp.
  apply Sorting.Permutation_three in Hp.
  assert (Hab : forall pre a mid b post,
             sort.Slice statusLess rows = (pre ++ a :: mid ++ b :: post)%list ->
             dated a -> dated b -> st_releasedAt b <= st_releasedAt a).
  { intros pre a mid b post E Da Db. rewrite E in Hs.
    apply Sorting.StronglySorted_between in Hs. apply Hs; assumption. }
  destruct Hp as [E|[E|[E|[E|[E|E]]]]]; [exact E|..]; exfalso.
  - specialize (Hab [r1] r3 [] r2 [] E D3 D2). lia.
  - specialize (Hab [] r2 [] r1 [r3] E D2 D1). lia.
  - specialize (Hab [] r2 [r3] r1 [] E D2 D1). lia.
  - specialize (Hab [] r3 [] r1 [r2] E D3 D1). lia.
  - specialize (Hab [] r3 [] r2 [r1] E D3 D2). lia.
Qed.

Section InWorld.
Variable w : World.

Lemma gather_status (arrival : list (string * Source.t)) :
  Forall (fun named => reads (snd named)) arrival ->
  exists new,
    runs (gather statusWorker arrival) w (List.flat_map (statusSent w) arrival) new.
Proof.
  induction 1 as [|[name src] arrival Hsrc _ IH]; simpl.
  - exists []. apply runs_ret.
  - destruct IH as (new' & IH).
    destruct (reads_outcome w Hsrc) as (new & Hr). simpl in Hr.
    eexists. unfold statusWorker.
    eapply runs_bind.
    + eapply runs_bind; [exact Hr | apply runs_ret].
    + eapply runs_bind; [exact IH|].
      destruct (fetchOutcome w src) as [err|entries]; apply runs_ret.
Qed.

Lemma statusRow_returns (cutoff : time.Time) (displayName : string)
  (e0 : ChangelogEntry.t) (older : list ChangelogEntry.t) (tr : trace) :
  exists row tk,
    statusRow cutoff displayName e0 older w tr
    = (Some row, MkTrace (requests tr) tk)
    /\ key row = (displayName, ReleasedAt e0).
Proof.
  unfold statusRow, bind.
  destruct (negb (time.IsZero (ReleasedAt e0))) eqn:E.
  - rewrite RelativeTimeFacts.formatRelativeTime_buckets.
    apply negb_true_iff in E. rewrite E. cbv zeta.
    do 2 eexists. split; reflexivity.
  - destruct tr as [rq tk]. do 2 eexists. split; reflexivity.
Qed.

Lemma statusLoop_returns (cutoff : time.Time)
  (arrival : list (string * Source.t)) :
  forall (written : list output) (rows : list statusEntry) (tr : trace),
  exists newRows tk,
    statusLoop cutoff (List.flat_map (statusSent w) arrival) written rows w tr
    = (Some ((written ++ List.flat_map (warningOf w) arrival)%list,
             (rows ++ newRows)%list),
       MkTrace (requests tr) tk)
    /\ List.map key newRows = List.flat_map (statusKeys w) arrival.
Proof.
  induction arrival as [|[name src] arrival IH]; intros written rows tr.
  - exists [], (ticks tr). simpl. rewrite !app_nil_r.
    destruct tr; split; reflexivity.
  - cbn [List.flat_map].
    destruct (fetchOutcome w src) as [err|[|e0 older]] eqn:Eo.
    + assert (Es : (statusSent w) (name, src)
                   = [StatusResult name (Source.DisplayName src) [] (Some err)])
        by (unfold statusSent; rewrite Eo; reflexivity).
      assert (Ew : warningOf w (name, src)
                   = [Eprintln ("Warning: Failed to fetch "
                                ++ Source.DisplayName src ++ ": " ++ err)])
        by (unfold warningOf; simpl snd; rewrite Eo; reflexivity).
      assert (Ek : (statusKeys w) (name, src) = [])
        by (unfold statusKeys; simpl snd; rewrite Eo; reflexivity).
      rewrite Es, Ew, Ek.
      cbn [app statusLoop sr_err sr_entries sr_displayName].
      destruct (IH (written
                    ++ [Eprintln ("Warning: Failed to fetch "
                                  ++ Source.DisplayName src ++ ": " ++ err)])%list
                  rows tr) as (newRows & tk & E & Hk).
      exists newRows, tk. rewrite E, <- app_assoc.
      split; [reflexivity | exact Hk].
    + assert (Es : (statusSent w) (name, src)
                   = [StatusResult name (Source.DisplayName src) [] None])
        by (unfold statusSent; rewrite Eo; reflexivity).
      assert (Ew : warningOf w (name, src) = [])
        by (unfold warningOf; simpl snd; rewrite Eo; reflexivity).
      assert (Ek : (statusKeys w) (name, src) = [])
        by (unfold statusKeys; simpl snd; rewrite Eo; reflexivity).
      rewrite Es, Ew, Ek.
      cbn [app statusLoop sr_err sr_entries sr_displayName].
      apply IH.
    + assert (Es : (statusSent w) (name, src)
                   = [StatusResult name (Source.DisplayName src)
                        (e0 :: older) None])
        by (unfold statusSent; rewrite Eo; reflexivity).
      assert (Ew : warningOf w (name, src) = [])
        by (unfold warningOf; simpl snd; rewrite Eo; reflexivity).
      assert (Ek : (statusKeys w) (name, src)
                   = [(Source.DisplayName src, ReleasedAt e0)])
        by (unfold statusKeys; simpl snd; rewrite Eo; reflexivity).
      rewrite Es, Ew, Ek.
      cbn [app statusLoop sr_err sr_entries sr_displayName].
      unfold bind.
      destruct (statusRow_returns cutoff (Source.DisplayName src) e0 older tr)
        as (row & tk0 & Er & Hrow).
      rewrite Er.
      destruct (IH written (rows ++ [row])%list (MkTrace (requests tr) tk0))
        as (newRows & tk & E & Hk).
      exists (row :: newRows), tk. rewrite E, <- app_assoc.
      split; [reflexivity|]. cbn [List.map]. rewrite Hrow, Hk. reflexivity.
Qed.

(** [runStatusCommand] returns: it writes the warnings and then the view
    of the sorted rows, which are one per source that has entries. *)
Lemma runStatusCommand_returns (arrival : list (string * Source.t))
  (json : bool) (tr : trace) :
  Forall (fun named => reads (snd named)) arrival ->
  exists rows tr',
    runStatusCommand arrival json w tr
    = (Some (List.flat_map (warningOf w) arrival
             ++ [statusView json (sort.Slice statusLess rows)])%list, tr')
    /\ List.map key rows = List.flat_map (statusKeys w) arrival.
Proof.
  intros Hr. destruct (gather_status Hr) as (new & Hg).
  unfold runStatusCommand, bind, Now. rewrite Hg.
  match goal with
  | |- context [statusLoop ?c _ [] [] w ?t] =>
      destruct (statusLoop_returns c arrival [] [] t)
        as (rows & tk & E & Hk)
  end.
  rewrite E. exists rows. eexists.
  split; [|exact Hk]. unfold statusView. destruct json; reflexivity.
Qed.

End InWorld.

End StatusFacts.

(** ** The versions of the entries *)
Module VersionFacts.
Import Matches RegexpFacts Markdown MarkdownFacts Versions Adapters AdaptersFacts.

Lemma HasPrefix_skip_empty (p s : string) :
  strings.HasPrefix s p = true ->
  strings.skip (String.length p) s = EmptyString -> s = p.
Proof.
  revert s; induction p as [|c p IH]; intros s Hp Hs; simpl in *.
  - exact Hs.
  - destruct s as [|c' s]; [discriminate|].
    apply andb_true_iff in Hp as [Hc Hp].
    apply Ascii.eqb_eq in Hc. subst c'.
    f_equal. apply IH; assumption.
Qed.

(** The normalisation as one case distinction. *)
Lemma normalizeTag_cases (tag : string) :
  normalizeTag tag
  = (if strings.HasPrefix tag "vrust-v" then strings.skip 7 tag
     else if strings.HasPrefix tag "v" then strings.skip 1 tag
     else if strings.HasPrefix tag "rust-v" then strings.skip 6 tag
     else tag).
Proof.
  unfold normalizeTag.
  rewrite (HasPrefix_app tag "v" "rust-v" : strings.HasPrefix tag "vrust-v" = _).
  change (String.length "v") with 1%nat.
  destruct (strings.HasPrefix tag "v") eqn:Ev.
  - rewrite (TrimPrefix_true _ _ Ev).
    change (String.length "v") with 1%nat.
    destruct (strings.HasPrefix (strings.skip 1 tag) "rust-v") eqn:Er.
    + rewrite (TrimPrefix_true _ _ Er). apply (skip_skip 6 1).
    + apply TrimPrefix_false, Er.
  - rewrite (TrimPrefix_false _ _ Ev).
    destruct (strings.HasPrefix tag "rust-v") eqn:Er.
    + apply (TrimPrefix_true _ _ Er).
    + apply TrimPrefix_false, Er.
Qed.

(** The tags whose version is empty. *)
Lemma normalizeTag_empty (tag : string) :
  normalizeTag tag = EmptyString
  <-> In tag [EmptyString; "v"; "rust-v"; "vrust-v"].
Proof.
  split.
  - rewrite normalizeTag_cases.
    destruct (strings.HasPrefix tag "vrust-v") eqn:E1.
    { intros H. apply (HasPrefix_skip_empty "vrust-v" _ E1) in H. subst.
      simpl; tauto. }
    destruct (strings.HasPrefix tag "v") eqn:E2.
    { intros H. apply (HasPrefix_skip_empty "v" _ E2) in H. subst.
      simpl; tauto. }
    destruct (strings.HasPrefix tag "rust-v") eqn:E3.
    { intros H. apply (HasPrefix_skip_empty "rust-v" _ E3) in H. subst.
      simpl; tauto. }
    intros ->. simpl; tauto.
  - intros [<-|[<-|[<-|[<-|[]]]]]; reflexivity.
Qed.

Lemma releaseEntry_version {D : Decoders} (rel : Release) :
  Version (releaseEntry rel) = normalizeTag (TagName rel).
Proof.
  unfold releaseEntry. destruct (parseReleaseBody (Body rel)). reflexivity.
Qed.

Section WithDecoders.
Context {D : Decoders}.

Lemma dated_expected (content : string) (k : nat) :
  forall (ms : list (list Z)) (lo : Z),
    0 <= lo -> chain (strings.len content) k lo ms -> Forall hasVersion ms ->
    List.map (fun e => (Version e, Changes e)) (built (datedEntry content) ms)
    = expected content ms.
Proof.
  induction ms as [|m later IH]; intros lo Hlo Hch Hv; simpl.
  - reflexivity.
  - apply Forall_cons_iff in Hv as [Hv Hvs].
    destruct (chain_head Hlo Hch Hv)
      as (a & b & x & y & gs & -> & Ha & Hab & Hb & Hx & Hxy & Hy & Hl & _).
    rewrite (IH b) by (assumption || lia).
    destruct (submatch_version content a b x y gs) as (whole & ver & Es & Ev).
    rewrite Es, (Ev Hx Hxy Hy). reflexivity.
Qed.

(** The entries of a markdown parser have the expected versions, none of
    them empty, as soon as the pattern always captures group 1. *)
Lemma built_versions (content : string) (r : regexp.regex)
  (entries : list ChangelogEntry.t) :
  regexp.alwaysCaptures 1 r = true ->
  List.map (fun e => (Version e, Changes e)) entries
  = expected content (regexp.FindAllStringSubmatchIndex r content) ->
  Forall (fun e => Version e <> EmptyString) entries.
Proof.
  intros Hr E.
  pose proof (@expected_versions_nonempty content _ _ 0 (Z.le_refl 0)
                (FindAll_chain r content) (@FindAll_versioned r content Hr))
    as H.
  rewrite <- E in H. rewrite Forall_map in H. exact H.
Qed.

Lemma hasVersions (content : string) (r : regexp.regex) :
  regexp.alwaysCaptures 1 r = true ->
  Forall hasVersion (regexp.FindAllStringSubmatchIndex r content).
Proof.
  intros Hr. eapply Forall_impl; [|apply (@FindAll_versioned r content Hr)].
  intros m. apply versioned_hasVersion.
Qed.

Lemma claudeParsed_versions (content : string) :
  Forall (fun e => Version e <> EmptyString) (claudeParsed content).
Proof.
  apply built_versions with (content := content) (r := patterns.claude);
    [reflexivity|].
  apply optionalDate_expected
    with (k := regexp.NumSubexp patterns.claude) (lo := 0);
    [lia | apply FindAll_chain | apply hasVersions; reflexivity].
Qed.

Lemma copilotParsed_versions (content : string) :
  Forall (fun e => Version e <> EmptyString) (copilotParsed content).
Proof.
  apply built_versions with (content := content) (r := patterns.copilot);
    [reflexivity|].
  apply dated_expected
    with (k := regexp.NumSubexp patterns.copilot) (lo := 0);
    [lia | apply FindAll_chain | apply hasVersions; reflexivity].
Qed.

Lemma setNewest_versions (entries : list ChangelogEntry.t) (t : time.Time) :
  List.map Version (setNewestReleasedAt entries t) = List.map Version entries.
Proof. destruct entries; reflexivity. Qed.

End WithDecoders.

(** The first program's parser on a pattern that always captures the
    version. *)
Lemma legacy_versions (content : string) (r : regexp.regex) :
  regexp.alwaysCaptures 1 r = true ->
  exists entries,
    Legacy.parseMarkdownChangelog content r = Some entries
    /\ Forall (fun e => Legacy.ChangelogEntry.Version e <> EmptyString) entries.
Proof.
  intros Hr. eexists. split.
  - apply (@Legacy_collect_built content _ (regexp.NumSubexp r) _ [] 0 []);
      [reflexivity | lia | apply FindAll_chain | apply hasVersions, Hr].
  - simpl app. rewrite legacy_expected, Forall_map. simpl.
    apply (@expected_versions_nonempty content _ _ 0 (Z.le_refl 0)
             (FindAll_chain r content) (@FindAll_versioned r content Hr)).
Qed.

End VersionFacts.

(* ================================================================== *)
(** * The claims of the specification *)

(** C1, as the specification states it, fails: on scenario B the parser
    does not return the single section TUI with the one change "Added X". *)
Lemma C1_scenarioB_not_as_stated :
  parseReleaseBody ReleaseBody.scenarioB
  <> ([Section_.Make "TUI" ["Added X"]], []).
Proof.
  vm_compute. discriminate.
Qed.

(** C1 (amended): on scenario B the parser returns exactly the section TUI
    with the changes "Added X" and "Ignore me" and an empty ungrouped
    list.  The header "What's Changed" leaves the state of the loop, and so
    the open section, as it is, whatever that state; the bullet after it
    therefore joins the section that is still open. *)
Theorem C1_scenarioB :
  parseReleaseBody ReleaseBody.scenarioB
  = ([Section_.Make "TUI" ["Added X"; "Ignore me"]], [])
  /\ forall st, bodyLine st "## What's Changed" = st.
Proof.
  split.
  - vm_compute. reflexivity.
  - intros st. reflexivity.
Qed.

(** C2: for every document and every pattern whose version group takes
    part in each of its matches, the matches lie in the document one after
    the other, and both markdown parsers ([parseMarkdownChangelog] of the
    first program, [parseMarkdownChangelogWithOptionalDate] of the second)
    return, without a panic, one entry per match in that order; the version
    of entry [i] is the text of group 1 of match [i], and its changes are
    the lines of the span from the end of match [i] to the start of match
    [i+1] (the end of the document for the last) that, once trimmed, start
    with "- ", without the marker.  With no match the list is empty. *)
Theorem C2_markdown_entries (D : Decoders) (content : string)
  (versionPattern : regexp.regex) :
  let matches := regexp.FindAllStringSubmatchIndex versionPattern content in
  Forall Markdown.hasVersion matches ->
  Matches.chain (strings.len content) (regexp.NumSubexp versionPattern)
    0 matches
  /\ Legacy.parseMarkdownChangelog content versionPattern
     = Some (List.map
               (fun vc => Legacy.ChangelogEntry.Make (fst vc) (snd vc))
               (Markdown.expected content matches))
  /\ (exists entries,
         parseMarkdownChangelogWithOptionalDate content versionPattern
         = Some entries
         /\ List.map (fun e => (Version e, Changes e)) entries
            = Markdown.expected content matches)
  /\ List.length (Markdown.expected content matches) = List.length matches
  /\ (forall span, parseChanges span = Markdown.changeLines span).
Proof.
  intros matches Hv.
  pose proof (RegexpFacts.FindAll_chain versionPattern content) as Hch.
  fold matches in Hch.
  split; [exact Hch|].
  split.
  { unfold Legacy.parseMarkdownChangelog. fold matches.
    rewrite <- MarkdownFacts.legacy_expected.
    apply (@MarkdownFacts.Legacy_collect_built content matches
             (regexp.NumSubexp versionPattern) matches [] 0 []);
      [reflexivity | lia | exact Hch | exact Hv]. }
  split.
  { unfold parseMarkdownChangelogWithOptionalDate.
    unfold regexp.FindAllStringSubmatch. fold matches.
    destruct matches as [|m later] eqn:Em.
    - exists []. split; reflexivity.
    - rewrite <- Em in *.
      assert (Hk : (1 <= regexp.NumSubexp versionPattern)%nat).
      { rewrite Em in Hch, Hv. apply Forall_cons_iff in Hv as [Hv _].
        exact (MarkdownFacts.hasVersion_group Hch Hv). }
      eexists. split.
      + apply (@MarkdownFacts.collectOptionalDate_built D content matches
                 (regexp.NumSubexp versionPattern) Hk matches [] 0 []);
          [reflexivity | lia | exact Hch].
      + apply MarkdownFacts.optionalDate_expected
          with (k := regexp.NumSubexp versionPattern) (lo := 0);
          [lia | exact Hch | exact Hv]. }
  split; [apply MarkdownFacts.expected_length|].
  exact MarkdownFacts.parseChanges_changeLines.
Qed.

(** Scenario A of the specification, through C2. *)
Lemma C2_markdown_entries_witness :
  Forall Markdown.hasVersion
    (regexp.FindAllStringSubmatchIndex patterns.claude Markdown.scenarioA)
  /\ Legacy.parseMarkdownChangelog Markdown.scenarioA patterns.claude
     = Some [Legacy.ChangelogEntry.Make "1.2.0" ["Fixed bug"];
             Legacy.ChangelogEntry.Make "1.1.0" ["Initial"]].
Proof.
  assert (H : Forall Markdown.hasVersion
                (regexp.FindAllStringSubmatchIndex patterns.claude
                   Markdown.scenarioA)).
  { assert (E : regexp.FindAllStringSubmatchIndex patterns.claude
                  Markdown.scenarioA
                = [[0; 8; 3; 8; -1; -1]; [21; 29; 24; 29; -1; -1]])
      by (vm_compute; reflexivity).
    rewrite E. repeat constructor; unfold Markdown.hasVersion; simpl; lia. }
  split; [exact H|].
  destruct (C2_markdown_entries Sample.decoders Markdown.scenarioA
              patterns.claude H) as (_ & E & _).
  rewrite E. vm_compute. reflexivity.
Defined.

(** C3: for every release body, every section that [parseReleaseBody]
    returns has at least one change, and none is named "What's Changed". *)
Theorem C3_sections_retained (body : string) :
  Forall (fun sec => Section_.Changes sec <> []
                     /\ Section_.Name sec <> "What's Changed")
         (fst (parseReleaseBody body)).
Proof.
  unfold parseReleaseBody; simpl.
  apply ReleaseBodyFacts.saveSection_retained, ReleaseBodyFacts.fold_bodyLine_inv.
  split; simpl; [constructor | discriminate].
Qed.

(** C4, as stated, fails: the tag "vrust-v1.0" loses both prefixes. *)
Lemma C4_two_prefixes_stripped :
  normalizeTag "vrust-v1.0" = "1.0"
  /\ ~ strippedOnce "vrust-v1.0" (normalizeTag "vrust-v1.0").
Proof.
  split; [reflexivity|].
  intros [[_ H]|[[H _]|[H _]]]; vm_compute in H; discriminate.
Qed.

(** C4 (amended): the normalisation removes a leading "v" if there is one
    and then a leading "rust-v" if there is one.  So a tag that starts with
    "vrust-v" loses both, any other tag that starts with "v" or with
    "rust-v" loses exactly that prefix, and a tag that starts with neither
    is returned as it is.  Both programs take the version of a release from
    it. *)
Theorem C4_normalizeTag (tag : string) :
  normalizeTag tag
  = (if strings.HasPrefix tag "vrust-v" then strings.skip 7 tag
     else if strings.HasPrefix tag "v" then strings.skip 1 tag
     else if strings.HasPrefix tag "rust-v" then strings.skip 6 tag
     else tag)
  /\ forall (D : Decoders) (rel : Release),
       Version (releaseEntry rel) = normalizeTag (TagName rel).
Proof.
  split.
  - apply VersionFacts.normalizeTag_cases.
  - intros D rel. apply VersionFacts.releaseEntry_version.
Qed.

(** C5, as stated, fails: the window has no upper end.  With the clock
    300 days before the noon of the small world, the newest Codex release
    lies ten months after the invocation, not in the 24 hours before it,
    and it is in the view. *)
Lemma C5_window_has_no_upper_end :
  let now := Sample.noon - 300 * RelativeTime.Day in
  let w := MkWorld (http Sample.world) (fun _ => now) in
  let cutoff := time.Add now (-24 * time.Hour) in
  exists written codex,
    fst (run (runLatestCommand (@sources Sample.decoders) false) w)
    = Some written
    /\ In (PlainText "OpenAI Codex" codex) written
    /\ ReleasedAt codex = Sample.eleven
    /\ ~ (cutoff < ReleasedAt codex <= now).
Proof.
  cbv zeta. do 2 eexists. split; [vm_compute; reflexivity|].
  split; [right; left; reflexivity|].
  split; [reflexivity|].
  vm_compute. intros [_ H]. apply H. reflexivity.
Qed.

(** C5 (amended): whatever the order in which the goroutines of the
    registry deliver, [runLatestCommand] returns; after the warnings it
    writes the view of the list [recentEntries], which is made of one
    candidate per source at most: of a source whose fetch succeeded, the
    newest entry (index 0), provided its timestamp is not zero and is later
    than the cutoff, 24 hours before the reading of the clock at
    invocation.  That is the only bound: an entry dated after the
    invocation is kept as well.  A kept entry has the version, the
    timestamp, the sections and the changes of that newest entry, and the
    display name of the source as its source.  The list holds exactly
    these candidates, newest first: so no entry without a timestamp is in
    it. *)
Theorem C5_latest_view (D : Decoders) (w : World)
  (arrival : list (string * Source.t)) (json : bool) (tr : trace) :
  Permutation arrival sources ->
  let cutoff := time.Add (clock w (ticks tr)) (-24 * time.Hour) in
  let candidates := List.flat_map (Aggregate.recentOf w cutoff) arrival in
  let recentEntries := sort.Slice newerFirst candidates in
  (exists tr',
      runLatestCommand arrival json w tr
      = (Some (List.flat_map (Aggregate.warningOf w) arrival
               ++ Aggregate.latestView json recentEntries)%list, tr'))
  /\ Permutation candidates recentEntries
  /\ StronglySorted (fun a b => ReleasedAt b <= ReleasedAt a) recentEntries
  /\ Forall (fun e => ReleasedAt e <> time.zero /\ cutoff < ReleasedAt e)
       recentEntries
  /\ Forall (fun e => exists named newest older,
                 In named arrival
                 /\ Aggregate.fetchOutcome w (snd named) = inr (newest :: older)
                 /\ e = stamp (snd named) newest
                 /\ Version e = Version newest
                 /\ ReleasedAt e = ReleasedAt newest
                 /\ Sections e = Sections newest
                 /\ Changes e = Changes newest
                 /\ Source e = Source.DisplayName (snd named))
       recentEntries.
Proof.
  intros Hperm cutoff candidates recentEntries.
  pose proof (Sorting.Slice_perm newerFirst candidates) as Hp.
  fold recentEntries in Hp.
  split.
  { destruct (AggregateFacts.runLatestCommand_runs w json (Orders.reads_arrival Hperm))
      as (new & H).
    eexists. apply H. }
  split; [exact Hp|].
  split.
  { apply Sorting.StronglySorted_impl
      with (R := fun a b => newerFirst b a = false).
    - intros a b. unfold newerFirst, time.After. lia.
    - apply (@Sorting.Slice_sorted _ newerFirst Orders.newerFirst_asym
               Orders.newerFirst_negtrans candidates). }
  assert (Hc : forall P : ChangelogEntry.t -> Prop,
             (forall named e, In named arrival ->
                              In e (Aggregate.recentOf w cutoff named) -> P e) ->
             Forall P recentEntries).
  { intros P HP. apply (Permutation_Forall Hp).
    apply Forall_forall. intros e He.
    apply in_flat_map in He as (named & Hn & He). exact (HP named e Hn He). }
  split; apply Hc; intros named e Hn He; unfold Aggregate.recentOf in He;
    destruct (Aggregate.fetchOutcome w (snd named)) as [err|[|newest older]] eqn:Eo;
    try contradiction;
    destruct (negb (time.IsZero (ReleasedAt newest))
              && time.After (ReleasedAt newest) cutoff) eqn:Ek;
    try contradiction; destruct He as [<-|[]].
  - apply andb_true_iff in Ek as [Ez Ea]. apply negb_true_iff in Ez.
    unfold time.IsZero, time.After, time.zero in *. simpl. lia.
  - exists named, newest, older. repeat split; assumption.
Qed.

(** C5 in the small world, with the goroutines delivering in the reverse
    order of the registry: Codex (one hour ago) comes before Claude (three
    hours ago, by the commit date); Copilot (two weeks old) and OpenCode
    (no release) are left out, and Gemini is a warning. *)
Lemma C5_latest_view_witness :
  Permutation (List.rev (@sources Sample.decoders)) (@sources Sample.decoders)
  /\ exists codex claude,
       fst (run (runLatestCommand (List.rev (@sources Sample.decoders)) false)
              Sample.world)
       = Some [Eprintln "Warning: Failed to fetch Gemini CLI: HTTP 503: 503 Service Unavailable";
               PlainText "OpenAI Codex" codex;
               Println EmptyString;
               PlainText "Claude Code" claude]
       /\ ReleasedAt codex = Sample.eleven /\ ReleasedAt claude = Sample.nine.
Proof.
  assert (Hperm : Permutation (List.rev (@sources Sample.decoders))
                    (@sources Sample.decoders))
    by (apply Permutation_sym, Permutation_rev).
  split; [exact Hperm|].
  destruct (@C5_latest_view Sample.decoders Sample.world
              (List.rev (@sources Sample.decoders)) false
              (MkTrace [] 0) Hperm) as ((tr' & E) & _).
  unfold run. rewrite E.
  do 2 eexists. vm_compute. repeat split.
Defined.

(** C6, as stated, fails for the cadence: two releases half an hour apart
    have an average interval under one hour, and it is written in hours,
    as "~0h", not in minutes. *)
Lemma C6_cadence_has_no_minutes :
  let t0 := 63000000000 * time.Second in
  let entries := [RelativeTime.dated (t0 + 30 * time.Minute);
                  RelativeTime.dated t0] in
  let d := 30 * time.Minute in
  RelativeTime.avgInterval entries = Some d
  /\ d < time.Hour
  /\ calculateAvgReleaseFreq entries = "~0h"
  /\ calculateAvgReleaseFreq entries
     <> RelativeTime.approxText (RelativeTime.claimedBucket d) d.
Proof.
  cbv zeta. repeat split; try (vm_compute; reflexivity).
  vm_compute. discriminate.
Qed.

(** C6 (amended): the "updated ago" formatter writes a dated time by the
    buckets of the specification, on the duration [d] from the time to the
    clock: minutes under one hour (so also for a negative [d]), hours under
    24 hours, days under 7 days, weeks under 4 weeks, else months of 30
    days.  The cadence formatter has no minutes: it writes every average
    under 24 hours in hours, the negative ones as well, and from there on
    uses the same bounds, as "~" and the number.  The average of two dated
    entries is the interval between them.

    The number written is the one the program computes: it takes the
    minutes and the hours through [float64].  For a duration under 2048
    hours either way it is the whole number of units of the bucket in [d];
    beyond, it is that number or the next one away from zero: 180 days
    less a nanosecond are "6mo ago". *)
Theorem C6_buckets :
  (forall (t : time.Time) (w : World) (tr : trace),
      formatRelativeTime t w tr
      = if time.IsZero t then (Some "-", tr)
        else let d := time.Sub (clock w (ticks tr)) t in
             (Some (RelativeTime.agoWritten (RelativeTime.claimedBucket d) d),
              MkTrace (requests tr) (S (ticks tr))))
  /\ (forall entries : list ChangelogEntry.t,
         calculateAvgReleaseFreq entries
         = match RelativeTime.avgInterval entries with
           | None => "-"
           | Some avg =>
               RelativeTime.approxWritten (RelativeTime.cadenceBucket avg) avg
           end)
  /\ (forall d : time.Duration,
         RelativeTime.cadenceBucket d
         = if d <? time.Hour then RelativeTime.Hours
           else RelativeTime.claimedBucket d)
  /\ (forall a b : ChangelogEntry.t,
         RelativeTime.avgInterval [a; b]
         = if time.IsZero (ReleasedAt a) || time.IsZero (ReleasedAt b)
           then None
           else Some (time.Sub (ReleasedAt a) (ReleasedAt b)))
  /\ (forall t u : time.Time,
         time.minDuration <= time.Sub t u <= time.maxDuration)
  /\ (forall (entries : list ChangelogEntry.t) (avg : time.Duration),
         RelativeTime.avgInterval entries = Some avg ->
         time.minDuration <= avg <= time.maxDuration)
  /\ (forall (b : RelativeTime.bucket) (d : time.Duration),
         time.minDuration <= d <= time.maxDuration ->
         (0 <= d ->
          RelativeTime.magnitude b d <= RelativeTime.written b d
          <= RelativeTime.magnitude b d + 1)
         /\ (d <= 0 ->
             RelativeTime.magnitude b d - 1 <= RelativeTime.written b d
             <= RelativeTime.magnitude b d)
         /\ (- (2048 * time.Hour) < d < 2048 * time.Hour ->
             RelativeTime.written b d = RelativeTime.magnitude b d))
  /\ (let d := 180 * RelativeTime.Day - 1 in
      RelativeTime.claimedBucket d = RelativeTime.Months
      /\ RelativeTime.magnitude RelativeTime.Months d = 5
      /\ RelativeTime.agoWritten RelativeTime.Months d = "6mo ago")
  /\ (let avg := - (10 * RelativeTime.Day) in
      RelativeTime.cadenceBucket avg = RelativeTime.Hours
      /\ RelativeTime.approxWritten RelativeTime.Hours avg = "~-240h").
Proof.
  split; [exact RelativeTimeFacts.formatRelativeTime_buckets|].
  split; [exact RelativeTimeFacts.calculateAvgReleaseFreq_buckets|].
  split.
  { intros d. unfold RelativeTime.cadenceBucket, RelativeTime.claimedBucket.
    destruct (Z.ltb_spec d time.Hour) as [H|H]; [|reflexivity].
    destruct (Z.ltb_spec d (24 * time.Hour)) as [H'|H']; [reflexivity|].
    unfold time.Hour, time.Minute, time.Second in *. lia. }
  split; [exact RelativeTimeFacts.avgInterval_two|].
  split; [exact RelativeTimeFacts.Sub_range|].
  split; [exact RelativeTimeFacts.avgInterval_range|].
  split.
  { intros b d Hr.
    destruct (@RelativeTimeFacts.written_near b d Hr) as [Hp Hn].
    split; [exact Hp|]. split; [exact Hn|].
    exact (@RelativeTimeFacts.written_exact b d). }
  split; cbv zeta; repeat split; vm_compute; reflexivity.
Qed.

(** C7: whatever the order in which the goroutines of the registry
    deliver, [runStatusCommand] returns and writes, after the warnings, the
    rows sorted by [statusLess], one row per source that has entries, with
    the display name of the source and the timestamp of its newest entry.
    For any rows, the sorted list has the same rows, and for a row [a]
    before a row [b] in it: if [a] has no timestamp then [b] has none
    either and the name of [b] is not before the name of [a]; if both have
    one, that of [b] is not later than that of [a].  So rows without a
    timestamp come after all dated rows, in ascending order of name, and
    three rows with timestamps T1 > T2 > T3, given in any order, come out
    as [T1, T2, T3]. *)
Theorem C7_status_order (D : Decoders) (w : World)
  (arrival : list (string * Source.t)) (json : bool) (tr : trace) :
  Permutation arrival sources ->
  (exists rows tr',
      runStatusCommand arrival json w tr
      = (Some (List.flat_map (Aggregate.warningOf w) arrival
               ++ [Status.statusView json (sort.Slice statusLess rows)])%list,
         tr')
      /\ List.map Status.key rows
         = List.flat_map (Status.statusKeys w) arrival)
  /\ forall rows : list statusEntry,
       let out := sort.Slice statusLess rows in
       Permutation rows out
       /\ (forall pre a mid b post,
              out = (pre ++ a :: mid ++ b :: post)%list ->
              (st_releasedAt a = time.zero ->
               st_releasedAt b = time.zero
               /\ stringLess (st_Name b) (st_Name a) = false)
              /\ (st_releasedAt a <> time.zero ->
                  st_releasedAt b <> time.zero ->
                  st_releasedAt b <= st_releasedAt a))
       /\ (forall r1 r2 r3,
              Permutation rows [r1; r2; r3] ->
              st_releasedAt r1 <> time.zero ->
              st_releasedAt r2 <> time.zero ->
              st_releasedAt r3 <> time.zero ->
              st_releasedAt r2 < st_releasedAt r1 ->
              st_releasedAt r3 < st_releasedAt r2 ->
              out = [r1; r2; r3]).
Proof.
  intros Hperm. split.
  - apply StatusFacts.runStatusCommand_returns, Orders.reads_arrival, Hperm.
  - intros rows out. split; [apply Sorting.Slice_perm|]. split.
    + intros pre a mid b post E.
      pose proof (StatusFacts.Slice_inOrder rows) as Hs. fold out in Hs.
      rewrite E in Hs. apply Sorting.StronglySorted_between in Hs. exact Hs.
    + intros r1 r2 r3. apply StatusFacts.Slice_three.
Qed.

(** C7 in the small world, with the goroutines delivering in the reverse
    order of the registry, and on three rows given oldest first. *)
Lemma C7_status_order_witness :
  let row := fun name t => StatusEntry name "1" "-" "-" false "-" t in
  Permutation (List.rev (@sources Sample.decoders)) (@sources Sample.decoders)
  /\ (exists rows tr',
         runStatusCommand (List.rev (@sources Sample.decoders)) false
           Sample.world (MkTrace [] 0)
         = (Some [Eprintln "Warning: Failed to fetch Gemini CLI: HTTP 503: 503 Service Unavailable";
                  StatusTable (sort.Slice statusLess rows)], tr')
         /\ List.map Status.key rows
            = [("GitHub Copilot CLI", 63928051200 * time.Second);
               ("OpenAI Codex", Sample.eleven);
               ("Claude Code", Sample.nine)])
  /\ sort.Slice statusLess [row "c" 1; row "b" 2; row "a" 3]
     = [row "a" 3; row "b" 2; row "c" 1].
Proof.
  intros row.
  assert (Hperm : Permutation (List.rev (@sources Sample.decoders))
                    (@sources Sample.decoders))
    by (apply Permutation_sym, Permutation_rev).
  split; [exact Hperm|].
  destruct (@C7_status_order Sample.decoders Sample.world
              (List.rev (@sources Sample.decoders)) false (MkTrace [] 0) Hperm)
    as ((rows & tr' & E & Hk) & Hany).
  split.
  - exists rows, tr'. split; [exact E | exact Hk].
  - destruct (Hany [row "c" 1; row "b" 2; row "a" 3]) as (_ & _ & H3).
    apply H3; try (simpl; unfold time.zero; lia).
    apply Permutation_rev.
Defined.

(** C8: [fetchClaudeChangelog] requests the commit history exactly when
    the changelog was fetched and its newest parsed entry has no
    timestamp; what it returns is then the parsed list with, at most, the
    timestamp of the newest entry set to the commit date: the versions,
    sources, sections and changes of all entries, and the older entries
    whole, are those of the parsed list.  When the changelog cannot be
    fetched, nothing else is requested. *)
Theorem C8_fallback_frame (D : Decoders) (w : World) (tr : trace) :
  match Adapters.textOf w claudeURL with
  | inl err =>
      fetchClaudeChangelog w tr
      = (Some (inl err), MkTrace (requests tr ++ [claudeURL]) (ticks tr))
  | inr content =>
      exists parsed entries new,
        parseMarkdownChangelogWithOptionalDate content patterns.claude
        = Some parsed
        /\ fetchClaudeChangelog w tr
           = (Some (inr entries), MkTrace (requests tr ++ new) (ticks tr))
        /\ (In Adapters.commitsURL new
            <-> Adapters.newestUndated parsed = true)
        /\ entries
           = (if Adapters.newestUndated parsed
                 && negb (time.IsZero (Adapters.commitDateOf w))
              then setNewestReleasedAt parsed (Adapters.commitDateOf w)
              else parsed)
        /\ List.map Version entries = List.map Version parsed
        /\ List.map Source entries = List.map Source parsed
        /\ List.map Sections entries = List.map Sections parsed
        /\ List.map Changes entries = List.map Changes parsed
        /\ List.tl entries = List.tl parsed
  end.
Proof.
  pose proof (AdaptersFacts.fetchClaudeChangelog_runs w tr) as H.
  unfold Adapters.claudeOf in H.
  destruct (Adapters.textOf w claudeURL) as [err|content]; [exact H|].
  cbv zeta in H.
  exists (Adapters.claudeParsed content).
  destruct (Adapters.newestUndated (Adapters.claudeParsed content)) eqn:Eu;
    simpl in H; do 2 eexists;
    (split; [apply AdaptersFacts.claude_parses|]); (split; [exact H|]).
  - split.
    { split; [reflexivity | intros _; right; left; reflexivity]. }
    simpl andb.
    destruct (negb (time.IsZero (Adapters.commitDateOf w)));
      [|repeat split].
    destruct (Adapters.claudeParsed content); repeat split.
  - split.
    { split; [|discriminate].
      intros [E|[]]. vm_compute in E. discriminate. }
    repeat split.
Qed.

(** C9, as stated, fails: a release listing with the tags "v1.2.0",
    "1.2.0" and "v" gives the versions "1.2.0", "1.2.0" and "", and a
    changelog with the header "## 1.0.0" twice gives two entries "1.0.0". *)
Lemma C9_versions_repeat :
  (exists entries,
      fst (run (@fetchGitHubReleases Repeats.decoders "openai" "codex")
             Repeats.world)
      = Some (inr entries)
      /\ List.map Version entries = ["1.2.0"; "1.2.0"; EmptyString]
      /\ ~ versionsDistinct (List.map Version entries))
  /\ (exists entries,
         Legacy.parseMarkdownChangelog Repeats.changelog patterns.claudeV1
         = Some entries
         /\ List.map Legacy.ChangelogEntry.Version entries = ["1.0.0"; "1.0.0"]
         /\ ~ versionsDistinct (List.map Legacy.ChangelogEntry.Version entries))
  /\ (exists entries,
         fst (run (@fetchClaudeChangelog Repeats.decoders) Repeats.world)
         = Some (inr entries)
         /\ ~ versionsDistinct (List.map Version entries)).
Proof.
  assert (Hdup : forall v rest, ~ NoDup (v :: v :: rest : list string)).
  { intros v rest H. inversion H as [|? ? Hin _]. apply Hin. left. reflexivity. }
  split; [|split]; eexists; (split; [vm_compute; reflexivity|]).
  - split; [reflexivity|]. intros [_ H]. exact (Hdup _ _ H).
  - split; [reflexivity|]. intros [_ H]. exact (Hdup _ _ H).
  - intros [_ H]. exact (Hdup _ _ H).
Qed.

(** C9 (amended): the adapters return, without a panic, entries whose
    versions are what upstream gives, in its order.  For the markdown
    changelogs of both programs every version is the non-empty text of the
    version group of a header.  For a releases listing the versions are
    the tags with their prefixes stripped, and a version is empty exactly
    for the tags "", "v", "rust-v" and "vrust-v".  No adapter removes
    duplicates. *)
Theorem C9_versions (D : Decoders) (w : World) :
  (Adapters.runs fetchClaudeChangelog w (fst (Adapters.claudeOf w))
     (snd (Adapters.claudeOf w))
   /\ match fst (Adapters.claudeOf w) with
      | inr entries => Forall (fun e => Version e <> EmptyString) entries
      | inl _ => True
      end)
  /\ (Adapters.runs fetchCopilotChangelog w (Adapters.copilotOf w) [copilotURL]
      /\ match Adapters.copilotOf w with
         | inr entries => Forall (fun e => Version e <> EmptyString) entries
         | inl _ => True
         end)
  /\ (forall owner repo,
         Adapters.runs (fetchGitHubReleases owner repo) w
           (Adapters.releasesOf w owner repo)
           [Adapters.releasesURL owner repo]
         /\ match Adapters.releasesOf w owner repo with
            | inr entries =>
                exists releases,
                  entries = List.map releaseEntry releases
                  /\ List.map Version entries
                     = List.map (fun rel => normalizeTag (TagName rel)) releases
            | inl _ => True
            end)
  /\ (forall tag,
         normalizeTag tag = EmptyString
         <-> In tag [EmptyString; "v"; "rust-v"; "vrust-v"])
  /\ (forall content,
         (exists entries,
             Legacy.parseMarkdownChangelog content patterns.claudeV1
             = Some entries
             /\ Forall (fun e => Legacy.ChangelogEntry.Version e <> EmptyString)
                  entries)
         /\ (exists entries,
                Legacy.parseMarkdownChangelog content patterns.copilotV1
                = Some entries
                /\ Forall (fun e => Legacy.ChangelogEntry.Version e
                                    <> EmptyString) entries)).
Proof.
  split; [split; [apply AdaptersFacts.fetchClaudeChangelog_runs|]|].
  { unfold Adapters.claudeOf.
    destruct (Adapters.textOf w claudeURL) as [err|content]; [exact I|].
    cbv zeta.
    pose proof (VersionFacts.claudeParsed_versions content) as Hv.
    destruct (Adapters.newestUndated (Adapters.claudeParsed content));
      [|exact Hv].
    simpl fst.
    destruct (negb (time.IsZero (Adapters.commitDateOf w))); [|exact Hv].
    apply (proj1 (Forall_map Version (fun v => v <> EmptyString) _)).
    rewrite VersionFacts.setNewest_versions.
    apply (proj2 (Forall_map Version (fun v => v <> EmptyString) _)).
    exact Hv. }
  split; [split; [apply AdaptersFacts.fetchCopilotChangelog_runs|]|].
  { unfold Adapters.copilotOf.
    destruct (Adapters.textOf w copilotURL) as [err|content]; [exact I|].
    apply VersionFacts.copilotParsed_versions. }
  split.
  { intros owner repo. split; [apply AdaptersFacts.fetchGitHubReleases_runs|].
    unfold Adapters.releasesOf.
    destruct (http w (Adapters.releasesURL owner repo))
      as [msg|code status body]; [exact I|].
    destruct (negb (code =? 200)); [exact I|].
    destruct (json_releases body) as [msg|releases]; [exact I|].
    exists releases. split; [reflexivity|].
    rewrite List.map_map. apply List.map_ext.
    intros rel. apply VersionFacts.releaseEntry_version. }
  split; [exact VersionFacts.normalizeTag_empty|].
  intros content.
  split; apply VersionFacts.legacy_versions; reflexivity.
Qed.

(** C10: in the latest view, a source of the registry whose fetch succeeds
    with no entry contributes nothing: what [runLatestCommand] writes is
    what it writes without that source, so there is neither a warning nor
    an entry for it, whereas every source whose fetch fails has its warning
    written.  The command returns and [main] exits with status 0; when no
    candidate is left, what follows the warnings is the line "No releases
    in the last 24 hours.".  In the single-source mode the same fetch is
    fatal: one error line and exit status 1. *)
Theorem C10_empty_list_is_silent (D : Decoders) (w : World)
  (pre post : list (string * Source.t)) (named : string * Source.t)
  (args : list string) (tr : trace) :
  let arrival := (pre ++ named :: post)%list in
  let json := wantsJSON args in
  let cutoff := time.Add (clock w (ticks tr)) (-24 * time.Hour) in
  Permutation arrival sources ->
  Aggregate.fetchOutcome w (snd named) = inr [] ->
  (exists written tr',
      runLatestCommand arrival json w tr = (Some written, tr')
      /\ fst (runLatestCommand (pre ++ post) json w tr) = Some written
      /\ fst (main arrival ("latest" :: args) w tr) = Some (written, 0)
      /\ (List.flat_map (Aggregate.recentOf w cutoff) arrival = [] ->
          written = (List.flat_map (Aggregate.warningOf w) arrival
                     ++ [Println "No releases in the last 24 hours."])%list)
      /\ (forall other err,
             In other arrival ->
             Aggregate.fetchOutcome w (snd other) = inl err ->
             In (Eprintln ("Warning: Failed to fetch "
                           ++ Source.DisplayName (snd other) ++ ": " ++ err))
                written))
  /\ Aggregate.warningOf w named = []
  /\ Aggregate.recentOf w cutoff named = []
  /\ forall f : flags,
       fst (runSource (snd named) f w tr)
       = Some ([Eprintln "Error: No changelog entries found"], 1).
Proof.
  intros arrival json cutoff Hperm Hempty.
  pose proof (Orders.reads_arrival Hperm) as Hr.
  assert (Hw : Aggregate.warningOf w named = [])
    by (unfold Aggregate.warningOf; rewrite Hempty; reflexivity).
  assert (Hc : Aggregate.recentOf w cutoff named = [])
    by (unfold Aggregate.recentOf; rewrite Hempty; reflexivity).
  assert (Hr' : Forall (fun named => Adapters.reads (snd named)) (pre ++ post)).
  { unfold arrival in Hr. apply Forall_app in Hr as [H1 H2].
    apply Forall_cons_iff in H2 as [_ H2]. apply Forall_app; auto. }
  destruct (AggregateFacts.runLatestCommand_runs w json Hr) as (new & H).
  destruct (AggregateFacts.runLatestCommand_runs w json Hr') as (new' & H').
  specialize (H tr). specialize (H' tr). cbv zeta in H, H'. fold cutoff in H, H'.
  split; [|split; [exact Hw | split; [exact Hc|]]].
  - do 2 eexists. split; [exact H|].
    split; [|split; [|split]].
    + rewrite H'. simpl fst. unfold arrival.
      rewrite !flat_map_app. simpl List.flat_map. rewrite Hw, Hc.
      reflexivity.
    + change (main arrival ("latest" :: args) w tr)
        with (bind (runLatestCommand arrival (wantsJSON args))
                (fun written => ret (written, 0)) w tr).
      unfold bind. fold json. rewrite H. reflexivity.
    + intros Hnone. rewrite Hnone. reflexivity.
    + intros other err Hin Herr. apply in_or_app. left.
      apply in_flat_map. exists other. split; [exact Hin|].
      unfold Aggregate.warningOf. rewrite Herr. left. reflexivity.
  - intros f.
    assert (Hn : Adapters.reads (snd named)).
    { unfold arrival in Hr. apply Forall_app in Hr as [_ H2].
      apply Forall_cons_iff in H2 as [H2 _]. exact H2. }
    destruct (AggregateFacts.reads_outcome w Hn) as (new0 & H0).
    unfold runSource, bind. rewrite H0, Hempty. reflexivity.
Qed.

(** C10 in the small world: OpenCode has no release. *)
Lemma C10_empty_list_is_silent_witness :
  let D := Sample.decoders in
  let pre := [("claude", Source.Make "claude" "Claude Code" fetchClaudeChangelog);
              ("codex", Source.Make "codex" "OpenAI Codex" fetchCodexChangelog)] in
  let opencode := ("opencode",
                   Source.Make "opencode" "OpenCode" fetchOpenCodeChangelog) in
  let post := [("gemini", Source.Make "gemini" "Gemini CLI" fetchGeminiChangelog);
               ("copilot", Source.Make "copilot" "GitHub Copilot CLI"
                             fetchCopilotChangelog)] in
  Permutation (pre ++ opencode :: post) sources
  /\ Aggregate.fetchOutcome Sample.world (snd opencode) = inr []
  /\ fst (run (runLatestCommand (pre ++ opencode :: post) false) Sample.world)
     = fst (run (runLatestCommand (pre ++ post) false) Sample.world)
  /\ fst (run (main sources ["opencode"]) Sample.world)
     = Some ([Eprintln "Error: No changelog entries found"], 1).
Proof.
  intros D pre opencode post.
  assert (Hperm : Permutation (pre ++ opencode :: post) sources)
    by apply Permutation_refl.
  assert (Hempty : Aggregate.fetchOutcome Sample.world (snd opencode) = inr [])
    by (vm_compute; reflexivity).
  split; [exact Hperm|]. split; [exact Hempty|].
  destruct (@C10_empty_list_is_silent D Sample.world pre post opencode []
              (MkTrace [] 0) Hperm Hempty)
    as ((written & tr' & E1 & E2 & _) & _ & _ & E3).
  split.
  - unfold run. simpl wantsJSON in E1, E2. rewrite E1, E2. reflexivity.
  - exact (E3 (Flags false false false EmptyString)).
Defined.

(* ================================================================== *)
(** * Further properties: the lemmas *)

(** ** Byte strings *)
Module StringFacts.

Lemma length_append (a b : string) :
  String.length (a ++ b) = (String.length a + String.length b)%nat.
Proof. induction a as [|c a IH]; simpl; [reflexivity | now rewrite IH]. Qed.

Lemma append_assoc (a b c : string) : (a ++ b) ++ c = a ++ (b ++ c).
Proof. induction a as [|x a IH]; simpl; [reflexivity | now rewrite IH]. Qed.

Lemma append_nil_r (a : string) : a ++ EmptyString = a.
Proof. induction a as [|x a IH]; simpl; [reflexivity | now rewrite IH]. Qed.

Lemma length_skip (n : nat) (s : string) :
  String.length (strings.skip n s) = (String.length s - n)%nat.
Proof.
  revert s; induction n as [|n IH]; intros [|c s]; simpl; auto.
Qed.

Lemma skip_app (a b : string) : strings.skip (String.length a) (a ++ b) = b.
Proof. induction a as [|c a IH]; simpl; auto. Qed.

Lemma skip_app_le (n : nat) (a b : string) :
  (n <= String.length a)%nat ->
  strings.skip n (a ++ b) = strings.skip n a ++ b.
Proof.
  revert a; induction n as [|n IH]; intros [|c a] H; simpl in *; auto; try lia.
  apply IH. lia.
Qed.

(** The first [n] bytes and the rest make the string. *)
Lemma substring_skip (n : nat) (s : string) :
  String.substring 0 n s ++ strings.skip n s = s.
Proof.
  revert s; induction n as [|n IH]; intros [|c s]; simpl; auto.
  now rewrite IH.
Qed.

Lemma length_substring0 (n : nat) (s : string) :
  String.length (String.substring 0 n s) = Nat.min n (String.length s).
Proof.
  revert s; induction n as [|n IH]; intros [|c s]; simpl; auto.
Qed.

Lemma substring0_all (n : nat) (s : string) :
  (String.length s <= n)%nat -> String.substring 0 n s = s.
Proof.
  revert s; induction n as [|n IH]; intros [|c s] H; simpl in *; auto; try lia.
  rewrite IH; auto. lia.
Qed.

Lemma substring0_app (a b : string) :
  String.substring 0 (String.length a) (a ++ b) = a.
Proof. induction a as [|c a IH]; simpl; [destruct b; reflexivity | now rewrite IH]. Qed.

End StringFacts.

(** ** [truncateString] *)
Module TruncateFacts.
Import StringFacts.

Lemma slice0 (s : string) (hi : Z) :
  0 <= hi <= strings.len s ->
  strings.slice s 0 hi = Some (String.substring 0 (Z.to_nat hi) s).
Proof.
  intros H. unfold strings.slice.
  replace ((0 <=? 0) && (0 <=? hi) && (hi <=? strings.len s)) with true.
  - now rewrite Z.sub_0_r.
  - symmetry. rewrite !andb_true_iff. repeat split; apply Z.leb_le; lia.
Qed.

Lemma slice0_neg (s : string) (hi : Z) : hi < 0 -> strings.slice s 0 hi = None.
Proof.
  intros H. unfold strings.slice.
  replace (0 <=? hi) with false; [reflexivity|].
  symmetry. apply Z.leb_gt. lia.
Qed.

Lemma len_substring0 (s : string) (n : Z) :
  0 <= n <= strings.len s ->
  strings.len (String.substring 0 (Z.to_nat n) s) = n.
Proof.
  intros H. unfold strings.len in *. rewrite length_substring0. lia.
Qed.

Lemma HasPrefix_substring (n : nat) (s : string) :
  strings.HasPrefix s (String.substring 0 n s) = true.
Proof.
  revert s. induction n as [|n IH]; intros [|c s]; cbn; auto.
  rewrite Ascii.eqb_refl. apply IH.
Qed.

Lemma truncateString_cases (s : string) (maxLen : Z) :
  truncateString s maxLen
  = if strings.len s <=? maxLen then Some s
    else if maxLen <? 0 then None
    else if maxLen <=? 3 then Some (String.substring 0 (Z.to_nat maxLen) s)
    else Some (String.substring 0 (Z.to_nat (maxLen - 3)) s ++ "...").
Proof.
  unfold truncateString.
  destruct (Z.leb_spec (strings.len s) maxLen) as [H|H]; [reflexivity|].
  destruct (Z.ltb_spec maxLen 0) as [Hn|Hn].
  - replace (maxLen <=? 3) with true by (symmetry; apply Z.leb_le; lia).
    now apply slice0_neg.
  - destruct (Z.leb_spec maxLen 3) as [H3|H3].
    + apply slice0. lia.
    + rewrite slice0 by lia. reflexivity.
Qed.

Lemma truncateString_len (s r : string) (maxLen : Z) :
  truncateString s maxLen = Some r ->
  0 <= maxLen /\ strings.len r = Z.min (strings.len s) maxLen.
Proof.
  rewrite truncateString_cases.
  assert (H0 : 0 <= strings.len s) by (unfold strings.len; lia).
  destruct (Z.leb_spec (strings.len s) maxLen) as [H|H].
  { intros E; inversion E; subst. lia. }
  destruct (Z.ltb_spec maxLen 0) as [Hn|Hn]; [discriminate|].
  destruct (Z.leb_spec maxLen 3) as [H3|H3]; intros E; inversion E; subst.
  - rewrite len_substring0 by lia. lia.
  - unfold strings.len. rewrite length_append.
    change (String.length "...") with 3%nat.
    rewrite Nat2Z.inj_add.
    change (Z.of_nat (String.length (String.substring 0 (Z.to_nat (maxLen - 3)) s)))
      with (strings.len (String.substring 0 (Z.to_nat (maxLen - 3)) s)).
    rewrite len_substring0 by lia. fold (strings.len s). lia.
Qed.

Lemma truncateString_None (s : string) (maxLen : Z) :
  truncateString s maxLen = None -> maxLen < 0.
Proof.
  rewrite truncateString_cases.
  destruct (strings.len s <=? maxLen); [discriminate|].
  destruct (Z.ltb_spec maxLen 0); [auto|].
  destruct (maxLen <=? 3); discriminate.
Qed.

Lemma truncateString_Some (s : string) (maxLen : Z) :
  0 <= maxLen -> exists r, truncateString s maxLen = Some r.
Proof.
  intros H. destruct (truncateString s maxLen) as [r|] eqn:E; [eauto|].
  apply truncateString_None in E. lia.
Qed.

End TruncateFacts.

(** ** Runes *)
Module RuneFacts.
Import StringFacts.

Import Runes.

Lemma runeWidth_pos (c : ascii) (s : string) :
  (1 <= regexp.runeWidth (String c s) <= String.length (String c s))%nat.
Proof.
  unfold regexp.runeWidth.
  destruct (Nat.ltb (nat_of_ascii c) 194); [simpl; lia|].
  destruct s as [|b1 s2]; [simpl; lia|].
  destruct (Nat.leb (nat_of_ascii c) 223).
  { destruct (_ && _)%bool; simpl; lia. }
  destruct (Nat.ltb 244 (nat_of_ascii c)); [simpl; lia|].
  destruct (negb _); [simpl; lia|].
  destruct s2 as [|b2 s3]; [simpl; lia|].
  destruct (negb _); [simpl; lia|].
  destruct (Nat.leb (nat_of_ascii c) 239); [simpl; lia|].
  destruct s3 as [|b3 s4]; [simpl; lia|].
  destruct (_ && _)%bool; simpl; lia.
Qed.

Lemma runesFrom_enough (fuel : nat) (s : string) :
  (String.length s <= fuel)%nat -> utf8.runesFrom fuel s = runes s.
Proof.
  unfold runes.
  remember (String.length s) as n eqn:En.
  revert s fuel En.
  induction n as [n IH] using lt_wf_ind. intros s fuel En Hf.
  destruct s as [|c s].
  - simpl in En; subst n. destruct fuel; reflexivity.
  - simpl in En. destruct n as [|n]; [discriminate|]. injection En as En.
    destruct fuel as [|fuel]; [lia|].
    cbn [utf8.runesFrom]. f_equal.
    pose proof (runeWidth_pos c s) as Hw. cbn [String.length] in Hw.
    pose proof (length_skip (regexp.runeWidth (String c s)) (String c s)) as Hl.
    cbn [String.length] in Hl.
    rewrite (IH (String.length (strings.skip (regexp.runeWidth (String c s)) (String c s))))
      with (fuel := fuel) (s := strings.skip (regexp.runeWidth (String c s)) (String c s));
      try lia; try reflexivity.
    rewrite (IH (String.length (strings.skip (regexp.runeWidth (String c s)) (String c s))))
      with (fuel := n) (s := strings.skip (regexp.runeWidth (String c s)) (String c s));
      try lia; reflexivity.
Qed.

(** The count, rune by rune. *)
Lemma runes_cons (c : ascii) (s : string) :
  runes (String c s)
  = S (runes (strings.skip (regexp.runeWidth (String c s)) (String c s))).
Proof.
  unfold runes at 1. cbn [String.length utf8.runesFrom]. f_equal.
  apply runesFrom_enough.
  pose proof (runeWidth_pos c s) as Hw. cbn [String.length] in Hw.
  rewrite length_skip. cbn [String.length]. lia.
Qed.

Lemma runes_nil : runes EmptyString = O.
Proof. reflexivity. Qed.

Lemma runes_le_length (s : string) : (runes s <= String.length s)%nat.
Proof.
  remember (String.length s) as n eqn:En. revert s En.
  induction n as [n IH] using lt_wf_ind. intros [|c s] En.
  - rewrite runes_nil. lia.
  - rewrite runes_cons.
    pose proof (runeWidth_pos c s) as Hw.
    pose proof (length_skip (regexp.runeWidth (String c s)) (String c s)) as Hl.
    specialize (IH (String.length (strings.skip (regexp.runeWidth (String c s)) (String c s)))).
    rewrite <- En in *.
    specialize (IH ltac:(lia) _ eq_refl). lia.
Qed.

Ltac ascii_byte := unfold isASCII; apply Nat.ltb_lt; vm_compute; reflexivity.

Lemma runeWidth_ascii (c : ascii) (s : string) :
  isASCII c -> regexp.runeWidth (String c s) = 1%nat.
Proof.
  intros H. unfold regexp.runeWidth.
  replace (Nat.ltb (nat_of_ascii c) 194) with true; [reflexivity|].
  symmetry. apply Nat.ltb_lt. unfold isASCII in H. lia.
Qed.

Lemma runes_ascii_cons (c : ascii) (s : string) :
  isASCII c -> runes (String c s) = S (runes s).
Proof. intros H. rewrite runes_cons, runeWidth_ascii by exact H. reflexivity. Qed.

(** What follows a string does not change the width of its first rune
    when it starts with an ASCII byte. *)
Lemma runeWidth_app (a : string) (c : ascii) (b : string) :
  isASCII c -> a <> EmptyString ->
  regexp.runeWidth (a ++ String c b) = regexp.runeWidth a.
Proof.
  intros Hc Ha. unfold isASCII in Hc.
  assert (Hcont : forall lo hi, (128 <= lo)%nat ->
            (Nat.leb lo (nat_of_ascii c) && Nat.leb (nat_of_ascii c) hi)%bool = false).
  { intros lo hi Hlo. apply andb_false_iff. left. apply Nat.leb_gt. lia. }
  destruct a as [|b0 a]; [contradiction|].
  unfold regexp.runeWidth. cbn [append].
  destruct (Nat.ltb (nat_of_ascii b0) 194); [reflexivity|].
  destruct a as [|b1 a]; cbn [append].
  { destruct (Nat.leb (nat_of_ascii b0) 223).
    - rewrite Hcont by lia. reflexivity.
    - destruct (Nat.ltb 244 (nat_of_ascii b0)); [reflexivity|].
      rewrite Hcont; [reflexivity|].
      destruct (Nat.eqb (nat_of_ascii b0) 224); [lia|].
      destruct (Nat.eqb (nat_of_ascii b0) 240); lia. }
  destruct (Nat.leb (nat_of_ascii b0) 223); [reflexivity|].
  destruct (Nat.ltb 244 (nat_of_ascii b0)); [reflexivity|].
  destruct (negb _); [reflexivity|].
  destruct a as [|b2 a]; cbn [append].
  { rewrite Hcont by lia. reflexivity. }
  destruct (negb _); [reflexivity|].
  destruct (Nat.leb (nat_of_ascii b0) 239); [reflexivity|].
  destruct a as [|b3 a]; cbn [append].
  { rewrite Hcont by lia. reflexivity. }
  reflexivity.
Qed.

(** The count of a string followed by a string that starts with an ASCII
    byte is the sum of the counts. *)
Lemma runes_app (a : string) (c : ascii) (b : string) :
  isASCII c -> runes (a ++ String c b) = (runes a + runes (String c b))%nat.
Proof.
  intros Hc.
  remember (String.length a) as n eqn:En. revert a En.
  induction n as [n IH] using lt_wf_ind. intros [|x a] En.
  - reflexivity.
  - change (String x a ++ String c b) with (String x (a ++ String c b)).
    rewrite (runes_cons x (a ++ String c b)).
    change (String x (a ++ String c b)) with (String x a ++ String c b).
    rewrite runeWidth_app by (auto; discriminate).
    pose proof (runeWidth_pos x a) as Hw.
    rewrite skip_app_le by lia.
    rewrite (runes_cons x a).
    pose proof (length_skip (regexp.runeWidth (String x a)) (String x a)) as Hl.
    rewrite (IH (String.length (strings.skip (regexp.runeWidth (String x a)) (String x a))));
      [reflexivity | lia | reflexivity].
Qed.

Lemma runes_spaces (n : nat) : runes (strings.Repeat " " n) = n.
Proof.
  induction n as [|n IH]; [reflexivity|].
  cbn [strings.Repeat append].
  rewrite runes_ascii_cons, IH; [reflexivity|]. ascii_byte.
Qed.

Lemma RuneCount_runes (s : string) : utf8.RuneCountInString s = Z.of_nat (runes s).
Proof. reflexivity. Qed.

(** A padded string has the width, or its own count when that is larger. *)
Lemma runes_padRight (wid : Z) (s : string) :
  Z.of_nat (runes (fmt.padRight wid s)) = Z.max wid (Z.of_nat (runes s)).
Proof.
  unfold fmt.padRight. rewrite RuneCount_runes.
  destruct (Z.to_nat (wid - Z.of_nat (runes s))) as [|k] eqn:Ek.
  - cbn [strings.Repeat]. rewrite append_nil_r. lia.
  - cbn [strings.Repeat append].
    rewrite runes_app by ascii_byte.
    change (String " " (strings.Repeat " " k)) with (strings.Repeat " " (S k)).
    rewrite runes_spaces. lia.
Qed.

(** A padded string followed by text that starts with an ASCII byte. *)
Lemma runes_padRight_app (wid : Z) (s : string) (c : ascii) (b : string) :
  isASCII c ->
  Z.of_nat (runes (fmt.padRight wid s ++ String c b))
  = Z.max wid (Z.of_nat (runes s)) + Z.of_nat (runes (String c b)).
Proof.
  intros Hc. rewrite runes_app by exact Hc. rewrite Nat2Z.inj_add, runes_padRight.
  reflexivity.
Qed.

End RuneFacts.

(** ** The status table *)
Module TableFacts.
Import Runes StringFacts RuneFacts.

Lemma runes_bar_sp (r : string) : runes ("│ " ++ r) = S (S (runes r)).
Proof.
  cbn [append]. rewrite runes_cons.
  match goal with
  | |- context [regexp.runeWidth ?s] =>
      replace (regexp.runeWidth s) with 3%nat by (vm_compute; reflexivity)
  end.
  cbn [strings.skip]. rewrite runes_ascii_cons by ascii_byte. reflexivity.
Qed.

Lemma runes_sp_bar_sp (r : string) : runes (" │ " ++ r) = S (S (S (runes r))).
Proof.
  change (" │ " ++ r) with (String " " ("│ " ++ r)).
  rewrite runes_ascii_cons by ascii_byte. rewrite runes_bar_sp. reflexivity.
Qed.

Lemma runes_truncated (s r : string) (maxLen : Z) :
  truncateString s maxLen = Some r -> Z.of_nat (runes r) <= maxLen.
Proof.
  intros H. apply TruncateFacts.truncateString_len in H as [H0 H].
  pose proof (runes_le_length r). unfold strings.len in H. lia.
Qed.

Lemma runes_cell (wid : Z) (s r : string) :
  Z.of_nat (runes (fmt.padRight wid s ++ " │ " ++ r))
  = Z.max wid (Z.of_nat (runes s)) + 3 + Z.of_nat (runes r).
Proof.
  change (" │ " ++ r) with (String " " ("│ " ++ r)).
  rewrite runes_padRight_app by ascii_byte.
  change (String " " ("│ " ++ r)) with (" │ " ++ r).
  rewrite runes_sp_bar_sp. lia.
Qed.

Lemma runes_last_cell (wid : Z) (s : string) :
  Z.of_nat (runes (fmt.padRight wid s ++ " │" ++ strings.nl))
  = Z.max wid (Z.of_nat (runes s)) + 3.
Proof.
  change (" │" ++ strings.nl) with (String " " ("│" ++ strings.nl)).
  rewrite runes_padRight_app by ascii_byte.
  replace (runes (String " " ("│" ++ strings.nl))) with 3%nat
    by (vm_compute; reflexivity).
  lia.
Qed.

Lemma runes_marker (recent : bool) (r : string) :
  Z.of_nat (runes ((if recent then "[✓]" else "   ") ++ " │ " ++ r))
  = 6 + Z.of_nat (runes r).
Proof.
  change (" │ " ++ r) with (String " " ("│ " ++ r)).
  rewrite runes_app by ascii_byte.
  change (String " " ("│ " ++ r)) with (" │ " ++ r).
  rewrite runes_sp_bar_sp.
  replace (runes (if recent then "[✓]" else "   ")) with 3%nat
    by (destruct recent; vm_compute; reflexivity).
  lia.
Qed.

(** The width of the line of a row. *)
Lemma dataRow_runes (e : statusEntry) :
  exists line,
    dataRow e = Some line
    /\ utf8.RuneCountInString line = Table.rowWidth e.
Proof.
  unfold dataRow, Table.rowWidth.
  destruct (TruncateFacts.truncateString_Some (st_Name e) (maxLen := colTool))
    as [name En]; [unfold colTool; lia|].
  destruct (TruncateFacts.truncateString_Some (st_Version e) (maxLen := colVersion))
    as [ver Ev]; [unfold colVersion; lia|].
  destruct (TruncateFacts.truncateString_Some (st_PreviousVersion e)
              (maxLen := colPrevious)) as [prev Ep]; [unfold colPrevious; lia|].
  rewrite En, Ev, Ep. eexists. split; [reflexivity|].
  apply runes_truncated in En, Ev, Ep.
  rewrite !RuneCount_runes.
  rewrite runes_bar_sp, !Nat2Z.inj_succ.
  rewrite runes_cell, runes_marker, !runes_cell, runes_last_cell.
  unfold colTool, colVersion, colPrevious, colUpdated, colFreq in *. lia.
Qed.

Lemma dataRows_lines (statusEntries : list statusEntry) (written : list string) :
  exists rowLines,
    dataRows statusEntries written = Some (written ++ rowLines)%list
    /\ List.map utf8.RuneCountInString rowLines
       = List.map Table.rowWidth statusEntries.
Proof.
  revert written. induction statusEntries as [|e rows IH]; intros written.
  - exists []. split; [simpl; now rewrite app_nil_r | reflexivity].
  - destruct (dataRow_runes e) as (line & El & Hl).
    destruct (IH (written ++ [line])%list) as (rowLines & Er & Hr).
    exists (line :: rowLines). split.
    + cbn [dataRows]. rewrite El, Er, <- app_assoc. reflexivity.
    + cbn [List.map]. rewrite Hl, Hr. reflexivity.
Qed.

Lemma printStatusTable_lines (statusEntries : list statusEntry) :
  exists rowLines,
    printStatusTable statusEntries = Some (Table.framed rowLines)
    /\ List.map utf8.RuneCountInString rowLines
       = List.map Table.rowWidth statusEntries.
Proof.
  unfold printStatusTable.
  destruct (dataRows_lines statusEntries
              [borderLine "┌" "┬" "┐"; headerRow; borderLine "├" "┼" "┤"])
    as (rowLines & E & H).
  exists rowLines. rewrite E. split; [|exact H].
  unfold Table.framed. rewrite <- app_assoc. reflexivity.
Qed.

Lemma rowWidth_fits (e : statusEntry) : Table.fits e <-> Table.rowWidth e = 96.
Proof.
  unfold Table.fits, Table.rowWidth, colUpdated, colFreq. lia.
Qed.

Lemma frame_runes :
  Forall (fun line => utf8.RuneCountInString line = 96) (Table.framed []).
Proof. repeat constructor. Qed.

(** The table is aligned exactly when the cells of every row fit. *)
Lemma framed_aligned (statusEntries : list statusEntry) (rowLines : list string) :
  List.map utf8.RuneCountInString rowLines
  = List.map Table.rowWidth statusEntries ->
  (Forall Table.fits statusEntries
   <-> Forall (fun line => utf8.RuneCountInString line = 96)
         (Table.framed rowLines)).
Proof.
  intros H.
  assert (Hrows : Forall Table.fits statusEntries
                  <-> Forall (fun line => utf8.RuneCountInString line = 96) rowLines).
  { revert rowLines H. induction statusEntries as [|e rows IH];
      intros [|line rowLines] H; try discriminate.
    - split; constructor.
    - cbn [List.map] in H. injection H as Hl H.
      rewrite !Forall_cons_iff, (IH _ H), rowWidth_fits, Hl. reflexivity. }
  rewrite Hrows. unfold Table.framed.
  pose proof frame_runes as Hf. unfold Table.framed in Hf. cbn [app] in Hf.
  rewrite !Forall_cons_iff in Hf.
  cbn [app]. rewrite !Forall_cons_iff, Forall_app, Forall_cons_iff.
  tauto.
Qed.

End TableFacts.

(** ** Decimal forms *)
Module DigitFacts.

Lemma of_uint_acc_lower (l : Decimal.uint) :
  forall acc : positive,
    Z.pos acc * 10 ^ Z.of_nat (Decimal.nb_digits l)
    <= Z.pos (Pos.of_uint_acc l acc).
Proof.
  induction l as [|l IH|l IH|l IH|l IH|l IH|l IH|l IH|l IH|l IH|l IH];
    intros acc; cbn [Pos.of_uint_acc Decimal.nb_digits];
    [rewrite Z.pow_0_r; lia | ..];
    rewrite Nat2Z.inj_succ, Z.pow_succ_r by lia;
    match goal with
    | |- _ <= Z.pos (Pos.of_uint_acc l ?a) => pose proof (IH a) as H
    end;
    rewrite ?Pos2Z.inj_add, ?Pos2Z.inj_mul in H;
    pose proof (Z.pow_nonneg 10 (Z.of_nat (Decimal.nb_digits l)) ltac:(lia));
    nia.
Qed.

Lemma length_string_of_uint (d : Decimal.uint) :
  String.length (NilEmpty.string_of_uint d) = Decimal.nb_digits d.
Proof. induction d; cbn; congruence. Qed.

(** The decimal form of a positive number has no leading zero. *)
Lemma to_uint_head (p : positive) :
  match Pos.to_uint p with
  | Decimal.Nil | Decimal.D0 _ => False
  | _ => True
  end.
Proof.
  pose proof (DecimalPos.Unsigned.to_of (Pos.to_uint p)) as H.
  rewrite DecimalPos.Unsigned.of_to in H. cbn [N.to_uint] in H.
  pose proof (DecimalPos.Unsigned.to_uint_nonzero p) as Hz.
  destruct (Pos.to_uint p) as [|l| | | | | | | | |] eqn:E; try exact I.
  - discriminate H.
  - unfold Decimal.unorm in H. cbn [Decimal.nzhead] in H.
    pose proof (DecimalFacts.nb_digits_nzhead l) as Hn.
    destruct (Decimal.nzhead l) eqn:En;
      try (rewrite <- H in Hn; cbn [Decimal.nb_digits] in Hn; lia).
    apply Hz. rewrite <- H. reflexivity.
Qed.

Lemma to_uint_digits (p : positive) (m : nat) :
  Z.pos p < 10 ^ Z.of_nat m -> (Decimal.nb_digits (Pos.to_uint p) <= m)%nat.
Proof.
  intros Hp.
  pose proof (DecimalPos.Unsigned.of_to p) as H.
  pose proof (to_uint_head p) as Hh.
  destruct (Pos.to_uint p) as [|l|l|l|l|l|l|l|l|l|l]; try contradiction;
    cbn [Pos.of_uint] in H; injection H as H;
    pose proof (of_uint_acc_lower l) as Hl;
    match type of H with Pos.of_uint_acc l ?k = p => specialize (Hl k) end;
    rewrite H in Hl; cbn [Decimal.nb_digits];
    assert (Hlt : 10 ^ Z.of_nat (Decimal.nb_digits l) < 10 ^ Z.of_nat m)
      by (pose proof (Z.pow_pos_nonneg 10 (Z.of_nat (Decimal.nb_digits l))
                        ltac:(lia) ltac:(lia)); nia);
    apply Z.pow_lt_mono_r_iff in Hlt; lia.
Qed.

(** The length of the decimal form of an integer below [10 ^ m] in
    absolute value: at most [m] digits, and a sign when it is negative. *)
Lemma itoa_length (n : Z) (m : nat) :
  (1 <= m)%nat -> Z.abs n < 10 ^ Z.of_nat m ->
  (String.length (itoa n) <= (if (n <? 0)%Z then S m else m))%nat.
Proof.
  intros Hm Hn. unfold itoa. destruct n as [|p|p]; cbn [Z.to_int Z.ltb Z.compare].
  - cbn. lia.
  - cbn [NilZero.string_of_int]. unfold NilZero.string_of_uint.
    pose proof (@to_uint_digits p m Hn) as Hd.
    pose proof (to_uint_head p) as Hh.
    destruct (Pos.to_uint p) eqn:E; try contradiction;
      rewrite length_string_of_uint; exact Hd.
  - cbn [NilZero.string_of_int]. unfold NilZero.string_of_uint.
    pose proof (@to_uint_digits p m Hn) as Hd.
    pose proof (to_uint_head p) as Hh.
    destruct (Pos.to_uint p) eqn:E; try contradiction;
      cbn [String.length]; rewrite length_string_of_uint; lia.
Qed.

End DigitFacts.

Module CellFacts2.
Import Runes StringFacts RuneFacts time RelativeTime RelativeTimeFacts.

Lemma quot_range (d m k : Z) :
  0 < m -> 0 <= d < k * m -> 0 <= Z.quot d m < k.
Proof.
  intros Hm H. split.
  - apply Z.quot_pos; lia.
  - apply Z.quot_lt_upper_bound; lia.
Qed.

Lemma runes_suffixed (n : Z) (c : ascii) (suffix : string) :
  isASCII c ->
  runes (itoa n ++ String c suffix)
  = (runes (itoa n) + runes (String c suffix))%nat.
Proof. apply runes_app. Qed.

(** The runes of the decimal form of a number. *)
Lemma digits_below (n : Z) (m : nat) :
  (1 <= m)%nat -> 0 <= n < 10 ^ Z.of_nat m -> (runes (itoa n) <= m)%nat.
Proof.
  intros Hm H.
  pose proof (@DigitFacts.itoa_length n m Hm ltac:(lia)) as Hl.
  replace (n <? 0) with false in Hl by (symmetry; apply Z.ltb_ge; lia).
  pose proof (runes_le_length (itoa n)). lia.
Qed.

Lemma digits_nonneg (n : Z) :
  0 <= n < 10000 ->
  (runes (itoa n) <= (if (n <? 100)%Z then 2 else 4))%nat.
Proof.
  intros H. destruct (Z.ltb_spec n 100).
  - apply digits_below; [lia|]. change (10 ^ Z.of_nat 2) with 100. lia.
  - apply digits_below; [lia|]. change (10 ^ Z.of_nat 4) with 10000. lia.
Qed.

Lemma digits_small (n : Z) : 0 <= n < 100 -> (runes (itoa n) <= 2)%nat.
Proof.
  intros H. apply digits_below; [lia|]. change (10 ^ Z.of_nat 2) with 100. lia.
Qed.

Lemma digits_any (n : Z) : -9999999 <= n < 10000 -> (runes (itoa n) <= 8)%nat.
Proof.
  intros H.
  pose proof (@DigitFacts.itoa_length n 7 ltac:(lia)
                ltac:(change (10 ^ Z.of_nat 7) with 10000000; lia)) as Hl.
  pose proof (runes_le_length (itoa n)).
  destruct (n <? 0); lia.
Qed.

(** The "updated ago" text of a time that is not in the future has at
    most ten runes. *)
Lemma ago_fits (d : Duration) :
  0 <= d <= maxDuration ->
  (runes (agoWritten (claimedBucket d) d) <= 10)%nat.
Proof.
  intros H. unfold agoWritten, claimedBucket.
  assert (Hr : minDuration <= d <= maxDuration)
    by (unfold minDuration, maxDuration in *; lia).
  assert (Hm : 0 < Minute) by (unfold Minute, Second; lia).
  assert (Hh : 0 < Hour) by (unfold Hour; lia).
  assert (Hd : 0 < Day) by (unfold Day; lia).
  assert (Hw : 0 < Week) by (unfold Week; lia).
  assert (Hmo : 0 < Month) by (unfold Month; lia).
  assert (Hx : d < 4 * Week -> forall b, written b d = magnitude b d).
  { intros Hlt b. apply written_exact.
    unfold Week, Day, Hour, Minute, Second in *. lia. }
  destruct (Z.ltb_spec d Hour) as [H1|H1];
    [|destruct (Z.ltb_spec d (24 * Hour)) as [H2|H2];
      [|destruct (Z.ltb_spec d (7 * Day)) as [H3|H3];
        [|destruct (Z.ltb_spec d (4 * Week)) as [H4|H4]]]];
    cbn [suffix append];
    rewrite runes_suffixed by ascii_byte.
  - rewrite Hx by (unfold Week, Day in *; lia). unfold magnitude, unit.
    pose proof (@quot_range d Minute 60 Hm ltac:(unfold Hour in *; lia)) as Hq.
    pose proof (@digits_small (Z.quot d Minute) ltac:(lia)).
    change (runes "m ago") with 5%nat. lia.
  - rewrite Hx by (unfold Week, Day in *; lia). unfold magnitude, unit.
    pose proof (@quot_range d Hour 24 Hh ltac:(lia)) as Hq.
    pose proof (@digits_small (Z.quot d Hour) ltac:(lia)).
    change (runes "h ago") with 5%nat. lia.
  - rewrite Hx by (unfold Week in *; lia). unfold magnitude, unit.
    pose proof (@quot_range d Day 7 Hd ltac:(lia)) as Hq.
    pose proof (@digits_small (Z.quot d Day) ltac:(lia)).
    change (runes "d ago") with 5%nat. lia.
  - rewrite Hx by lia. unfold magnitude, unit.
    pose proof (@quot_range d Week 4 Hw ltac:(lia)) as Hq.
    pose proof (@digits_small (Z.quot d Week) ltac:(lia)).
    change (runes "w ago") with 5%nat. lia.
  - destruct (@written_near Months d Hr) as [Hn _]. specialize (Hn ltac:(lia)).
    unfold magnitude, unit in Hn.
    pose proof (@quot_range d Month 3559 Hmo
                  ltac:(unfold maxDuration, Month, Day, Hour, Minute, Second in *;
                        lia)) as Hq.
    pose proof (@digits_nonneg (written Months d) ltac:(lia)) as Hd'.
    destruct (written Months d <? 100);
      change (runes "mo ago") with 6%nat; lia.
Qed.

(** The cadence text has at most ten runes, whatever the average. *)
Lemma approx_fits (avg : Duration) :
  minDuration <= avg <= maxDuration ->
  (runes (approxWritten (cadenceBucket avg) avg) <= 10)%nat.
Proof.
  intros Hr. unfold approxWritten, cadenceBucket.
  assert (Hh : 0 < Hour) by (unfold Hour, Minute, Second; lia).
  assert (Hd : 0 < Day) by (unfold Day; lia).
  assert (Hw : 0 < Week) by (unfold Week; lia).
  assert (Hmo : 0 < Month) by (unfold Month; lia).
  assert (Hx : 0 <= avg < 4 * Week -> forall b, written b avg = magnitude b avg).
  { intros Hlt b. apply written_exact.
    unfold Week, Day, Hour, Minute, Second in *. lia. }
  destruct (Z.ltb_spec avg (24 * Hour)) as [H2|H2];
    [|destruct (Z.ltb_spec avg (7 * Day)) as [H3|H3];
      [|destruct (Z.ltb_spec avg (4 * Week)) as [H4|H4]]];
    cbn [suffix append];
    rewrite runes_ascii_cons by ascii_byte;
    rewrite runes_suffixed by ascii_byte.
  - assert (Hq : -2562048 <= written Hours avg < 24).
    { destruct (Z_lt_le_dec avg 0).
      - destruct (@written_near Hours avg Hr) as [_ Hn].
        specialize (Hn ltac:(lia)). unfold magnitude, unit in Hn.
        pose proof (@quot_range (- avg) Hour 2562048 Hh
                      ltac:(unfold minDuration, Hour, Minute, Second in *; lia))
          as Hq.
        rewrite Z.quot_opp_l in Hq by lia. lia.
      - rewrite Hx by (unfold Week, Day in *; lia). unfold magnitude, unit.
        pose proof (@quot_range avg Hour 24 Hh ltac:(lia)). lia. }
    pose proof (@digits_any (written Hours avg) ltac:(lia)).
    change (runes "h") with 1%nat. lia.
  - rewrite Hx by (unfold Week, Day, Hour, Minute, Second in *; lia).
    unfold magnitude, unit.
    pose proof (@quot_range avg Day 7 Hd
                  ltac:(unfold Day, Hour, Minute, Second in *; lia)) as Hq.
    pose proof (@digits_small (Z.quot avg Day) ltac:(lia)).
    change (runes "d") with 1%nat. lia.
  - rewrite Hx by (unfold Week, Day, Hour, Minute, Second in *; lia).
    unfold magnitude, unit.
    pose proof (@quot_range avg Week 4 Hw
                  ltac:(unfold Week, Day, Hour, Minute, Second in *; lia)) as Hq.
    pose proof (@digits_small (Z.quot avg Week) ltac:(lia)).
    change (runes "w") with 1%nat. lia.
  - destruct (@written_near Months avg Hr) as [Hn _].
    specialize (Hn ltac:(unfold Week, Day, Hour, Minute, Second in *; lia)).
    unfold magnitude, unit in Hn.
    pose proof (@quot_range avg Month 3559 Hmo
                  ltac:(unfold maxDuration, Month, Week, Day, Hour, Minute,
                          Second in *; lia)) as Hq.
    pose proof (@digits_nonneg (written Months avg) ltac:(lia)) as Hd'.
    destruct (written Months avg <? 100);
      change (runes "mo") with 2%nat; lia.
Qed.

Lemma calculateAvgReleaseFreq_fits (entries : list ChangelogEntry.t) :
  utf8.RuneCountInString (calculateAvgReleaseFreq entries) <= 10.
Proof.
  rewrite calculateAvgReleaseFreq_buckets, RuneCount_runes.
  destruct (avgInterval entries) as [avg|] eqn:E.
  - pose proof (approx_fits (avgInterval_range entries E)). lia.
  - change (runes "-") with 1%nat. lia.
Qed.

Lemma formatRelativeTime_fits (t : Time) (w : World) (tr : trace) :
  t <= clock w (ticks tr) ->
  exists ago,
    formatRelativeTime t w tr
    = (Some ago, MkTrace (requests tr)
                   (if IsZero t then ticks tr else S (ticks tr)))
    /\ utf8.RuneCountInString ago <= 10.
Proof.
  intros H. rewrite formatRelativeTime_buckets.
  destruct (IsZero t).
  - exists "-". split; [destruct tr; reflexivity|].
    rewrite RuneCount_runes. change (runes "-") with 1%nat. lia.
  - cbv zeta. eexists. split; [reflexivity|].
    rewrite RuneCount_runes.
    pose proof (Sub_range (clock w (ticks tr)) t) as Hr.
    assert (H0 : 0 <= Sub (clock w (ticks tr)) t).
    { unfold Sub.
      destruct (Z.ltb_spec (clock w (ticks tr) - t) minDuration);
        [unfold minDuration in *; lia|].
      destruct (Z.ltb_spec maxDuration (clock w (ticks tr) - t));
        [unfold maxDuration; lia | lia]. }
    pose proof (@ago_fits (Sub (clock w (ticks tr)) t) ltac:(lia)). lia.
Qed.

End CellFacts2.

Module StatusTableFacts.
Import Runes StringFacts RuneFacts time RelativeTime CellFacts2.
Import Adapters Aggregate Status.

Section InWorld.
Variable w : World.

Lemma statusRow_fits (cutoff : time.Time) (displayName : string)
  (e0 : ChangelogEntry.t) (older : list ChangelogEntry.t) (tr : trace) :
  ReleasedAt e0 <= clock w (ticks tr) ->
  exists row tk,
    statusRow cutoff displayName e0 older w tr
    = (Some row, MkTrace (requests tr) tk)
    /\ Table.fits row.
Proof.
  intros H. unfold statusRow, bind.
  destruct (negb (IsZero (ReleasedAt e0))) eqn:E.
  - destruct (@formatRelativeTime_fits (ReleasedAt e0) w tr H) as (ago & Ea & Ha).
    rewrite Ea. do 2 eexists. split; [reflexivity|].
    split; cbn [st_UpdatedAgo st_AvgReleaseFreq]; unfold colUpdated, colFreq.
    + lia.
    + pose proof (calculateAvgReleaseFreq_fits (e0 :: older)). lia.
  - destruct tr as [rq tk]. do 2 eexists. split; [reflexivity|].
    split; cbn [st_UpdatedAgo st_AvgReleaseFreq]; unfold colUpdated, colFreq.
    + rewrite RuneCount_runes. change (runes "-") with 1%nat. lia.
    + pose proof (calculateAvgReleaseFreq_fits (e0 :: older)). lia.
Qed.

Lemma statusLoop_fits (cutoff : time.Time)
  (arrival : list (string * Source.t)) :
  Clock.notAhead w arrival ->
  forall (written : list output) (rows : list statusEntry) (tr : trace),
  exists newRows tk,
    statusLoop cutoff (List.flat_map (statusSent w) arrival) written rows w tr
    = (Some ((written ++ List.flat_map (warningOf w) arrival)%list,
             (rows ++ newRows)%list),
       MkTrace (requests tr) tk)
    /\ Forall Table.fits newRows.
Proof.
  induction arrival as [|[name src] arrival IH]; intros Hc written rows tr.
  - exists [], (ticks tr). simpl. rewrite !app_nil_r.
    destruct tr; split; [reflexivity | constructor].
  - assert (Hc' : Clock.notAhead w arrival).
    { intros named e0 older n Hin. apply Hc. right. exact Hin. }
    specialize (IH Hc').
    cbn [List.flat_map].
    destruct (fetchOutcome w src) as [err|[|e0 older]] eqn:Eo.
    + assert (Es : (statusSent w) (name, src)
                   = [StatusResult name (Source.DisplayName src) [] (Some err)])
        by (unfold statusSent; rewrite Eo; reflexivity).
      assert (Ew : warningOf w (name, src)
                   = [Eprintln ("Warning: Failed to fetch "
                                ++ Source.DisplayName src ++ ": " ++ err)])
        by (unfold warningOf; simpl snd; rewrite Eo; reflexivity).
      rewrite Es, Ew.
      cbn [app statusLoop sr_err sr_entries sr_displayName].
      destruct (IH (written
                    ++ [Eprintln ("Warning: Failed to fetch "
                                  ++ Source.DisplayName src ++ ": " ++ err)])%list
                  rows tr) as (newRows & tk & E & Hk).
      exists newRows, tk. rewrite E, <- app_assoc.
      split; [reflexivity | exact Hk].
    + assert (Es : (statusSent w) (name, src)
                   = [StatusResult name (Source.DisplayName src) [] None])
        by (unfold statusSent; rewrite Eo; reflexivity).
      assert (Ew : warningOf w (name, src) = [])
        by (unfold warningOf; simpl snd; rewrite Eo; reflexivity).
      rewrite Es, Ew.
      cbn [app statusLoop sr_err sr_entries sr_displayName].
      apply IH.
    + assert (Es : (statusSent w) (name, src)
                   = [StatusResult name (Source.DisplayName src)
                        (e0 :: older) None])
        by (unfold statusSent; rewrite Eo; reflexivity).
      assert (Ew : warningOf w (name, src) = [])
        by (unfold warningOf; simpl snd; rewrite Eo; reflexivity).
      rewrite Es, Ew.
      cbn [app statusLoop sr_err sr_entries sr_displayName].
      unfold bind.
      destruct (@statusRow_fits cutoff (Source.DisplayName src) e0 older tr)
        as (row & tk0 & Er & Hrow).
      { apply (Hc (name, src) e0 older); [left; reflexivity | exact Eo]. }
      rewrite Er.
      destruct (IH written (rows ++ [row])%list (MkTrace (requests tr) tk0))
        as (newRows & tk & E & Hk).
      exists (row :: newRows), tk. rewrite E, <- app_assoc.
      split; [reflexivity|]. constructor; assumption.
Qed.

Lemma runStatusCommand_table (arrival : list (string * Source.t))
  (tr : trace) :
  Forall (fun named => reads (snd named)) arrival ->
  Clock.notAhead w arrival ->
  exists rows rowLines tr',
    runStatusCommand arrival false w tr
    = (Some (List.flat_map (warningOf w) arrival ++ [StatusTable rows])%list,
       tr')
    /\ printStatusTable rows = Some (Table.framed rowLines)
    /\ List.length rowLines = List.length rows
    /\ Forall (fun line => utf8.RuneCountInString line = 96)
         (Table.framed rowLines).
Proof.
  intros Hr Hc. destruct (StatusFacts.gather_status w Hr) as (new & Hg).
  unfold runStatusCommand, bind, Now. rewrite Hg.
  match goal with
  | |- context [statusLoop ?c _ [] [] w ?t] =>
      destruct (statusLoop_fits c Hc [] [] t) as (rows & tk & E & Hk)
  end.
  rewrite E. cbn [app].
  pose proof (Sorting.Slice_perm statusLess rows) as Hp.
  destruct (TableFacts.printStatusTable_lines (sort.Slice statusLess rows))
    as (rowLines & El & Hl).
  exists (sort.Slice statusLess rows), rowLines. eexists.
  split; [reflexivity|]. split; [exact El|]. split.
  - rewrite <- (List.length_map utf8.RuneCountInString), Hl.
    apply List.length_map.
  - apply (proj1 (@TableFacts.framed_aligned _ _ Hl)).
    apply (Permutation_Forall Hp). exact Hk.
Qed.

End InWorld.

End StatusTableFacts.

(** ** Lines and white space *)
Module LineFacts.
Import StringFacts Lines.

Lemma Split_nonempty (s : string) (sep : ascii) : strings.Split s sep <> [].
Proof.
  destruct s as [|c s]; simpl; [discriminate|].
  destruct (Ascii.eqb c sep); [discriminate|].
  destruct (strings.Split s sep); discriminate.
Qed.

(** Splitting distributes over a separator. *)
Lemma Split_app (a b : string) (sep : ascii) :
  strings.Split (a ++ String sep b) sep
  = (strings.Split a sep ++ strings.Split b sep)%list.
Proof.
  induction a as [|c a IH]; simpl.
  - rewrite Ascii.eqb_refl. reflexivity.
  - destruct (Ascii.eqb c sep); [now rewrite IH|].
    rewrite IH.
    pose proof (Split_nonempty a sep) as Hn.
    destruct (strings.Split a sep) as [|l ls]; [contradiction|reflexivity].
Qed.

Lemma Split_free (s : string) (sep : ascii) :
  free sep s <-> strings.Split s sep = [s].
Proof.
  unfold free. induction s as [|c s IH]; simpl.
  - split; [reflexivity | constructor].
  - destruct (Ascii.eqb_spec c sep) as [->|Hne].
    + split.
      * intros H. inversion H; congruence.
      * intros H. discriminate H.
    + split.
      * intros H. inversion H as [|? ? _ Hs]; subst.
        apply IH in Hs. rewrite Hs. reflexivity.
      * intros H. constructor; [exact Hne|]. apply IH.
        pose proof (Split_nonempty s sep) as Hn.
        destruct (strings.Split s sep) as [|l ls]; [contradiction|].
        injection H as -> ->. reflexivity.
Qed.

Lemma Split_lines (s : string) (sep : ascii) :
  Forall (free sep) (strings.Split s sep).
Proof.
  induction s as [|c s IH]; simpl.
  - repeat constructor.
  - destruct (Ascii.eqb_spec c sep) as [->|Hne].
    + constructor; [constructor | exact IH].
    + destruct (strings.Split s sep) as [|l ls]; [repeat constructor; exact Hne|].
      inversion IH; subst. constructor; [|assumption].
      constructor; assumption.
Qed.

Lemma free_app (sep : ascii) (a b : string) :
  free sep (a ++ b) <-> free sep a /\ free sep b.
Proof.
  unfold free. induction a as [|c a IH]; simpl.
  - split; [intros H; split; [constructor | exact H] | intros [_ H]; exact H].
  - rewrite !Forall_cons_iff, IH. tauto.
Qed.

(** *** [dropSpace] *)

Lemma dropSpace_fixed (back : bool) (s : string) :
  leadSpace back s = false -> strings.dropSpace back s = s.
Proof.
  destruct s as [|a [|b [|c s3]]]; cbn [leadSpace strings.dropSpace]; intros H;
    try reflexivity.
  - rewrite orb_false_r in H. rewrite H. reflexivity.
  - apply orb_false_iff in H as [Ha H]. rewrite orb_false_r in H.
    rewrite Ha, H. reflexivity.
  - apply orb_false_iff in H as [Ha H]. apply orb_false_iff in H as [Hb Hc].
    rewrite Ha, Hb, Hc. reflexivity.
Qed.

(** What [dropSpace] returns is a suffix of the string that does not start
    with a white-space rune. *)
Lemma dropSpace_spec (back : bool) (n : nat) :
  forall s, (String.length s <= n)%nat ->
    leadSpace back (strings.dropSpace back s) = false
    /\ exists pre, s = pre ++ strings.dropSpace back s.
Proof.
  induction n as [|n IH]; intros s Hn.
  { destruct s; [|simpl in Hn; lia]. split; [reflexivity | exists EmptyString; reflexivity]. }
  destruct (leadSpace back s) eqn:El.
  2:{ rewrite (dropSpace_fixed _ _ El). split; [exact El | exists EmptyString; reflexivity]. }
  destruct s as [|a s1]; [discriminate|].
  cbn [strings.dropSpace]. cbn [leadSpace] in El.
  destruct (strings.asciiSpace a).
  { destruct (IH s1 ltac:(simpl in Hn; lia)) as (H1 & pre & H2).
    split; [exact H1|]. exists (String a pre). simpl. now rewrite <- H2. }
  destruct s1 as [|b s2]; [discriminate|]. cbn [orb] in El.
  destruct (if back then strings.space2 b a else strings.space2 a b).
  { destruct (IH s2 ltac:(simpl in Hn; lia)) as (H1 & pre & H2).
    split; [exact H1|]. exists (String a (String b pre)). simpl. now rewrite <- H2. }
  destruct s2 as [|c s3]; [discriminate|]. cbn [orb] in El. rewrite El.
  destruct (IH s3 ltac:(simpl in Hn; lia)) as (H1 & pre & H2).
  split; [exact H1|]. exists (String a (String b (String c pre))). simpl.
  now rewrite <- H2.
Qed.

Lemma dropSpace_lead (back : bool) (s : string) :
  leadSpace back (strings.dropSpace back s) = false.
Proof. apply (dropSpace_spec back (n := String.length s)). lia. Qed.

Lemma dropSpace_suffix (back : bool) (s : string) :
  exists pre, s = pre ++ strings.dropSpace back s.
Proof. apply (dropSpace_spec back (n := String.length s)). lia. Qed.

(** A string that starts with a white-space rune still does when it is
    extended. *)
Lemma leadSpace_app (back : bool) (t x : string) :
  leadSpace back t = true -> leadSpace back (t ++ x) = true.
Proof.
  destruct t as [|a [|b [|c t3]]]; cbn [leadSpace append]; intros H;
    try discriminate.
  - rewrite orb_false_r in H. rewrite H. reflexivity.
  - apply orb_true_iff in H as [H|H]; [rewrite H; reflexivity|].
    rewrite orb_false_r in H. rewrite H. cbn. now rewrite orb_true_r.
  - exact H.
Qed.

(** *** [reverse] *)

Lemma list_of_append (a b : string) :
  list_ascii_of_string (a ++ b)
  = (list_ascii_of_string a ++ list_ascii_of_string b)%list.
Proof. induction a as [|c a IH]; simpl; [reflexivity | now rewrite IH]. Qed.

Lemma string_of_app (a b : list ascii) :
  string_of_list_ascii (a ++ b)
  = string_of_list_ascii a ++ string_of_list_ascii b.
Proof. induction a as [|c a IH]; simpl; [reflexivity | now rewrite IH]. Qed.

Lemma reverse_involutive (s : string) : strings.reverse (strings.reverse s) = s.
Proof.
  unfold strings.reverse.
  rewrite list_ascii_of_string_of_list_ascii, rev_involutive.
  apply string_of_list_ascii_of_string.
Qed.

Lemma reverse_app (a b : string) :
  strings.reverse (a ++ b) = strings.reverse b ++ strings.reverse a.
Proof.
  unfold strings.reverse. rewrite list_of_append, rev_app_distr.
  apply string_of_app.
Qed.

(** *** [strings.TrimSpace] *)

(** The trimmed string lies inside the string, and neither starts nor,
    read backwards, ends with a white-space rune. *)
Lemma TrimSpace_spec (s : string) :
  exists pre post,
    s = pre ++ strings.TrimSpace s ++ post
    /\ strings.dropSpace false s = strings.TrimSpace s ++ post
    /\ leadSpace true (strings.reverse (strings.TrimSpace s)) = false.
Proof.
  unfold strings.TrimSpace.
  destruct (dropSpace_suffix false s) as (pre & Hpre).
  set (u := strings.dropSpace false s) in *.
  destruct (dropSpace_suffix true (strings.reverse u)) as (post & Hpost).
  set (v := strings.dropSpace true (strings.reverse u)) in *.
  assert (Hu : u = strings.reverse v ++ strings.reverse post).
  { rewrite <- reverse_app, <- Hpost. symmetry. apply reverse_involutive. }
  exists pre, (strings.reverse post). split; [|split].
  - rewrite <- Hu. exact Hpre.
  - exact Hu.
  - rewrite reverse_involutive. apply dropSpace_lead.
Qed.

Lemma TrimSpace_lead (s : string) :
  leadSpace false (strings.TrimSpace s) = false.
Proof.
  destruct (TrimSpace_spec s) as (pre & post & _ & Hu & _).
  destruct (leadSpace false (strings.TrimSpace s)) eqn:E; [|reflexivity].
  apply (leadSpace_app _ _ post) in E. rewrite <- Hu, dropSpace_lead in E.
  discriminate.
Qed.

Lemma TrimSpace_idempotent (s : string) :
  strings.TrimSpace (strings.TrimSpace s) = strings.TrimSpace s.
Proof.
  destruct (TrimSpace_spec s) as (_ & _ & _ & _ & Hback).
  pose proof (TrimSpace_lead s) as Hfront.
  remember (strings.TrimSpace s) as t eqn:Et. clear Et.
  unfold strings.TrimSpace.
  rewrite (dropSpace_fixed _ _ Hfront), (dropSpace_fixed _ _ Hback).
  apply reverse_involutive.
Qed.

(** A string that does not start with a white-space rune keeps its front:
    its trimmed form is a prefix of it. *)
Lemma TrimSpace_prefix (s : string) :
  leadSpace false s = false -> exists post, s = strings.TrimSpace s ++ post.
Proof.
  intros H. destruct (TrimSpace_spec s) as (_ & post & _ & Hu & _).
  rewrite (dropSpace_fixed _ _ H) in Hu. eauto.
Qed.

Lemma free_TrimSpace (sep : ascii) (s : string) :
  free sep s -> free sep (strings.TrimSpace s).
Proof.
  intros H. destruct (TrimSpace_spec s) as (pre & post & E & _).
  rewrite E in H. apply free_app in H as [_ H]. apply free_app in H as [H _].
  exact H.
Qed.

End LineFacts.

(** ** [parseChanges] *)
Module ChangesFacts.
Import StringFacts Lines LineFacts.

(** The changes of a text are those of its parts around a newline. *)
Lemma parseChanges_app (a b : string) :
  parseChanges (a ++ String newline b)
  = (parseChanges a ++ parseChanges b)%list.
Proof.
  rewrite !MarkdownFacts.parseChanges_changeLines. unfold Markdown.changeLines.
  rewrite Split_app, List.map_app, List.filter_app, List.map_app. reflexivity.
Qed.

Lemma parseChanges_oneLine (line : string) :
  oneLine line ->
  parseChanges line
  = if strings.HasPrefix (strings.TrimSpace line) "- "
    then [strings.TrimPrefix (strings.TrimSpace line) "- "] else [].
Proof.
  intros H. rewrite MarkdownFacts.parseChanges_changeLines.
  unfold Markdown.changeLines. apply Split_free in H. rewrite H.
  cbn [List.map List.filter].
  destruct (strings.HasPrefix (strings.TrimSpace line) "- "); reflexivity.
Qed.

Lemma HasPrefix_split (s p : string) :
  strings.HasPrefix s p = true -> s = p ++ strings.skip (String.length p) s.
Proof.
  revert s. induction p as [|c p IH]; intros s H; [reflexivity|].
  destruct s as [|x s]; [discriminate|]. cbn in H.
  apply andb_true_iff in H as [Hc H]. apply Ascii.eqb_eq in Hc. subst x.
  cbn. f_equal. apply IH. exact H.
Qed.

(** What a change is: the rest of a trimmed line that starts with the
    marker. *)
Lemma parseChanges_In (content c : string) :
  In c (parseChanges content) ->
  exists line,
    In line (strings.Split content newline)
    /\ strings.TrimSpace line = "- " ++ c.
Proof.
  rewrite MarkdownFacts.parseChanges_changeLines. unfold Markdown.changeLines.
  intros H. apply in_map_iff in H as (trimmed & <- & H).
  apply filter_In in H as [H Hp]. apply in_map_iff in H as (line & <- & H).
  exists line. split; [exact H|].
  unfold strings.TrimPrefix. rewrite Hp. apply (HasPrefix_split _ _ Hp).
Qed.

(** A change is not empty, holds no newline, and is read back from its
    own bullet line. *)
Lemma change_clean (content c : string) :
  In c (parseChanges content) ->
  c <> EmptyString /\ oneLine c /\ parseChanges ("- " ++ c) = [c].
Proof.
  intros H. apply parseChanges_In in H as (line & Hin & Et).
  assert (Hfree : oneLine line).
  { pose proof (Split_lines content newline) as Hl.
    rewrite Forall_forall in Hl. exact (Hl _ Hin). }
  assert (Hone : oneLine ("- " ++ c)).
  { rewrite <- Et. apply free_TrimSpace. exact Hfree. }
  split; [|split].
  - intros ->. destruct (TrimSpace_spec line) as (_ & _ & _ & _ & Hb).
    rewrite Et in Hb. vm_compute in Hb. discriminate.
  - apply (free_app newline "- " c) in Hone. apply Hone.
  - rewrite (parseChanges_oneLine Hone).
    rewrite <- Et, TrimSpace_idempotent, Et. reflexivity.
Qed.

(** The bullet lines that [outputMarkdown] writes for a list of changes. *)
Lemma fold_bullets (marker : string) (changes : list string) (out : string) :
  List.fold_left (fun out change => out ++ marker ++ change ++ strings.nl)
    changes out
  = out ++ bullets marker changes.
Proof.
  unfold bullets.
  revert out. induction changes as [|c cs IH]; intros out; cbn [List.fold_left List.fold_right].
  - now rewrite append_nil_r.
  - rewrite IH, !append_assoc. reflexivity.
Qed.

Lemma bullets_cons (marker change : string) (changes : list string) :
  bullets marker (change :: changes)
  = (marker ++ change) ++ String newline (bullets marker changes).
Proof. unfold bullets. cbn [List.fold_right]. now rewrite append_assoc. Qed.

Lemma parseChanges_bullets (changes : list string) :
  Forall (fun c => parseChanges ("- " ++ c) = [c]) changes ->
  parseChanges (bullets "- " changes) = changes.
Proof.
  induction 1 as [|c cs Hc _ IH]; [reflexivity|].
  rewrite bullets_cons, parseChanges_app, Hc, IH. reflexivity.
Qed.

(** The text that [outputMarkdown] of the first two programs writes. *)
Lemma outputMarkdown_text (version : string) (changes : list string) :
  Legacy.outputMarkdown (Legacy.ChangelogEntry.Make version changes)
  = String "#" ("# " ++ version)
    ++ String newline (EmptyString ++ String newline (bullets "- " changes)).
Proof.
  unfold Legacy.outputMarkdown.
  cbn [Legacy.ChangelogEntry.Version Legacy.ChangelogEntry.Changes].
  rewrite fold_bullets. cbn [append]. do 3 f_equal.
  rewrite !append_assoc. reflexivity.
Qed.

(** A line that starts with "#" is no bullet. *)
Lemma parseChanges_hash (rest : string) :
  oneLine rest -> parseChanges (String "#" rest) = [].
Proof.
  intros H.
  assert (Hone : oneLine (String "#" rest)).
  { constructor; [discriminate | exact H]. }
  rewrite (parseChanges_oneLine Hone).
  assert (Hl : leadSpace false (String "#" rest) = false).
  { destruct rest as [|b [|c r]]; reflexivity. }
  destruct (TrimSpace_prefix _ Hl) as (post & E).
  destruct (strings.TrimSpace (String "#" rest)) as [|x t]; [reflexivity|].
  injection E as <- _. reflexivity.
Qed.

(** The changes of a text, line by line. *)
Lemma parseChanges_lines (content : string) :
  parseChanges content
  = List.flat_map parseChanges (strings.Split content newline).
Proof.
  rewrite MarkdownFacts.parseChanges_changeLines. unfold Markdown.changeLines.
  pose proof (Split_lines content newline) as Hl.
  induction Hl as [|line lines Hline _ IH]; [reflexivity|].
  cbn [List.map List.filter List.flat_map].
  rewrite (parseChanges_oneLine Hline), <- IH.
  destruct (strings.HasPrefix (strings.TrimSpace line) "- "); reflexivity.
Qed.

Lemma free_skip (sep : ascii) (n : nat) (s : string) :
  free sep s -> free sep (strings.skip n s).
Proof.
  revert s. induction n as [|n IH]; intros [|c s] H; cbn; auto.
  apply IH. inversion H; assumption.
Qed.

Lemma free_TrimPrefix (sep : ascii) (s p : string) :
  free sep s -> free sep (strings.TrimPrefix s p).
Proof.
  intros H. unfold strings.TrimPrefix.
  destruct (strings.HasPrefix s p); [apply free_skip|]; exact H.
Qed.

End ChangesFacts.

(** ** [parseReleaseBody] *)
Module BodyFacts.
Import StringFacts Lines LineFacts Flat.

(** Away from offset 0 the header pattern does not match. *)
Lemma header_later (fuel : nat) :
  forall s, regexp.m_pos s <> O -> regexp.search patterns.header fuel s = None.
Proof.
  induction fuel as [|fuel IH]; intros s Hs.
  - cbn [regexp.search]. cbn [patterns.header regexp.exec].
    destruct (Nat.eqb_spec (regexp.m_pos s) 0) as [E|E]; [contradiction|].
    destruct (regexp.m_rest s); reflexivity.
  - cbn [regexp.search]. cbn [patterns.header regexp.exec].
    destruct (Nat.eqb_spec (regexp.m_pos s) 0) as [E|E]; [contradiction|].
    destruct (regexp.m_rest s) as [|c rest]; [reflexivity|].
    apply IH. discriminate.
Qed.

(** A header starts with "#". *)
Lemma header_hash (text : string) :
  strings.HasPrefix text "#" = false ->
  regexp.FindStringSubmatch patterns.header text = None.
Proof.
  intros H. unfold regexp.FindStringSubmatch, regexp.doExecute.
  destruct text as [|c rest]; [reflexivity|].
  cbn in H. rewrite andb_true_r in H.
  cbn [regexp.stateAt String.length regexp.search].
  assert (E : regexp.exec patterns.header Some (regexp.MState 0 None (String c rest) [])
              = None).
  { cbn. rewrite H. reflexivity. }
  rewrite E. cbn [regexp.m_rest].
  rewrite header_later; [reflexivity | discriminate].
Qed.

Lemma bullet_not_header (trimmed : string) :
  strings.HasPrefix trimmed "- " || strings.HasPrefix trimmed "* " = true ->
  regexp.FindStringSubmatch patterns.header trimmed = None.
Proof.
  intros H. apply header_hash.
  destruct trimmed as [|c rest]; [reflexivity|].
  cbn in H |- *. rewrite andb_true_r.
  destruct (Ascii.eqb_spec c "#") as [->|]; [discriminate H | reflexivity].
Qed.

Lemma Legacy_fold (body : string) :
  Legacy.parseReleaseBody body
  = List.fold_left legacyLine (strings.Split body newline) [].
Proof. reflexivity. Qed.

Lemma changesOf_app (a b : list Section_.t) :
  changesOf (a ++ b) = (changesOf a ++ changesOf b)%list.
Proof. apply flat_map_app. Qed.

Lemma changesOf_saved (st : bodyState) :
  changesOf (saveSection st)
  = (changesOf (sections st)
     ++ match currentSection st with
        | Some cur => Section_.Changes cur
        | None => []
        end)%list.
Proof.
  unfold saveSection.
  destruct (currentSection st) as [cur|]; [|now rewrite app_nil_r].
  destruct (Section_.Changes cur) as [|c cs] eqn:E; cbn.
  - now rewrite app_nil_r.
  - rewrite changesOf_app. cbn. rewrite E, app_nil_r. reflexivity.
Qed.

(** One line: the changes held by the new loop follow the loop of the
    first program. *)
Lemma bodyLine_held (st : bodyState) (line : string) :
  unopened st ->
  unopened (bodyLine st line)
  /\ held (bodyLine st line) = legacyLine (held st) line.
Proof.
  intros Hu. unfold bodyLine, legacyLine. cbv zeta.
  set (trimmed := strings.TrimSpace line).
  destruct (regexp.FindStringSubmatch patterns.header trimmed) as [m|] eqn:Eh.
  - assert (Hb : strings.HasPrefix trimmed "- " || strings.HasPrefix trimmed "* "
                 = false).
    { destruct (strings.HasPrefix trimmed "- " || strings.HasPrefix trimmed "* ")
        eqn:Eb; [|reflexivity].
      rewrite (bullet_not_header _ Eb) in Eh. discriminate. }
    rewrite Hb.
    destruct (String.eqb _ WhatsChanged); [split; [exact Hu | reflexivity]|].
    split; [intros H; discriminate H|].
    unfold held. cbn [ungroupedChanges sections currentSection Section_.Changes].
    rewrite changesOf_saved, app_nil_r. reflexivity.
  - destruct (strings.HasPrefix trimmed "- " || strings.HasPrefix trimmed "* ");
      [|split; [exact Hu | reflexivity]].
    set (change := strings.TrimPrefix (strings.TrimPrefix trimmed "- ") "* ").
    destruct (negb (String.eqb change EmptyString)
              && negb (strings.HasPrefix change "@"));
      [|split; [exact Hu | reflexivity]].
    destruct (currentSection st) as [cur|] eqn:Ec.
    + split; [intros H; discriminate H|].
      unfold held. cbn [ungroupedChanges sections currentSection Section_.Changes].
      rewrite Ec, <- !app_assoc. reflexivity.
    + split; [intros _; cbn; apply Hu; exact Ec|].
      unfold held. cbn [ungroupedChanges sections currentSection].
      rewrite Ec, (Hu Ec). cbn. rewrite !app_nil_r. reflexivity.
Qed.

Lemma fold_bodyLine_held (lines : list string) (st : bodyState) :
  unopened st ->
  unopened (List.fold_left bodyLine lines st)
  /\ held (List.fold_left bodyLine lines st)
     = List.fold_left legacyLine lines (held st).
Proof.
  revert st. induction lines as [|line lines IH]; intros st Hu; cbn.
  - split; [exact Hu | reflexivity].
  - destruct (bodyLine_held line Hu) as [Hu' E].
    destruct (IH _ Hu') as [Hu'' E']. split; [exact Hu''|].
    rewrite E', E. reflexivity.
Qed.

(** The changes of the result are those that the loop holds. *)
Lemma parseReleaseBody_held (body : string) :
  (snd (parseReleaseBody body) ++ changesOf (fst (parseReleaseBody body)))%list
  = held (List.fold_left bodyLine (strings.Split body newline)
            (BodyState [] [] None)).
Proof.
  unfold parseReleaseBody. cbv zeta. cbn [fst snd].
  unfold held. rewrite changesOf_saved. reflexivity.
Qed.

Lemma parseReleaseBody_flat (body : string) :
  (snd (parseReleaseBody body) ++ changesOf (fst (parseReleaseBody body)))%list
  = Legacy.parseReleaseBody body.
Proof.
  rewrite parseReleaseBody_held, Legacy_fold.
  apply (@fold_bodyLine_held (strings.Split body newline) (BodyState [] [] None)).
  intros _. reflexivity.
Qed.

(** *** What a change of a release body is *)

Lemma legacyLine_kept (P : string -> Prop) (changes : list string)
  (line : string) :
  (forall change,
      change = strings.TrimPrefix
                 (strings.TrimPrefix (strings.TrimSpace line) "- ") "* " ->
      change <> EmptyString -> strings.HasPrefix change "@" = false ->
      P change) ->
  Forall P changes -> Forall P (legacyLine changes line).
Proof.
  intros HP H. unfold legacyLine. cbv zeta.
  destruct (_ || _); [|exact H].
  destruct (negb (String.eqb _ EmptyString)) eqn:E1; [|exact H].
  destruct (negb (strings.HasPrefix _ "@")) eqn:E2; [|exact H].
  cbn [andb]. apply Forall_app. split; [exact H|].
  constructor; [|constructor].
  apply HP; [reflexivity | |].
  - apply negb_true_iff, String.eqb_neq in E1. exact E1.
  - apply negb_true_iff in E2. exact E2.
Qed.

Lemma legacy_changes (body : string) :
  Forall (fun change =>
            change <> EmptyString
            /\ strings.HasPrefix change "@" = false
            /\ oneLine change)
    (Legacy.parseReleaseBody body).
Proof.
  rewrite Legacy_fold.
  pose proof (Split_lines body newline) as Hl.
  assert (H : forall lines acc,
             Forall (free newline) lines ->
             Forall (fun change =>
                       change <> EmptyString
                       /\ strings.HasPrefix change "@" = false
                       /\ oneLine change) acc ->
             Forall (fun change =>
                       change <> EmptyString
                       /\ strings.HasPrefix change "@" = false
                       /\ oneLine change)
               (List.fold_left legacyLine lines acc)).
  { induction lines as [|line lines IH]; intros acc Hf Hacc; [exact Hacc|].
    cbn [List.fold_left]. inversion Hf as [|? ? Hline Hlines]; subst.
    apply IH; [exact Hlines|].
    apply legacyLine_kept; [|exact Hacc].
    intros change -> Hne Hat. repeat split; try assumption.
    apply ChangesFacts.free_TrimPrefix, ChangesFacts.free_TrimPrefix.
    apply free_TrimSpace. exact Hline. }
  apply H; [exact Hl | constructor].
Qed.

(** *** Bodies without headers *)

Lemma fold_no_header (lines : list string) (st : bodyState) :
  Forall (fun line => isHeader line = false) lines ->
  currentSection st = None ->
  currentSection (List.fold_left bodyLine lines st) = None
  /\ sections (List.fold_left bodyLine lines st) = sections st.
Proof.
  intros H. revert st. induction H as [|line lines Hl _ IH]; intros st Hc; cbn.
  - split; [exact Hc | reflexivity].
  - assert (E : currentSection (bodyLine st line) = None
                /\ sections (bodyLine st line) = sections st).
    { unfold isHeader in Hl. unfold bodyLine. cbv zeta.
      destruct (regexp.FindStringSubmatch patterns.header (strings.TrimSpace line));
        [discriminate|].
      destruct (_ || _); [|split; [exact Hc | reflexivity]].
      destruct (_ && _); [|split; [exact Hc | reflexivity]].
      rewrite Hc. split; reflexivity. }
    destruct E as [E1 E2]. destruct (IH _ E1) as [H1 H2].
    split; [exact H1 | now rewrite H2].
Qed.

Lemma parseReleaseBody_no_header (body : string) :
  Forall (fun line => isHeader line = false) (strings.Split body newline) ->
  parseReleaseBody body = ([], Legacy.parseReleaseBody body).
Proof.
  intros H. pose proof (parseReleaseBody_flat body) as Hf.
  destruct (@fold_no_header _ (BodyState [] [] None) H eq_refl) as [Hc Hs].
  assert (E : fst (parseReleaseBody body) = []).
  { unfold parseReleaseBody. cbv zeta. cbn [fst].
    unfold saveSection. rewrite Hc, Hs. reflexivity. }
  rewrite E in Hf. unfold changesOf in Hf. cbn [List.flat_map] in Hf.
  rewrite app_nil_r in Hf.
  rewrite (surjective_pairing (parseReleaseBody body)), E, Hf. reflexivity.
Qed.

(** *** After a header *)

Lemma bodyLine_opened (st : bodyState) (line : string) :
  currentSection st <> None ->
  currentSection (bodyLine st line) <> None
  /\ ungroupedChanges (bodyLine st line) = ungroupedChanges st.
Proof.
  intros Hc. unfold bodyLine. cbv zeta.
  destruct (regexp.FindStringSubmatch patterns.header (strings.TrimSpace line)).
  - destruct (String.eqb _ WhatsChanged); [split; [exact Hc | reflexivity]|].
    split; [discriminate | reflexivity].
  - destruct (_ || _); [|split; [exact Hc | reflexivity]].
    destruct (_ && _); [|split; [exact Hc | reflexivity]].
    destruct (currentSection st) as [cur|]; [|contradiction].
    split; [discriminate | reflexivity].
Qed.

Lemma fold_opened (lines : list string) (st : bodyState) :
  currentSection st <> None ->
  ungroupedChanges (List.fold_left bodyLine lines st) = ungroupedChanges st.
Proof.
  revert st. induction lines as [|line lines IH]; intros st Hc; cbn;
    [reflexivity|].
  destruct (@bodyLine_opened st line Hc) as [Hc' E]. rewrite (IH _ Hc'). exact E.
Qed.

Lemma bodyLine_opens (st : bodyState) (line : string) :
  opensSection line ->
  currentSection (bodyLine st line) <> None
  /\ ungroupedChanges (bodyLine st line) = ungroupedChanges st.
Proof.
  intros (m & Em & Hn). unfold bodyLine. cbv zeta. rewrite Em.
  apply String.eqb_neq in Hn. rewrite Hn. split; [discriminate | reflexivity].
Qed.

(** The ungrouped changes are settled by the first line that opens a
    section. *)
Lemma ungrouped_settled (a h b : string) :
  oneLine h -> opensSection h ->
  snd (parseReleaseBody (a ++ strings.nl ++ h ++ strings.nl ++ b))
  = snd (parseReleaseBody a).
Proof.
  intros Hone Hopen. unfold parseReleaseBody. cbv zeta. cbn [snd].
  change (a ++ strings.nl ++ h ++ strings.nl ++ b)
    with (a ++ String newline (h ++ String newline b)).
  rewrite !Split_app, (proj1 (Split_free h newline) Hone).
  rewrite !List.fold_left_app. cbn [List.fold_left].
  destruct (@bodyLine_opens
              (List.fold_left bodyLine (strings.Split a newline)
                 (BodyState [] [] None)) h Hopen) as [Hc E].
  rewrite (@fold_opened _ _ Hc). exact E.
Qed.

End BodyFacts.

(** ** The cadence *)
Module CadenceFacts.
Import time RelativeTime Cadence.

Lemma validEntriesFrom_counted (entries validEntries : list ChangelogEntry.t) :
  (List.length validEntries < 10)%nat ->
  validEntriesFrom entries validEntries
  = (validEntries
     ++ List.firstn (10 - List.length validEntries)
          (List.filter dated entries))%list.
Proof.
  revert validEntries. induction entries as [|e entries IH]; intros acc Hacc.
  - cbn. rewrite List.firstn_nil, app_nil_r. reflexivity.
  - cbn [validEntriesFrom List.filter]. unfold dated at 1.
    destruct (negb (IsZero (ReleasedAt e))).
    + rewrite List.length_app. cbn [List.length].
      destruct (Z.leb_spec 10 (Z.of_nat (List.length acc + 1))) as [H|H].
      * replace (10 - List.length acc)%nat with 1%nat by lia.
        cbn [List.firstn]. reflexivity.
      * rewrite IH by (rewrite List.length_app; cbn; lia).
        rewrite List.length_app. cbn [List.length].
        replace (10 - List.length acc)%nat
          with (S (10 - (List.length acc + 1)))%nat by lia.
        cbn [List.firstn]. rewrite <- app_assoc. reflexivity.
    + destruct (Z.leb_spec 10 (Z.of_nat (List.length acc))) as [H|H]; [lia|].
      apply IH. exact Hacc.
Qed.

Lemma validEntries_counted (entries : list ChangelogEntry.t) :
  validEntriesFrom entries [] = counted entries.
Proof. rewrite validEntriesFrom_counted by (cbn; lia). reflexivity. Qed.

Lemma filter_idempotent {A : Type} (p : A -> bool) (l : list A) :
  List.filter p (List.filter p l) = List.filter p l.
Proof.
  induction l as [|x l IH]; cbn; [reflexivity|].
  destruct (p x) eqn:E; cbn; [rewrite E, IH|]; auto.
Qed.

Lemma filter_firstn_filter {A : Type} (p : A -> bool) (n : nat) (l : list A) :
  List.filter p (List.firstn n (List.filter p l))
  = List.firstn n (List.filter p l).
Proof.
  revert n. induction l as [|x l IH]; intros n; cbn.
  - now rewrite List.firstn_nil.
  - destruct (p x) eqn:E; [|apply IH].
    destruct n as [|n]; cbn; [reflexivity|]. rewrite E, IH. reflexivity.
Qed.

Lemma counted_idempotent (entries : list ChangelogEntry.t) :
  counted (counted entries) = counted entries.
Proof.
  unfold counted. rewrite filter_firstn_filter, List.firstn_firstn.
  reflexivity.
Qed.

Lemma calculateAvgReleaseFreq_counted (entries : list ChangelogEntry.t) :
  calculateAvgReleaseFreq entries = calculateAvgReleaseFreq (counted entries).
Proof.
  unfold calculateAvgReleaseFreq.
  rewrite !validEntries_counted, counted_idempotent. reflexivity.
Qed.

Lemma avgInterval_counted (entries : list ChangelogEntry.t) :
  avgInterval entries
  = let validEntries := counted entries in
    if (Z.of_nat (List.length validEntries) <? 2) then None
    else Some (div (totalDurationOf validEntries 0)
                 (Z.of_nat (List.length validEntries) - 1)).
Proof. unfold avgInterval. rewrite validEntries_counted. reflexivity. Qed.

(** *** The sum of the intervals *)

Lemma wrap_wrap (x y : Z) : wrap (wrap x + y) = wrap (x + y).
Proof.
  unfold wrap. f_equal.
  replace ((x + 2 ^ 63) mod 2 ^ 64 - 2 ^ 63 + y + 2 ^ 63)
    with ((x + 2 ^ 63) mod 2 ^ 64 + y) by lia.
  rewrite Zplus_mod_idemp_l. f_equal. lia.
Qed.

Lemma Sub_exact (t u lo : Time) :
  lo <= t <= lo + maxDuration -> lo <= u <= lo + maxDuration ->
  Sub t u = t - u.
Proof.
  intros Ht Hu. unfold Sub, minDuration, maxDuration in *.
  destruct (Z.ltb_spec (t - u) (- 2 ^ 63)); [lia|].
  destruct (Z.ltb_spec (2 ^ 63 - 1) (t - u)); lia.
Qed.

Lemma last_cons {A : Type} (rest : list A) (a b : A) :
  List.last (b :: rest) a = List.last rest b.
Proof.
  revert a b. induction rest as [|c rest IH]; intros a b; [reflexivity|].
  change (List.last (b :: c :: rest) a) with (List.last (c :: rest) a).
  rewrite (IH a c), (IH b c). reflexivity.
Qed.

Lemma totalDurationOf_cons (a b : ChangelogEntry.t)
  (rest : list ChangelogEntry.t) (totalDuration : Duration) :
  totalDurationOf (a :: b :: rest) totalDuration
  = totalDurationOf (b :: rest)
      (add totalDuration (Sub (ReleasedAt a) (ReleasedAt b))).
Proof. reflexivity. Qed.

(** The intervals add up to the distance from the first timestamp to the
    last. *)
Lemma totalDurationOf_telescopes (lo : Time) (first : ChangelogEntry.t)
  (rest : list ChangelogEntry.t) (x : Z) :
  Forall (fun t => lo <= t <= lo + maxDuration)
    (List.map ReleasedAt (first :: rest)) ->
  totalDurationOf (first :: rest) (wrap x)
  = wrap (x + ReleasedAt first
          - ReleasedAt (List.last rest first)).
Proof.
  revert first x. induction rest as [|b rest IH]; intros a x H.
  - cbn. f_equal. lia.
  - rewrite totalDurationOf_cons.
    cbn [List.map] in H. apply Forall_cons_iff in H as [Ha H].
    pose proof H as Hb. apply Forall_cons_iff in Hb as [Hb _].
    rewrite (Sub_exact Ha Hb). unfold add. rewrite wrap_wrap.
    rewrite (IH b _ H).
    rewrite last_cons. f_equal. lia.
Qed.

Lemma wrap_0 : wrap 0 = 0.
Proof. reflexivity. Qed.

End CadenceFacts.

(** ** [main] *)
Module MainFacts.
Import Streams.

Lemma isFlag_eq (arg short long : string) :
  isFlag arg short long = true <-> arg = short \/ arg = long.
Proof.
  unfold isFlag. rewrite orb_true_iff, !String.eqb_eq. reflexivity.
Qed.

(** Without [-version] among them, the arguments set the flags they
    name, in any order. *)
Lemma parseFlags_plain (args : list string) :
  Forall (fun arg => isFlag arg "-version" "--version" = false) args ->
  forall f,
    parseFlags args f
    = Flags (jsonOutput f
             || List.existsb (fun arg => isFlag arg "-json" "--json") args)
            (mdOutput f
             || List.existsb (fun arg => isFlag arg "-md" "--md") args)
            (listVersions f
             || List.existsb (fun arg => isFlag arg "-list" "--list") args)
            (targetVersion f).
Proof.
  induction 1 as [|arg args Hv _ IH]; intros f.
  - cbn. rewrite !orb_false_r. destruct f; reflexivity.
  - cbn [parseFlags List.existsb].
    destruct (isFlag arg "-json" "--json") eqn:Ej.
    { rewrite IH. cbn [jsonOutput mdOutput listVersions targetVersion].
      apply isFlag_eq in Ej as [->| ->]; cbn; rewrite !orb_true_r; reflexivity. }
    destruct (isFlag arg "-md" "--md") eqn:Em.
    { rewrite IH. cbn [jsonOutput mdOutput listVersions targetVersion].
      apply isFlag_eq in Em as [->| ->]; cbn; rewrite !orb_true_r; reflexivity. }
    destruct (isFlag arg "-list" "--list") eqn:El.
    { rewrite IH. cbn [jsonOutput mdOutput listVersions targetVersion].
      cbn. rewrite !orb_true_r. reflexivity. }
    rewrite Hv, IH. reflexivity.
Qed.

Section WithDecoders.
Context {D : Decoders}.

Lemma lookupSource_None (arg0 : string) :
  ~ In arg0 fetching -> lookupSource sources arg0 = None.
Proof.
  intros H. unfold fetching in H. cbn [In] in H.
  cbn [sources lookupSource].
  repeat match goal with
         | |- context [String.eqb ?k arg0] =>
             destruct (String.eqb_spec k arg0);
               [exfalso; apply H; subst arg0;
                solve [repeat first [left; reflexivity | right]]|]
         end.
  reflexivity.
Qed.

Lemma legacy_lookupSource_None (arg0 : string) :
  ~ In arg0 legacyKeys -> Legacy.lookupSource Legacy.sources arg0 = None.
Proof.
  intros H. unfold legacyKeys in H. cbn [In] in H.
  cbn [Legacy.sources Legacy.lookupSource].
  repeat match goal with
         | |- context [String.eqb ?k arg0] =>
             destruct (String.eqb_spec k arg0);
               [exfalso; apply H; subst arg0;
                solve [repeat first [left; reflexivity | right]]|]
         end.
  reflexivity.
Qed.

(** Unless its first argument is a command or a key of the registry,
    [main] returns without a request and without a reading of the clock;
    its exit status is 0 for the words it answers and 1 otherwise. *)
Lemma main_offline (arrival : list (string * Source.t)) (arg0 : string)
  (args : list string) (w : World) (tr : trace) :
  ~ In arg0 fetching ->
  exists written,
    main arrival (arg0 :: args) w tr
    = (Some (written,
             if List.existsb (String.eqb arg0) answered then 0 else 1), tr).
Proof.
  intros H. pose proof (@lookupSource_None arg0 H) as Hl.
  unfold fetching in H. cbn [In] in H.
  cbn [main List.existsb answered].
  destruct (String.eqb arg0 "-h"); [eexists; reflexivity|].
  destruct (String.eqb arg0 "--help"); [eexists; reflexivity|].
  destruct (String.eqb arg0 "help"); [eexists; reflexivity|].
  destruct (String.eqb arg0 "-v"); [eexists; reflexivity|].
  destruct (String.eqb arg0 "--version"); [eexists; reflexivity|].
  destruct (String.eqb arg0 "list-sources"); [eexists; reflexivity|].
  cbn [orb].
  destruct (String.eqb_spec arg0 "latest") as [E|_]; [exfalso; apply H; auto|].
  destruct (String.eqb_spec arg0 "status") as [E|_];
    [exfalso; apply H; auto|].
  rewrite Hl. eexists. reflexivity.
Qed.

Lemma legacy_main_offline (ranged : list (string * Legacy.Source.t))
  (arg0 : string) (args : list string) (w : World) (tr : trace) :
  ~ In arg0 legacyKeys ->
  exists written,
    LegacyMain.main ranged (arg0 :: args) w tr
    = (Some (written,
             if List.existsb (String.eqb arg0) answered then 0 else 1), tr).
Proof.
  intros H. pose proof (@legacy_lookupSource_None arg0 H) as Hl.
  cbn [LegacyMain.main List.existsb answered].
  destruct (String.eqb arg0 "-h"); [eexists; reflexivity|].
  destruct (String.eqb arg0 "--help"); [eexists; reflexivity|].
  destruct (String.eqb arg0 "help"); [eexists; reflexivity|].
  destruct (String.eqb arg0 "-v"); [eexists; reflexivity|].
  destruct (String.eqb arg0 "--version"); [eexists; reflexivity|].
  destruct (String.eqb arg0 "list-sources"); [eexists; reflexivity|].
  cbn [orb]. rewrite Hl. eexists. reflexivity.
Qed.

End WithDecoders.




End MainFacts.

(** ** The markdown of a release, read again *)
Module RereadFacts.
Import Lines Flat StringFacts LineFacts ChangesFacts BodyFacts.

Lemma TrimSpace_fixed (s : string) :
  leadSpace false s = false ->
  leadSpace true (strings.reverse s) = false ->
  strings.TrimSpace s = s.
Proof.
  intros Hf Hb. unfold strings.TrimSpace.
  rewrite (@dropSpace_fixed false s Hf).
  rewrite (@dropSpace_fixed true (strings.reverse s) Hb).
  apply reverse_involutive.
Qed.

Lemma reverse_nonempty (s : string) :
  s <> EmptyString -> strings.reverse s <> EmptyString.
Proof.
  intros Hne E. apply Hne. rewrite <- (reverse_involutive s), E. reflexivity.
Qed.

(** A change that does not end in white space is read back from its
    bullet line. *)
Lemma bullet_reread (c : string) :
  c <> EmptyString -> oneLine c ->
  leadSpace true (strings.reverse c) = false ->
  parseChanges ("- " ++ c) = [c].
Proof.
  intros Hne Hone Hb.
  assert (Hl : oneLine ("- " ++ c)).
  { apply (free_app newline "- " c). split; [|exact Hone].
    repeat constructor; discriminate. }
  rewrite (parseChanges_oneLine Hl).
  assert (Et : strings.TrimSpace ("- " ++ c) = "- " ++ c).
  { apply TrimSpace_fixed.
    - destruct c as [|x [|y c']]; reflexivity.
    - rewrite reverse_app.
      pose proof (reverse_nonempty Hne) as Hr.
      change (strings.reverse "- ") with " -".
      destruct (strings.reverse c) as [|a [|b [|d r]]]; [contradiction| | |].
      + cbn [leadSpace append] in Hb |- *.
        rewrite orb_false_r in Hb. rewrite Hb. reflexivity.
      + cbn [leadSpace append] in Hb |- *.
        apply orb_false_iff in Hb as [Ha Hb]. rewrite orb_false_r in Hb.
        rewrite Ha, Hb. reflexivity.
      + exact Hb. }
  rewrite Et. reflexivity.
Qed.

Lemma TrimPrefix_suffix (s p : string) :
  exists pre, s = pre ++ strings.TrimPrefix s p.
Proof.
  unfold strings.TrimPrefix. destruct (strings.HasPrefix s p) eqn:E.
  - exists p. exact (HasPrefix_split _ _ E).
  - exists EmptyString. reflexivity.
Qed.

(** What is left of a trimmed line does not end in white space. *)
Lemma change_tail (line : string) :
  leadSpace true
    (strings.reverse
       (strings.TrimPrefix
          (strings.TrimPrefix (strings.TrimSpace line) "- ") "* "))
  = false.
Proof.
  destruct (TrimSpace_spec line) as (_ & _ & _ & _ & Hb).
  destruct (TrimPrefix_suffix (strings.TrimSpace line) "- ") as (p1 & E1).
  destruct (TrimPrefix_suffix
              (strings.TrimPrefix (strings.TrimSpace line) "- ") "* ")
    as (p2 & E2).
  remember (strings.TrimPrefix
              (strings.TrimPrefix (strings.TrimSpace line) "- ") "* ")
    as change eqn:Ec.
  destruct (leadSpace true (strings.reverse change)) eqn:E; [|reflexivity].
  apply (leadSpace_app _ _ (strings.reverse p2)) in E.
  rewrite <- reverse_app, <- E2 in E.
  apply (leadSpace_app _ _ (strings.reverse p1)) in E.
  rewrite <- reverse_app, <- E1 in E. congruence.
Qed.

(** What holds of whatever a bullet line of a body leaves. *)
Lemma legacy_all (P : string -> Prop) (body : string) :
  (forall line change,
      oneLine line ->
      change = strings.TrimPrefix
                 (strings.TrimPrefix (strings.TrimSpace line) "- ") "* " ->
      change <> EmptyString -> strings.HasPrefix change "@" = false ->
      P change) ->
  Forall P (Legacy.parseReleaseBody body).
Proof.
  intros HP. rewrite Legacy_fold.
  pose proof (Split_lines body newline) as Hl.
  assert (H : forall lines acc,
             Forall (free newline) lines -> Forall P acc ->
             Forall P (List.fold_left legacyLine lines acc)).
  { induction lines as [|line lines IH]; intros acc Hf Hacc; [exact Hacc|].
    cbn [List.fold_left]. inversion Hf as [|? ? Hline Hlines]; subst.
    apply IH; [exact Hlines|].
    apply legacyLine_kept; [|exact Hacc].
    intros change E Hne Hat. exact (HP line change Hline E Hne Hat). }
  apply H; [exact Hl | constructor].
Qed.

Lemma release_changes_reread (body : string) :
  Forall (fun c => parseChanges ("- " ++ c) = [c])
    (Legacy.parseReleaseBody body).
Proof.
  apply legacy_all. intros line change Hline -> Hne _.
  apply bullet_reread; [exact Hne | | apply change_tail].
  apply free_TrimPrefix, free_TrimPrefix, free_TrimSpace. exact Hline.
Qed.

(** *** The names of the sections *)

Lemma free_substring (sep : ascii) (s : string) :
  free sep s -> forall n m, free sep (String.substring n m s).
Proof.
  unfold free. induction s as [|c s IH]; intros H n m.
  - destruct n, m; constructor.
  - cbn [list_ascii_of_string] in H. inversion H as [|? ? Hc Hs]; subst.
    destruct n as [|n].
    + destruct m as [|m]; cbn [String.substring list_ascii_of_string].
      * constructor.
      * constructor; [exact Hc | exact (IH Hs 0%nat m)].
    + cbn [String.substring]. exact (IH Hs n m).
Qed.

Lemma submatch_free (sep : ascii) (text : string) :
  free sep text ->
  forall m, Forall (free sep) (regexp.submatchStrings text m).
Proof.
  intros H.
  assert (Hm : forall k m, (List.length m <= k)%nat ->
                           Forall (free sep) (regexp.submatchStrings text m)).
  { induction k as [|k IH]; intros m Hk.
    - destruct m; [constructor | cbn in Hk; lia].
    - destruct m as [|a [|b m']]; try constructor.
      cbn [regexp.submatchStrings]. cbn [List.length] in Hk.
      unfold strings.slice.
      destruct (_ && _); (constructor; [|apply IH; lia]).
      + apply free_substring, H.
      + constructor. }
  intros m. exact (Hm (List.length m) m (le_n _)).
Qed.

Lemma headerName_oneLine (line : string) (match_ : list string) :
  oneLine line ->
  regexp.FindStringSubmatch patterns.header (strings.TrimSpace line)
  = Some match_ ->
  oneLine (strings.TrimSpace (List.nth 1 match_ EmptyString)).
Proof.
  intros Hl E. apply free_TrimSpace.
  unfold regexp.FindStringSubmatch in E.
  destruct (regexp.doExecute _ _ _) as [m|]; [|discriminate].
  injection E as <-.
  pose proof (submatch_free (free_TrimSpace Hl) m) as Hf.
  rewrite Forall_forall in Hf.
  destruct (List.nth_in_or_default 1 (regexp.submatchStrings
                                        (strings.TrimSpace line) m)
              EmptyString) as [Hin | E0].
  - exact (Hf _ Hin).
  - rewrite E0. constructor.
Qed.

Lemma bodyLine_names (st : bodyState) (line : string) :
  oneLine line ->
  Forall (fun sec => oneLine (Section_.Name sec)) (sections st)
  /\ match currentSection st with
     | Some cur => oneLine (Section_.Name cur)
     | None => True
     end ->
  Forall (fun sec => oneLine (Section_.Name sec)) (sections (bodyLine st line))
  /\ match currentSection (bodyLine st line) with
     | Some cur => oneLine (Section_.Name cur)
     | None => True
     end.
Proof.
  intros Hl [Hs Hc]. unfold bodyLine. cbv zeta.
  destruct (regexp.FindStringSubmatch patterns.header (strings.TrimSpace line))
    as [match_|] eqn:Eh.
  - destruct (String.eqb _ WhatsChanged); [split; assumption|].
    cbn [sections currentSection Section_.Name]. split.
    + unfold saveSection. destruct (currentSection st) as [cur|]; [|exact Hs].
      destruct (0 <? _); [|exact Hs].
      apply Forall_app. split; [exact Hs | constructor; [exact Hc | constructor]].
    + exact (headerName_oneLine Hl Eh).
  - destruct (_ || _); [|split; assumption].
    destruct (_ && _); [|split; assumption].
    destruct (currentSection st) as [cur|];
      cbn [sections currentSection Section_.Name]; split; assumption.
Qed.

Lemma names_oneLine (body : string) :
  Forall (fun sec => oneLine (Section_.Name sec)) (fst (parseReleaseBody body)).
Proof.
  unfold parseReleaseBody. cbv zeta. cbn [fst].
  pose proof (Split_lines body newline) as Hl.
  assert (H : forall lines st,
             Forall (free newline) lines ->
             Forall (fun sec => oneLine (Section_.Name sec)) (sections st)
             /\ match currentSection st with
                | Some cur => oneLine (Section_.Name cur)
                | None => True
                end ->
             Forall (fun sec => oneLine (Section_.Name sec))
               (saveSection (List.fold_left bodyLine lines st))).
  { induction lines as [|line lines IH]; intros st Hf Hst.
    - cbn [List.fold_left]. destruct Hst as [Hs Hc]. unfold saveSection.
      destruct (currentSection st) as [cur|]; [|exact Hs].
      destruct (0 <? _); [|exact Hs].
      apply Forall_app. split; [exact Hs | constructor; [exact Hc | constructor]].
    - cbn [List.fold_left]. inversion Hf as [|? ? Hline Hlines]; subst.
      apply IH; [exact Hlines|]. exact (@bodyLine_names st line Hline Hst). }
  apply H; [exact Hl|]. cbn. split; [constructor | exact I].
Qed.

(** *** What [outputMarkdown] writes, and its bullets *)

Lemma fold_grouped (secs : list Section_.t) (out : string) :
  List.fold_left
    (fun out section =>
       let out := out ++ "### " ++ Section_.Name section
                  ++ strings.nl ++ strings.nl in
       let out :=
         List.fold_left
           (fun out change => out ++ "- " ++ change ++ strings.nl)
           (Section_.Changes section) out in
       out ++ strings.nl)
    secs out
  = out ++ grouped secs.
Proof.
  revert out. induction secs as [|sec secs IH]; intros out.
  - cbn [List.fold_left grouped List.fold_right]. now rewrite append_nil_r.
  - cbn [List.fold_left]. rewrite IH. cbv zeta. rewrite fold_bullets.
    cbn [grouped List.fold_right]. fold (grouped secs).
    rewrite !append_assoc. reflexivity.
Qed.

Lemma parse_bullets_app (changes : list string) (rest : string) :
  Forall (fun c => parseChanges ("- " ++ c) = [c]) changes ->
  parseChanges (bullets "- " changes ++ rest)
  = (changes ++ parseChanges rest)%list.
Proof.
  induction 1 as [|c cs Hc _ IH]; [reflexivity|].
  rewrite bullets_cons, append_assoc.
  change (String newline (bullets "- " cs) ++ rest)
    with (String newline (bullets "- " cs ++ rest)).
  rewrite parseChanges_app, Hc, IH. reflexivity.
Qed.

Lemma parse_grouped (secs : list Section_.t) (rest : string) :
  Forall (fun sec =>
            oneLine (Section_.Name sec)
            /\ Forall (fun c => parseChanges ("- " ++ c) = [c])
                 (Section_.Changes sec)) secs ->
  parseChanges (grouped secs ++ rest)
  = (changesOf secs ++ parseChanges rest)%list.
Proof.
  induction 1 as [|sec secs [Hn Hc] _ IH]; [reflexivity|].
  cbn [grouped List.fold_right]. fold (grouped secs).
  rewrite !append_assoc.
  change ("### " ++ Section_.Name sec
          ++ strings.nl ++ strings.nl
          ++ bullets "- " (Section_.Changes sec)
          ++ strings.nl ++ grouped secs ++ rest)
    with (String "#" ("## " ++ Section_.Name sec)
          ++ String newline
               (EmptyString
                ++ String newline
                     (bullets "- " (Section_.Changes sec)
                      ++ (EmptyString
                          ++ String newline (grouped secs ++ rest))))).
  rewrite parseChanges_app, parseChanges_app.
  rewrite (parse_bullets_app _ Hc), parseChanges_app, IH.
  rewrite parseChanges_hash.
  2:{ apply (free_app newline "## " (Section_.Name sec)). split; [|exact Hn].
      repeat constructor; discriminate. }
  change (parseChanges EmptyString) with (@nil string).
  unfold changesOf. cbn [List.flat_map List.app].
  now rewrite <- List.app_assoc.
Qed.

(** The bullets of the markdown of an entry. *)
Lemma outputMarkdown_bullets (F : Formatter) (entry : ChangelogEntry.t) :
  oneLine (Version entry) ->
  oneLine (time_Format (ReleasedAt entry) dateLayout) ->
  Forall (fun sec =>
            oneLine (Section_.Name sec)
            /\ Forall (fun c => parseChanges ("- " ++ c) = [c])
                 (Section_.Changes sec)) (Sections entry) ->
  Forall (fun c => parseChanges ("- " ++ c) = [c]) (Changes entry) ->
  parseChanges (outputMarkdown entry)
  = (changesOf (Sections entry) ++ Changes entry)%list.
Proof.
  intros Hv Hd Hs Hc. unfold outputMarkdown. cbv zeta.
  rewrite fold_bullets, fold_grouped.
  assert (E : forall h : string,
             oneLine h ->
             parseChanges
               (((String "#" h ++ strings.nl ++ strings.nl)
                 ++ grouped (Sections entry))
                ++ bullets "- " (Changes entry))
             = (changesOf (Sections entry) ++ Changes entry)%list).
  { intros h Hh. rewrite !append_assoc.
    change (String "#" h ++ strings.nl ++ strings.nl
            ++ grouped (Sections entry) ++ bullets "- " (Changes entry))
      with (String "#" h
            ++ String newline
                 (EmptyString
                  ++ String newline
                       (grouped (Sections entry)
                        ++ bullets "- " (Changes entry)))).
    rewrite parseChanges_app, parseChanges_app, (parse_grouped _ Hs).
    rewrite (parseChanges_bullets Hc), (parseChanges_hash Hh).
    change (parseChanges EmptyString) with (@nil string). reflexivity. }
  destruct (negb (time.IsZero (ReleasedAt entry))).
  - rewrite <- (E ("# " ++ Version entry ++ " ("
                   ++ time_Format (ReleasedAt entry) dateLayout ++ ")")).
    + f_equal; rewrite ?append_assoc; cbn [append];
        rewrite ?append_assoc; cbn [append]; rewrite ?append_assoc;
        reflexivity.
    + apply (free_app newline "# " _). split;
        [repeat constructor; discriminate|].
      apply free_app. split; [exact Hv|].
      apply (free_app newline " (" _). split;
        [repeat constructor; discriminate|].
      apply free_app. split; [exact Hd | repeat constructor; discriminate].
  - rewrite <- (E ("# " ++ Version entry)).
    + f_equal; rewrite ?append_assoc; cbn [append];
        rewrite ?append_assoc; cbn [append]; rewrite ?append_assoc;
        reflexivity.
    + apply (free_app newline "# " _). split;
        [repeat constructor; discriminate | exact Hv].
Qed.

(** The sections and the changes of a body are fit to be read again. *)
Lemma release_fit (body : string) :
  Forall (fun sec =>
            oneLine (Section_.Name sec)
            /\ Forall (fun c => parseChanges ("- " ++ c) = [c])
                 (Section_.Changes sec)) (fst (parseReleaseBody body))
  /\ Forall (fun c => parseChanges ("- " ++ c) = [c])
       (snd (parseReleaseBody body)).
Proof.
  pose proof (release_changes_reread body) as H.
  rewrite <- (parseReleaseBody_flat body) in H.
  apply Forall_app in H as [Hu Hs]. split; [|exact Hu].
  pose proof (names_oneLine body) as Hn.
  unfold changesOf in Hs.
  induction (fst (parseReleaseBody body)) as [|sec secs IH]; [constructor|].
  cbn [List.flat_map] in Hs. apply Forall_app in Hs as [H1 H2].
  inversion Hn as [|? ? Hn1 Hn2]; subst.
  constructor; [split; assumption | exact (IH H2 Hn2)].
Qed.

End RereadFacts.

(** ** The latest view and the order of arrival *)
Module ScheduleFacts.
Import Aggregate Streams.

Lemma key_inj {A : Type} (key : A -> Z) (l : list A) :
  NoDup (List.map key l) ->
  forall a b, In a l -> In b l -> key a = key b -> a = b.
Proof.
  induction l as [|x l IH]; intros Hnd a b Ha Hb E; [destruct Ha|].
  cbn [List.map] in Hnd. inversion Hnd as [|? ? Hnot Hnd']; subst.
  destruct Ha as [<-|Ha], Hb as [<-|Hb].
  - reflexivity.
  - exfalso. apply Hnot. rewrite E. apply in_map, Hb.
  - exfalso. apply Hnot. rewrite <- E. apply in_map, Ha.
  - exact (IH Hnd' a b Ha Hb E).
Qed.

(** A list without equal keys has one sorted arrangement. *)
Lemma sorted_unique {A : Type} (key : A -> Z) (l1 : list A) :
  forall l2,
    StronglySorted (fun a b => key b <= key a) l1 ->
    StronglySorted (fun a b => key b <= key a) l2 ->
    NoDup (List.map key l1) -> Permutation l1 l2 -> l1 = l2.
Proof.
  induction l1 as [|a l1 IH]; intros l2 H1 H2 Hnd Hp.
  - apply Permutation_nil in Hp. now subst.
  - destruct l2 as [|b l2];
      [apply Permutation_sym, Permutation_nil in Hp; discriminate|].
    inversion H1 as [|? ? H1' Ha]; subst.
    inversion H2 as [|? ? H2' Hb]; subst.
    assert (Hin1 : In b (a :: l1))
      by (apply (Permutation_in _ (Permutation_sym Hp)); left; reflexivity).
    assert (Hin2 : In a (b :: l2))
      by (apply (Permutation_in _ Hp); left; reflexivity).
    assert (E : a = b).
    { apply (@key_inj A key (a :: l1) Hnd a b); [left; reflexivity | exact Hin1 |].
      destruct Hin1 as [->|Hin1]; [reflexivity|].
      destruct Hin2 as [->|Hin2]; [reflexivity|].
      rewrite Forall_forall in Ha, Hb.
      pose proof (Ha _ Hin1). pose proof (Hb _ Hin2). lia. }
    subst b. f_equal. apply IH; [exact H1' | exact H2' | |].
    + cbn [List.map] in Hnd. now inversion Hnd.
    + exact (Permutation_cons_inv Hp).
Qed.

Lemma Slice_newest_first (l : list ChangelogEntry.t) :
  StronglySorted (fun a b => ReleasedAt b <= ReleasedAt a)
    (sort.Slice newerFirst l).
Proof.
  apply Sorting.StronglySorted_impl
    with (R := fun a b => newerFirst b a = false).
  - intros a b H. unfold newerFirst, time.After in H. lia.
  - apply Sorting.Slice_sorted.
    + exact Orders.newerFirst_asym.
    + exact Orders.newerFirst_negtrans.
Qed.

(** Entries with different timestamps are sorted into one order, however
    they come. *)
Lemma Slice_schedule (l1 l2 : list ChangelogEntry.t) :
  Permutation l1 l2 -> NoDup (List.map ReleasedAt l1) ->
  sort.Slice newerFirst l1 = sort.Slice newerFirst l2.
Proof.
  intros Hp Hnd.
  apply (@sorted_unique _ ReleasedAt);
    [apply Slice_newest_first | apply Slice_newest_first | |].
  - apply (Permutation_NoDup
             (Permutation_map ReleasedAt (Sorting.Slice_perm newerFirst l1))).
    exact Hnd.
  - eapply perm_trans; [apply Permutation_sym, Sorting.Slice_perm|].
    eapply perm_trans; [exact Hp | apply Sorting.Slice_perm].
Qed.

Lemma plainBlocks_onStdout (entries : list ChangelogEntry.t) :
  forall i, Forall onStdout (plainBlocks i entries).
Proof.
  induction entries as [|e entries IH]; intros i; [constructor|].
  cbn [plainBlocks]. apply Forall_app. split.
  - destruct (Nat.ltb 0 i); repeat constructor.
  - constructor; [exact I | apply IH].
Qed.

Lemma latestView_onStdout (json : bool) (entries : list ChangelogEntry.t) :
  Forall onStdout (latestView json entries).
Proof.
  unfold latestView. destruct entries as [|e entries]; [repeat constructor|].
  destruct json; [repeat constructor | apply plainBlocks_onStdout].
Qed.

Lemma warnings_stderr (w : World) (arrival : list (string * Source.t)) :
  Forall (fun o => exists line, o = Eprintln line)
    (List.flat_map (warningOf w) arrival).
Proof.
  induction arrival as [|named arrival IH]; [constructor|].
  cbn [List.flat_map]. apply Forall_app. split; [|exact IH].
  unfold warningOf. destruct (fetchOutcome w (snd named)); repeat constructor.
  eexists. reflexivity.
Qed.

End ScheduleFacts.

(** ** [cc-latest] *)
Module CcLatestFacts.
Import Streams Adapters.

Lemma parseChangelog_total (content : string) :
  exists entries,
    CcLatest.parseChangelog content = Some entries
    /\ Forall (fun e => Legacy.ChangelogEntry.Version e <> EmptyString) entries.
Proof.
  exact (@VersionFacts.legacy_versions content patterns.claudeV1 eq_refl).
Qed.

Lemma legacy_findVersion_None (entries : list Legacy.ChangelogEntry.t)
  (target : string) :
  Legacy.findVersion entries target = None
  <-> ~ In target (List.map Legacy.ChangelogEntry.Version entries).
Proof.
  unfold Legacy.findVersion. induction entries as [|e entries IH]; cbn.
  - tauto.
  - destruct (String.eqb_spec (Legacy.ChangelogEntry.Version e) target) as [E|E].
    + split; [discriminate | intros H; exfalso; apply H; auto].
    + rewrite IH. tauto.
Qed.

Lemma legacy_findVersion_Some (entries : list Legacy.ChangelogEntry.t)
  (target : string) (e : Legacy.ChangelogEntry.t) :
  Legacy.findVersion entries target = Some e ->
  In e entries /\ Legacy.ChangelogEntry.Version e = target.
Proof.
  unfold Legacy.findVersion. intros H. apply List.find_some in H as [Hin E].
  split; [exact Hin|]. apply String.eqb_eq, E.
Qed.

(** [cc-latest] from [flag.Parse()] on. *)
Lemma main_outcome (f : CcLatest.flags) (w : World) (tr : trace) :
  exists written code,
    CcLatest.main f w tr
    = (Some (written, code),
       MkTrace (requests tr
                ++ (if CcLatest.showHelp f || CcLatest.showVersion f
                    then [] else [CcLatest.changelogURL]))%list
         (ticks tr))
    /\ (code = 0 \/ code = 1)
    /\ (code = 1
        <-> CcLatest.showHelp f = false /\ CcLatest.showVersion f = false
            /\ ccFails w f)
    /\ (if code =? 0
        then written <> []
             /\ (CcLatest.showHelp f = false -> Forall legacyStdout written)
        else exists msg, written = [Legacy.Stderr msg]).
Proof.
  unfold CcLatest.main, ccFails.
  destruct (CcLatest.showHelp f) eqn:Eh.
  { do 2 eexists. split.
    - cbn [orb]. rewrite List.app_nil_r. unfold ret. destruct tr; reflexivity.
    - split; [auto|]. split; [split; [discriminate | intros (H & _); discriminate]|].
      cbn. split; [discriminate | intros H; discriminate H]. }
  destruct (CcLatest.showVersion f) eqn:Ev.
  { do 2 eexists. split.
    - cbn [orb]. rewrite List.app_nil_r. unfold ret. destruct tr; reflexivity.
    - split; [auto|].
      split; [split; [discriminate | intros (_ & H & _); discriminate]|].
      cbn. split; [discriminate | intros _; repeat constructor]. }
  cbn [orb]. unfold bind, CcLatest.fetchChangelog.
  rewrite (AdaptersFacts.httpGet_runs CcLatest.changelogURL w tr).
  destruct (textOf w CcLatest.changelogURL) as [err|changelog].
  { do 2 eexists. split; [reflexivity|]. split; [auto|].
    split; [tauto|]. cbn. eauto. }
  destruct (parseChangelog_total changelog) as (entries & Ep & _).
  rewrite Ep. unfold orPanic.
  destruct entries as [|newest older].
  { do 2 eexists. split; [reflexivity|]. split; [auto|].
    split; [tauto|]. cbn. eauto. }
  destruct (CcLatest.listVersions f) eqn:El.
  { do 2 eexists. split; [reflexivity|]. split; [auto|].
    split; [split; [discriminate | intros (_ & _ & H & _); discriminate]|].
    cbn [Z.eqb]. split; [discriminate|]. intros _.
    apply Forall_forall. intros o Ho.
    apply in_map_iff in Ho as (e & <- & _). exact I. }
  destruct (String.eqb_spec (CcLatest.targetVersion f) EmptyString) as [Et|Et].
  { cbn [negb].
    destruct (CcLatest.jsonOutput f), (CcLatest.markdownOutput f);
      (do 2 eexists; split; [reflexivity|]; split; [auto|];
       split; [split; [discriminate
                      | intros (_ & _ & _ & H & _); contradiction]|];
       cbn; split; [discriminate | intros _; repeat constructor]). }
  cbn [negb].
  destruct (Legacy.findVersion (newest :: older) (CcLatest.targetVersion f))
    as [entry|] eqn:Ef.
  - assert (Hin : In (CcLatest.targetVersion f)
                    (List.map Legacy.ChangelogEntry.Version (newest :: older))).
    { apply legacy_findVersion_Some in Ef as [Hin <-]. apply in_map. exact Hin. }
    destruct (CcLatest.jsonOutput f), (CcLatest.markdownOutput f);
      (do 2 eexists; split; [reflexivity|]; split; [auto|];
       split; [split; [discriminate
                      | intros (_ & _ & _ & _ & H); contradiction]|];
       cbn; split; [discriminate | intros _; repeat constructor]).
  - apply legacy_findVersion_None in Ef.
    do 2 eexists. split; [reflexivity|]. split; [auto|].
    split; [split; [auto | reflexivity]|]. cbn. eauto.
Qed.

(** [aic claude] of the first multi-source program is [cc-latest]. *)
Lemma aic_claude (D : Decoders) (ranged : list (string * Legacy.Source.t))
  (args : list string) (w : World) (tr : trace) :
  let f := parseFlags args (Flags false false false EmptyString) in
  LegacyMain.main ranged ("claude" :: args) w tr
  = CcLatest.main
      (CcLatest.Flags (jsonOutput f) (mdOutput f) (targetVersion f)
         (listVersions f) false false) w tr.
Proof.
  intros f.
  change (LegacyMain.main ranged ("claude" :: args))
    with (LegacyMain.runSource
            (Legacy.Source.Make "claude" "Claude Code"
               Legacy.fetchClaudeChangelog) f).
  unfold LegacyMain.runSource, CcLatest.main.
  cbn [CcLatest.showHelp CcLatest.showVersion CcLatest.listVersions
       CcLatest.targetVersion CcLatest.jsonOutput CcLatest.markdownOutput
       Legacy.Source.FetchFunc Legacy.Source.DisplayName].
  unfold bind, Legacy.fetchClaudeChangelog, Legacy.fetchMarkdown,
    CcLatest.fetchChangelog, bind.
  change "https://raw.githubusercontent.com/anthropics/claude-code/main/CHANGELOG.md"
    with CcLatest.changelogURL.
  rewrite (AdaptersFacts.httpGet_runs CcLatest.changelogURL w tr).
  destruct (textOf w CcLatest.changelogURL) as [err|changelog]; [reflexivity|].
  change (Legacy.parseMarkdownChangelog changelog patterns.claudeV1)
    with (CcLatest.parseChangelog changelog).
  unfold orPanic.
  destruct (CcLatest.parseChangelog changelog) as [[|newest older]|];
    [reflexivity | | reflexivity].
  unfold ret.
  destruct (listVersions f); [reflexivity|].
  destruct (negb (String.eqb (targetVersion f) EmptyString)).
  - destruct (Legacy.findVersion (newest :: older) (targetVersion f));
      [|reflexivity].
    destruct (jsonOutput f), (mdOutput f); reflexivity.
  - destruct (jsonOutput f), (mdOutput f); reflexivity.
Qed.

End CcLatestFacts.

(** ** The two parsers with dates *)
Module DatedFacts.
Import Markdown Matches.

Section WithDecoders.
Context {D : Decoders}.

Lemma built_same {E : Type} (f : ChangelogEntry.t -> E) (content : string)
  (ms : list (list Z)) :
  (forall m later, f (datedEntry content m later)
                   = f (optionalDateEntry content m later)) ->
  List.map f (built (datedEntry content) ms)
  = List.map f (built (optionalDateEntry content) ms).
Proof.
  intros H. induction ms as [|m later IH]; [reflexivity|].
  cbn [built List.map]. now rewrite H, IH.
Qed.

(** With the empty string rejected by [time.Parse], a date that is
    missing is read as the zero time by both. *)
Lemma optionalDate_dated (match_ : list string) :
  time_Parse dateLayout EmptyString = None ->
  optionalDateOf match_ = parseOrZero dateLayout (List.nth 2 match_ EmptyString).
Proof.
  intros Hp. unfold optionalDateOf.
  destruct (2 <? Z.of_nat (List.length match_)) eqn:El.
  - destruct (String.eqb_spec (List.nth 2 match_ EmptyString) EmptyString)
      as [E|E]; [|reflexivity].
    cbn [negb andb]. rewrite E. unfold parseOrZero. now rewrite Hp.
  - cbn [andb]. apply Z.ltb_ge in El.
    rewrite List.nth_overflow by lia.
    unfold parseOrZero. now rewrite Hp.
Qed.

Lemma dated_parsers (content : string) (versionPattern : regexp.regex) :
  (2 <= regexp.NumSubexp versionPattern)%nat ->
  exists dated optional,
    parseMarkdownChangelogWithDate content versionPattern = Some dated
    /\ parseMarkdownChangelogWithOptionalDate content versionPattern
       = Some optional
    /\ List.map Version dated = List.map Version optional
    /\ List.map Changes dated = List.map Changes optional
    /\ (time_Parse dateLayout EmptyString = None -> dated = optional).
Proof.
  intros Hk.
  pose proof (RegexpFacts.FindAll_chain versionPattern content) as Hch.
  set (matches := regexp.FindAllStringSubmatchIndex versionPattern content) in *.
  exists (built (datedEntry content) matches),
         (built (optionalDateEntry content) matches).
  split.
  { unfold parseMarkdownChangelogWithDate, regexp.FindAllStringSubmatch.
    fold matches.
    apply (@MarkdownFacts.collectDated_built D content matches
             (regexp.NumSubexp versionPattern) Hk matches [] 0 []);
      [reflexivity | lia | exact Hch]. }
  split.
  { unfold parseMarkdownChangelogWithOptionalDate, regexp.FindAllStringSubmatch.
    fold matches.
    apply (@MarkdownFacts.collectOptionalDate_built D content matches
             (regexp.NumSubexp versionPattern) ltac:(lia) matches [] 0 []);
      [reflexivity | lia | exact Hch]. }
  split; [apply built_same; reflexivity|].
  split; [apply built_same; reflexivity|].
  intros Hp. clear Hch. induction matches as [|m later IH]; [reflexivity|].
  cbn [built]. rewrite IH. f_equal.
  unfold datedEntry, optionalDateEntry. cbv zeta.
  now rewrite (optionalDate_dated _ Hp).
Qed.

(** On a pattern with one group, [match[2]] is out of range. *)
Lemma one_group (content : string) (versionPattern : regexp.regex) :
  regexp.NumSubexp versionPattern = 1%nat ->
  (exists optional,
      parseMarkdownChangelogWithOptionalDate content versionPattern
      = Some optional
      /\ Forall (fun e => ReleasedAt e = time.zero) optional)
  /\ (parseMarkdownChangelogWithDate content versionPattern = None
      <-> regexp.FindAllStringSubmatchIndex versionPattern content <> []).
Proof.
  intros Hk.
  pose proof (RegexpFacts.FindAll_chain versionPattern content) as Hch.
  rewrite Hk in Hch.
  set (matches := regexp.FindAllStringSubmatchIndex versionPattern content) in *.
  split.
  - exists (built (optionalDateEntry content) matches). split.
    + unfold parseMarkdownChangelogWithOptionalDate,
        regexp.FindAllStringSubmatch.
      fold matches.
      apply (@MarkdownFacts.collectOptionalDate_built D content matches
               1%nat (le_n 1) matches [] 0 []);
        [reflexivity | lia | exact Hch].
    + clear - Hch. revert Hch. generalize 0.
      induction matches as [|m later IH]; intros lo Hch; [constructor|].
      cbn [chain] in Hch.
      destruct Hch as (a & b & gs & -> & _ & _ & _ & _ & Hlen & Hl).
      cbn [built]. constructor; [|exact (IH b Hl)].
      destruct gs as [|x [|y [|z gs]]]; cbn in Hlen; try lia.
      unfold optionalDateEntry, optionalDateOf. cbv zeta.
      cbn [ReleasedAt regexp.submatchStrings].
      destruct (strings.slice content a b), (strings.slice content x y);
        reflexivity.
  - unfold parseMarkdownChangelogWithDate, regexp.FindAllStringSubmatch.
    fold matches.
    destruct matches as [|m later]; [split; [discriminate | congruence]|].
    split; [discriminate|]. intros _.
    cbn [chain] in Hch.
    destruct Hch as (a & b & gs & -> & _ & _ & _ & _ & Hlen & _).
    destruct gs as [|x [|y [|z gs]]]; cbn in Hlen; try lia.
    cbn [List.map regexp.submatchStrings collectDated].
    destruct (strings.slice content a b), (strings.slice content x y);
      reflexivity.
Qed.

End WithDecoders.

End DatedFacts.

(* ================================================================== *)
(** * Further properties of the code *)

(** X1: [truncateString] panics exactly when [maxLen] is negative (the
    slice [s[:maxLen]] is then out of range); otherwise it returns a string
    of [min(len(s), maxLen)] bytes, so never one longer than [maxLen]. *)
Theorem X1_truncateString_bounds (s : string) (maxLen : Z) :
  match truncateString s maxLen with
  | Some r => 0 <= maxLen /\ strings.len r = Z.min (strings.len s) maxLen
  | None => maxLen < 0
  end.
Proof.
  destruct (truncateString s maxLen) as [r|] eqn:E.
  - exact (TruncateFacts.truncateString_len _ _ E).
  - exact (TruncateFacts.truncateString_None _ _ E).
Qed.

(** X2: what [truncateString] returns is left as it is by a second
    truncation to the same length.  A string that fits is returned
    unchanged; a longer one is cut to a prefix of itself, which for a
    [maxLen] above 3 is [maxLen - 3] bytes long and is followed by the
    marker "...", and for a [maxLen] of at most 3 carries no marker. *)
Theorem X2_truncateString_marks (s : string) (maxLen : Z) :
  match truncateString s maxLen with
  | Some r =>
      truncateString r maxLen = Some r
      /\ (if strings.len s <=? maxLen then r = s
          else if maxLen <=? 3 then strings.HasPrefix s r = true
          else exists head,
                 r = head ++ "..."
                 /\ strings.HasPrefix s head = true
                 /\ strings.len head = maxLen - 3)
  | None => True
  end.
Proof.
  destruct (truncateString s maxLen) as [r|] eqn:E; [|exact I].
  pose proof (TruncateFacts.truncateString_len _ _ E) as [H0 Hlen].
  split.
  - unfold truncateString.
    replace (strings.len r <=? maxLen) with true; [reflexivity|].
    symmetry. apply Z.leb_le. lia.
  - rewrite TruncateFacts.truncateString_cases in E.
    destruct (Z.leb_spec (strings.len s) maxLen) as [H|H];
      [congruence|].
    replace (maxLen <? 0) with false in E by (symmetry; apply Z.ltb_ge; lia).
    destruct (Z.leb_spec maxLen 3) as [H3|H3]; injection E as <-.
    + apply TruncateFacts.HasPrefix_substring.
    + eexists. split; [reflexivity|].
      split; [apply TruncateFacts.HasPrefix_substring|].
      apply TruncateFacts.len_substring0. lia.
Qed.

(** X3: the status table.  For any rows the table loop writes, without a
    panic, the top border, the header, the separator, one line per row in
    order, and the bottom border.  The three borders and the header have 96
    runes each (the newline included); the line of a row has
    [67 + max(10, runes(UpdatedAgo)) + max(19, runes(AvgReleaseFreq))]
    runes, because name, version and previous version are truncated to
    their columns while the last two cells are only padded.  So all lines
    have the same width exactly when those two cells of every row fit
    their columns. *)
Theorem X3_status_table_widths (statusEntries : list statusEntry) :
  exists rowLines,
    printStatusTable statusEntries = Some (Table.framed rowLines)
    /\ List.map utf8.RuneCountInString rowLines
       = List.map Table.rowWidth statusEntries
    /\ Forall (fun line => utf8.RuneCountInString line = 96) (Table.framed [])
    /\ (Forall Table.fits statusEntries
        <-> Forall (fun line => utf8.RuneCountInString line = 96)
              (Table.framed rowLines)).
Proof.
  destruct (TableFacts.printStatusTable_lines statusEntries)
    as (rowLines & E & H).
  exists rowLines. split; [exact E|]. split; [exact H|].
  split; [exact TableFacts.frame_runes|].
  exact (TableFacts.framed_aligned _ _ H).
Qed.

(** X4: the cadence text that [calculateAvgReleaseFreq] returns has at
    most 10 runes, whatever the entries and their order, so it always fits
    the 19 runes of its column in the status table. *)
Theorem X4_cadence_fits (entries : list ChangelogEntry.t) :
  utf8.RuneCountInString (calculateAvgReleaseFreq entries) <= 10
  /\ 10 <= colFreq.
Proof.
  split; [apply CellFacts2.calculateAvgReleaseFreq_fits|].
  unfold colFreq. lia.
Qed.

(** X5: for a time that is not later than the clock, [formatRelativeTime]
    returns a text of at most 10 runes, the width of the "Updated" column
    (the longest is a four-digit number of months, as in "3558mo ago").
    The numbers are those the program takes through [float64]. *)
Theorem X5_updated_ago_fits (t : time.Time) (w : World) (tr : trace) :
  t <= clock w (ticks tr) ->
  exists ago,
    fst (formatRelativeTime t w tr) = Some ago
    /\ utf8.RuneCountInString ago <= colUpdated.
Proof.
  intros H.
  destruct (@CellFacts2.formatRelativeTime_fits t w tr H) as (ago & E & Ha).
  exists ago. rewrite E. split; [reflexivity|]. unfold colUpdated. exact Ha.
Qed.

(** X5 in the small world, on the release of three hours before noon. *)
Lemma X5_updated_ago_fits_witness :
  Sample.nine <= clock Sample.world (ticks (MkTrace [] 0))
  /\ exists ago,
       fst (formatRelativeTime Sample.nine Sample.world (MkTrace [] 0))
       = Some ago
       /\ utf8.RuneCountInString ago <= colUpdated.
Proof.
  assert (H : Sample.nine <= clock Sample.world (ticks (MkTrace [] 0)))
    by (vm_compute; discriminate).
  split; [exact H|].
  exact (@X5_updated_ago_fits Sample.nine Sample.world (MkTrace [] 0) H).
Defined.

(** X6: the status table, end to end.  If no clock reading is earlier
    than the newest entry of a source, then, whatever the order in which
    the goroutines of the registry deliver, [runStatusCommand] without
    [-json] returns and writes, after the warnings, a table whose lines
    (borders, header and one line per row) all have 96 runes: the table is
    aligned. *)
Theorem X6_status_table_aligned (D : Decoders) (w : World)
  (arrival : list (string * Source.t)) (tr : trace) :
  Permutation arrival sources ->
  Clock.notAhead w arrival ->
  exists rows lines tr',
    runStatusCommand arrival false w tr
    = (Some (List.flat_map (Aggregate.warningOf w) arrival
             ++ [StatusTable rows])%list, tr')
    /\ printStatusTable rows = Some lines
    /\ List.length lines = (List.length rows + 4)%nat
    /\ Forall (fun line => utf8.RuneCountInString line = 96) lines.
Proof.
  intros Hperm Hclock.
  destruct (@StatusTableFacts.runStatusCommand_table w arrival tr
              (Orders.reads_arrival Hperm) Hclock)
    as (rows & rowLines & tr' & E & Et & Hlen & Hw).
  exists rows, (Table.framed rowLines), tr'.
  split; [exact E|]. split; [exact Et|]. split; [|exact Hw].
  unfold Table.framed. cbn [app List.length].
  rewrite List.length_app, Hlen. cbn [List.length]. lia.
Qed.

(** X6 in the small world, with the goroutines delivering in the reverse
    order of the registry. *)
Lemma X6_status_table_aligned_witness :
  let D := Sample.decoders in
  Permutation (List.rev sources) sources
  /\ Clock.notAhead Sample.world (List.rev sources)
  /\ exists rows lines tr',
       runStatusCommand (List.rev sources) false Sample.world (MkTrace [] 0)
       = (Some (List.flat_map (Aggregate.warningOf Sample.world)
                  (List.rev sources)
                ++ [StatusTable rows])%list, tr')
       /\ printStatusTable rows = Some lines
       /\ List.length lines = (List.length rows + 4)%nat
       /\ Forall (fun line => utf8.RuneCountInString line = 96) lines.
Proof.
  intros D.
  assert (Hperm : Permutation (List.rev sources) sources)
    by (apply Permutation_sym, Permutation_rev).
  assert (Hclock : Clock.notAhead Sample.world (List.rev sources)).
  { intros named e0 older n Hin Ho.
    change (clock Sample.world n) with Sample.noon.
    cbn [sources List.rev app] in Hin.
    repeat (destruct Hin as [<-|Hin];
            [vm_compute in Ho; try discriminate Ho;
             injection Ho as <- _; vm_compute; discriminate|]).
    destruct Hin. }
  split; [exact Hperm|]. split; [exact Hclock|].
  exact (@X6_status_table_aligned D Sample.world (List.rev sources)
           (MkTrace [] 0) Hperm Hclock).
Defined.

(** X7: every change that [parseChanges] returns is a non-empty string
    without a newline, and the bullet line made of "- " and the change is
    read back as that change. *)
Theorem X7_changes_clean (content : string) :
  Forall (fun change =>
            change <> EmptyString
            /\ Lines.oneLine change
            /\ parseChanges ("- " ++ change) = [change])
    (parseChanges content).
Proof.
  apply Forall_forall. intros change H.
  exact (ChangesFacts.change_clean _ _ H).
Qed.

(** X8: writing and reading back.  For a version without a newline, the
    markdown that [outputMarkdown] (of the single-source program and of the
    first multi-source program) writes for an entry whose changes came out
    of [parseChanges] is read back by [parseChanges] as those changes. *)
Theorem X8_markdown_round_trip (content version : string) :
  Lines.oneLine version ->
  let entry := Legacy.ChangelogEntry.Make version (parseChanges content) in
  parseChanges (Legacy.outputMarkdown entry) = parseChanges content
  /\ parseChanges (CcLatest.outputMarkdown entry) = parseChanges content.
Proof.
  intros Hv entry.
  assert (E : parseChanges (Legacy.outputMarkdown entry) = parseChanges content).
  { unfold entry. rewrite ChangesFacts.outputMarkdown_text.
    rewrite !ChangesFacts.parseChanges_app.
    rewrite ChangesFacts.parseChanges_hash.
    2:{ apply (LineFacts.free_app newline "# " version). split; [|exact Hv].
        repeat constructor; discriminate. }
    rewrite ChangesFacts.parseChanges_bullets; [reflexivity|].
    apply Forall_forall. intros c Hc.
    apply (ChangesFacts.change_clean _ _ Hc). }
  split; exact E.
Qed.

(** X8 on a document with an indented bullet and a line that is none. *)
Lemma X8_markdown_round_trip_witness :
  let content := "Intro" ++ strings.nl ++ "- Fixed bug" ++ strings.nl
                 ++ "  - Added  flag  " ++ strings.nl ++ "-not one" in
  Lines.oneLine "1.2.0"
  /\ parseChanges content = ["Fixed bug"; "Added  flag"]
  /\ parseChanges
       (Legacy.outputMarkdown
          (Legacy.ChangelogEntry.Make "1.2.0" (parseChanges content)))
     = parseChanges content.
Proof.
  intros content.
  assert (H : Lines.oneLine "1.2.0") by (repeat constructor; discriminate).
  split; [exact H|]. split; [vm_compute; reflexivity|].
  exact (proj1 (@X8_markdown_round_trip content "1.2.0" H)).
Defined.

(** X9: the changes of a text are found line by line: those of two texts
    joined by a newline are the changes of the first followed by the
    changes of the second, and the changes of a text are the changes of its
    lines in order. *)
Theorem X9_changes_line_by_line (a b content : string) :
  parseChanges (a ++ strings.nl ++ b)
  = (parseChanges a ++ parseChanges b)%list
  /\ parseChanges content
     = List.flat_map parseChanges (strings.Split content newline).
Proof.
  split.
  - exact (ChangesFacts.parseChanges_app a b).
  - exact (ChangesFacts.parseChanges_lines content).
Qed.

(** X10: grouping loses nothing.  The ungrouped changes that
    [parseReleaseBody] returns, followed by the changes of the sections it
    returns in order, are exactly the flat list that [parseReleaseBody] of
    the first multi-source program returns for the same body: the same
    changes in the same order. *)
Theorem X10_grouping_keeps_changes (body : string) :
  (snd (parseReleaseBody body)
   ++ Flat.changesOf (fst (parseReleaseBody body)))%list
  = Legacy.parseReleaseBody body.
Proof. exact (BodyFacts.parseReleaseBody_flat body). Qed.

(** X11: a release body in which no line is a section header is parsed as
    before: there are no sections, and the ungrouped changes are the list
    of the first multi-source program. *)
Theorem X11_body_without_headers (body : string) :
  Forall (fun line => Flat.isHeader line = false)
    (strings.Split body newline) ->
  parseReleaseBody body = ([], Legacy.parseReleaseBody body).
Proof. exact (@BodyFacts.parseReleaseBody_no_header body). Qed.

Lemma X11_body_without_headers_witness :
  let body := "- Fixed Y" ++ strings.nl ++ "* Added Z" ++ strings.nl
              ++ "- @bot" ++ strings.nl ++ "#hashtag" in
  Forall (fun line => Flat.isHeader line = false)
    (strings.Split body newline)
  /\ parseReleaseBody body = ([], ["Fixed Y"; "Added Z"]).
Proof.
  intros body.
  assert (H : Forall (fun line => Flat.isHeader line = false)
                (strings.Split body newline))
    by (repeat constructor).
  split; [exact H|].
  rewrite (@X11_body_without_headers body H). reflexivity.
Defined.

(** X12: the ungrouped changes are settled by the first line that opens a
    section (a header other than "What's Changed"): whatever follows that
    line, the ungrouped changes of the body are those of the text before
    it. *)
Theorem X12_ungrouped_settled (a h b : string) :
  Lines.oneLine h -> Flat.opensSection h ->
  snd (parseReleaseBody (a ++ strings.nl ++ h ++ strings.nl ++ b))
  = snd (parseReleaseBody a).
Proof. exact (@BodyFacts.ungrouped_settled a h b). Qed.

Lemma X12_ungrouped_settled_witness :
  let a := "- Before" in
  let h := "## TUI" in
  let b := "- After" ++ strings.nl ++ "## What's Changed" ++ strings.nl
           ++ "- Last" in
  Lines.oneLine h /\ Flat.opensSection h
  /\ snd (parseReleaseBody (a ++ strings.nl ++ h ++ strings.nl ++ b))
     = ["Before"].
Proof.
  intros a h b.
  assert (H1 : Lines.oneLine h) by (repeat constructor; discriminate).
  assert (H2 : Flat.opensSection h).
  { eexists. split; [vm_compute; reflexivity | vm_compute; discriminate]. }
  split; [exact H1|]. split; [exact H2|].
  rewrite (@X12_ungrouped_settled a h b H1 H2). reflexivity.
Defined.

(** X13: whatever the body, every change of a release, in the flat list of
    the first multi-source program and among the ungrouped changes and in
    every section of the later one, is a non-empty string without a
    newline that does not start with "@". *)
Theorem X13_release_changes (body : string) :
  let kept := fun change =>
    change <> EmptyString
    /\ strings.HasPrefix change "@" = false
    /\ Lines.oneLine change in
  Forall kept (Legacy.parseReleaseBody body)
  /\ Forall kept (snd (parseReleaseBody body))
  /\ Forall (fun sec => Forall kept (Section_.Changes sec))
       (fst (parseReleaseBody body)).
Proof.
  intros kept. pose proof (BodyFacts.legacy_changes body) as H.
  fold kept in H. split; [exact H|].
  rewrite <- (BodyFacts.parseReleaseBody_flat body) in H.
  apply Forall_app in H as [Hu Hs]. split; [exact Hu|].
  unfold Flat.changesOf in Hs.
  induction (fst (parseReleaseBody body)) as [|sec secs IH]; [constructor|].
  cbn [List.flat_map] in Hs. apply Forall_app in Hs as [H1 H2].
  constructor; [exact H1 | exact (IH H2)].
Qed.

(** X14: the cadence is that of the first ten dated entries.  Entries
    without a timestamp and entries after the tenth dated one do not
    change what [calculateAvgReleaseFreq] returns, and it returns "-"
    exactly when fewer than two entries are dated. *)
Theorem X14_cadence_counts_ten (entries : list ChangelogEntry.t) :
  calculateAvgReleaseFreq entries
  = calculateAvgReleaseFreq (Cadence.counted entries)
  /\ (List.length (Cadence.counted entries) <= 10)%nat
  /\ (calculateAvgReleaseFreq entries = "-"
      <-> (List.length (List.filter Cadence.dated entries) < 2)%nat).
Proof.
  split; [apply CadenceFacts.calculateAvgReleaseFreq_counted|].
  split; [unfold Cadence.counted; apply List.firstn_le_length|].
  rewrite RelativeTimeFacts.calculateAvgReleaseFreq_buckets,
    CadenceFacts.avgInterval_counted. cbv zeta.
  assert (Hlen : (List.length (Cadence.counted entries) < 2)%nat
                 <-> (List.length (List.filter Cadence.dated entries) < 2)%nat).
  { unfold Cadence.counted. rewrite List.length_firstn. lia. }
  destruct (Z.ltb_spec (Z.of_nat (List.length (Cadence.counted entries))) 2)
    as [H|H].
  - split; [intros _; apply Hlen; lia | reflexivity].
  - split; [discriminate | intros H'; apply Hlen in H'; lia].
Qed.

(** X15: when the timestamps of the counted entries lie in a window that
    a [Duration] spans, the intervals between neighbours add up to the
    distance from the first counted entry to the last, so the average is
    that distance divided by the number of intervals: the counted entries
    between the two do not matter, nor does their order.  What is
    returned is what the program writes for that average: the number it
    takes through [float64], which under 2048 hours either way is the
    whole number of units of the bucket. *)
Theorem X15_cadence_is_span (entries : list ChangelogEntry.t)
  (first : ChangelogEntry.t) (rest : list ChangelogEntry.t) :
  Cadence.counted entries = first :: rest ->
  rest <> [] ->
  Cadence.spannable (List.map ReleasedAt (first :: rest)) ->
  let avg := Z.quot (ReleasedAt first - ReleasedAt (List.last rest first))
               (Z.of_nat (List.length rest)) in
  RelativeTime.avgInterval entries = Some avg
  /\ calculateAvgReleaseFreq entries
     = RelativeTime.approxWritten (RelativeTime.cadenceBucket avg) avg
  /\ (- (2048 * time.Hour) < avg < 2048 * time.Hour ->
      calculateAvgReleaseFreq entries
      = RelativeTime.approxText (RelativeTime.cadenceBucket avg) avg).
Proof.
  intros Ec Hrest (lo & Hspan) avg.
  assert (E : RelativeTime.avgInterval entries = Some avg).
  { rewrite CadenceFacts.avgInterval_counted, Ec. cbv zeta.
    destruct rest as [|b rest']; [contradiction|].
    replace (Z.of_nat (List.length (first :: b :: rest')) <? 2) with false
      by (symmetry; apply Z.ltb_ge; cbn [List.length]; lia).
    unfold avg, time.div. f_equal. f_equal.
    - rewrite <- CadenceFacts.wrap_0.
      rewrite (@CadenceFacts.totalDurationOf_telescopes lo first (b :: rest') 0 Hspan).
      apply RelativeTimeFacts.wrap_small.
      assert (Hl : lo <= ReleasedAt (List.last (b :: rest') first)
                   <= lo + time.maxDuration).
      { rewrite Forall_forall in Hspan. apply Hspan. apply in_map.
        destruct (List.exists_last (l := b :: rest') ltac:(discriminate))
          as (l' & x & El).
        rewrite El, List.last_last. right. apply in_or_app. right. left.
        reflexivity. }
      apply Forall_cons_iff in Hspan as [Hf _].
      unfold time.minDuration, time.maxDuration in *. lia.
    - cbn [List.length]. lia. }
  split; [exact E|].
  rewrite RelativeTimeFacts.calculateAvgReleaseFreq_buckets, E.
  split; [reflexivity|]. intros Hs.
  unfold RelativeTime.approxWritten, RelativeTime.approxText.
  rewrite (@RelativeTimeFacts.written_exact _ avg Hs). reflexivity.
Qed.

(** X15 on four entries, one of them without a timestamp: ten hours from
    the first to the last in two intervals, whatever lies between. *)
Lemma X15_cadence_is_span_witness :
  let t0 := 63000000000 * time.Second in
  let first := RelativeTime.dated (t0 + 10 * time.Hour) in
  let rest := [RelativeTime.dated (t0 + 9 * time.Hour); RelativeTime.dated t0] in
  let entries := [first; RelativeTime.dated 0;
                  RelativeTime.dated (t0 + 9 * time.Hour);
                  RelativeTime.dated t0] in
  Cadence.counted entries = first :: rest
  /\ rest <> []
  /\ Cadence.spannable (List.map ReleasedAt (first :: rest))
  /\ calculateAvgReleaseFreq entries = "~5h".
Proof.
  intros t0 first rest entries.
  assert (H1 : Cadence.counted entries = first :: rest) by reflexivity.
  assert (H2 : rest <> []) by discriminate.
  assert (H3 : Cadence.spannable (List.map ReleasedAt (first :: rest))).
  { exists t0. repeat constructor; vm_compute; discriminate. }
  split; [exact H1|]. split; [exact H2|]. split; [exact H3|].
  rewrite (proj1 (proj2 (@X15_cadence_is_span entries first rest H1 H2 H3))).
  vm_compute. reflexivity.
Defined.

(** X16: without [-version] or [--version] among them, the arguments of
    the single-source mode set exactly the flags they name: a flag is set
    when it was set before or one of its two spellings occurs, in any
    position and any number of times, and the version asked for is left as
    it was.  Arguments that are no flags are skipped. *)
Theorem X16_flags_without_version (args : list string) (f : flags) :
  Forall (fun arg => isFlag arg "-version" "--version" = false) args ->
  parseFlags args f
  = Flags (jsonOutput f
           || List.existsb (fun arg => isFlag arg "-json" "--json") args)
          (mdOutput f
           || List.existsb (fun arg => isFlag arg "-md" "--md") args)
          (listVersions f
           || List.existsb (fun arg => isFlag arg "-list" "--list") args)
          (targetVersion f).
Proof. intros H. exact (MainFacts.parseFlags_plain H f). Qed.

Lemma X16_flags_without_version_witness :
  let args := ["--md"; "extra"; "-json"; "--md"] in
  Forall (fun arg => isFlag arg "-version" "--version" = false) args
  /\ parseFlags args (Flags false false false EmptyString)
     = Flags true true false EmptyString.
Proof.
  intros args.
  assert (H : Forall (fun arg => isFlag arg "-version" "--version" = false) args)
    by (repeat constructor).
  split; [exact H|].
  rewrite (@X16_flags_without_version args (Flags false false false EmptyString) H).
  reflexivity.
Defined.

(** X17: unless its first argument is a key of its registry, [main] of
    the first multi-source program returns without a request and without
    a reading of the clock (for it "latest" and "status" are unknown
    sources); so does [main] of the later program unless the first
    argument is such a key, "latest" or "status".  This holds in whatever
    order the registry, a map, is ranged over.  The exit status is 0 for
    the words "-h", "--help", "help", "-v", "--version" and
    "list-sources", and 1, after the error lines, for any other word. *)
Theorem X17_no_fetch_without_source (D : Decoders)
  (arrival : list (string * Source.t))
  (ranged : list (string * Legacy.Source.t))
  (arg0 : string) (args : list string) (w : World) (tr : trace) :
  ~ In arg0 Streams.legacyKeys ->
  let code := if List.existsb (String.eqb arg0) Streams.answered
              then 0 else 1 in
  (exists written,
      LegacyMain.main ranged (arg0 :: args) w tr = (Some (written, code), tr))
  /\ (arg0 <> "latest" -> arg0 <> "status" ->
      exists written,
        main arrival (arg0 :: args) w tr = (Some (written, code), tr)).
Proof.
  intros H code. split.
  - exact (@MainFacts.legacy_main_offline D ranged arg0 args w tr H).
  - intros Hl Hs. apply MainFacts.main_offline.
    intros [E|[E|Hin]]; [apply Hl | apply Hs | apply H]; auto.
Qed.

(** X17 on "list-sources", with the registry ranged over from its last
    key to its first. *)
Lemma X17_no_fetch_without_source_witness :
  let D := Sample.decoders in
  ~ In "list-sources" Streams.legacyKeys
  /\ run (LegacyMain.main (List.rev Legacy.sources) ["list-sources"; "-json"])
       Sample.world
     = (Some (List.map
                (fun named =>
                   Legacy.Stdout
                     ("  " ++ fst named ++ tab
                      ++ Legacy.Source.DisplayName (snd named) ++ strings.nl))
                (List.rev Legacy.sources), 0),
        MkTrace [] 0)
  /\ run (main (List.rev sources) ["list-sources"; "-json"]) Sample.world
     = (Some ([Println ("  copilot" ++ tab ++ "GitHub Copilot CLI");
               Println ("  gemini" ++ tab ++ "Gemini CLI");
               Println ("  opencode" ++ tab ++ "OpenCode");
               Println ("  codex" ++ tab ++ "OpenAI Codex");
               Println ("  claude" ++ tab ++ "Claude Code")], 0),
        MkTrace [] 0).
Proof.
  intros D.
  assert (H : ~ In "list-sources" Streams.legacyKeys).
  { cbn. intros H. repeat (destruct H as [H|H]; [discriminate H|]). exact H. }
  split; [exact H|].
  destruct (@X17_no_fetch_without_source D (List.rev sources)
              (List.rev Legacy.sources) "list-sources" ["-json"]
              Sample.world (MkTrace [] 0) H) as [(written & E) Hlater].
  destruct (Hlater ltac:(discriminate) ltac:(discriminate)) as (written' & E').
  unfold run. rewrite E, E'. split.
  - vm_compute in E. injection E as <-. reflexivity.
  - vm_compute in E'. injection E' as <-. reflexivity.
Defined.


(** X19: "latest" and "status" never fail.  Whatever the world, the
    arguments after the command and the order in which the goroutines
    deliver, [main] returns with exit status 0, also when every fetch
    fails. *)
Theorem X19_aggregates_exit_zero (D : Decoders) (w : World)
  (arrival : list (string * Source.t)) (args : list string) (tr : trace) :
  Permutation arrival sources ->
  (exists written tr',
      main arrival ("latest" :: args) w tr = (Some (written, 0), tr'))
  /\ (exists written tr',
         main arrival ("status" :: args) w tr = (Some (written, 0), tr')).
Proof.
  intros Hperm. pose proof (Orders.reads_arrival Hperm) as Hr. split.
  - destruct (AggregateFacts.runLatestCommand_runs w (wantsJSON args) Hr)
      as (new & H).
    change (main arrival ("latest" :: args) w tr)
      with (bind (runLatestCommand arrival (wantsJSON args))
              (fun written => ret (written, 0)) w tr).
    unfold bind. rewrite (H tr). do 2 eexists. reflexivity.
  - destruct (@StatusFacts.runStatusCommand_returns w arrival (wantsJSON args)
                tr Hr) as (rows & tr' & H & _).
    change (main arrival ("status" :: args) w tr)
      with (bind (runStatusCommand arrival (wantsJSON args))
              (fun written => ret (written, 0)) w tr).
    unfold bind. rewrite H. do 2 eexists. reflexivity.
Qed.

(** X19 in a world where no request gets through. *)
Lemma X19_aggregates_exit_zero_witness :
  let registry := @sources Sample.decoders in
  let offline := MkWorld (fun _ : string => TransportError "no route to host")
                   (fun _ : nat => Sample.noon) in
  Permutation registry registry
  /\ (exists written tr',
         @main Sample.decoders registry ["latest"; "--json"] offline
           (MkTrace [] 0)
         = (Some (written, 0), tr'))
  /\ (exists written tr',
         @main Sample.decoders registry ["status"; "--json"] offline
           (MkTrace [] 0)
         = (Some (written, 0), tr')).
Proof.
  intros registry offline.
  assert (H : Permutation registry registry) by apply Permutation_refl.
  split; [exact H|].
  exact (@X19_aggregates_exit_zero Sample.decoders offline registry ["--json"]
           (MkTrace [] 0) H).
Defined.

(** X20: the markdown of a release, read again.  For a release whose tag
    holds no newline (and whose date is written on one line),
    [outputMarkdown] of the entry that [fetchGitHubReleases] makes of it
    writes a text whose bullets, as [parseChanges] reads them, are the
    changes of the sections in order followed by the ungrouped changes:
    every change of the body that the flat list of the first multi-source
    program holds, once each, with the ungrouped ones moved behind the
    sections. *)
Theorem X20_release_markdown_bullets (D : Decoders) (F : Formatter)
  (rel : Release) :
  let entry := releaseEntry rel in
  Lines.oneLine (TagName rel) ->
  Lines.oneLine (time_Format (ReleasedAt entry) dateLayout) ->
  parseChanges (outputMarkdown entry)
  = (Flat.changesOf (Sections entry) ++ Changes entry)%list
  /\ Permutation (parseChanges (outputMarkdown entry))
       (Legacy.parseReleaseBody (Body rel)).
Proof.
  intros entry Htag Hd.
  destruct (RereadFacts.release_fit (Body rel)) as [Hs Hc].
  assert (E : entry
              = Make (normalizeTag (TagName rel))
                  (parseOrZero RFC3339 (PublishedAt rel)) EmptyString
                  (fst (parseReleaseBody (Body rel)))
                  (snd (parseReleaseBody (Body rel)))).
  { unfold entry, releaseEntry.
    destruct (parseReleaseBody (Body rel)); reflexivity. }
  assert (Eb : parseChanges (outputMarkdown entry)
               = (Flat.changesOf (Sections entry) ++ Changes entry)%list).
  { apply RereadFacts.outputMarkdown_bullets; [| exact Hd | |].
    - rewrite E. cbn [Version]. unfold normalizeTag.
      apply ChangesFacts.free_TrimPrefix, ChangesFacts.free_TrimPrefix.
      exact Htag.
    - rewrite E. exact Hs.
    - rewrite E. exact Hc. }
  split; [exact Eb|]. rewrite Eb, E. cbn [Sections Changes].
  rewrite <- (BodyFacts.parseReleaseBody_flat (Body rel)).
  apply Permutation_app_comm.
Qed.

(** X20 on a release with a change before its first section. *)
Lemma X20_release_markdown_bullets_witness :
  let rel := MkRelease "v1.2.0" "1.2.0"
               ("- Fixed Y" ++ strings.nl ++ "## TUI" ++ strings.nl
                ++ "- Added X" ++ strings.nl ++ "  * Faster Z  ")
               "2026-11-02T11:00:00Z" in
  let entry := @releaseEntry Sample.decoders rel in
  Lines.oneLine (TagName rel)
  /\ Lines.oneLine (@time_Format Days.formatter (ReleasedAt entry) dateLayout)
  /\ Legacy.parseReleaseBody (Body rel) = ["Fixed Y"; "Added X"; "Faster Z"]
  /\ parseChanges (@outputMarkdown Days.formatter entry)
     = ["Added X"; "Faster Z"; "Fixed Y"].
Proof.
  intros rel entry.
  assert (H1 : Lines.oneLine (TagName rel))
    by (repeat constructor; discriminate).
  assert (H2 : Lines.oneLine
                 (@time_Format Days.formatter (ReleasedAt entry) dateLayout))
    by (repeat constructor; discriminate).
  split; [exact H1|]. split; [exact H2|]. split; [vm_compute; reflexivity|].
  unfold entry in *.
  rewrite (proj1 (@X20_release_markdown_bullets Sample.decoders Days.formatter
                    rel H1 H2)).
  vm_compute. reflexivity.
Defined.

(** X21: the latest view does not depend on the order in which the
    goroutines deliver.  When no two of the recent entries of the registry
    have the same timestamp, any two orders of arrival make
    [runLatestCommand] write the same view on standard output; before it
    come the warnings, all on standard error, which are the same in both
    runs but come in the order of arrival. *)
Theorem X21_latest_schedule (D : Decoders) (w : World)
  (first second : list (string * Source.t)) (json : bool) (tr : trace) :
  Permutation first sources ->
  Permutation second sources ->
  NoDup (List.map ReleasedAt
           (List.flat_map
              (Aggregate.recentOf w
                 (time.Add (clock w (ticks tr)) (-24 * time.Hour)))
              sources)) ->
  exists view tr1 tr2,
    runLatestCommand first json w tr
    = (Some (List.flat_map (Aggregate.warningOf w) first ++ view)%list, tr1)
    /\ runLatestCommand second json w tr
       = (Some (List.flat_map (Aggregate.warningOf w) second ++ view)%list,
          tr2)
    /\ Forall Streams.onStdout view
    /\ Forall (fun o => exists line, o = Eprintln line)
         (List.flat_map (Aggregate.warningOf w) first)
    /\ Permutation (List.flat_map (Aggregate.warningOf w) first)
         (List.flat_map (Aggregate.warningOf w) second).
Proof.
  intros H1 H2 Hnd.
  set (cutoff := time.Add (clock w (ticks tr)) (-24 * time.Hour)) in *.
  destruct (AggregateFacts.runLatestCommand_runs w json
              (Orders.reads_arrival H1)) as (new1 & E1).
  destruct (AggregateFacts.runLatestCommand_runs w json
              (Orders.reads_arrival H2)) as (new2 & E2).
  specialize (E1 tr). specialize (E2 tr). cbv zeta in E1, E2.
  fold cutoff in E1, E2.
  assert (Hp : Permutation first second)
    by (eapply perm_trans; [exact H1 | apply Permutation_sym, H2]).
  assert (Es : sort.Slice newerFirst
                 (List.flat_map (Aggregate.recentOf w cutoff) second)
               = sort.Slice newerFirst
                   (List.flat_map (Aggregate.recentOf w cutoff) first)).
  { symmetry. apply ScheduleFacts.Slice_schedule.
    - apply Permutation_flat_map, Hp.
    - apply (Permutation_NoDup
               (Permutation_map ReleasedAt
                  (Permutation_flat_map (Aggregate.recentOf w cutoff)
                     (Permutation_sym H1)))).
      exact Hnd. }
  rewrite Es in E2.
  do 3 eexists. split; [exact E1|]. split; [exact E2|].
  split; [apply ScheduleFacts.latestView_onStdout|].
  split; [apply ScheduleFacts.warnings_stderr|].
  apply Permutation_flat_map, Hp.
Qed.

(** X21 in the small world: the registry in its order and in the reverse
    order. *)
Lemma X21_latest_schedule_witness :
  let D := Sample.decoders in
  let cutoff := time.Add Sample.noon (-24 * time.Hour) in
  Permutation sources sources
  /\ Permutation (List.rev sources) sources
  /\ List.map ReleasedAt
       (List.flat_map (Aggregate.recentOf Sample.world cutoff) sources)
     = [Sample.nine; Sample.eleven]
  /\ exists view tr1 tr2,
       runLatestCommand sources false Sample.world (MkTrace [] 0)
       = (Some (List.flat_map (Aggregate.warningOf Sample.world) sources
                ++ view)%list, tr1)
       /\ runLatestCommand (List.rev sources) false Sample.world
            (MkTrace [] 0)
          = (Some (List.flat_map (Aggregate.warningOf Sample.world)
                     (List.rev sources) ++ view)%list, tr2).
Proof.
  intros D cutoff.
  assert (H1 : Permutation sources sources) by apply Permutation_refl.
  assert (H2 : Permutation (List.rev sources) sources)
    by (apply Permutation_sym, Permutation_rev).
  assert (E : List.map ReleasedAt
                (List.flat_map (Aggregate.recentOf Sample.world cutoff) sources)
              = [Sample.nine; Sample.eleven])
    by (vm_compute; reflexivity).
  assert (Hnd : NoDup
                  (List.map ReleasedAt
                     (List.flat_map
                        (Aggregate.recentOf Sample.world
                           (time.Add
                              (clock Sample.world (ticks (MkTrace [] 0)))
                              (-24 * time.Hour)))
                        sources))).
  { change (time.Add (clock Sample.world (ticks (MkTrace [] 0)))
              (-24 * time.Hour)) with cutoff.
    rewrite E. repeat constructor; cbn; intuition discriminate. }
  split; [exact H1|]. split; [exact H2|]. split; [exact E|].
  destruct (@X21_latest_schedule D Sample.world sources (List.rev sources)
              false (MkTrace [] 0) H1 H2 Hnd)
    as (view & tr1 & tr2 & E1 & E2 & _).
  exists view, tr1, tr2. split; [exact E1 | exact E2].
Defined.

(** X22: [cc-latest], from [flag.Parse()] on, in every world and for all
    values of the flags.  It returns, without a panic, with exit status 0
    or 1, after one request, for the changelog, and after none at all with
    [-h] or [-v].  The status is 1 exactly when, past [-h] and [-v], the
    fetch fails, or the changelog has no entry, or a version is asked for
    (without [-list]) that no entry has; then one line on standard error
    is all that is written.  Otherwise something is written, and all of it
    on standard output unless it is the usage text. *)
Theorem X22_cc_latest_outcome (f : CcLatest.flags) (w : World) (tr : trace) :
  exists written code,
    CcLatest.main f w tr
    = (Some (written, code),
       MkTrace (requests tr
                ++ (if CcLatest.showHelp f || CcLatest.showVersion f
                    then [] else [CcLatest.changelogURL]))%list
         (ticks tr))
    /\ (code = 0 \/ code = 1)
    /\ (code = 1
        <-> CcLatest.showHelp f = false /\ CcLatest.showVersion f = false
            /\ Streams.ccFails w f)
    /\ (if code =? 0
        then written <> []
             /\ (CcLatest.showHelp f = false
                 -> Forall Streams.legacyStdout written)
        else exists msg, written = [Legacy.Stderr msg]).
Proof. exact (CcLatestFacts.main_outcome f w tr). Qed.

(** X23: [aic claude] is [cc-latest].  In every world and for all
    arguments, [main] of the first multi-source program on "claude"
    followed by the arguments does what [cc-latest] does with the flags
    that the arguments set (and neither [-h] nor [-v]): the same request,
    the same text on the same streams and the same exit status, or the
    same panic, in whatever order the registry is ranged over. *)
Theorem X23_aic_claude_is_cc_latest (D : Decoders)
  (ranged : list (string * Legacy.Source.t)) (args : list string)
  (w : World) (tr : trace) :
  let f := parseFlags args (Flags false false false EmptyString) in
  LegacyMain.main ranged ("claude" :: args) w tr
  = CcLatest.main
      (CcLatest.Flags (jsonOutput f) (mdOutput f) (targetVersion f)
         (listVersions f) false false) w tr.
Proof. exact (CcLatestFacts.aic_claude D ranged args w tr). Qed.

(** X24: on a pattern with two groups or more, as those of both markdown
    adapters, [parseMarkdownChangelogWithDate] and
    [parseMarkdownChangelogWithOptionalDate] both return, without a panic,
    entries with the same versions and the same changes; and when
    [time.Parse] rejects the empty string, they return the same entries:
    a header without a date gets the zero time from both. *)
Theorem X24_dated_parsers_agree (D : Decoders) (content : string)
  (versionPattern : regexp.regex) :
  (2 <= regexp.NumSubexp versionPattern)%nat ->
  exists dated optional,
    parseMarkdownChangelogWithDate content versionPattern = Some dated
    /\ parseMarkdownChangelogWithOptionalDate content versionPattern
       = Some optional
    /\ List.map Version dated = List.map Version optional
    /\ List.map Changes dated = List.map Changes optional
    /\ (time_Parse dateLayout EmptyString = None -> dated = optional).
Proof. exact (@DatedFacts.dated_parsers D content versionPattern). Qed.

(** X24 on the pattern of the Claude adapter, which the program gives to
    the parser with the optional date, and the changelog of the small
    world. *)
Lemma X24_dated_parsers_agree_witness :
  (2 <= regexp.NumSubexp patterns.claude)%nat
  /\ @time_Parse Sample.decoders dateLayout EmptyString = None
  /\ exists entries,
       @parseMarkdownChangelogWithDate Sample.decoders
         Sample.claudeChangelog patterns.claude = Some entries
       /\ @parseMarkdownChangelogWithOptionalDate Sample.decoders
            Sample.claudeChangelog patterns.claude = Some entries
       /\ List.map Version entries = ["2.1.0"; "2.0.0"].
Proof.
  assert (H : (2 <= regexp.NumSubexp patterns.claude)%nat)
    by (vm_compute; lia).
  assert (Hp : @time_Parse Sample.decoders dateLayout EmptyString = None)
    by reflexivity.
  split; [exact H|]. split; [exact Hp|].
  destruct (@X24_dated_parsers_agree Sample.decoders Sample.claudeChangelog
              patterns.claude H)
    as (dated & optional & E1 & E2 & _ & _ & Heq).
  exists dated. split; [exact E1|].
  rewrite (Heq Hp). split; [exact E2|].
  vm_compute in E2. injection E2 as <-. reflexivity.
Defined.

(** X25: on a pattern with a single group, [match[2]] is out of range:
    [parseMarkdownChangelogWithDate] panics exactly when the document has
    a match, whereas [parseMarkdownChangelogWithOptionalDate] returns, and
    every entry it returns has the zero time. *)
Theorem X25_one_group_pattern (D : Decoders) (content : string)
  (versionPattern : regexp.regex) :
  regexp.NumSubexp versionPattern = 1%nat ->
  (exists optional,
      parseMarkdownChangelogWithOptionalDate content versionPattern
      = Some optional
      /\ Forall (fun e => ReleasedAt e = time.zero) optional)
  /\ (parseMarkdownChangelogWithDate content versionPattern = None
      <-> regexp.FindAllStringSubmatchIndex versionPattern content <> []).
Proof. exact (@DatedFacts.one_group D content versionPattern). Qed.

(** X25 on the pattern of the first programs and scenario A. *)
Lemma X25_one_group_pattern_witness :
  regexp.NumSubexp patterns.claudeV1 = 1%nat
  /\ @parseMarkdownChangelogWithDate Sample.decoders Markdown.scenarioA
       patterns.claudeV1 = None
  /\ exists optional,
       @parseMarkdownChangelogWithOptionalDate Sample.decoders
         Markdown.scenarioA patterns.claudeV1 = Some optional
       /\ List.map Version optional = ["1.2.0"; "1.1.0"].
Proof.
  assert (H : regexp.NumSubexp patterns.claudeV1 = 1%nat) by reflexivity.
  split; [exact H|].
  destruct (@X25_one_group_pattern Sample.decoders Markdown.scenarioA
              patterns.claudeV1 H) as [(optional & E & _) Hd].
  split.
  - apply Hd. vm_compute. discriminate.
  - exists optional. split; [exact E|].
    vm_compute in E. injection E as <-. reflexivity.
Defined.
